(* ===== verification/_CoqProject ===== *)
-Q . S2P
Prelude.v
Fixed.v
Suite.v
Text.v
Types.v
Json.v
Names.v
Risk.v
Symbol.v
Signing.v
Domain.v
Scenarios.v
Intent.v
DomainSuite.v
Position.v
ValueSuite.v
Crc.v
Format.v
Codec.v
Records.v
Segment.v
Journal.v
Tailer.v
JournalSuite.v
Golden.v
RecordSuite.v
Terminates.v
Book.v
Invariants.v
Venue.v
VenueParse.v
Binance.v
Adapter.v
Stream.v
Sim.v
VenueSuite.v
Guards.v
Engine.v
Trace.v
Safety.v
Runtime.v
WellFormed.v
Control.v
Answers.v
Config.v
Errors.v
Replay.v
Open.v
Boot.v
Typed.v
Process.v
Main.v
Reconcile.v
Acceptance.v
LedgerSuite.v
DaemonSuite.v
Stall.v
Agree.v
