(* ===== verification/Prelude.v ===== *)
(** * Sentinel OMS: a verification development of the Rust core

    Sentinel is an order management system around one idea: the journal is the
    system of record.  A single writer decides on commands, appends what it
    decided to an append-only journal, applies the same record to an in-memory
    book, and releases requests to a trading venue only once the records behind
    them are durable.  This development models the Rust workspace under
    src/rust/crates and proves what that design promises.

    ** Parts of the program and where they are

    Values (crate sentinel-types).
    - Fixed.v: fixed.rs, the [i64]-backed decimals at eight places ([e8]), with
      every overflow written out; Types.v: ids.rs, enums.rs, lib.rs; Text.v: what
      the source uses of the standard library on text.

    The order (crate sentinel-domain).
    - Domain.v: state.rs, event.rs, order.rs, transition.rs, the lifecycle as a
      function on orders and events; Intent.v: intent.rs, product.rs;
      Scenarios.v: scenarios.rs, what the R1 scenarios say of every sequence of
      events.

    The journal (crates sentinel-journal, sentinel-record).
    - Crc.v: crc32c.rs; Format.v: format.rs, segment and frame headers; Codec.v:
      buf.rs; Records.v: record.rs; Segment.v, Names.v: segment.rs and the cursor
      of reader.rs; Journal.v: writer.rs (claim, append, flush, roll, poison);
      Tailer.v, Terminates.v: reader.rs; Golden.v: the pinned journal of
      testdata/journal-golden, which the model writes byte for byte.
    - A file is its bytes, a directory the list of its segments by base sequence.
      The writer has a buffer of bytes not yet written.  A crash ([CrashPoint]) is
      at any byte of what a flush writes: of the buffer ([Writing]), of the header
      of the segment it rolls to ([Rolling]), or before that segment is synced
      ([Unsynced]); what was synced stays.  What the operating system answers to
      a flush is an argument ([FlushIo]).

    The book (crate sentinel-ledger).
    - Position.v: position.rs; Book.v: book.rs, the fold over records with its
      read methods; Invariants.v: invariants.rs, the audit.

    The engine (crate sentinel-engine).
    - Guards.v: guards.rs; Engine.v: engine.rs and command.rs, every handler as
      an action of a state monad over journal, book and timers, so that what a
      handler wrote before an error stays written; Open.v: [Engine::open].

    Venues (crates sentinel-venue, sentinel-risk, sentinel-binance).
    - Venue.v: the [Venue] trait as the type class [Venue]; Sim.v: sim.rs, an
      instance; Risk.v: sizing, brackets and trailing stops.
    - Symbol.v: the venue's grid; Signing.v: the signed query, the clock;
      VenueParse.v: parse.rs and the frames of stream.rs; Binance.v: lib.rs, an
      instance of [Venue] over the classes [Client] (an HTTP client, HMAC, the
      clock of the machine) and [Json] of Json.v; Stream.v: the thread of
      stream.rs over the class [Socket].

    The process (crate sentineld).
    - Runtime.v: runtime.rs, the writer, worker and ticker threads and their
      queues as a step relation over any [Venue]; Control.v: control.rs, the lines
      of the control socket; Config.v: config.rs; Boot.v, Process.v, Main.v:
      main.rs, from the claim of the journal to the exit status; Errors.v: the
      texts of the errors it prints.

    The suites.
    - Acceptance.v, LedgerSuite.v (tests.rs of sentinel-engine and of
      sentinel-ledger): the harnesses and every end-to-end test, translated and
      run on the model; Golden.v: the pinned journal.
    - DomainSuite.v, ValueSuite.v, JournalSuite.v, RecordSuite.v, VenueSuite.v,
      DaemonSuite.v: the unit tests inside the modules, one Module per module of
      the program, with the combinators of Suite.v: a test is a computation that
      panics or ends, and each Module's [*_tests_pass] runs all of them.

    ** What is proved

    - The order of things (Trace.v, Safety.v, Runtime.v): every handler is
      summarised once as the records it appended and the requests it queued
      ([recorded], [run]); from that, a submission leaves only after its intent
      is durable, no id is ever submitted twice, every submission was authorised,
      and the same holds of the three threads under any schedule.
    - The journal and the book are one thing (Journal.v, Replay.v, Open.v): over any
      number of crashes a claim recovers every acknowledged record, except after
      the one crash that no claim survives, in the header of a new segment; while
      the engine runs, its book is the fold of its log ([mirror]), and after a
      crash the next process opens on that fold, unless a cancel was refused;
      Acceptance.v: in any script, reading the directory gives the live book.
      Tailer.v, Terminates.v: a reader sees the
      log in order, and its calls end.  WellFormed.v, Typed.v,
      Process.v: from any bytes on the disk on, with either venue, whatever the
      process holds is a value of its type and what it writes can be read back.
    - The specification of the parts: the lifecycle (Domain.v, Scenarios.v), the
      accounting of positions against exact sums (Position.v, Book.v), the audit
      against what is wrong with a book (Invariants.v), the guards as an exact condition (Guards.v), the codec and
      the checksum against reference definitions (Records.v, Crc.v), sizing
      within its bounds (Risk.v).
    - Reconciliation (Reconcile.v, Stall.v, Agree.v): what an answered lookup
      settles, what a position report leads to, when a question is asked again
      and the case in which it never is, and the agreement of book and venue.
    - The venue (Adapter.v, Stream.v, Answers.v, Process.v): absence has one
      proof, silence is a timeout, a request says what the intent says, the
      stream is delivered in order, a report of positions is row for row what the
      answer holds, every answer is a well-typed command, and a process told to
      use the demo venue never hands its libraries an address of the real one.
      Main.v: a program told to use real money has said so, whatever becomes of
      it.

    Where the code does not do what it says, the theorem or example states what
    it does: [refused_cancel_breaks_the_log], [lost_lookup_never_retried],
    [untraced_order_blocks_boot], [nul_in_id_breaks_the_log],
    [refused_order_sent_twice] and others.

    ** How the library is used

    This file is the prelude: the [result] type, the state monad [ST] with its
    rules, machine integers, booleans reflected by [z_reflect], and the tactics
    [case_bool], [bind_step] and friends.  Type classes are the interfaces:
    [WireEnum] with [WireEnumLaws] (every closed vocabulary), [Json] with
    [JsonLaws], [Venue], [TypedVenue] (what a venue promises about its answers),
    [Client], [Socket]; a client's theorems use the class only.  Preservation is
    proved compositionally with one rule per monadic construct: [recorded] and
    [kept] for engine handlers, [framed] for calls of the adapter and turns of
    the stream ([Frame], [ThreadFrame]), [yields] for the reads of the decoder,
    with hint databases that do the common cases.

    ** Integers, bounds and fuel

    Machine integers are [Z] with their width written out where the code checks,
    saturates, wraps or panics: an overflow is an [Err], a saturated value, or a
    panic as the code has it.  Recursion that is not structural takes fuel: the
    tailer's calls and the boot take a number of steps and of accesses, and
    Terminates.v and Open.v prove a bound from the bytes of the directory above
    which the result does not run out; decimal rendering takes one digit per bit,
    which is more than the digits there are.  The stream of the simulator, the
    batches of the writer and the interleavings of threads are unbounded.

    ** Parameters

    Code outside the repository is an argument: serde_json ([Json]), ureq and
    HMAC-SHA256 ([Client]), tungstenite and the monotonic clock ([Socket]), the
    answers of the file system ([FlushIo], the worlds of Tailer.v) and the
    environment ([Env]).  Each theorem over them has a witness on a concrete one.

    ** Not modelled

    - Sleeps, the length of timeouts, thread scheduling policy and memory ordering:
      a thread may take any turn at any time.  The advisory lock on a journal is a
      flag of the claim.
    - A crash inside a claim has no crash points of its own: it can leave a torn
      tail already cut, a part of the claim's own record, which is again a torn
      tail, or a first segment without its header, which is the torn header of
      [torn_segment_header_blocks_claim].
    - What the HTTP and socket libraries do with an address handed to them, such
      as following a redirect.
    - The socket file and the signals themselves: binding, accepting and
      registering are answers of the operating system ([Os], [Accepted] of
      Main.v), and the wait of [main] is the list of what its looks find.
    - Unicode case mapping: [to_lowercase] is modelled on ASCII text, which the
      names it is used on are.
    - The two example programs (verify.rs, group_commit.rs) print what the
      modelled functions return.  Of the unit tests: two that ask the compiler
      whether a type is Copy, the one that reads the wall clock, the published
      vector of HMAC-SHA256, the timeout of the HTTP client and the drop of a
      stream handle.
    - src/go (gateway, projector and strategies, readers of the journal) and
      src/src/sentinel (the Python system the core replaced): other languages. *)

From stdpp Require Export base gmap strings list list_numbers fin_maps sorting.
From Stdlib Require Export ZArith Lia.
From coqutil Require Export Word.LittleEndianList.
From coqutil Require Import Byte.

#[global] Set Default Goal Selector "1".
#[global] Open Scope Z_scope.

(** ** Results and the state monad of the handlers *)

(** [core::result::Result]: an error carried as a value. *)
Inductive result (E A : Type) : Type :=
| Ok (a : A)
| Err (e : E).
Arguments Ok {E A} a.
Arguments Err {E A} e.

#[export] Instance result_ret {E} : MRet (result E) := λ A a, Ok a.
#[export] Instance result_bind {E} : MBind (result E) := λ A B f m,
  match m with Ok a => f a | Err e => Err e end.
#[export] Instance result_fmap {E} : FMap (result E) := λ A B f m,
  match m with Ok a => Ok (f a) | Err e => Err e end.

#[export] Instance result_eq_dec {E A} `{EqDecision E, EqDecision A} :
  EqDecision (result E A).
Proof. solve_decision. Defined.

(** [Result::map_err]. *)
Definition map_err {E F A} (f : E → F) (m : result E A) : result F A :=
  match m with Ok a => Ok a | Err e => Err (f e) end.

(** [Option::ok_or]. *)
Definition ok_or {E A} (m : option A) (e : E) : result E A :=
  match m with Some a => Ok a | None => Err e end.

(** [Result::ok]. *)
Definition ok {E A} (m : result E A) : option A :=
  match m with Ok a => Some a | Err _ => None end.

(** [Result::unwrap_or] and [unwrap_or_default]. *)
Definition unwrap_or {E A} (m : result E A) (d : A) : A :=
  match m with Ok a => a | Err _ => d end.

Lemma result_bind_Ok {E A B} (m : result E A) (f : A → result E B) b :
  m ≫= f = Ok b → ∃ a, m = Ok a ∧ f a = Ok b.
Proof. destruct m; [eauto|done]. Qed.

Lemma ok_or_is_Ok {E A} (m : option A) (e : E) a : ok_or m e = Ok a → m = Some a.
Proof. destruct m; [by intros [= ->]|done]. Qed.

Lemma map_err_is_Ok {E F A} (f : E → F) (m : result E A) a : map_err f m = Ok a → m = Ok a.
Proof. destruct m; [by intros [= ->]|done]. Qed.

(** The first [?] of a function that returned [Ok]. *)
Ltac bind_step H a E :=
  apply result_bind_Ok in H as (a & E & H);
  try apply ok_or_is_Ok in E; try apply map_err_is_Ok in E.

(** A method on [&mut self] that returns a [Result]: what it did to the state
    stays done when it returns an error. *)
Definition ST (S E A : Type) : Type := S → S * result E A.

#[export] Instance ST_ret {S E} : MRet (ST S E) := λ A a s, (s, Ok a).
#[export] Instance ST_bind {S E} : MBind (ST S E) := λ A B f m s,
  match m s with
  | (s', Ok a) => f a s'
  | (s', Err e) => (s', Err e)
  end.

Definition st_get {S E A} (f : S → A) : ST S E A := λ s, (s, Ok (f s)).
Definition st_modify {S E} (f : S → S) : ST S E unit := λ s, (f s, Ok tt).
Definition st_lift {S E A} (m : result E A) : ST S E A := λ s, (s, m).
Definition st_fail {S E A} (e : E) : ST S E A := λ s, (s, Err e).

Lemma st_bind_Ok {S E A B} (m : ST S E A) (f : A → ST S E B) s s' b :
  (m ≫= f) s = (s', Ok b) ↔ ∃ s1 a, m s = (s1, Ok a) ∧ f a s1 = (s', Ok b).
Proof.
  unfold mbind, ST_bind. destruct (m s) as [s1 [a|e]]; naive_solver.
Qed.

Lemma st_lift_Ok {S E A} (m : result E A) (s s' : S) a :
  st_lift m s = (s', Ok a) ↔ s' = s ∧ m = Ok a.
Proof. unfold st_lift. naive_solver. Qed.

Lemma st_get_Ok {S E A} (f : S → A) (s s' : S) a :
  st_get (E:=E) f s = (s', Ok a) ↔ s' = s ∧ a = f s.
Proof. unfold st_get. naive_solver. Qed.

Lemma st_modify_Ok {S E} (f : S → S) (s s' : S) u :
  st_modify (E:=E) f s = (s', Ok u) ↔ s' = f s ∧ u = tt.
Proof. unfold st_modify. destruct u. naive_solver. Qed.

Lemma st_ret_Ok {S E A} (a b : A) (s s' : S) :
  (mret a : ST S E A) s = (s', Ok b) ↔ s' = s ∧ b = a.
Proof. unfold mret, ST_ret. naive_solver. Qed.

(** One primitive of a successful run, as equations. *)
Ltac st_prim H :=
  lazymatch type of H with
  | st_lift _ _ = _ => apply st_lift_Ok in H as [-> H]
  | st_get _ _ = _ => apply st_get_Ok in H as [-> ->]
  | st_modify _ _ = _ => apply st_modify_Ok in H as [-> _]
  | mret _ _ = _ => apply st_ret_Ok in H as [-> ?]
  | _ => idtac
  end.

(** Unfolds a successful run of a state-monad block into its steps. *)
Ltac st_steps H :=
  repeat (lazymatch type of H with
    | mbind _ _ _ = (_, Ok _) =>
        let s := fresh "s" in let a := fresh "a" in let H1 := fresh "Hs" in
        apply st_bind_Ok in H as (s & a & H1 & H); st_prim H1; cbv beta in H
    end);
  st_prim H.

(** ** Machine integers *)

Definition i64_min : Z := -9223372036854775808.
Definition i64_max : Z := 9223372036854775807.
Definition u64_max : Z := 18446744073709551615.
Definition u32_max : Z := 4294967295.

Definition in_i64 (z : Z) : Prop := i64_min ≤ z ≤ i64_max.
Definition in_u64 (z : Z) : Prop := 0 ≤ z ≤ u64_max.

(** The same ranges as the tests the narrowing conversions perform. *)
Definition fits_i64 (z : Z) : bool := (i64_min <=? z) && (z <=? i64_max).
Definition fits_u64 (z : Z) : bool := (0 <=? z) && (z <=? u64_max).

(** [i64::try_from]. *)
Definition i64_try_from (z : Z) : option Z := if fits_i64 z then Some z else None.

(** [i64::checked_add], [checked_sub], [checked_mul]. *)
Definition i64_checked (z : Z) : option Z := if fits_i64 z then Some z else None.

(** [i64::saturating_add], [saturating_sub], [saturating_mul]. *)
Definition i64_saturate (z : Z) : Z := Z.max i64_min (Z.min i64_max z).

(** [u64::saturating_add], [saturating_sub], [saturating_mul]. *)
Definition u64_saturate (z : Z) : Z := Z.max 0 (Z.min u64_max z).

(** The values literals of the ranges, for [lia]. *)
Ltac unfold_ranges :=
  unfold in_i64, in_u64, fits_i64, fits_u64, i64_checked, i64_try_from,
    i64_saturate, u64_saturate, i64_min, i64_max, u64_max, u32_max in *.

Lemma fits_i64_spec z : fits_i64 z = true ↔ in_i64 z.
Proof. unfold_ranges. lia. Qed.

Lemma fits_i64_false z : fits_i64 z = false ↔ ¬ in_i64 z.
Proof. unfold_ranges. lia. Qed.

Lemma i64_checked_Some z v : i64_checked z = Some v ↔ v = z ∧ in_i64 z.
Proof.
  unfold i64_checked. destruct (fits_i64 z) eqn:E.
  - apply fits_i64_spec in E. naive_solver.
  - apply fits_i64_false in E. naive_solver.
Qed.

Lemma i64_checked_None z : i64_checked z = None ↔ ¬ in_i64 z.
Proof.
  unfold i64_checked. destruct (fits_i64 z) eqn:E.
  - apply fits_i64_spec in E. naive_solver.
  - apply fits_i64_false in E. naive_solver.
Qed.

Lemma i64_checked_in z : in_i64 z → i64_checked z = Some z.
Proof. intros. by apply i64_checked_Some. Qed.

Lemma i64_saturate_in z : in_i64 z → i64_saturate z = z.
Proof. unfold_ranges. lia. Qed.

Lemma i64_saturate_range z : in_i64 (i64_saturate z).
Proof. unfold_ranges. lia. Qed.

Lemma u64_saturate_in z : in_u64 z → u64_saturate z = z.
Proof. unfold_ranges. lia. Qed.

(** The product of two [i64] values fits in [i128], so the widened
    multiplications of the code are exact. *)
Lemma i128_product_exact a b :
  in_i64 a → in_i64 b → - 2 ^ 127 ≤ a * b < 2 ^ 127.
Proof. unfold_ranges. nia. Qed.

(** ** Proof automation *)

Create HintDb sentinel.
#[export] Hint Resolve i64_saturate_range : sentinel.
#[export] Hint Rewrite i64_checked_in i64_saturate_in u64_saturate_in
  using (unfold_ranges; lia) : sentinel.

(** Case analysis on the booleans a function of the model branches on. *)
Ltac case_bool :=
  match goal with
  | |- context [if ?b then _ else _] => destruct b eqn:?
  | H : context [if ?b then _ else _] |- _ => destruct b eqn:?
  end.

Ltac case_bool_in H :=
  match type of H with
  | context [if ?b then _ else _] => destruct b eqn:?
  end.

(** Case analysis on every [match] of the hypothesis, innermost scrutinee
    first, clearing the branches that contradict it. *)
Ltac case_hyp H :=
  repeat (match type of H with
          | context [match ?x with _ => _ end] =>
              lazymatch x with
              | context [match _ with _ => _ end] => fail
              | _ => destruct x eqn:?; try discriminate H
              end
          end);
  simplify_eq.

(** The same on the goal. *)
Ltac case_goal :=
  repeat match goal with
         | |- context [match ?x with _ => _ end] =>
             lazymatch x with
             | context [match _ with _ => _ end] => fail
             | _ => destruct x eqn:?; simplify_eq/=
             end
         end.

(** Boolean comparisons of [Z] as propositions. *)
Ltac z_reflect :=
  repeat match goal with
         | H : (_ <=? _) = true |- _ => apply Z.leb_le in H
         | H : (_ <=? _) = false |- _ => apply Z.leb_gt in H
         | H : (_ <? _) = true |- _ => apply Z.ltb_lt in H
         | H : (_ <? _) = false |- _ => apply Z.ltb_ge in H
         | H : (_ =? _) = true |- _ => apply Z.eqb_eq in H
         | H : (_ =? _) = false |- _ => apply Z.eqb_neq in H
         | H : negb _ = true |- _ => apply negb_true_iff in H
         | H : negb _ = false |- _ => apply negb_false_iff in H
         | H : _ && _ = true |- _ => apply andb_true_iff in H as [? ?]
         | H : _ || _ = false |- _ => apply orb_false_iff in H as [? ?]
         | H : bool_decide _ = true |- _ => apply bool_decide_eq_true in H
         | H : bool_decide _ = false |- _ => apply bool_decide_eq_false in H
         end.

(** ** Bytes and text *)

Abbreviation byte := (Init.Byte.byte : Type).

#[export] Instance byte_eq_dec : EqDecision byte := Byte.byte_eq_dec.
#[export] Program Instance byte_countable : Countable byte :=
  inj_countable Byte.to_N Byte.of_N _.
Next Obligation. intros b. apply Byte.of_to_N. Qed.

(** The value of a byte, and the byte of a value modulo 256. *)
Definition b2z (b : byte) : Z := byte.unsigned b.
Definition z2b (z : Z) : byte := byte.of_Z z.

Lemma b2z_range b : 0 ≤ b2z b < 256.
Proof. apply (byte.unsigned_range b). Qed.

Lemma b2z_z2b z : 0 ≤ z < 256 → b2z (z2b z) = z.
Proof.
  intros. unfold b2z, z2b. rewrite byte.unsigned_of_Z. unfold byte.wrap.
  by rewrite Z.mod_small.
Qed.

Lemma z2b_b2z b : z2b (b2z b) = b.
Proof.
  apply byte.unsigned_inj. change (b2z (z2b (b2z b)) = b2z b).
  apply b2z_z2b, b2z_range.
Qed.

Lemma b2z_inj a b : b2z a = b2z b → a = b.
Proof. apply byte.unsigned_inj. Qed.

(** The bytes of a string literal of the source. *)
Definition str (s : string) : list byte := String.list_byte_of_string s.

(** Lexicographic order on byte sequences, the order [derive(Ord)] gives
    arrays of [u8]. *)
Fixpoint bytes_leb (a b : list byte) : bool :=
  match a, b with
  | [], _ => true
  | _ :: _, [] => false
  | x :: a', y :: b' =>
      if b2z x <? b2z y then true
      else if b2z y <? b2z x then false
      else bytes_leb a' b'
  end.

Lemma bytes_leb_total a b : bytes_leb a b = true ∨ bytes_leb b a = true.
Proof.
  revert b. induction a as [|x a IH]; intros [|y b]; simpl; auto.
  destruct (Z.ltb_spec (b2z x) (b2z y)); auto.
  destruct (Z.ltb_spec (b2z y) (b2z x)); auto.
Qed.

Lemma bytes_leb_trans a b c :
  bytes_leb a b = true → bytes_leb b c = true → bytes_leb a c = true.
Proof.
  revert b c. induction a as [|x a IH]; intros [|y b] [|z c]; simpl; auto; try done.
  destruct (Z.ltb_spec (b2z x) (b2z y)), (Z.ltb_spec (b2z y) (b2z x)),
    (Z.ltb_spec (b2z y) (b2z z)), (Z.ltb_spec (b2z z) (b2z y)),
    (Z.ltb_spec (b2z x) (b2z z)), (Z.ltb_spec (b2z z) (b2z x));
    try done; try lia; eauto.
Qed.

Lemma bytes_leb_antisymm a b :
  bytes_leb a b = true → bytes_leb b a = true → a = b.
Proof.
  revert b. induction a as [|x a IH]; intros [|y b]; simpl; auto; try done.
  destruct (Z.ltb_spec (b2z x) (b2z y)), (Z.ltb_spec (b2z y) (b2z x));
    try done; try lia.
  intros. f_equal; [apply b2z_inj; lia | auto].
Qed.

(** ** Little-endian integers *)

(** [to_le_bytes] at [n] bytes, and [from_le_bytes]. *)
Definition le_bytes (n : nat) (z : Z) : list byte := le_split n z.
Definition from_le (l : list byte) : Z := le_combine l.

(** [from_le_bytes] of a signed type: the two's complement reading. *)
Definition from_le_signed (l : list byte) : Z :=
  let v := from_le l in
  let w := 2 ^ (8 * Z.of_nat (length l)) in
  if v <? w / 2 then v else v - w.

Lemma length_le_bytes n z : length (le_bytes n z) = n.
Proof. apply length_le_split. Qed.

Lemma from_le_bytes n z :
  0 ≤ z < 2 ^ (8 * Z.of_nat n) → from_le (le_bytes n z) = z.
Proof.
  intros. unfold from_le, le_bytes. rewrite le_combine_split.
  apply Z.mod_small. by rewrite Z.mul_comm.
Qed.

Lemma from_le_range l : 0 ≤ from_le l < 2 ^ (8 * Z.of_nat (length l)).
Proof. apply le_combine_bound. Qed.

Lemma le_bytes_from l n : length l = n → le_bytes n (from_le l) = l.
Proof. intros <-. apply split_le_combine. Qed.

Lemma from_le_signed_bytes n z :
  (0 < n)%nat →
  - 2 ^ (8 * Z.of_nat n - 1) ≤ z < 2 ^ (8 * Z.of_nat n - 1) →
  from_le_signed (le_bytes n z) = z.
Proof.
  intros Hn Hz. unfold from_le_signed, from_le, le_bytes.
  rewrite le_combine_split, length_le_split, (Z.mul_comm _ 8).
  set (k := 8 * Z.of_nat n) in *.
  assert (2 ^ k = 2 * 2 ^ (k - 1)) as Hk.
  { rewrite <-Z.pow_succ_r by lia. f_equal. lia. }
  assert (0 < 2 ^ (k - 1)) by (apply Z.pow_pos_nonneg; lia).
  rewrite Hk, (Z.mul_comm 2), Z.div_mul by lia.
  destruct (decide (0 ≤ z)).
  - rewrite Z.mod_small by lia. destruct (Z.ltb_spec z (2 ^ (k - 1))); lia.
  - rewrite <-(Z_mod_plus_full z 1), Z.mod_small by lia.
    case_match eqn:E; z_reflect; lia.
Qed.

(** ** Lists *)

(** [flatten] on an iterator of options: [list_omap id]. *)
Definition flatten {A} (l : list (option A)) : list A := omap id l.

(** [Iterator::find]. *)
Fixpoint find {A} (p : A → bool) (l : list A) : option A :=
  match l with
  | [] => None
  | x :: l' => if p x then Some x else find p l'
  end.

Lemma find_Some {A} (p : A → bool) l x : find p l = Some x → x ∈ l ∧ p x = true.
Proof.
  induction l as [|y l IH]; simpl; [done|]. case_bool.
  - intros [= ->]. split; [left | done].
  - intros H. apply IH in H as [? ?]. split; [by right | done].
Qed.

Lemma find_None {A} (p : A → bool) l x : find p l = None → x ∈ l → p x = false.
Proof.
  induction l as [|y l IH]; simpl; [by intros _ ?%elem_of_nil|].
  case_bool; [done|]. intros H [->|?]%elem_of_cons; auto.
Qed.

(** Sums of a list of integers. *)
Definition zsum (l : list Z) : Z := foldr Z.add 0 l.

Lemma zsum_app a b : zsum (a ++ b) = zsum a + zsum b.
Proof. induction a; simpl; lia. Qed.

Lemma zsum_perm a b : a ≡ₚ b → zsum a = zsum b.
Proof. induction 1; simpl; lia. Qed.

Lemma zsum_nonneg l : Forall (λ z, 0 ≤ z) l → 0 ≤ zsum l.
Proof. induction 1; simpl; lia. Qed.

(** Sum over the values of a finite map. *)
Definition map_zsum `{Countable K} {A} (f : A → Z) (m : gmap K A) : Z :=
  zsum (f ∘ snd <$> map_to_list m).

Lemma map_zsum_empty `{Countable K} {A} (f : A → Z) :
  map_zsum f (∅ : gmap K A) = 0.
Proof. unfold map_zsum. by rewrite map_to_list_empty. Qed.

Lemma map_zsum_insert `{Countable K} {A} (f : A → Z) (m : gmap K A) k x :
  m !! k = None → map_zsum f (<[k := x]> m) = f x + map_zsum f m.
Proof.
  intros Hk. unfold map_zsum.
  by rewrite (zsum_perm _ _ (fmap_Permutation (f ∘ snd) _ _ (map_to_list_insert m k x Hk))).
Qed.

(** *** Sums indexed by a list *)

Lemma zsum_fmap_cons {A} (f : A → Z) x l : zsum (f <$> x :: l) = f x + zsum (f <$> l).
Proof. done. Qed.

Lemma zsum_ext {A} (f g : A → Z) l :
  (∀ x, x ∈ l → f x = g x) → zsum (f <$> l) = zsum (g <$> l).
Proof.
  intros H. induction l as [|x l IH]; [done|]. rewrite !zsum_fmap_cons.
  rewrite H by (by left). f_equal. apply IH. intros y Hy. apply H. by right.
Qed.

Lemma zsum_add {A} (f g : A → Z) l :
  zsum ((λ x, f x + g x) <$> l) = zsum (f <$> l) + zsum (g <$> l).
Proof. induction l as [|x l IH]; [done|]. rewrite ?zsum_fmap_cons in *. lia. Qed.

Lemma zsum_scale {A} (a : Z) (f : A → Z) l : zsum ((λ x, a * f x) <$> l) = a * zsum (f <$> l).
Proof. induction l as [|x l IH]; [simpl; lia|]. rewrite !zsum_fmap_cons. lia. Qed.

Lemma zsum_zero {A} (l : list A) : zsum ((λ _, 0) <$> l) = 0.
Proof. by induction l. Qed.

Lemma zsum_swap {A B} (f : A → B → Z) la lb :
  zsum ((λ a, zsum (f a <$> lb)) <$> la) = zsum ((λ b, zsum ((λ a, f a b) <$> la)) <$> lb).
Proof.
  induction la as [|a la IH]; [exact (eq_sym (zsum_zero lb))|].
  rewrite zsum_fmap_cons, IH. symmetry. apply zsum_add.
Qed.

Lemma zsum_only `{EqDecision A} (l : list A) c z :
  NoDup l → c ∈ l → zsum ((λ x, if decide (x = c) then z else 0) <$> l) = z.
Proof.
  intros Hn. induction Hn as [|x l Hx Hn IH]; [by intros ?%elem_of_nil|].
  rewrite !zsum_fmap_cons. intros [->|Hc]%elem_of_cons.
  - rewrite decide_True by done. rewrite (zsum_ext _ (λ _, 0)), zsum_zero; [lia|].
    intros y Hy. apply decide_False. by intros ->.
  - rewrite decide_False by (by intros ->). rewrite IH by done. lia.
Qed.

(** A sum over a map, indexed by any list of keys that has all of its own. *)
Lemma map_zsum_over `{Countable K} {A} (f : A → Z) (m : gmap K A) l :
  NoDup l → (∀ k, is_Some (m !! k) → k ∈ l) →
  map_zsum f m = zsum ((λ k, match m !! k with Some x => f x | None => 0 end) <$> l).
Proof.
  intros Hn. induction m as [|k x m Hk IH] using map_ind; intros Hl.
  - rewrite map_zsum_empty. symmetry. rewrite (zsum_ext _ (λ _, 0)); [apply zsum_zero|].
    intros k _. by rewrite lookup_empty.
  - rewrite map_zsum_insert, IH by
      (try done; intros k' Hk'; apply Hl; rewrite lookup_insert_is_Some'; by right).
    rewrite <-(zsum_only l k (f x)) at 1 by (try done; apply Hl; rewrite lookup_insert_eq; eauto).
    rewrite <-zsum_add. apply zsum_ext. intros j _. case_decide as Ej.
    + subst j. rewrite lookup_insert_eq, Hk. lia.
    + by rewrite lookup_insert_ne.
Qed.

Lemma map_zsum_ext `{Countable K} {A} (f g : A → Z) (m : gmap K A) :
  (∀ k x, m !! k = Some x → f x = g x) → map_zsum f m = map_zsum g m.
Proof.
  intros H1. unfold map_zsum. apply zsum_ext. intros [k x] Hin. simpl.
  apply (H1 k). by apply elem_of_map_to_list.
Qed.

(** Replacing one value moves the sum by the difference. *)
Lemma map_zsum_update `{Countable K} {A} (f : A → Z) (m : gmap K A) k x y :
  m !! k = Some x → map_zsum f (<[k := y]> m) = map_zsum f m - f x + f y.
Proof.
  intros Hk. rewrite <-(insert_delete_id m k x Hk) at 2. rewrite <-insert_delete_eq.
  rewrite !map_zsum_insert by apply lookup_delete_eq. lia.
Qed.
