(* ===== verification/Fixed.v ===== *)
(** * Fixed point at 1e8 (sentinel-types/src/fixed.rs)

    [Price], [Qty] and [Money] are one family of newtypes over raw 1e8 units,
    as the [e8_newtype!] macro declares them, indexed by what they measure so
    that they stay distinct types.  Parsing and rendering follow the source
    character by character; [decimal] is the reference meaning of a decimal
    string they are proved against. *)

From S2P Require Import Prelude.

(** ** Constants and errors *)

Definition SCALE : Z := 100000000.
Definition SCALE_DIGITS : nat := 8.

Inductive ParseError := Empty | Malformed | TooPrecise | OutOfRange.

#[export] Instance ParseError_eq_dec : EqDecision ParseError.
Proof. solve_decision. Defined.

Inductive Overflow := overflow.

Definition MAX_MAGNITUDE : Z := i64_max + 1.
Definition MAX_WHOLE : Z := 92233720368.

(** ** Parsing *)

Definition ch_minus : byte := Byte.x2d.
Definition ch_plus : byte := Byte.x2b.
Definition ch_point : byte := Byte.x2e.
Definition ch_zero : byte := Byte.x30.

(** [u8::is_ascii_digit], and [d - b'0']. *)
Definition is_ascii_digit (b : byte) : bool := (48 <=? b2z b) && (b2z b <=? 57).
Definition digit_value (b : byte) : Z := b2z b - 48.

(** The loop over the integral part: the magnitude in whole units, whether a
    digit was seen, and the text from the point on. *)
Fixpoint parse_whole (b : list byte) (magnitude : Z) (seen_digit : bool) :
    result ParseError (Z * bool * list byte) :=
  match b with
  | [] => Ok (magnitude, seen_digit, [])
  | d :: b' =>
      if bool_decide (d = ch_point) then Ok (magnitude, seen_digit, b)
      else if negb (is_ascii_digit d) then Err Malformed
      else
        let magnitude := magnitude * 10 + digit_value d in
        if MAX_WHOLE <? magnitude then Err OutOfRange
        else parse_whole b' magnitude true
  end.

(** The loop over the fractional part, after the point. *)
Fixpoint parse_frac (b : list byte) (place : Z) (digits : nat) (magnitude : Z)
    (seen_digit : bool) : result ParseError (nat * Z * bool) :=
  match b with
  | [] => Ok (digits, magnitude, seen_digit)
  | d :: b' =>
      if negb (is_ascii_digit d) then Err Malformed
      else
        let digits := S digits in
        if (SCALE_DIGITS <? digits)%nat then
          if negb (bool_decide (d = ch_zero)) then Err TooPrecise
          else parse_frac b' place digits magnitude seen_digit
        else
          let place := Z.quot place 10 in
          parse_frac b' place digits (magnitude + digit_value d * place) true
  end.

(** The sign, applied once at the end to the unsigned magnitude. *)
Definition parse_finish (negative : bool) (magnitude : Z) (seen_digit : bool) :
    result ParseError Z :=
  if negb seen_digit then Err Empty
  else if negative then
    if MAX_MAGNITUDE <? magnitude then Err OutOfRange else Ok (- magnitude)
  else
    if i64_max <? magnitude then Err OutOfRange else Ok magnitude.

(** Everything after the sign. *)
Definition parse_unsigned (negative : bool) (b : list byte) : result ParseError Z :=
  '(whole, seen_digit, rest) ← parse_whole b 0 false;
  let magnitude := whole * SCALE in
  match rest with
  | [] => parse_finish negative magnitude seen_digit
  | _ :: frac =>
      '(digits, magnitude, seen_digit) ← parse_frac frac SCALE 0 magnitude seen_digit;
      if Nat.eqb digits 0 then Err Malformed
      else parse_finish negative magnitude seen_digit
  end.

Definition parse_e8 (b : list byte) : result ParseError Z :=
  match b with
  | [] => Err Empty
  | c :: b' =>
      let '(negative, b) :=
        if bool_decide (c = ch_minus) then (true, b')
        else if bool_decide (c = ch_plus) then (false, b')
        else (false, b) in
      match b with
      | [] => Err Empty
      | _ => parse_unsigned negative b
      end
  end.

(** ** Rendering *)

(** Decimal digits of a non-negative integer, as [write!("{}")] prints an
    unsigned integer. [fuel] bounds the number of digits. *)
Fixpoint dec_digits (fuel : nat) (n : Z) (acc : list byte) : list byte :=
  match fuel with
  | O => acc
  | S fuel' =>
      let acc' := z2b (48 + n mod 10) :: acc in
      if n / 10 =? 0 then acc' else dec_digits fuel' (n / 10) acc'
  end.

(** One digit per bit is always enough. *)
Definition dec (n : Z) : list byte := dec_digits (S (Z.to_nat (Z.log2 n))) n [].

(** [{n:0width$}]. *)
Definition zero_pad (width : nat) (s : list byte) : list byte :=
  replicate (width - length s) ch_zero ++ s.

(** [while s.ends_with('0') { s.pop(); }]. *)
Fixpoint trim_zeros (s : list byte) : list byte :=
  match s with
  | [] => []
  | c :: s' =>
      match trim_zeros s' with
      | [] => if bool_decide (c = ch_zero) then [] else [c]
      | t => c :: t
      end
  end.

Definition format_e8 (raw : Z) : list byte :=
  let negative := raw <? 0 in
  let magnitude := Z.abs raw in
  let whole := Z.quot magnitude SCALE in
  let frac := Z.rem magnitude SCALE in
  (if negative then [ch_minus] else []) ++ dec whole ++
  (if frac =? 0 then []
   else ch_point :: trim_zeros (zero_pad SCALE_DIGITS (dec frac))).

(** ** The newtypes *)

(** What a fixed-point value measures: one index per [e8_newtype!] use. *)
Inductive dim := DPrice | DQty | DMoney.

#[export] Instance dim_eq_dec : EqDecision dim.
Proof. solve_decision. Defined.

Record e8 (d : dim) := from_raw { raw : Z }.
Arguments from_raw {d} raw.
Arguments raw {d} _.

Abbreviation Price := (e8 DPrice).
Abbreviation Qty := (e8 DQty).
Abbreviation Money := (e8 DMoney).

#[export] Instance e8_eq_dec d : EqDecision (e8 d).
Proof. solve_decision. Defined.

Section e8_newtype.
Context {d : dim}.

Definition ZERO : e8 d := from_raw 0.
Definition MAX : e8 d := from_raw i64_max.
Definition MIN : e8 d := from_raw i64_min.
Definition ONE : e8 d := from_raw SCALE.

Definition whole (n : Z) : e8 d := from_raw (i64_saturate (n * SCALE)).

Definition parse (s : list byte) : result ParseError (e8 d) :=
  match parse_e8 s with
  | Ok raw => Ok (from_raw raw)
  | Err e => Err e
  end.

Definition to_string (x : e8 d) : list byte := format_e8 (raw x).

Definition is_zero (x : e8 d) : bool := raw x =? 0.
Definition is_positive (x : e8 d) : bool := 0 <? raw x.
Definition is_negative (x : e8 d) : bool := raw x <? 0.

(** [saturating_abs]: [MIN] becomes [MAX]. *)
Definition abs (x : e8 d) : e8 d := from_raw (i64_saturate (Z.abs (raw x))).

(** The derived [PartialOrd]. *)
Definition leb (x y : e8 d) : bool := raw x <=? raw y.
Definition ltb (x y : e8 d) : bool := raw x <? raw y.

Definition min (x y : e8 d) : e8 d := if leb x y then x else y.
Definition max (x y : e8 d) : e8 d := if leb y x then x else y.

Definition checked_add (x y : e8 d) : result Overflow (e8 d) :=
  match i64_checked (raw x + raw y) with
  | Some v => Ok (from_raw v)
  | None => Err overflow
  end.

Definition checked_sub (x y : e8 d) : result Overflow (e8 d) :=
  match i64_checked (raw x - raw y) with
  | Some v => Ok (from_raw v)
  | None => Err overflow
  end.
End e8_newtype.

(** [Price::notional]: the product in [i128], rescaled once toward zero. *)
Definition notional (p : Price) (q : Qty) : result Overflow Money :=
  let product := raw p * raw q in
  let scaled := Z.quot product SCALE in
  if (i64_max <? scaled) || (scaled <? i64_min) then Err overflow
  else Ok (from_raw scaled).

(** A fixed-point value the representation can hold. *)
Definition e8_ok {d} (x : e8 d) : Prop := in_i64 (raw x).

(** ** Reference meaning of a decimal string *)

Definition all_digits (l : list byte) : Prop :=
  Forall (λ d, is_ascii_digit d = true) l.

(** The integer a run of digits writes, continuing from [acc]. *)
Definition digits_value_from (acc : Z) (l : list byte) : Z :=
  foldl (λ a d, a * 10 + digit_value d) acc l.

Abbreviation digits_value := (digits_value_from 0).

(** The units of 10^-n that the first [n] fractional digits are worth. *)
Fixpoint frac_units (n : nat) (f : list byte) : Z :=
  match n, f with
  | S n', d :: f' => digit_value d * 10 ^ Z.of_nat n' + frac_units n' f'
  | _, _ => 0
  end.

Definition sign_text (neg : bool) (s : list byte) : Prop :=
  if neg then s = [ch_minus] else s = [] ∨ s = [ch_plus].

(** A fractional part: absent, or a point and at least one digit, every digit
    past the eighth being a zero. *)
Inductive frac_text : list byte → Z → Prop :=
| frac_absent : frac_text [] 0
| frac_present f :
    f ≠ [] → all_digits f → Forall (λ d, d = ch_zero) (drop SCALE_DIGITS f) →
    frac_text (ch_point :: f) (frac_units SCALE_DIGITS f).

(** [decimal s v]: the text [s] denotes exactly [v] units of 1e-8. *)
Inductive decimal : list byte → Z → Prop :=
| decimal_intro neg sign ids frac u :
    sign_text neg sign → all_digits ids → frac_text frac u →
    (ids ≠ [] ∨ frac ≠ []) →
    let v := (if neg then -1 else 1) * (digits_value ids * SCALE + u) in
    in_i64 v →
    decimal (sign ++ ids ++ frac) v.

(** ** Digits *)

(** The two compile-time assertions beside [MAX_WHOLE]. *)
Lemma MAX_WHOLE_bounds :
  MAX_WHOLE * SCALE ≤ MAX_MAGNITUDE ∧ MAX_MAGNITUDE < (MAX_WHOLE + 1) * SCALE.
Proof. split; vm_compute; congruence. Qed.

Lemma digit_value_range d : is_ascii_digit d = true → 0 ≤ digit_value d ≤ 9.
Proof. unfold is_ascii_digit, digit_value. intros. z_reflect. lia. Qed.

Lemma digit_not_sign d :
  is_ascii_digit d = true → d ≠ ch_minus ∧ d ≠ ch_plus ∧ d ≠ ch_point.
Proof. intros H. repeat split; intros ->; vm_compute in H; discriminate. Qed.

Lemma digit_of_value z :
  0 ≤ z ≤ 9 → is_ascii_digit (z2b (48 + z)) = true ∧ digit_value (z2b (48 + z)) = z.
Proof. intros. unfold is_ascii_digit, digit_value. rewrite b2z_z2b; lia. Qed.

Lemma digits_value_cons acc d l :
  digits_value_from acc (d :: l) = digits_value_from (acc * 10 + digit_value d) l.
Proof. done. Qed.

Lemma digits_value_app acc a b :
  digits_value_from acc (a ++ b) = digits_value_from (digits_value_from acc a) b.
Proof. apply foldl_app. Qed.

Lemma digits_value_ge acc l : all_digits l → 0 ≤ acc → acc ≤ digits_value_from acc l.
Proof.
  intros H. revert acc. induction H as [|d l Hd _ IH]; intros acc Hacc; [done|].
  rewrite digits_value_cons. apply digit_value_range in Hd.
  specialize (IH (acc * 10 + digit_value d)). lia.
Qed.

Lemma digits_value_shift acc l :
  digits_value_from acc l = acc * 10 ^ Z.of_nat (length l) + digits_value l.
Proof.
  revert acc. induction l as [|d l IH]; intros acc.
  - unfold digits_value_from; simpl. lia.
  - rewrite !digits_value_cons, IH, (IH (0 * 10 + _)). simpl length.
    rewrite Nat2Z.inj_succ, Z.pow_succ_r by lia. ring.
Qed.

Lemma frac_units_full l : frac_units (length l) l = digits_value l.
Proof.
  induction l as [|d l IH]; [done|].
  simpl frac_units. rewrite IH, digits_value_cons, (digits_value_shift (_ + _)). ring.
Qed.

Lemma frac_units_nonneg n f : all_digits f → 0 ≤ frac_units n f.
Proof.
  intros H. revert n. induction H as [|d f Hd _ IH]; intros [|n]; simpl; try lia.
  apply digit_value_range in Hd. specialize (IH n).
  assert (0 < 10 ^ Z.of_nat n) by (apply Z.pow_pos_nonneg; lia). nia.
Qed.

Lemma frac_units_zero n d : d = ch_zero → frac_units n [d] = 0.
Proof.
  intros ->. destruct n as [|n]; [done|].
  change (digit_value ch_zero * 10 ^ Z.of_nat n + frac_units n [] = 0).
  destruct n; reflexivity.
Qed.

(** ** The two loops of the parser against the reference *)

Definition nonempty {A} (l : list A) : bool := match l with [] => false | _ => true end.

Definition at_point (rest : list byte) : Prop := rest = [] ∨ ∃ f, rest = ch_point :: f.

Lemma parse_whole_sound b m s m' s' rest :
  parse_whole b m s = Ok (m', s', rest) →
  ∃ ids, b = ids ++ rest ∧ all_digits ids ∧ m' = digits_value_from m ids ∧
         s' = s || nonempty ids ∧ at_point rest.
Proof.
  revert m s. induction b as [|d b IH]; simpl; intros m s H.
  - simplify_eq. exists []. repeat split; [constructor|by rewrite orb_false_r|by left].
  - case_bool; z_reflect; simplify_eq.
    + exists []. repeat split; [constructor|by rewrite orb_false_r|right; eauto].
    + case_bool; [done|]. case_bool; [done|]. z_reflect.
      apply IH in H as (ids & -> & ? & -> & -> & ?).
      exists (d :: ids). repeat split; [by constructor|by rewrite orb_true_r|done].
Qed.

Lemma parse_whole_complete ids rest m s :
  all_digits ids → at_point rest → 0 ≤ m → digits_value_from m ids ≤ MAX_WHOLE →
  parse_whole (ids ++ rest) m s = Ok (digits_value_from m ids, s || nonempty ids, rest).
Proof.
  intros Hd Hr. revert m s. induction Hd as [|d ids Hd Hds IH]; intros m s Hm Hv.
  - rewrite orb_false_r. destruct Hr as [->|[f ->]]; simpl; [done|].
    reflexivity.
  - simpl. pose proof (digit_not_sign d Hd) as (_ & _ & ?).
    pose proof (digit_value_range d Hd).
    rewrite bool_decide_eq_false_2, Hd by done. simpl.
    rewrite digits_value_cons in *.
    pose proof (digits_value_ge (m * 10 + digit_value d) ids Hds).
    destruct (Z.ltb_spec MAX_WHOLE (m * 10 + digit_value d)); [lia|].
    rewrite IH by lia. by rewrite orb_true_r.
Qed.

Lemma quot_pow10 n : Z.quot (10 ^ Z.of_nat (S n)) 10 = 10 ^ Z.of_nat n.
Proof. rewrite Nat2Z.inj_succ, Z.pow_succ_r, Z.mul_comm by lia. by apply Z.quot_mul. Qed.

(** [n] places remain when [k] digits have been read. *)
Lemma parse_frac_sound f n k m s k' m' s' :
  (k + n = SCALE_DIGITS)%nat ∨ (SCALE_DIGITS ≤ k)%nat ∧ n = 0%nat →
  parse_frac f (10 ^ Z.of_nat n) k m s = Ok (k', m', s') →
  all_digits f ∧ Forall (λ d, d = ch_zero) (drop n f) ∧
  k' = (k + length f)%nat ∧ m' = m + frac_units n f ∧
  s' = s || (nonempty f && bool_decide (0 < n)%nat).
Proof.
  revert n k m s. induction f as [|d f IH]; simpl; intros n k m s Hk H.
  - simplify_eq. repeat split; try constructor; try lia.
    + rewrite drop_nil. constructor.
    + destruct n; simpl; lia.
    + by rewrite orb_false_r.
  - case_bool; [done|]. z_reflect.
    destruct (Nat.ltb_spec SCALE_DIGITS (S k)) as [Hs|Hs].
    + assert (n = 0%nat) as -> by lia.
      case_bool; [done|]. z_reflect.
      apply (IH 0%nat) in H as (? & ? & -> & -> & ->); [|lia]. subst d.
      repeat split; auto; try (constructor; auto; fail); try lia.
      all: rewrite ?andb_false_r; done.
    + destruct n as [|n]; [unfold SCALE_DIGITS in *; lia|].
      rewrite quot_pow10 in H.
      apply IH in H as (? & ? & -> & -> & ->); [|lia].
      repeat split; auto; try (constructor; auto; fail); try (simpl; lia).
Qed.

Lemma parse_frac_complete f n k m s :
  (k + n = SCALE_DIGITS)%nat ∨ (SCALE_DIGITS ≤ k)%nat ∧ n = 0%nat →
  all_digits f → Forall (λ d, d = ch_zero) (drop n f) →
  parse_frac f (10 ^ Z.of_nat n) k m s =
    Ok ((k + length f)%nat, m + frac_units n f,
        s || (nonempty f && bool_decide (0 < n)%nat)).
Proof.
  intros Hk Hd. revert n k m s Hk. induction Hd as [|d f Hd Hds IH]; intros n k m s Hk Hz.
  - simpl. rewrite orb_false_r. destruct n; simpl; rewrite Nat.add_0_r, Z.add_0_r; done.
  - simpl. rewrite Hd. simpl.
    destruct (Nat.ltb_spec SCALE_DIGITS (S k)) as [Hs|Hs].
    + assert (n = 0%nat) as -> by lia. simpl in Hz. inv Hz.
      rewrite bool_decide_eq_true_2 by done. simpl.
      rewrite (IH 0%nat) by (auto; lia).
      rewrite bool_decide_eq_false_2, !andb_false_r by lia.
      simpl. do 3 f_equal. lia.
    + destruct n as [|n]; [unfold SCALE_DIGITS in *; lia|].
      rewrite quot_pow10. simpl in Hz.
      rewrite IH by (auto; lia). simpl.
      rewrite orb_true_r. do 3 f_equal; lia.
Qed.

(** ** The parser is the reference *)

Definition apply_sign (neg : bool) (m : Z) : Z := (if neg then -1 else 1) * m.

Lemma parse_finish_spec neg m seen v :
  0 ≤ m →
  parse_finish neg m seen = Ok v ↔ seen = true ∧ v = apply_sign neg m ∧ in_i64 v.
Proof.
  intros Hm. unfold parse_finish, apply_sign, MAX_MAGNITUDE.
  split.
  - intros H. repeat (case_bool; try done); z_reflect; simplify_eq;
      repeat split; unfold_ranges; try lia; by destruct seen.
  - intros (-> & -> & Hr). simpl.
    repeat case_bool; z_reflect; unfold_ranges; try lia; f_equal; lia.
Qed.

Lemma frac_text_nonneg frac u : frac_text frac u → 0 ≤ u.
Proof. intros []; [done | by apply frac_units_nonneg]. Qed.

Lemma frac_text_at_point frac u : frac_text frac u → at_point frac.
Proof. intros []; [by left | right; eauto]. Qed.

Lemma digits_value_nonneg l : all_digits l → 0 ≤ digits_value l.
Proof. intros H. by apply (digits_value_ge 0 l H). Qed.

Lemma parse_unsigned_spec neg b v :
  parse_unsigned neg b = Ok v ↔
  ∃ ids frac u, b = ids ++ frac ∧ all_digits ids ∧ frac_text frac u ∧
    (ids ≠ [] ∨ frac ≠ []) ∧ v = apply_sign neg (digits_value ids * SCALE + u) ∧ in_i64 v.
Proof.
  unfold parse_unsigned. split.
  - intros H.
    destruct (parse_whole b 0 false) as [[[w s] rest]|] eqn:Hw; [|done].
    apply parse_whole_sound in Hw as (ids & -> & Hids & -> & -> & Hr).
    pose proof (digits_value_nonneg ids Hids).
    destruct Hr as [->|[f ->]]; simpl in H.
    + apply parse_finish_spec in H as (Hs & -> & ?); [|unfold SCALE; lia].
      exists ids, [], 0. rewrite Z.add_0_r.
      split_and!; auto using frac_text. left. by destruct ids.
    + destruct (parse_frac f _ 0 _ _) as [[[k m] s]|] eqn:Hf; [|done]. simpl in H.
      apply (parse_frac_sound f 8) in Hf as (Hd & Hz & -> & -> & ->); [|by left].
      destruct f as [|d f]; [done|].
      pose proof (frac_units_nonneg 8 _ Hd).
      apply parse_finish_spec in H as (_ & -> & ?); [|unfold SCALE; lia].
      exists ids, (ch_point :: d :: f), (frac_units 8 (d :: f)).
      split_and!; auto. by constructor.
  - intros (ids & frac & u & -> & Hids & Hfr & Hne & -> & Hin).
    pose proof (digits_value_nonneg ids Hids). pose proof (frac_text_nonneg _ _ Hfr).
    rewrite parse_whole_complete; eauto using frac_text_at_point; try done.
    2: { destruct MAX_WHOLE_bounds. unfold apply_sign, MAX_MAGNITUDE, SCALE in *.
         unfold_ranges. destruct neg; lia. }
    simpl. destruct Hfr as [|f Hf Hd Hz].
    + rewrite Z.add_0_r in *. apply parse_finish_spec; [unfold SCALE; lia|].
      split; [|done]. by destruct ids, Hne.
    + pose proof (parse_frac_complete f 8 0) as Hc.
      change (10 ^ Z.of_nat 8) with SCALE in Hc.
      rewrite Hc by (auto; by left). simpl.
      destruct f as [|d f]; [done|].
      apply parse_finish_spec; [apply Z.add_nonneg_nonneg; [unfold SCALE; lia|done]|].
      split; [by rewrite orb_true_r|done].
Qed.

Lemma unsigned_head ids frac u c l :
  all_digits ids → frac_text frac u → ids ++ frac = c :: l → c ≠ ch_minus ∧ c ≠ ch_plus.
Proof.
  intros Hids Hfr E. destruct Hids as [|d ids Hd ?]; simpl in E.
  - by destruct Hfr; simplify_eq.
  - simplify_eq. destruct (digit_not_sign _ Hd) as (? & ? & _). done.
Qed.

Lemma parse_e8_spec s v : parse_e8 s = Ok v ↔ decimal s v.
Proof.
  split.
  - destruct s as [|c b]; [done|]. unfold parse_e8. intros H.
    assert (∃ neg sign b', c :: b = sign ++ b' ∧ sign_text neg sign ∧
              parse_unsigned neg b' = Ok v) as (neg & sign & b' & -> & Hs & Hp).
    { destruct (bool_decide (c = ch_minus)) eqn:E1;
        [|destruct (bool_decide (c = ch_plus)) eqn:E2]; z_reflect; subst.
      - destruct b as [|d b]; [done|]. by exists true, [ch_minus], (d :: b).
      - destruct b as [|d b]; [done|].
        exists false, [ch_plus], (d :: b). split_and!; [done|by right|done].
      - exists false, [], (c :: b). split_and!; [done|by left|done]. }
    apply parse_unsigned_spec in Hp as (ids & frac & u & -> & ? & ? & ? & -> & ?).
    by constructor.
  - intros [neg sign ids frac u Hs Hids Hfr Hne w Hin].
    assert (parse_unsigned neg (ids ++ frac) = Ok w) as Hp.
    { apply parse_unsigned_spec. by exists ids, frac, u. }
    unfold parse_e8.
    destruct (ids ++ frac) as [|c b] eqn:E.
    { apply app_eq_nil in E as [-> ->]. naive_solver. }
    destruct (unsigned_head _ _ _ _ _ Hids Hfr E) as [? ?].
    destruct neg; simpl in Hs; [by rewrite Hs|]. destruct Hs as [->| ->]; [|done].
    cbn. by rewrite !bool_decide_eq_false_2.
Qed.

(** C40: the decimal parser accepts exactly the strings the reference grammar
    gives a value — an optional sign, digits, an optional point followed by at
    least one digit, nothing but zeros past the eighth decimal, and a value
    inside i64 — and returns that value, never a rounded one. *)
Theorem parse_e8_exact s v : parse_e8 s = Ok v ↔ decimal s v.
Proof. apply parse_e8_spec. Qed.

(** ** Rendering and parsing back *)

Lemma dec_digits_spec fuel n acc :
  0 ≤ n < 10 ^ Z.of_nat fuel → (0 < fuel)%nat →
  ∃ ds, dec_digits fuel n acc = ds ++ acc ∧ all_digits ds ∧ ds ≠ [] ∧
        digits_value ds = n ∧
        (∀ k, (0 < k)%nat → n < 10 ^ Z.of_nat k → (length ds ≤ k)%nat).
Proof.
  revert n acc. induction fuel as [|fuel IH]; intros n acc Hn Hf; [lia|].
  simpl. pose proof (Z.mod_pos_bound n 10 ltac:(lia)) as Hm.
  destruct (digit_of_value (n mod 10)) as [Hd Hv]; [lia|].
  pose proof (Z.div_mod n 10 ltac:(lia)) as Hdm.
  destruct (Z.eqb_spec (n / 10) 0) as [H0|H0].
  - exists [z2b (48 + n mod 10)]. repeat split; [by constructor|done| |simpl; lia].
    unfold digits_value_from; simpl. rewrite Hv. lia.
  - assert (0 < n / 10) by (pose proof (Z.div_pos n 10); lia).
    assert (0 < fuel)%nat. { destruct fuel; [simpl in *; lia|lia]. }
    destruct (IH (n / 10) (z2b (48 + n mod 10) :: acc)) as (ds & -> & Hall & Hne & Hval & Hlen).
    { split; [lia|]. apply Z.div_lt_upper_bound; [lia|].
      rewrite <-Z.pow_succ_r, <-Nat2Z.inj_succ by lia. lia. }
    { done. }
    exists (ds ++ [z2b (48 + n mod 10)]). rewrite <-app_assoc.
    repeat split; [|by destruct ds| |].
    + apply Forall_app; split; [done|by constructor].
    + rewrite digits_value_app, Hval. unfold digits_value_from; simpl. rewrite Hv. lia.
    + intros k Hk Hnk. rewrite length_app. simpl.
      destruct k as [|k]; [lia|].
      rewrite Nat2Z.inj_succ, Z.pow_succ_r in Hnk by lia.
      destruct k as [|k]; [simpl in Hnk; lia|].
      specialize (Hlen (S k) ltac:(lia)). apply Nat.le_trans with (S k + 1)%nat; [|lia].
      apply Nat.add_le_mono_r, Hlen. apply Z.div_lt_upper_bound; lia.
Qed.

Lemma dec_spec n :
  0 ≤ n →
  all_digits (dec n) ∧ dec n ≠ [] ∧ digits_value (dec n) = n ∧
  (∀ k, (0 < k)%nat → n < 10 ^ Z.of_nat k → (length (dec n) ≤ k)%nat).
Proof.
  intros Hn. unfold dec.
  destruct (dec_digits_spec (S (Z.to_nat (Z.log2 n))) n []) as (ds & -> & ?); [|lia|].
  - split; [done|]. pose proof (Z.log2_nonneg n).
    rewrite Nat2Z.inj_succ, Z2Nat.id by done.
    apply Z.lt_le_trans with (2 ^ Z.succ (Z.log2 n)).
    + destruct (decide (n = 0)) as [->|]; [done|]. apply Z.log2_spec. lia.
    + apply Z.pow_le_mono_l. lia.
  - by rewrite app_nil_r.
Qed.

Lemma frac_units_trim n f : frac_units n (trim_zeros f) = frac_units n f.
Proof.
  revert n. induction f as [|d f IH]; intros n; [done|].
  simpl trim_zeros. destruct (trim_zeros f) as [|t tl] eqn:E.
  - assert (∀ n, frac_units n f = 0) as Hz by (intros k; rewrite <-IH; by destruct k).
    case_bool; z_reflect; subst; destruct n as [|n]; simpl; rewrite ?Hz; try done;
      by destruct n.
  - destruct n as [|n]; [done|]. by simpl; rewrite <-IH.
Qed.

Lemma all_digits_trim f : all_digits f → all_digits (trim_zeros f).
Proof.
  induction 1 as [|d f Hd _ IH]; simpl; [constructor|].
  destruct (trim_zeros f); [case_bool|]; repeat constructor; auto; by inv IH.
Qed.

Lemma length_trim f : (length (trim_zeros f) ≤ length f)%nat.
Proof.
  induction f as [|d f IH]; simpl; [done|].
  destruct (trim_zeros f); [case_bool|]; simpl in *; lia.
Qed.

Lemma digits_value_zeros n l : digits_value (replicate n ch_zero ++ l) = digits_value l.
Proof. induction n as [|n IH]; [done|]. exact IH. Qed.

Lemma zero_pad_spec frac :
  0 ≤ frac < SCALE →
  all_digits (zero_pad SCALE_DIGITS (dec frac)) ∧
  length (zero_pad SCALE_DIGITS (dec frac)) = SCALE_DIGITS ∧
  digits_value (zero_pad SCALE_DIGITS (dec frac)) = frac.
Proof.
  intros Hf. destruct (dec_spec frac) as (Hd & _ & Hv & Hl); [lia|]. unfold zero_pad.
  specialize (Hl SCALE_DIGITS ltac:(unfold SCALE_DIGITS; lia) (proj2 Hf)).
  split_and!.
  - apply Forall_app; split; [|done]. by apply Forall_replicate.
  - rewrite length_app, length_replicate. lia.
  - by rewrite digits_value_zeros.
Qed.

Lemma format_frac_text frac :
  0 ≤ frac < SCALE →
  frac_text (if frac =? 0 then [] else
               ch_point :: trim_zeros (zero_pad SCALE_DIGITS (dec frac))) frac.
Proof.
  intros Hf. destruct (Z.eqb_spec frac 0) as [->|Hnz]; [constructor|].
  destruct (zero_pad_spec frac Hf) as (Hd & Hl & Hv).
  set (p := zero_pad SCALE_DIGITS (dec frac)) in *.
  assert (frac_units SCALE_DIGITS (trim_zeros p) = frac) as Hu.
  { rewrite frac_units_trim, <-Hl, frac_units_full. done. }
  rewrite <-Hu. constructor.
  - intros E. rewrite E in Hu. by destruct Hnz.
  - by apply all_digits_trim.
  - rewrite drop_ge; [constructor|]. rewrite <-Hl. apply length_trim.
Qed.

Lemma format_decimal r : in_i64 r → decimal (format_e8 r) r.
Proof.
  intros Hr. unfold format_e8.
  pose proof (Z.quot_rem' (Z.abs r) SCALE) as Hqr.
  assert (0 ≤ Z.rem (Z.abs r) SCALE < SCALE) as Hrem
    by (apply Z.rem_bound_pos; unfold SCALE; lia).
  assert (0 ≤ Z.quot (Z.abs r) SCALE) as Hq by (apply Z.quot_pos; unfold SCALE; lia).
  destruct (dec_spec _ Hq) as (Hd & Hne & Hv & _).
  pose proof (format_frac_text _ Hrem) as Hfr.
  assert (r = (if r <? 0 then -1 else 1) *
            (digits_value (dec (Z.quot (Z.abs r) SCALE)) * SCALE + Z.rem (Z.abs r) SCALE))
    as Hv'.
  { rewrite Hv. destruct (Z.ltb_spec r 0); lia. }
  rewrite Hv' at 5. apply decimal_intro; auto; [|by rewrite <-Hv'].
  destruct (r <? 0); simpl; auto.
Qed.

(** Rendering is exact: every i64 renders to a text that parses back to the
    same value, [i64::MIN] included. *)
Theorem format_parse_roundtrip r : in_i64 r → parse_e8 (format_e8 r) = Ok r.
Proof. intros. by apply parse_e8_spec, format_decimal. Qed.

Lemma format_parse_roundtrip_witness :
  in_i64 i64_min ∧ parse_e8 (format_e8 i64_min) = Ok i64_min.
Proof. split; [split; vm_compute; congruence | apply format_parse_roundtrip; split; vm_compute; congruence]. Defined.

(** ** Arithmetic *)

Lemma checked_add_Ok {d} (x y z : e8 d) :
  checked_add x y = Ok z ↔ raw z = raw x + raw y ∧ in_i64 (raw x + raw y).
Proof.
  unfold checked_add. destruct (i64_checked _) as [v|] eqn:E.
  - apply i64_checked_Some in E as [-> ?]. destruct z; naive_solver.
  - apply i64_checked_None in E. naive_solver.
Qed.

Lemma checked_sub_Ok {d} (x y z : e8 d) :
  checked_sub x y = Ok z ↔ raw z = raw x - raw y ∧ in_i64 (raw x - raw y).
Proof.
  unfold checked_sub. destruct (i64_checked _) as [v|] eqn:E.
  - apply i64_checked_Some in E as [-> ?]. destruct z; naive_solver.
  - apply i64_checked_None in E. naive_solver.
Qed.

Lemma raw_inj {d} (x y : e8 d) : raw x = raw y → x = y.
Proof. destruct x, y; simpl; congruence. Qed.

Lemma raw_min {d} (x y : e8 d) : raw (min x y) = Z.min (raw x) (raw y).
Proof. unfold min, leb. case_bool; z_reflect; lia. Qed.

Lemma raw_max {d} (x y : e8 d) : raw (max x y) = Z.max (raw x) (raw y).
Proof. unfold max, leb. case_bool; z_reflect; lia. Qed.

Lemma raw_abs {d} (x : e8 d) : raw x ≠ i64_min → e8_ok x → raw (abs x) = Z.abs (raw x).
Proof. unfold abs, e8_ok. simpl. unfold_ranges. lia. Qed.

Lemma notional_Ok p q m :
  notional p q = Ok m ↔ raw m = Z.quot (raw p * raw q) SCALE ∧ in_i64 (raw m).
Proof.
  unfold notional. case_bool.
  - split; [done|]. intros [Hm Hin]. rewrite Hm in Hin.
    apply orb_true_iff in Heqb as [?|?]; z_reflect; unfold_ranges; lia.
  - z_reflect. destruct m as [v]; simpl. split.
    + intros; simplify_eq. unfold in_i64. lia.
    + intros [-> _]. done.
Qed.

Lemma notional_pos p q m :
  notional p q = Ok m → 0 ≤ raw p → 0 ≤ raw q → 0 ≤ raw m.
Proof.
  intros [-> _]%notional_Ok ??. apply Z.quot_pos; [nia|]. unfold SCALE; lia.
Qed.

#[export] Hint Rewrite @raw_min @raw_max : sentinel.
