(* ===== verification/Suite.v ===== *)
(** * Unit tests as checks

    What the modules' own [#[cfg(test)]] tests need to run on the model: a test
    is a computation that panics or ends, [unwrap], [assert] and the loops over
    samples are its combinators, and a suite passes when none of its tests
    panics. *)

From S2P Require Import Prelude Fixed.

(** A test body: [None] is a panic. *)
Abbreviation Test := (option unit).

Definition assert (b : bool) : Test := if b then Some tt else None.
Definition assert_eq {A} `{EqDecision A} (x y : A) : Test := assert (bool_decide (x = y)).
Definition assert_ne {A} `{EqDecision A} (x y : A) : Test := assert (negb (bool_decide (x = y))).

(** [Result::unwrap] and [Result::unwrap_err]. *)
Definition unwrap {E A} (m : result E A) : option A := ok m.
Definition unwrap_err {E A} (m : result E A) : option E :=
  match m with Err e => Some e | Ok _ => None end.

Definition is_ok {E A} (m : result E A) : bool := match m with Ok _ => true | Err _ => false end.
Definition is_err {E A} (m : result E A) : bool := negb (is_ok m).

(** [for x in l { body }]. *)
Fixpoint for_each {A} (l : list A) (body : A → Test) : Test :=
  match l with
  | [] => Some tt
  | x :: l => _ ← body x; for_each l body
  end.

(** [if let Ok(x) = m { body }]. *)
Definition if_ok {E A} (m : result E A) (body : A → Test) : Test :=
  match m with Ok x => body x | Err _ => Some tt end.

Definition passes (t : Test) : bool := match t with Some _ => true | None => false end.
Definition suite (tests : list Test) : bool := forallb passes tests.

(** The decimal literals of the tests. *)
Definition px (s : string) : option Price := unwrap (parse (str s)).
Definition qty_of (s : string) : option Qty := unwrap (parse (str s)).
Definition money (s : string) : option Money := unwrap (parse (str s)).

(** [assert_eq!] against a value the test has to make first. *)
Definition assert_is {A} `{EqDecision A} (x : A) (m : option A) : Test := y ← m; assert_eq x y.

(** [m.unwrap()] on a state, and [m.unwrap_err()]. *)
Definition called {S E A} (m : ST S E A) (s : S) : option (S * A) :=
  match m s with (s, Ok a) => Some (s, a) | (_, Err _) => None end.
Definition called_err {S E A} (m : ST S E A) (s : S) : option (S * E) :=
  match m s with (s, Err e) => Some (s, e) | (_, Ok _) => None end.

(** [hay.contains(needle)] and [hay.rsplit_once(sep)]. *)
Definition at_index (needle hay : list byte) (i : nat) : bool :=
  bool_decide (take (length needle) (drop i hay) = needle).
Definition contains (needle hay : list byte) : bool :=
  existsb (at_index needle hay) (seq 0 (S (length hay))).
Definition rsplit_once (sep hay : list byte) : option (list byte * list byte) :=
  i ← last (filter (λ i, at_index sep hay i = true) (seq 0 (S (length hay))));
  Some (take i hay, drop (i + length sep) hay).
