(* ===== verification/Text.v ===== *)
(** * The standard library's text routines

    What the source uses of [str] and of integer parsing: trimming Unicode
    whitespace, splitting, stripping a suffix, [from_str_radix] and [parse].
    Strings are their UTF-8 bytes. *)

From S2P Require Import Prelude Fixed.

(** ** Integers *)

(** [char::to_digit]. *)
Definition to_digit (radix : Z) (c : byte) : option Z :=
  let z := b2z c in
  let d := if (48 <=? z) && (z <=? 57) then z - 48
           else if (97 <=? z) && (z <=? 122) then z - 87
           else if (65 <=? z) && (z <=? 90) then z - 55
           else radix in
  if d <? radix then Some d else None.

(** The accumulation, every step checked against [limit]. *)
Fixpoint radix_loop (radix limit : Z) (l : list byte) (acc : Z) : option Z :=
  match l with
  | [] => Some acc
  | c :: l' =>
      match to_digit radix c with
      | None => None
      | Some d =>
          let acc' := acc * radix + d in
          if limit <? acc' then None else radix_loop radix limit l' acc'
      end
  end.

(** [from_str_radix] of an unsigned type: an optional plus, then digits. *)
Definition parse_uint (radix limit : Z) (s : list byte) : option Z :=
  match s with
  | [] => None
  | c :: l =>
      if bool_decide (c = ch_plus) then
        match l with [] => None | _ => radix_loop radix limit l 0 end
      else radix_loop radix limit s 0
  end.

(** [str::parse::<u32>], [::<u64>]. *)
Definition parse_u32 : list byte → option Z := parse_uint 10 u32_max.
Definition parse_u64 : list byte → option Z := parse_uint 10 u64_max.

(** [str::parse::<i64>]. *)
Definition parse_i64 (s : list byte) : option Z :=
  match s with
  | c :: (_ :: _) as l =>
      if bool_decide (c = ch_minus) then Z.opp <$> radix_loop 10 (- i64_min) (tail s) 0
      else parse_uint 10 i64_max s
  | _ => parse_uint 10 i64_max s
  end.

(** ** Slices *)

Definition strip_suffix (suffix s : list byte) : option (list byte) :=
  let n := (length s - length suffix)%nat in
  if (length suffix <=? length s)%nat && bool_decide (drop n s = suffix)
  then Some (take n s) else None.

(** [str::split] at a byte that is a character of its own. *)
Fixpoint split_on (sep : byte) (s : list byte) : list (list byte) :=
  match s with
  | [] => [[]]
  | c :: s' =>
      if bool_decide (c = sep) then [] :: split_on sep s'
      else match split_on sep s' with
           | [] => [[c]]
           | w :: ws => (c :: w) :: ws
           end
  end.

(** [str::split_once]. *)
Fixpoint split_once (sep : byte) (s : list byte) : option (list byte * list byte) :=
  match s with
  | [] => None
  | c :: s' =>
      if bool_decide (c = sep) then Some ([], s')
      else '(a, b) ← split_once sep s'; Some (c :: a, b)
  end.

(** ** Trimming *)

(** The characters with the White_Space property, as their bytes: U+0009 to
    U+000D, U+0020, U+0085, U+00A0, U+1680, U+2000 to U+200A, U+2028, U+2029,
    U+202F, U+205F, U+3000. *)
Definition white : list (list Z) :=
  [[9]; [10]; [11]; [12]; [13]; [32]; [194; 133]; [194; 160]; [225; 154; 128]] ++
  ((λ z, [226; 128; z]) <$> (seqZ 128 11 ++ [168; 169; 175])) ++
  [[226; 129; 159]; [227; 128; 128]].

Fixpoint starts_with (w : list Z) (s : list byte) : bool :=
  match w, s with
  | [], _ => true
  | z :: w', c :: s' => (z =? b2z c) && starts_with w' s'
  | _ :: _, [] => false
  end.

(** How many bytes of whitespace [s] starts with, one character. *)
Definition white_prefix (s : list byte) : nat :=
  match find (λ w, starts_with w s) white with Some w => length w | None => 0%nat end.

(** The same at the end of a string, given backwards. *)
Definition white_suffix (rev_s : list byte) : nat :=
  match find (λ w, starts_with (reverse w) rev_s) white with Some w => length w | None => 0%nat end.

(** One round per byte is enough: each takes a character off. *)
Fixpoint trim_with (p : list byte → nat) (fuel : nat) (s : list byte) : list byte :=
  match fuel with
  | O => s
  | S fuel' => match p s with O => s | n => trim_with p fuel' (drop n s) end
  end.

(** [str::trim_start], [trim_end] and [trim]. *)
Definition trim_start (s : list byte) : list byte := trim_with white_prefix (length s) s.
Definition trim_end (s : list byte) : list byte :=
  reverse (trim_with white_suffix (length s) (reverse s)).
Definition trim (s : list byte) : list byte := trim_end (trim_start s).

(** [str::to_lowercase] of ASCII text: the ids it is used on are ASCII. *)
Definition to_ascii_lowercase (s : list byte) : list byte :=
  (λ c, if (65 <=? b2z c) && (b2z c <=? 90) then z2b (b2z c + 32) else c) <$> s.

(** ** Hexadecimal *)

Definition hex_lower (n : Z) : byte := z2b (if n <? 10 then 48 + n else 87 + n).

(** [{:0width$x}] of a value of at most [width] digits. *)
Fixpoint hex_fixed (width : nat) (n : Z) : list byte :=
  match width with
  | O => []
  | S w => hex_fixed w (n / 16) ++ [hex_lower (n mod 16)]
  end.

(** ** What they mean *)

(** [i64] in decimal. *)
Definition dec_signed (z : Z) : list byte := if z <? 0 then ch_minus :: dec (- z) else dec z.

(** [{:?}] of a string: in quotes, with the escapes of [char::escape_debug]. A
    character that is not ASCII is taken to be printable. *)
Definition debug_char (c : byte) : list byte :=
  let z := b2z c in
  if z =? 0 then str "\0" else if z =? 9 then str "\t" else if z =? 10 then str "\n"
  else if z =? 13 then str "\r" else if z =? 34 then [z2b 92; z2b 34]
  else if z =? 92 then str "\\"
  else if (z <? 32) || (z =? 127) then
    str "\u{" ++ (if z <? 16 then [hex_lower z] else hex_fixed 2 z) ++ str "}"
  else [c].

Definition debug_str (s : list byte) : list byte := [z2b 34] ++ (s ≫= debug_char) ++ [z2b 34].

Lemma strip_suffix_app x s : strip_suffix x (s ++ x) = Some s.
Proof.
  unfold strip_suffix. rewrite length_app, Nat.add_sub, drop_app_length, take_app_length.
  rewrite bool_decide_eq_true_2 by done. by rewrite (proj2 (Nat.leb_le _ _)) by lia.
Qed.

Lemma to_digit_hex n : 0 ≤ n < 16 → to_digit 16 (hex_lower n) = Some n.
Proof.
  intros Hn.
  assert (n = 0 ∨ n = 1 ∨ n = 2 ∨ n = 3 ∨ n = 4 ∨ n = 5 ∨ n = 6 ∨ n = 7 ∨ n = 8 ∨ n = 9 ∨
          n = 10 ∨ n = 11 ∨ n = 12 ∨ n = 13 ∨ n = 14 ∨ n = 15) as H by lia.
  repeat destruct H as [->|H]; try subst n; reflexivity.
Qed.

Lemma radix_loop_app r limit a : ∀ b acc,
  radix_loop r limit (a ++ b) acc = radix_loop r limit a acc ≫= radix_loop r limit b.
Proof.
  induction a as [|c a IH]; intros b acc; [done|]. cbn [app radix_loop].
  destruct (to_digit r c); [|done]. cbv zeta. case_bool; [done|apply IH].
Qed.

Lemma length_hex w : ∀ n, length (hex_fixed w n) = w.
Proof. induction w as [|w IH]; intros n; [done|]. simpl. rewrite length_app, IH. simpl. lia. Qed.

Lemma hex_loop w : ∀ n limit acc,
  0 ≤ n < 16 ^ Z.of_nat w → 0 ≤ acc → acc * 16 ^ Z.of_nat w + n ≤ limit →
  radix_loop 16 limit (hex_fixed w n) acc = Some (acc * 16 ^ Z.of_nat w + n).
Proof.
  induction w as [|w IH]; intros n limit acc Hn Hacc Hl.
  { simpl in *. f_equal. lia. }
  cbn [hex_fixed]. rewrite radix_loop_app. rewrite Nat2Z.inj_succ, Z.pow_succ_r in * by lia.
  pose proof (Z.div_mod n 16 ltac:(lia)). pose proof (Z.mod_pos_bound n 16 ltac:(lia)).
  assert (0 ≤ n / 16 < 16 ^ Z.of_nat w) as Hd.
  { split; [apply Z.div_pos; lia|]. apply Z.div_lt_upper_bound; lia. }
  assert (0 ≤ acc * 16 ^ Z.of_nat w) by (apply Z.mul_nonneg_nonneg; lia).
  rewrite IH by lia. cbn [mbind option_bind radix_loop]. rewrite to_digit_hex by done. cbv zeta.
  rewrite (proj2 (Z.ltb_ge _ _)) by lia. f_equal. lia.
Qed.

(** Decimal digits read back as the number they spell. *)
Lemma to_digit_dec c : is_ascii_digit c = true → to_digit 10 c = Some (digit_value c).
Proof.
  unfold is_ascii_digit, to_digit, digit_value. intros H. rewrite H. z_reflect.
  by rewrite (proj2 (Z.ltb_lt _ _)) by lia.
Qed.

Lemma dec_loop l : ∀ limit acc,
  all_digits l → 0 ≤ acc → digits_value_from acc l ≤ limit →
  radix_loop 10 limit l acc = Some (digits_value_from acc l).
Proof.
  induction l as [|c l IH]; intros limit acc Hl Hacc Hle; [done|].
  apply Forall_cons in Hl as [Hc Hl]. cbn [radix_loop]. rewrite to_digit_dec by done. cbv zeta.
  pose proof (digit_value_range c Hc). rewrite digits_value_cons in *.
  pose proof (digits_value_ge (acc * 10 + digit_value c) l Hl ltac:(lia)).
  rewrite (proj2 (Z.ltb_ge _ _)) by lia. apply IH; [done|lia|done].
Qed.

Lemma parse_dec limit n : 0 ≤ n ≤ limit → parse_uint 10 limit (dec n) = Some n.
Proof.
  intros Hn. destruct (dec_spec n) as (Hd & Hne & Hv & _); [lia|].
  unfold parse_uint. destruct (dec n) as [|c l] eqn:E; [done|].
  pose proof (Forall_inv Hd) as Hc. pose proof (digit_not_sign c Hc) as (_ & Hp & _).
  cbv beta iota. rewrite bool_decide_eq_false_2 by done.
  rewrite dec_loop; [by rewrite Hv|done|lia|lia].
Qed.

(** A digit is not whitespace, at either end. *)
Lemma digit_not_white_prefix c l : is_ascii_digit c = true → white_prefix (c :: l) = 0%nat.
Proof. intros H. destruct c; first [discriminate H | reflexivity]. Qed.

Lemma digit_not_white_suffix c l : is_ascii_digit c = true → white_suffix (c :: l) = 0%nat.
Proof. intros H. destruct c; first [discriminate H | reflexivity]. Qed.

Lemma newline_white l : white_suffix (z2b 10 :: l) = 1%nat.
Proof. reflexivity. Qed.

#[local] Opaque white_prefix white_suffix.

Lemma trim_stop p fuel s : p s = 0%nat → trim_with p fuel s = s.
Proof. intros H. destruct fuel; simpl; [done|by rewrite H]. Qed.

Lemma trim_start_digit c l : is_ascii_digit c = true → trim_start (c :: l) = c :: l.
Proof. intros Hc. exact (trim_stop _ _ _ (digit_not_white_prefix c l Hc)). Qed.

Lemma trim_end_line l c : is_ascii_digit c = true → trim_end ((l ++ [c]) ++ [z2b 10]) = l ++ [c].
Proof.
  intros Hc. unfold trim_end. rewrite (reverse_app (l ++ [c])), reverse_singleton.
  rewrite length_app, Nat.add_comm. cbn [length Nat.add app trim_with].
  rewrite newline_white. cbn [drop]. rewrite reverse_app, reverse_singleton. cbn [app].
  rewrite (trim_stop _ _ _ (digit_not_white_suffix c (reverse l) Hc)).
  by rewrite reverse_cons, reverse_involutive.
Qed.

(** The line a cursor file holds. *)
Lemma trim_line n : 0 ≤ n → trim (dec n ++ [z2b 10]) = dec n.
Proof.
  intros Hn. destruct (dec_spec n Hn) as (Hd & Hne & _ & _). unfold trim.
  destruct (dec n) as [|c l] eqn:E; [done|].
  assert (is_ascii_digit c = true) as Hc by (by apply Forall_cons in Hd as [Hc _]).
  change ((c :: l) ++ [z2b 10]) with (c :: (l ++ [z2b 10])). rewrite trim_start_digit by done.
  destruct (exists_last (l := c :: l)) as (l' & c' & El); [done|]. rewrite El in Hd.
  apply Forall_app in Hd as [_ Hd]. apply Forall_cons in Hd as [Hc' _].
  change (c :: l ++ [z2b 10]) with ((c :: l) ++ [z2b 10]). rewrite El. by apply trim_end_line.
Qed.
