(* ===== verification/Types.v ===== *)
(** * Identifiers, enums and time (sentinel-types/src/ids.rs, enums.rs, lib.rs)

    [InlineStr N] is the fixed array with a length the source uses for every
    id; [WireEnum] is the interface the [wire_enum!] macro gives each closed
    vocabulary, with the laws its users rely on. *)

From S2P Require Import Prelude Fixed Text.

(** ** wire_enum! *)

Record UnknownDiscriminant := mkUnknownDiscriminant { type_name : string; value : Z }.

#[export] Instance UnknownDiscriminant_eq_dec : EqDecision UnknownDiscriminant.
Proof. solve_decision. Defined.

(** [Display for UnknownDiscriminant]. *)
Definition unknown_to_string (e : UnknownDiscriminant) : list byte :=
  dec (value e) ++ str " is not a valid " ++ str (type_name e).

(** What the macro is given: the variants with their discriminants and texts. *)
Class WireEnum (A : Type) := {
  enum_name : string;
  ALL : list A;
  as_u8 : A → Z;
  as_str : A → list byte;
}.

(** [from_u8]: the match the macro expands to, arm by arm. *)
Definition from_u8 {A} `{WireEnum A} (v : Z) : result UnknownDiscriminant A :=
  match find (λ a, as_u8 a =? v) ALL with
  | Some a => Ok a
  | None => Err (mkUnknownDiscriminant enum_name v)
  end.

(** [FromStr]. *)
Definition from_str {A} `{WireEnum A} (s : list byte) : result UnknownDiscriminant A :=
  match find (λ a, bool_decide (as_str a = s)) ALL with
  | Some a => Ok a
  | None => Err (mkUnknownDiscriminant enum_name 0)
  end.

(** What every declaration through the macro has to satisfy. *)
Class WireEnumLaws (A : Type) `{WireEnum A} := {
  enum_all a : a ∈ ALL;
  enum_disc_range (a : A) : 1 ≤ as_u8 a ≤ 255;
  enum_disc_inj (a b : A) : as_u8 a = as_u8 b → a = b;
  enum_text_inj (a b : A) : as_str a = as_str b → a = b;
}.

(** ** The enums of sentinel-types *)

Inductive Side := Buy | Sell.
#[export] Instance Side_eq_dec : EqDecision Side.
Proof. solve_decision. Defined.

#[export] Instance Side_wire : WireEnum Side := {
  enum_name := "Side";
  ALL := [Buy; Sell];
  as_u8 s := match s with Buy => 1 | Sell => 2 end;
  as_str s := match s with Buy => str "BUY" | Sell => str "SELL" end;
}.

Definition opposite (s : Side) : Side := match s with Buy => Sell | Sell => Buy end.
Definition sign (s : Side) : Z := match s with Buy => 1 | Sell => -1 end.

Inductive Authority := Entry | ProtectiveExit.
#[export] Instance Authority_eq_dec : EqDecision Authority.
Proof. solve_decision. Defined.

#[export] Instance Authority_wire : WireEnum Authority := {
  enum_name := "Authority";
  ALL := [Entry; ProtectiveExit];
  as_u8 a := match a with Entry => 1 | ProtectiveExit => 2 end;
  as_str a := match a with Entry => str "ENTRY" | ProtectiveExit => str "PROTECTIVE_EXIT" end;
}.

Definition authority_opens_exposure (a : Authority) : bool :=
  match a with Entry => true | ProtectiveExit => false end.

Inductive OrderKind := Market | Limit | StopMarket.
#[export] Instance OrderKind_eq_dec : EqDecision OrderKind.
Proof. solve_decision. Defined.

#[export] Instance OrderKind_wire : WireEnum OrderKind := {
  enum_name := "OrderKind";
  ALL := [Market; Limit; StopMarket];
  as_u8 k := match k with Market => 1 | Limit => 2 | StopMarket => 3 end;
  as_str k := match k with
    | Market => str "MARKET" | Limit => str "LIMIT" | StopMarket => str "STOP_MARKET" end;
}.

Definition needs_limit_price (k : OrderKind) : bool :=
  match k with Limit => true | _ => false end.
Definition needs_stop_price (k : OrderKind) : bool :=
  match k with StopMarket => true | _ => false end.

Inductive TimeInForce := GoodTilCancelled | ImmediateOrCancel | FillOrKill.
#[export] Instance TimeInForce_eq_dec : EqDecision TimeInForce.
Proof. solve_decision. Defined.

#[export] Instance TimeInForce_wire : WireEnum TimeInForce := {
  enum_name := "TimeInForce";
  ALL := [GoodTilCancelled; ImmediateOrCancel; FillOrKill];
  as_u8 t := match t with
    | GoodTilCancelled => 1 | ImmediateOrCancel => 2 | FillOrKill => 3 end;
  as_str t := match t with
    | GoodTilCancelled => str "GTC" | ImmediateOrCancel => str "IOC"
    | FillOrKill => str "FOK" end;
}.

(** ** UTF-8, as [core::str::from_utf8] validates it *)

Definition between (lo hi : Z) (b : byte) : bool := (lo <=? b2z b) && (b2z b <=? hi).
Definition is_cont (b : byte) : bool := between 128 191 b.

Definition second_ok (b0 b1 : byte) : bool :=
  let lead := b2z b0 in
  if lead =? 224 then between 160 191 b1
  else if lead =? 237 then between 128 159 b1
  else if lead =? 240 then between 144 191 b1
  else if lead =? 244 then between 128 143 b1
  else is_cont b1.

Fixpoint utf8_valid (l : list byte) : bool :=
  match l with
  | [] => true
  | b0 :: l1 =>
      if b2z b0 <? 128 then utf8_valid l1
      else match l1 with
      | [] => false
      | b1 :: l2 =>
          if between 194 223 b0 then is_cont b1 && utf8_valid l2
          else match l2 with
          | [] => false
          | b2 :: l3 =>
              if between 224 239 b0 then second_ok b0 b1 && is_cont b2 && utf8_valid l3
              else match l3 with
              | [] => false
              | b3 :: l4 =>
                  between 240 244 b0 && second_ok b0 b1 && is_cont b2 && is_cont b3 &&
                  utf8_valid l4
              end
          end
      end
  end.

(** [str::is_char_boundary]. *)
Definition is_char_boundary (s : list byte) (i : nat) : bool :=
  match i with
  | O => true
  | _ => match s !! i with
         | Some b => negb (is_cont b)
         | None => Nat.eqb i (length s)
         end
  end.

(** ** InlineStr *)

Record TooLong := mkTooLong { tl_len : nat; tl_capacity : nat }.

Record InlineStr (N : nat) := mkInlineStr { il_bytes : list byte; il_len : nat }.
Arguments mkInlineStr {N} _ _.
Arguments il_bytes {N} _.
Arguments il_len {N} _.

#[export] Instance InlineStr_eq_dec N : EqDecision (InlineStr N).
Proof. solve_decision. Defined.

#[export] Program Instance InlineStr_countable N : Countable (InlineStr N) :=
  inj_countable' (λ s, (il_bytes s, il_len s)) (λ p, mkInlineStr p.1 p.2) _.
Next Obligation. by intros N []. Qed.

Definition inline_empty {N} : InlineStr N := mkInlineStr (replicate N Byte.x00) 0.

(** [InlineStr::new]: refuses what does not fit, and never truncates. *)
Definition inline_new (N : nat) (s : list byte) : result TooLong (InlineStr N) :=
  if (N <? length s)%nat then Err (mkTooLong (length s) N)
  else Ok (mkInlineStr (s ++ replicate (N - length s) Byte.x00) (length s)).

(** [InlineStr::new(..).unwrap_or_default()]. *)
Definition inline_or_default (N : nat) (s : list byte) : InlineStr N :=
  unwrap_or (inline_new N s) inline_empty.

Definition inline_as_str {N} (s : InlineStr N) : list byte :=
  let t := take (il_len s) (il_bytes s) in
  if utf8_valid t then t else [].

Definition inline_len {N} (s : InlineStr N) : nat := il_len s.
Definition inline_is_empty {N} (s : InlineStr N) : bool := Nat.eqb (il_len s) 0.

(** [bytes.iter().position(|&b| b == 0).unwrap_or(N)], on an array of [N]. *)
Fixpoint position_zero (l : list byte) : nat :=
  match l with
  | [] => 0
  | b :: l' => if bool_decide (b = Byte.x00) then 0 else S (position_zero l')
  end.

Definition is_zero_byte (b : byte) : bool := bool_decide (b = Byte.x00).

Definition from_padded (N : nat) (bytes : list byte) : result TooLong (InlineStr N) :=
  let len := position_zero bytes in
  if existsb (λ b, negb (is_zero_byte b)) (drop len bytes) then Err (mkTooLong N N)
  else if negb (utf8_valid (take len bytes)) then Err (mkTooLong len N)
  else if (255 <? len)%nat then Err (mkTooLong len N)
  else Ok (mkInlineStr bytes len).

(** The derived [Ord]: the array, then the length. *)
Definition inline_leb {N} (a b : InlineStr N) : bool :=
  if bytes_leb (il_bytes a) (il_bytes b) then
    if bytes_leb (il_bytes b) (il_bytes a) then (il_len a <=? il_len b)%nat else true
  else false.

Abbreviation ClientOrderId := (InlineStr 36).
Abbreviation VenueOrderId := (InlineStr 32).
Abbreviation ExecId := (InlineStr 40).
Abbreviation Instrument := (InlineStr 16).

(** [sort_unstable] on ids, and [sort_unstable_by_key] on pairs keyed by one:
    the keys of a map are distinct, so stability does not matter. *)
Definition id_le {N} (a b : InlineStr N) : Prop := inline_leb a b = true.
#[export] Instance id_le_dec N (a b : InlineStr N) : Decision (id_le a b) :=
  decide (inline_leb a b = true).

Definition key_le {N A} (a b : InlineStr N * A) : Prop := id_le a.1 b.1.
#[export] Instance key_le_dec N A (a b : InlineStr N * A) : Decision (key_le a b) :=
  id_le_dec N a.1 b.1.

Definition sort_ids {N} : list (InlineStr N) → list (InlineStr N) := merge_sort id_le.
Definition sort_by_id {N A} : list (InlineStr N * A) → list (InlineStr N * A) :=
  merge_sort key_le.

(** ** Counters and time

    [TraceId], [Epoch], [Seq] and [Nanos] wrap an unsigned integer; the model
    uses the integer itself. *)

Abbreviation TraceId := Z.
Abbreviation Epoch := Z.
Abbreviation Seq := Z.
Abbreviation Nanos := Z.

Definition TRACE_NONE : TraceId := 0.
Definition GENESIS : Epoch := 0.
Definition SEQ_ZERO : Seq := 0.

(** [Display for TraceId]: the full width, in hexadecimal. *)
Definition trace_to_string (t : TraceId) : list byte := hex_fixed 32 t.

Definition epoch_next (e : Epoch) : Epoch := u64_saturate (e + 1).
Definition seq_next (s : Seq) : Seq := u64_saturate (s + 1).
Definition saturating_since (self earlier : Nanos) : Z := u64_saturate (self - earlier).
Definition nanos_saturating_add (self : Nanos) (nanos : Z) : Nanos :=
  u64_saturate (self + nanos).
Definition as_secs (self : Nanos) : Z := Z.quot self 1000000000.

(** ** Laws of the interface *)

(** Discharges the four laws of a closed enum by cases. *)
Ltac solve_wire_laws :=
  constructor;
  [ intros []; set_solver
  | intros []; simpl; lia
  | intros [] [] H; first [reflexivity | vm_compute in H; discriminate H]
  | intros [] [] H; first [reflexivity | vm_compute in H; discriminate H] ].

#[export] Instance Side_laws : WireEnumLaws Side.
Proof. solve_wire_laws. Qed.
#[export] Instance Authority_laws : WireEnumLaws Authority.
Proof. solve_wire_laws. Qed.
#[export] Instance OrderKind_laws : WireEnumLaws OrderKind.
Proof. solve_wire_laws. Qed.
#[export] Instance TimeInForce_laws : WireEnumLaws TimeInForce.
Proof. solve_wire_laws. Qed.

Section wire_enum.
Context {A : Type} `{WireEnumLaws A}.

Lemma from_u8_sound v (a : A) : from_u8 v = Ok a → as_u8 a = v.
Proof.
  unfold from_u8. case_match eqn:E; [|done]. intros [= ->].
  apply find_Some in E as [_ ?]. by z_reflect.
Qed.

Lemma from_u8_as_u8 (a : A) : from_u8 (as_u8 a) = Ok a.
Proof.
  unfold from_u8. case_match eqn:E.
  - apply find_Some in E as [_ E]. z_reflect. by apply enum_disc_inj in E as ->.
  - apply (find_None _ _ a) in E; [|apply enum_all]. cbn beta in E. by z_reflect.
Qed.

Lemma from_u8_zero : from_u8 (A := A) 0 = Err (mkUnknownDiscriminant enum_name 0).
Proof.
  unfold from_u8. case_match eqn:E; [|done].
  apply find_Some in E as [_ E]. z_reflect. pose proof (enum_disc_range a). lia.
Qed.

Lemma from_str_as_str (a : A) : from_str (as_str a) = Ok a.
Proof.
  unfold from_str. case_match eqn:E.
  - apply find_Some in E as [_ E]. z_reflect. by apply enum_text_inj in E as ->.
  - apply (find_None _ _ a) in E; [|apply enum_all]. cbn beta in E. by z_reflect.
Qed.

(** A discriminant fits the byte it is written to. *)
Lemma as_u8_byte (a : A) : 0 ≤ as_u8 a < 256.
Proof. pose proof (enum_disc_range a). lia. Qed.
End wire_enum.

#[export] Hint Rewrite @from_u8_as_u8 : sentinel.

(** ** InlineStr: what a value of the type satisfies *)

Definition all_zero (l : list byte) : Prop := Forall (λ b, b = Byte.x00) l.

(** Established by every constructor. *)
Record inline_wf {N} (s : InlineStr N) : Prop := {
  wf_length : length (il_bytes s) = N;
  wf_len : (il_len s ≤ N)%nat;
  wf_padding : all_zero (drop (il_len s) (il_bytes s));
  wf_utf8 : utf8_valid (take (il_len s) (il_bytes s)) = true;
}.

(** The text holds no NUL, so its end is where the padding starts. *)
Definition inline_clean {N} (s : InlineStr N) : Prop :=
  Byte.x00 ∉ take (il_len s) (il_bytes s).

Lemma inline_empty_wf N : inline_wf (@inline_empty N).
Proof.
  split; simpl; [by rewrite length_replicate|lia| |done].
  rewrite drop_0. by apply Forall_replicate.
Qed.

Lemma inline_new_Ok N s x :
  inline_new N s = Ok x ↔
  (length s ≤ N)%nat ∧ x = mkInlineStr (s ++ replicate (N - length s) Byte.x00) (length s).
Proof.
  unfold inline_new. destruct (Nat.ltb_spec N (length s)); naive_solver lia.
Qed.

Lemma inline_new_wf N s x : utf8_valid s = true → inline_new N s = Ok x → inline_wf x.
Proof.
  intros Hu [Hl ->]%inline_new_Ok. split; simpl.
  - rewrite length_app, length_replicate. lia.
  - done.
  - rewrite drop_app_length. by apply Forall_replicate.
  - by rewrite take_app_length.
Qed.

Lemma inline_new_as_str N s x :
  utf8_valid s = true → inline_new N s = Ok x → inline_as_str x = s.
Proof.
  intros Hu [Hl ->]%inline_new_Ok. unfold inline_as_str. simpl.
  by rewrite take_app_length, Hu.
Qed.

Lemma inline_eta N (x : InlineStr N) :
  inline_wf x →
  x = mkInlineStr (inline_as_str x ++ replicate (N - length (inline_as_str x)) Byte.x00)
        (length (inline_as_str x)).
Proof.
  intros [Hlen Hle Hpad Hu]. unfold inline_as_str. rewrite Hu.
  destruct x as [b l]; simpl in *.
  rewrite length_take, Nat.min_l by lia. f_equal.
  rewrite <-(take_drop l b) at 1. f_equal.
  symmetry. apply replicate_as_Forall_2; [by rewrite length_drop, Hlen|].
  eapply Forall_impl; [exact Hpad|by intros ? ->].
Qed.

Lemma inline_as_str_inj N (x y : InlineStr N) :
  inline_wf x → inline_wf y → inline_as_str x = inline_as_str y → x = y.
Proof. intros Hx Hy E. by rewrite (inline_eta _ x Hx), (inline_eta _ y Hy), E. Qed.

Lemma position_zero_clean s l :
  Byte.x00 ∉ s → all_zero l → position_zero (s ++ l) = length s.
Proof.
  intros Hs Hl. induction s as [|b s IH]; simpl.
  - destruct Hl as [|z l Hz _]; simpl; [done|]. by subst z.
  - apply not_elem_of_cons in Hs as [? ?].
    rewrite bool_decide_eq_false_2 by congruence. f_equal. auto.
Qed.

Lemma position_zero_lookup s b :
  Byte.x00 ∈ s → (position_zero (s ++ b) < length s)%nat.
Proof.
  induction s as [|c s IH]; [by intros ?%elem_of_nil|].
  intros H. simpl. case_bool_decide as Hc; [lia|].
  apply elem_of_cons in H as [H|H]; [congruence|]. apply IH in H. lia.
Qed.

Lemma existsb_all_zero l : existsb (λ b, negb (is_zero_byte b)) l = false ↔ all_zero l.
Proof.
  unfold all_zero, is_zero_byte.
  induction l as [|b l IH]; simpl; [split; [constructor|done]|].
  rewrite orb_false_iff, Forall_cons, IH, negb_false_iff, bool_decide_eq_true. done.
Qed.

Lemma from_padded_Ok N b x :
  from_padded N b = Ok x → length b = N →
  il_bytes x = b ∧ inline_wf x ∧ inline_clean x.
Proof.
  unfold from_padded. intros H Hl. repeat (case_bool; [done|]).
  z_reflect. simplify_eq. simpl.
  assert (position_zero b ≤ length b)%nat as Hp.
  { clear. induction b as [|c b IH]; simpl; [done|]. case_bool_decide; lia. }
  split_and!; [done|split; simpl; auto|].
  - by apply existsb_all_zero.
  - unfold inline_clean; simpl. clear. induction b as [|c b IH]; simpl; [set_solver|].
    case_bool_decide; simpl; [set_solver|]. rewrite not_elem_of_cons. split; [congruence|done].
Qed.

Lemma from_padded_clean N (x : InlineStr N) :
  (N ≤ 255)%nat → inline_wf x → inline_clean x → from_padded N (il_bytes x) = Ok x.
Proof.
  intros HN [Hlen Hle Hpad Hu] Hc. unfold from_padded.
  assert (position_zero (il_bytes x) = il_len x) as ->.
  { rewrite <-(take_drop (il_len x) (il_bytes x)).
    rewrite position_zero_clean by done. rewrite length_take. lia. }
  rewrite (proj2 (existsb_all_zero _) Hpad), Hu. simpl.
  destruct (Nat.ltb_spec 255 (il_len x)); [lia|]. by destruct x.
Qed.

(** An id written as its padded bytes reads back as itself exactly when its
    text holds no NUL byte. *)
Theorem padded_roundtrip N s x :
  (N ≤ 255)%nat → utf8_valid s = true → inline_new N s = Ok x →
  from_padded N (il_bytes x) = Ok x ↔ Byte.x00 ∉ s.
Proof.
  intros HN Hu Hx. pose proof (inline_new_wf _ _ _ Hu Hx) as Hwf.
  apply inline_new_Ok in Hx as [Hl ->]. split.
  - intros H Hin. unfold from_padded in H. simpl in H.
    repeat (case_bool; [done|]). simplify_eq.
    pose proof (position_zero_lookup s (replicate (N - length s) Byte.x00) Hin). lia.
  - intros Hc. apply from_padded_clean; [done..|].
    unfold inline_clean. simpl. by rewrite take_app_length.
Qed.

Lemma padded_roundtrip_witness :
  (16 ≤ 255)%nat ∧
  from_padded 16 (il_bytes (inline_or_default 16 (str "BTCUSD"))) =
    Ok (inline_or_default 16 (str "BTCUSD")).
Proof.
  split; [lia|]. apply (padded_roundtrip 16 (str "BTCUSD")); [lia|done|done|].
  vm_compute. set_solver.
Defined.

(** ** Sorting by id *)

Lemma inline_leb_total N (a b : InlineStr N) : inline_leb a b = true ∨ inline_leb b a = true.
Proof.
  unfold inline_leb. pose proof (bytes_leb_total (il_bytes a) (il_bytes b)).
  destruct (bytes_leb (il_bytes a) (il_bytes b)), (bytes_leb (il_bytes b) (il_bytes a)); auto.
  rewrite !Nat.leb_le. lia.
Qed.

#[export] Instance id_le_total N : Total (@id_le N).
Proof. intros a b. apply inline_leb_total. Qed.
#[export] Instance id_le_trans N : Transitive (@id_le N).
Proof.
  intros a b c. unfold id_le, inline_leb. intros H1 H2.
  destruct (bytes_leb (il_bytes a) (il_bytes b)) eqn:Eab; [|done].
  destruct (bytes_leb (il_bytes b) (il_bytes c)) eqn:Ebc; [|done].
  rewrite (bytes_leb_trans _ _ _ Eab Ebc).
  destruct (bytes_leb (il_bytes c) (il_bytes a)) eqn:Eca; [|done].
  rewrite (bytes_leb_trans _ _ _ Ebc Eca) in H1.
  rewrite (bytes_leb_trans _ _ _ Eca Eab) in H2.
  apply Nat.leb_le in H1, H2. apply Nat.leb_le. lia.
Qed.

Lemma sort_ids_Permutation N (l : list (InlineStr N)) : sort_ids l ≡ₚ l.
Proof. apply merge_sort_Permutation. Qed.

Lemma sort_by_id_Permutation N A (l : list (InlineStr N * A)) : sort_by_id l ≡ₚ l.
Proof. apply merge_sort_Permutation. Qed.

Lemma sort_ids_sorted N (l : list (InlineStr N)) : StronglySorted id_le (sort_ids l).
Proof. apply (StronglySorted_merge_sort _ _). Qed.

Lemma elem_of_sort_ids N x (l : list (InlineStr N)) : x ∈ sort_ids l ↔ x ∈ l.
Proof. by rewrite sort_ids_Permutation. Qed.
