(* ===== verification/Json.v ===== *)
(** * JSON values (what the program uses of serde_json)

    The parser of JSON text is a library the program calls; a value is whatever
    that library makes it.  [Json] is what the program asks of one, [JsonLaws]
    what it relies on, and [Tree] a small instance of both. *)

From S2P Require Import Prelude Fixed Text Types.

Class Json (J : Type) := {
  (** [serde_json::from_str]: the value, or the text of the error. *)
  json_parse : list byte → result (list byte) J;
  (** [Value::get] of a name. *)
  json_get : list byte → J → option J;
  (** [Value::as_str], which is the text of a [Value::String]. *)
  json_str : J → option (list byte);
  (** The text of the number of a [Value::Number]. *)
  json_number : J → option (list byte);
  (** [as_i64], [as_u64]: the integer a number holds. *)
  json_i64 : J → option Z;
  json_u64 : J → option Z;
  json_array : J → option (list J);
  json_null : J;
  (** [Value::String(s).to_string()]: a string in quotes. *)
  json_quote : list byte → list byte;
}.

(** What a value is: a string is UTF-8 text, an integer is one of its width, a
    value is at most one of a string and a number, and [null] is neither and has
    no fields. *)
Class JsonLaws (J : Type) `{Json J} := {
  json_str_utf8 v s : json_str v = Some s → utf8_valid s = true;
  json_i64_range v n : json_i64 v = Some n → in_i64 n;
  json_u64_range v n : json_u64 v = Some n → in_u64 n;
  json_str_not_number v s : json_str v = Some s → json_number v = None;
  json_null_str : json_str json_null = None;
  json_null_number : json_number json_null = None;
  json_null_get name : json_get name json_null = None;
}.

(** ** An instance *)

(** JSON values as trees; a number that is not an integer is its text. *)
Inductive Tree :=
| TNull
| TStr (s : list byte)
| TInt (n : Z)
| TNum (text : list byte)
| TArr (l : list Tree)
| TObj (fields : list (list byte * Tree)).

Definition tree_get (name : list byte) (v : Tree) : option Tree :=
  match v with
  | TObj fields => snd <$> find (λ f, bool_decide (f.1 = name)) fields
  | _ => None
  end.

(** Over a table of texts and the values they denote. *)
Definition tree_json (table : list (list byte * Tree)) : Json Tree := {|
  json_parse text :=
    ok_or (snd <$> find (λ f, bool_decide (f.1 = text)) table) (str "expected value");
  json_get := tree_get;
  json_str v := match v with TStr s => if utf8_valid s then Some s else None | _ => None end;
  json_number v := match v with TInt n => Some (dec_signed n) | TNum text => Some text | _ => None end;
  json_i64 v := match v with TInt n => if bool_decide (in_i64 n) then Some n else None | _ => None end;
  json_u64 v := match v with TInt n => if bool_decide (in_u64 n) then Some n else None | _ => None end;
  json_array v := match v with TArr l => Some l | _ => None end;
  json_null := TNull;
  json_quote := debug_str;
|}.

Lemma tree_json_laws table : @JsonLaws Tree (tree_json table).
Proof.
  split; try done; cbn; intros v; destruct v; try done; intros x; case_match; try done;
    intros [= ->]; by z_reflect || done.
Qed.
