(* ===== verification/Names.v ===== *)
(** * Names in the journal directory (sentinel-journal/src/segment.rs, reader.rs)

    A segment is found by its name, sixteen hexadecimal digits of its base
    sequence; a consumer's cursor is a small file, replaced by a rename. *)

From S2P Require Import Prelude Fixed Text Types.

(** ** Segment names *)

Definition SEGMENT_EXT : list byte := str "jrnl".

Definition segment_name (base_seq : Seq) : list byte :=
  hex_fixed 16 base_seq ++ str "." ++ SEGMENT_EXT.

Definition parse_segment_name (name : list byte) : option Seq :=
  stem ← strip_suffix (str "." ++ SEGMENT_EXT) name;
  if negb (Nat.eqb (length stem) 16) then None
  else parse_uint 16 u64_max stem.

Definition base_le {A} (a b : Seq * A) : Prop := a.1 ≤ b.1.
#[export] Instance base_le_dec A (a b : Seq * A) : Decision (base_le a b) :=
  decide (a.1 ≤ b.1).

#[export] Instance base_le_trans A : Transitive (@base_le A).
Proof. unfold base_le. intros ???. lia. Qed.
#[export] Instance base_le_total A : Total (@base_le A).
Proof. unfold base_le. intros ??. lia. Qed.

(** [list_segments], over the names of the directory's entries, in the order the
    operating system lists them; [to_str] of a name that is not UTF-8 skips it. *)
Definition list_segments (entries : list (list byte)) : list (Seq * list byte) :=
  let found := omap (λ name,
    if utf8_valid name then seq ← parse_segment_name name; Some (seq, name) else None) entries in
  merge_sort base_le found.

(** ** Cursors *)

(** The files of the cursor directory, by name. *)
Abbreviation Files := (gmap (list byte) (list byte)).

(** [Path::with_extension("tmp")] of a file name. *)
Definition with_tmp (name : list byte) : list byte :=
  let stem := match list_find (λ c, c = ch_point) (reverse name) with
              | Some (n, _) =>
                  (** a name that only starts with a point has no extension *)
                  let k := (length name - n - 1)%nat in
                  if Nat.eqb k 0 then name else take k name
              | None => name
              end in
  stem ++ str ".tmp".

Record Cursor := mkCursor { cu_name : list byte; cu_seq : Seq }.

Inductive CursorError := ReadCursor | WriteCursor | RenameCursor.

(** [Cursor::load]: a missing file and an unreadable number both mean the start;
    a file that is not UTF-8 is an error of the read. *)
Definition cursor_load (fs : Files) (name : list byte) : result CursorError Cursor :=
  match fs !! name with
  | Some text =>
      if utf8_valid text then Ok (mkCursor name (default SEQ_ZERO (parse_u64 (trim text))))
      else Err ReadCursor
  | None => Ok (mkCursor name SEQ_ZERO)
  end.

(** What the operating system makes of a commit: a file that cannot be opened is
    not touched, a failed write leaves any prefix of the text behind. *)
Inductive CommitIo := CommitOk | OpenFailed | WriteFailed (kept : nat) | RenameFailed.

Definition cursor_line (seq : Seq) : list byte := dec seq ++ [z2b 10].

Definition cursor_commit (io : CommitIo) (seq : Seq) (fs : Files) (c : Cursor) :
    Files * result CursorError Cursor :=
  if seq <? cu_seq c then (fs, Ok c)
  else
    let tmp := with_tmp (cu_name c) in
    let text := cursor_line seq in
    match io with
    | OpenFailed => (fs, Err WriteCursor)
    | WriteFailed kept => (<[tmp := take kept text]> fs, Err WriteCursor)
    | RenameFailed => (<[tmp := text]> fs, Err RenameCursor)
    | CommitOk => (<[cu_name c := text]> (delete tmp fs), Ok (mkCursor (cu_name c) seq))
    end.

(** A consumer that commits again and again, an error leaving its cursor as it was. *)
Definition cursor_commits (ops : list (CommitIo * Seq)) (fs : Files) (c : Cursor) : Files * Cursor :=
  foldl (λ st op,
    let '(fs', r) := cursor_commit op.1 op.2 st.1 st.2 in
    (fs', match r with Ok c' => c' | Err _ => st.2 end)) (fs, c) ops.

(** ** Names and numbers *)

Lemma parse_segment_name_hex s : in_u64 s → parse_segment_name (segment_name s) = Some s.
Proof.
  intros Hs. unfold parse_segment_name, segment_name. rewrite strip_suffix_app.
  cbn [mbind option_bind]. rewrite length_hex. cbn [Nat.eqb negb].
  unfold parse_uint. destruct (hex_fixed 16 s) as [|c l] eqn:E.
  { apply (f_equal length) in E. by rewrite length_hex in E. }
  rewrite bool_decide_eq_false_2.
  - rewrite <-E, hex_loop; [done| |done|]; unfold_ranges; simpl; lia.
  - assert (c ≠ ch_plus); [|done]. intros ->.
    assert (to_digit 16 ch_plus = None) as Hp by reflexivity.
    assert (radix_loop 16 u64_max (ch_plus :: l) 0 = Some (0 * 16 ^ Z.of_nat 16 + s)) as Hl.
    { rewrite <-E. apply hex_loop; unfold_ranges; simpl; lia. }
    cbn [radix_loop] in Hl. by rewrite Hp in Hl.
Qed.

(** Fixed width makes the order of the names the order of the numbers. *)
Lemma bytes_leb_app a b x y :
  length a = length b → a ≠ b → bytes_leb (a ++ x) (b ++ y) = bytes_leb a b.
Proof.
  revert b. induction a as [|c a IH]; intros [|d b] Hl Hne; try done. cbn [app bytes_leb].
  repeat case_bool; try done. apply IH; [by injection Hl|]. intros ->. apply Hne. f_equal.
  apply b2z_inj. z_reflect. lia.
Qed.

Lemma bytes_leb_snoc a b x y :
  length a = length b → bytes_leb (a ++ [x]) (b ++ [y]) = true ↔
    (a ≠ b ∧ bytes_leb a b = true) ∨ (a = b ∧ b2z x ≤ b2z y).
Proof.
  revert b. induction a as [|c a IH]; intros [|d b] Hl; try done; cbn [app bytes_leb].
  - repeat case_bool; z_reflect; naive_solver lia.
  - injection Hl as Hl. specialize (IH b Hl).
    destruct (Z.ltb_spec (b2z c) (b2z d)); [split; [left; split; [|done]; intros [= ->]; lia|done]|].
    destruct (Z.ltb_spec (b2z d) (b2z c)).
    { split; [done|]. intros [[_ ?]|[[= -> ->] _]]; [done|lia]. }
    assert (c = d) as -> by (apply b2z_inj; lia). rewrite IH. split.
    + intros [[Hne H1]|[-> H1]]; [left; split; [congruence|done]|by right].
    + intros [[Hne H1]|[[= ->] H1]]; [left; split; [congruence|done]|by right].
Qed.

Lemma b2z_hex n : 0 ≤ n < 16 → b2z (hex_lower n) = if n <? 10 then 48 + n else 87 + n.
Proof. intros Hn. unfold hex_lower. case_bool; z_reflect; apply b2z_z2b; lia. Qed.

Lemma hex_inj w : ∀ a b,
  0 ≤ a < 16 ^ Z.of_nat w → 0 ≤ b < 16 ^ Z.of_nat w → hex_fixed w a = hex_fixed w b → a = b.
Proof.
  intros a b Ha Hb E. pose proof (hex_loop w a (16 ^ Z.of_nat w) 0 ltac:(lia) ltac:(lia) ltac:(lia)) as H1.
  pose proof (hex_loop w b (16 ^ Z.of_nat w) 0 ltac:(lia) ltac:(lia) ltac:(lia)) as H2.
  rewrite E in H1. rewrite H1 in H2. injection H2. lia.
Qed.

Lemma hex_order w : ∀ a b,
  0 ≤ a < 16 ^ Z.of_nat w → 0 ≤ b < 16 ^ Z.of_nat w →
  bytes_leb (hex_fixed w a) (hex_fixed w b) = true ↔ a ≤ b.
Proof.
  induction w as [|w IH]; intros a b Ha Hb; [simpl in *; split; [lia|done]|].
  cbn [hex_fixed]. rewrite Nat2Z.inj_succ, Z.pow_succ_r in * by lia.
  pose proof (Z.div_mod a 16 ltac:(lia)). pose proof (Z.mod_pos_bound a 16 ltac:(lia)).
  pose proof (Z.div_mod b 16 ltac:(lia)). pose proof (Z.mod_pos_bound b 16 ltac:(lia)).
  assert (0 ≤ a / 16 < 16 ^ Z.of_nat w) as Ha' by
    (split; [apply Z.div_pos; lia|apply Z.div_lt_upper_bound; lia]).
  assert (0 ≤ b / 16 < 16 ^ Z.of_nat w) as Hb' by
    (split; [apply Z.div_pos; lia|apply Z.div_lt_upper_bound; lia]).
  rewrite bytes_leb_snoc by (by rewrite !length_hex). rewrite IH by done.
  rewrite !b2z_hex by done. split.
  - intros [[Hne Hle]|[E Hle]].
    + assert (a / 16 ≠ b / 16) by congruence. lia.
    + apply hex_inj in E; [|done|done]. repeat case_bool; z_reflect; lia.
  - intros Hle. destruct (decide (a / 16 = b / 16)) as [E|Hne].
    + right. rewrite E. split; [done|]. repeat case_bool; z_reflect; lia.
    + left. split; [|lia]. intros E. by apply hex_inj in E.
Qed.

Lemma segment_name_order a b :
  in_u64 a → in_u64 b → bytes_leb (segment_name a) (segment_name b) = true ↔ a ≤ b.
Proof.
  intros Ha Hb. unfold segment_name.
  assert (0 ≤ a < 16 ^ Z.of_nat 16) by (unfold_ranges; simpl; lia).
  assert (0 ≤ b < 16 ^ Z.of_nat 16) by (unfold_ranges; simpl; lia).
  destruct (decide (a = b)) as [->|Hne].
  - split; [done|]. intros _. destruct (bytes_leb_total (hex_fixed 16 b ++ str "." ++ SEGMENT_EXT)
      (hex_fixed 16 b ++ str "." ++ SEGMENT_EXT)); done.
  - rewrite bytes_leb_app; [by apply hex_order|by rewrite !length_hex|].
    intros E. by apply hex_inj in E.
Qed.

(** ** Listing *)

Lemma ascii_utf8 l : Forall (λ c, b2z c < 128) l → utf8_valid l = true.
Proof.
  induction 1 as [|c l Hc _ IH]; [done|]. cbn [utf8_valid]. by rewrite (proj2 (Z.ltb_lt _ _)).
Qed.

Lemma hex_ascii w : ∀ n, 0 ≤ n → Forall (λ c, b2z c < 128) (hex_fixed w n).
Proof.
  induction w as [|w IH]; intros n Hn; [constructor|]. cbn [hex_fixed].
  pose proof (Z.mod_pos_bound n 16 ltac:(lia)).
  apply Forall_app. split; [apply IH, Z.div_pos; lia|]. repeat constructor.
  rewrite b2z_hex by done. case_bool; z_reflect; lia.
Qed.

Lemma segment_name_utf8 s : in_u64 s → utf8_valid (segment_name s) = true.
Proof.
  intros Hs. apply ascii_utf8. unfold segment_name. apply Forall_app. split.
  - apply hex_ascii. unfold_ranges. lia.
  - by repeat constructor.
Qed.

Lemma omap_none {A B} (f : A → option B) (l : list A) : (∀ x, x ∈ l → f x = None) → omap f l = [].
Proof.
  induction l as [|x l IH]; intros H; [done|]. simpl. rewrite (H x) by left.
  apply IH. intros y Hy. apply H. by right.
Qed.

Lemma omap_all {A B C} (f : B → option C) (g : A → B) (h : A → C) (l : list A) :
  (∀ x, x ∈ l → f (g x) = Some (h x)) → omap f (g <$> l) = h <$> l.
Proof.
  induction l as [|x l IH]; intros H; [done|]. simpl. rewrite (H x) by left. simpl. f_equal.
  apply IH. intros y Hy. apply H. by right.
Qed.

(** Carrying an order along a map that keeps it on the elements of the list. *)
Lemma sorted_map {A B} (f : A → B) (P : A → Prop) (R : A → A → Prop) (S : B → B → Prop) (l : list A) :
  (∀ x y, P x → P y → R x y → S (f x) (f y)) →
  Forall P l → StronglySorted R l → StronglySorted S (f <$> l).
Proof.
  intros H HP Hs. induction Hs as [|x l _ IH Hx]; [constructor|]. apply Forall_cons in HP as [HP HPl].
  simpl. constructor; [by apply IH|]. apply Forall_fmap. rewrite Forall_forall in *.
  intros y Hy. simpl. auto.
Qed.

Lemma sorted_unmap {A B} (f : A → B) (R : A → A → Prop) (S : B → B → Prop) (l : list A) :
  (∀ x y, S (f x) (f y) → R x y) → StronglySorted S (f <$> l) → StronglySorted R l.
Proof.
  intros H. induction l as [|x l IH]; intros Hs; [constructor|]. simpl in Hs.
  apply StronglySorted_cons in Hs as [Hx Hs]. constructor; [auto|].
  rewrite Forall_fmap in Hx. rewrite Forall_forall in *. unfold compose in Hx. auto.
Qed.

Lemma strictly_sorted (l : list Z) : StronglySorted Z.le l → NoDup l → StronglySorted Z.lt l.
Proof.
  induction 1 as [|x l _ IH Hx]; intros Hn; [constructor|]. apply NoDup_cons in Hn as [Hx' Hn].
  constructor; [auto|]. rewrite Forall_forall in *. intros y Hy. specialize (Hx y Hy).
  assert (x ≠ y) by (intros ->; done). lia.
Qed.

(** What is in the directory that a listing passes over. *)
Definition not_a_segment (name : list byte) : Prop :=
  utf8_valid name = false ∨ parse_segment_name name = None.

(** The names are the index. Whatever else the journal directory holds, and in whatever
    order the operating system lists it, listing finds exactly the segments that
    were written, each under the base sequence its name was made from, in
    increasing order of that sequence; and the order of the sequences is the
    order of the names. *)
Theorem segments_listed (bases : list Seq) (junk entries : list (list byte)) :
  Forall in_u64 bases → NoDup bases → Forall not_a_segment junk →
  entries ≡ₚ (segment_name <$> bases) ++ junk →
  ∃ sorted, list_segments entries = (λ b, (b, segment_name b)) <$> sorted ∧
    sorted ≡ₚ bases ∧ StronglySorted Z.lt sorted ∧
    StronglySorted (λ a b, bytes_leb a b = true) (segment_name <$> sorted).
Proof.
  intros Hb Hnd Hj He.
  set (name b := (b, segment_name b)).
  set (see := λ name, if utf8_valid name then seq ← parse_segment_name name; Some (seq, name) else None).
  assert (omap see entries ≡ₚ name <$> bases) as Hfound.
  { rewrite He, omap_app, (omap_none see junk), (omap_all see segment_name name), app_nil_r; [done|..].
    - intros b Hin. rewrite Forall_forall in Hb. unfold see.
      by rewrite segment_name_utf8, parse_segment_name_hex by auto.
    - intros x Hin. rewrite Forall_forall in Hj. unfold see.
      destruct (Hj x Hin) as [-> | ->]; [done|by destruct (utf8_valid x)]. }
  destruct (Permutation_map_inv name (l1 := list_segments entries) bases) as (sorted & El & Hp).
  { etrans; [apply merge_sort_Permutation|done]. }
  exists sorted. change (map name sorted) with (name <$> sorted) in El.
  assert (Forall in_u64 sorted) as Hu by (by rewrite <-Hp).
  assert (StronglySorted Z.le sorted) as Hs.
  { apply (sorted_unmap name _ base_le); [done|]. rewrite <-El. apply (StronglySorted_merge_sort _ _). }
  split_and!; [done|done| |].
  - apply strictly_sorted; [done|]. by rewrite <-Hp.
  - apply (sorted_map segment_name in_u64 Z.le); [|done|done].
    intros a b Ha' Hb' Hab. by apply segment_name_order.
Qed.

Lemma segments_listed_witness :
  let bases := [256; 1; 4096] in
  let junk := [str "LOCK"; str "cursors"; str "0000000000000001.tmp"; str "1.jrnl"] in
  let entries := [str "0000000000001000.jrnl"; str "LOCK"; str "0000000000000100.jrnl"; str "cursors";
                  str "0000000000000001.tmp"; str "0000000000000001.jrnl"; str "1.jrnl"] in
  list_segments entries = (λ b, (b, segment_name b)) <$> [1; 256; 4096] ∧
  ∃ sorted, list_segments entries = (λ b, (b, segment_name b)) <$> sorted ∧
    sorted ≡ₚ bases ∧ StronglySorted Z.lt sorted ∧
    StronglySorted (λ a b, bytes_leb a b = true) (segment_name <$> sorted).
Proof.
  intros bases junk entries. split; [vm_compute; reflexivity|].
  apply (segments_listed bases junk entries).
  - repeat constructor; unfold bases; unfold_ranges; lia.
  - apply (bool_decide_unpack _). vm_compute. exact I.
  - repeat constructor; right; vm_compute; reflexivity.
  - apply (bool_decide_unpack _). vm_compute. exact I.
Defined.

(** A name that [segment_name] never writes is read as a segment: the parser of the
    integers takes a sign and either case of digit. *)
Example foreign_name_read :
  parse_segment_name (str "+00000000000000a.jrnl") = Some 10 ∧
  parse_segment_name (str "000000000000000A.jrnl") = Some 10.
Proof. split; vm_compute; reflexivity. Qed.

(** ** Cursors across restarts *)

Lemma cursor_line_utf8 n : 0 ≤ n → utf8_valid (cursor_line n) = true.
Proof.
  intros Hn. destruct (dec_spec n Hn) as (Hd & _). apply ascii_utf8. unfold cursor_line.
  apply Forall_app. split; [|by repeat constructor].
  eapply Forall_impl; [exact Hd|]. intros c Hc. unfold is_ascii_digit in Hc. z_reflect. lia.
Qed.

Lemma cursor_line_loads fs name n :
  in_u64 n → fs !! name = Some (cursor_line n) → cursor_load fs name = Ok (mkCursor name n).
Proof.
  intros Hn Hf. unfold cursor_load. rewrite Hf, cursor_line_utf8 by (unfold_ranges; lia).
  unfold cursor_line. rewrite trim_line by (unfold_ranges; lia).
  unfold parse_u64. by rewrite parse_dec by (unfold_ranges; lia).
Qed.

Lemma cursor_load_same fs fs' name :
  fs' !! name = fs !! name → cursor_load fs' name = cursor_load fs name.
Proof. unfold cursor_load. by intros ->. Qed.

Lemma cursor_commit_keeps io n fs c :
  in_u64 n → with_tmp (cu_name c) ≠ cu_name c → cursor_load fs (cu_name c) = Ok c →
  let '(fs', r) := cursor_commit io n fs c in
  let c' := match r with Ok c' => c' | Err _ => c end in
  cursor_load fs' (cu_name c) = Ok c' ∧ cu_name c' = cu_name c ∧ cu_seq c ≤ cu_seq c'.
Proof.
  intros Hn Ht Hl. unfold cursor_commit. case_bool; z_reflect; [done|].
  destruct io; cbn; split_and!; try done; try lia.
  - apply cursor_line_loads; [done|]. by rewrite lookup_insert_eq.
  - rewrite <-Hl. apply cursor_load_same. by rewrite lookup_insert_ne.
  - rewrite <-Hl. apply cursor_load_same. by rewrite lookup_insert_ne.
Qed.

(** A consumer's cursor is never half written and never moves back. Take a cursor as it is
    loaded, and any run of commits, of any sequences, the operating system
    failing any of them at any point: what a process that starts afterwards
    loads is the position the consumer holds, which is no earlier than the one
    it began with. *)
Theorem cursor_survives (fs : Files) (name : list byte) (c : Cursor) (ops : list (CommitIo * Seq)) :
  with_tmp name ≠ name → cursor_load fs name = Ok c → Forall in_u64 ops.*2 →
  let '(fs', c') := cursor_commits ops fs c in
  cursor_load fs' name = Ok c' ∧ cu_seq c ≤ cu_seq c'.
Proof.
  intros Ht Hl Hops. assert (cu_name c = name) as Hname.
  { unfold cursor_load in Hl. by repeat case_match; simplify_eq. }
  subst name. revert fs c Ht Hl. induction ops as [|[io n] ops IH]; intros fs c Ht Hl; [done|].
  apply Forall_cons in Hops as [Hn Hops].
  pose proof (cursor_commit_keeps io n fs c Hn Ht Hl) as Hk. unfold cursor_commits. cbn [foldl fst snd].
  destruct (cursor_commit io n fs c) as [fs1 r]. destruct Hk as (Hl1 & Hn1 & Hle).
  set (c1 := match r with Ok c' => c' | Err _ => c end) in *.
  rewrite <-Hn1 in Ht, Hl1 |- *. specialize (IH Hops fs1 c1 Ht Hl1). unfold cursor_commits in IH.
  destruct (foldl _ _ ops) as [fs2 c2]. destruct IH. split; [done|lia].
Qed.

Lemma cursor_survives_witness :
  let name := str "projectord" in
  let ops := [(CommitOk, 7); (WriteFailed 1, 12); (CommitOk, 3); (RenameFailed, 40); (CommitOk, 15)] in
  let '(fs', c') := cursor_commits ops ∅ (mkCursor name 0) in
  cu_seq c' = 15 ∧ fs' !! name = Some (cursor_line 15) ∧
  (cursor_load fs' name = Ok c' ∧ cu_seq (mkCursor name 0) ≤ cu_seq c').
Proof.
  intros name ops.
  pose proof (cursor_survives ∅ name (mkCursor name 0) ops) as H. revert H.
  destruct (cursor_commits ops ∅ (mkCursor name 0)) as [fs' c'] eqn:E.
  intros H.
  assert (cu_seq c' = 15 ∧ fs' !! name = Some (cursor_line 15)) as [H1 H2].
  { apply pair_equal_spec in E as [<- <-]. split; vm_compute; reflexivity. }
  refine (conj H1 (conj H2 (H _ _ _))).
  - intros Hn. apply (f_equal length) in Hn. vm_compute in Hn. discriminate Hn.
  - vm_compute. reflexivity.
  - unfold ops. cbn [fmap list_fmap snd]. repeat (constructor; [unfold_ranges; lia|]). constructor.
Defined.
