(* ===== verification/Risk.v ===== *)
(** * Sizing and protective geometry (sentinel-risk/src/lib.rs)

    How much a decision is worth, where it is wrong, and where the trailing stop
    stands.  Every multiplication is widened to [i128] and rescaled once, so it
    is a [Z] product here; [i64::abs] is the one operation that can panic. *)

From S2P Require Import Prelude Fixed.

(** ** Ratios *)

Record Ratio := ratio_raw { ratio : Z }.

Definition RATIO_ZERO : Ratio := ratio_raw 0.
Definition RATIO_ONE : Ratio := ratio_raw SCALE.

Definition ratio_parse (s : list byte) : result ParseError Ratio :=
  match parse_e8 s with
  | Ok raw => Ok (ratio_raw raw)
  | Err e => Err e
  end.

Definition clamped (r : Ratio) : Ratio :=
  if ratio r <? 0 then RATIO_ZERO
  else if SCALE <? ratio r then RATIO_ONE
  else r.

Definition ratio_is_positive (r : Ratio) : bool := 0 <? ratio r.

Definition ratio_to_string (r : Ratio) : list byte := to_string (from_raw (ratio r) : Price).

(** ** The two rescalings *)

Definition scale (amount : Money) (r : Ratio) : Money :=
  let product := raw amount * ratio r in
  let scaled := Z.quot product SCALE in
  match i64_try_from scaled with Some v => from_raw v | None => ZERO end.

Definition divide (amount : Money) (price : Price) : Qty :=
  if negb (is_positive price) then ZERO
  else
    let numerator := raw amount * SCALE in
    let quotient := Z.quot numerator (raw price) in
    match i64_try_from quotient with Some v => from_raw v | None => ZERO end.

(** ** Sizing *)

Record RiskParams := mkRiskParams {
  risk_pct : Ratio;
  max_leverage : Ratio;
  stop_atr_mult : Ratio;
  fallback_stop_pct : Ratio;
  rr : Ratio;
  trail : bool;
}.

Record Caps := mkCaps {
  margin : option Qty;
  bracket : option Qty;
  available : option Qty;
}.

(** The caps that are there, in the order they are applied. *)
Definition cap_list (c : Caps) : list Qty := flatten [margin c; bracket c; available c].

Definition caps_apply (c : Caps) (qty : Qty) : Qty :=
  foldl (λ q cap, min q (max cap ZERO)) qty (cap_list c).

Definition risk_sized_qty (params : RiskParams) (equity : Money) (price : Price)
    (stop_dist : option Price) (conviction : Ratio) (caps : Caps) : Qty :=
  match stop_dist with
  | None => ZERO
  | Some stop_dist =>
      if negb (is_positive equity) || negb (is_positive price) || negb (is_positive stop_dist)
      then ZERO
      else
        let risk_amount := scale (scale equity (risk_pct params)) (clamped conviction) in
        let qty := divide risk_amount stop_dist in
        let leverage_cap := divide (scale equity (max_leverage params)) price in
        caps_apply caps (min qty leverage_cap)
  end.

(** ** Volatility *)

Record Candle := mkCandle { open : Price; high : Price; low : Price; close : Price }.

(** [i64::abs] of the least value overflows, and overflow panics. *)
Inductive AtrPanic := AbsOverflow.

Definition i64_abs (z : Z) : result AtrPanic Z :=
  if z =? i64_min then Err AbsOverflow else Ok (Z.abs z).

Fixpoint atr_loop (candles : list Candle) (total : Z) (prev_close : Price) :
    result AtrPanic Z :=
  match candles with
  | [] => Ok total
  | candle :: candles' =>
      let range := i64_saturate (raw (high candle) - raw (low candle)) in
      up_gap ← i64_abs (i64_saturate (raw (high candle) - raw prev_close));
      down_gap ← i64_abs (i64_saturate (raw (low candle) - raw prev_close));
      atr_loop candles' (total + Z.max (Z.max range up_gap) down_gap) (close candle)
  end.

Definition atr (candles : list Candle) (period : nat) : result AtrPanic (option Price) :=
  if Nat.eqb period 0 || (length candles <? period + 1)%nat then Ok None
  else
    match drop (length candles - period - 1) candles with
    | [] => Ok None
    | first :: window =>
        total ← atr_loop window 0 (close first);
        let mean := Z.quot total (Z.of_nat (length window)) in
        Ok (from_raw <$> i64_try_from mean)
    end.

Definition stop_distance (params : RiskParams) (price : Price) (atr_value : option Price) :
    Price :=
  let fallback := from_raw (raw (scale (from_raw (raw price)) (fallback_stop_pct params))) in
  match atr_value with
  | Some value =>
      if is_positive value
      then from_raw (raw (scale (from_raw (raw value)) (stop_atr_mult params)))
      else fallback
  | None => fallback
  end.

(** ** Brackets *)

Definition brackets (entry : Price) (is_long : bool) (stop_dist : Price) (rr : Ratio) :
    Price * option Price :=
  let take_dist :=
    if ratio_is_positive rr then Some (raw (scale (from_raw (raw stop_dist)) rr)) else None in
  if is_long then
    (from_raw (i64_saturate (raw entry - raw stop_dist)),
     (λ d, from_raw (i64_saturate (raw entry + d))) <$> take_dist)
  else
    (from_raw (i64_saturate (raw entry + raw stop_dist)),
     (λ d, from_raw (i64_saturate (raw entry - d))) <$> take_dist).

Inductive Breach := Stop | Take.

Definition breached (is_long : bool) (mark stop : Price) (take : option Price) : option Breach :=
  if is_long then
    if leb mark stop then Some Stop
    else if match take with Some t => leb t mark | None => false end then Some Take
    else None
  else
    if leb stop mark then Some Stop
    else if match take with Some t => leb mark t | None => false end then Some Take
    else None.

Definition trail_ratchet (is_long : bool) (entry price stop_dist : Price)
    (watermark previous_stop : option Price) : Price * Price :=
  if is_long then
    let wm := match watermark with Some w => max w price | None => price end in
    let anchored := from_raw (i64_saturate (raw entry - raw stop_dist)) in
    let trailing := from_raw (i64_saturate (raw wm - raw stop_dist)) in
    let stop := max anchored trailing in
    (wm, match previous_stop with Some prev => max stop prev | None => stop end)
  else
    let wm := match watermark with Some w => min w price | None => price end in
    let anchored := from_raw (i64_saturate (raw entry + raw stop_dist)) in
    let trailing := from_raw (i64_saturate (raw wm + raw stop_dist)) in
    let stop := min anchored trailing in
    (wm, match previous_stop with Some prev => min stop prev | None => stop end).

(** ** The rescalings round down *)

Lemma scale_bounds a r :
  0 ≤ raw a → 0 ≤ ratio r → 0 ≤ raw (scale a r) ∧ raw (scale a r) * SCALE ≤ raw a * ratio r.
Proof.
  intros Ha Hr. unfold scale, i64_try_from, SCALE.
  assert (0 ≤ Z.quot (raw a * ratio r) 100000000) by (apply Z.quot_pos; nia).
  pose proof (Z.mul_quot_le (raw a * ratio r) 100000000 ltac:(nia) ltac:(lia)).
  case_bool; simpl; nia.
Qed.

Lemma divide_bounds a p :
  0 ≤ raw a → 0 ≤ raw (divide a p) ∧ (0 < raw p → raw (divide a p) * raw p ≤ raw a * SCALE).
Proof.
  intros Ha. unfold divide, is_positive, i64_try_from. case_bool; z_reflect; simpl.
  { unfold SCALE. nia. }
  assert (0 ≤ Z.quot (raw a * SCALE) (raw p)) by (apply Z.quot_pos; [unfold SCALE; nia|lia]).
  pose proof (Z.mul_quot_le (raw a * SCALE) (raw p) ltac:(unfold SCALE; nia) ltac:(lia)).
  case_bool; simpl; unfold SCALE in *; nia.
Qed.

(** When the result is representable, nothing larger would do. *)
Lemma divide_greatest a p x :
  0 ≤ raw a → 0 < raw p → Z.quot (raw a * SCALE) (raw p) ≤ i64_max → 0 ≤ x →
  x * raw p ≤ raw a * SCALE ↔ x ≤ raw (divide a p).
Proof.
  intros Ha Hp Hfit Hx. unfold divide, is_positive.
  rewrite (proj2 (Z.ltb_lt 0 (raw p)) Hp). cbn [negb].
  assert (0 ≤ raw a * SCALE) by (unfold SCALE; nia).
  assert (0 ≤ Z.quot (raw a * SCALE) (raw p)) by (apply Z.quot_pos; lia).
  assert (i64_try_from (Z.quot (raw a * SCALE) (raw p)) = Some (Z.quot (raw a * SCALE) (raw p)))
    as -> by (apply i64_checked_in; unfold_ranges; lia).
  cbn [raw]. split.
  - intros Hle. apply Z.quot_le_lower_bound; lia.
  - intros Hle. pose proof (Z.mul_quot_le (raw a * SCALE) (raw p) ltac:(lia) ltac:(lia)). nia.
Qed.

Lemma clamped_bounds r : 0 ≤ ratio (clamped r) ≤ SCALE.
Proof. unfold clamped. repeat case_bool; z_reflect; simpl; unfold SCALE in *; lia. Qed.

(** Applying caps is taking a minimum. *)
Lemma caps_apply_spec c q x :
  x ≤ raw (caps_apply c q) ↔ x ≤ raw q ∧ Forall (λ cap, x ≤ Z.max 0 (raw cap)) (cap_list c).
Proof.
  unfold caps_apply. generalize (cap_list c). intros l. revert q.
  induction l as [|cap l IH]; intros q; cbn [foldl]; [by rewrite Forall_nil; naive_solver|].
  rewrite IH, Forall_cons, raw_min, raw_max. cbn [raw ZERO]. rewrite Z.min_glb_iff, (Z.max_comm 0).
  naive_solver.
Qed.

(** ** A stop-out costs what was sized for *)

Definition params_ok (p : RiskParams) : Prop := 0 ≤ ratio (risk_pct p) ∧ 0 ≤ ratio (max_leverage p).

Lemma stop_gap entry is_long d rr :
  0 ≤ raw d → e8_ok entry → Z.abs (raw entry - raw (brackets entry is_long d rr).1) ≤ raw d.
Proof. intros Hd He. unfold brackets, e8_ok in *. destruct is_long; simpl; unfold_ranges; lia. Qed.

Lemma risk_sized_cases params equity price d conviction caps q :
  risk_sized_qty params equity price (Some d) conviction caps = q →
  q = ZERO ∨
  (0 < raw equity ∧ 0 < raw price ∧ 0 < raw d ∧
   q = caps_apply caps
         (min (divide (scale (scale equity (risk_pct params)) (clamped conviction)) d)
            (divide (scale equity (max_leverage params)) price))).
Proof.
  unfold risk_sized_qty, is_positive. intros <-. case_bool; [by left|]. z_reflect. by right.
Qed.

Lemma chain_budget q g d qd b2 b1 c er :
  0 ≤ q → g ≤ d → 0 ≤ d → qd * d ≤ b2 * SCALE → b2 * SCALE ≤ b1 * c → b1 * SCALE ≤ er →
  q ≤ qd ∧ 0 ≤ c → q * g * SCALE ≤ er * c.
Proof.
  intros Hq Hg Hd H1 H2 H3 [Hle Hc]. unfold SCALE in *.
  assert (q * g ≤ q * d) by (by apply Z.mul_le_mono_nonneg_l).
  assert (q * d ≤ qd * d) by (by apply Z.mul_le_mono_nonneg_r).
  assert (b1 * 100000000 * c ≤ er * c) by (by apply Z.mul_le_mono_nonneg_r). lia.
Qed.

(** C19: sized to where it is wrong.  Whatever the price, the stop distance, the
    conviction and the caps, and with no assumption about overflow: the quantity
    is not negative; marked at the stop that [brackets] places for it, on either
    side, the loss is at most conviction times risk times equity, with the
    conviction taken between nothing and one; its notional is within the
    leverage; and it is under every cap that was given. *)
Theorem risk_sized_bounds params equity price d conviction caps :
  params_ok params →
  let q := raw (risk_sized_qty params equity price (Some d) conviction caps) in
  0 ≤ q ∧
  (0 < raw equity → 0 < raw d → ∀ entry is_long, e8_ok entry →
     q * Z.abs (raw entry - raw (brackets entry is_long d (rr params)).1) * SCALE ≤
       raw equity * ratio (risk_pct params) * Z.max 0 (Z.min SCALE (ratio conviction))) ∧
  (0 < raw equity → 0 < raw price → q * raw price ≤ raw equity * ratio (max_leverage params)) ∧
  Forall (λ cap, q ≤ Z.max 0 (raw cap)) (cap_list caps).
Proof.
  intros [Hr Hl] q.
  assert (Z.max 0 (Z.min SCALE (ratio conviction)) = ratio (clamped conviction)) as ->.
  { unfold clamped. repeat case_bool; z_reflect; simpl; unfold SCALE in *; lia. }
  pose proof (clamped_bounds conviction) as Hc.
  destruct (risk_sized_cases params equity price d conviction caps _ eq_refl)
    as [E|(He & Hp & Hd & E)]; unfold q; rewrite E; clear q E.
  { cbn [raw ZERO]. split_and!; try (intros; nia). apply Forall_forall. intros. lia. }
  set (b1 := scale equity (risk_pct params)). set (b2 := scale b1 (clamped conviction)).
  set (lev := scale equity (max_leverage params)).
  destruct (scale_bounds equity (risk_pct params)) as [Hb1 Hb1']; [lia|done|].
  destruct (scale_bounds b1 (clamped conviction)) as [Hb2 Hb2']; [done|lia|].
  destruct (scale_bounds equity (max_leverage params)) as [Hlev Hlev']; [lia|done|].
  destruct (divide_bounds b2 d Hb2) as [Hq Hq'], (divide_bounds lev price Hlev) as [Hm Hm'].
  specialize (Hq' Hd). specialize (Hm' Hp).
  set (q := caps_apply caps _).
  destruct (proj1 (caps_apply_spec caps _ (raw q)) (Z.le_refl _)) as [Hqm Hcaps].
  rewrite raw_min in Hqm. change (raw q ≤ Z.min (raw (divide b2 d)) (raw (divide lev price))) in Hqm.
  assert (0 ≤ raw q) as Hq0.
  { apply caps_apply_spec. rewrite raw_min. split; [lia|]. apply Forall_forall. intros. lia. }
  split_and!; [done| | |done].
  - intros _ _ entry is_long Hent. pose proof (stop_gap entry is_long d (rr params) ltac:(lia) Hent).
    eapply chain_budget; [exact Hq0|exact H|lia|exact Hq'|exact Hb2'|exact Hb1'|split; [lia|apply clamped_bounds]].
  - intros _ _. transitivity (raw (divide lev price) * raw price); [|by etransitivity].
    apply Z.mul_le_mono_nonneg_r; lia.
Qed.

Definition ex_ratio (s : string) : Ratio := unwrap_or (ratio_parse (str s)) RATIO_ZERO.
Definition ex_params : RiskParams :=
  mkRiskParams (ex_ratio "0.02") (ex_ratio "100") (ex_ratio "2") (ex_ratio "0.01") (ex_ratio "1.5") false.

(** Two percent of ten thousand over a stop of one hundred: two units. *)
Example ex_sized :
  risk_sized_qty ex_params (whole 10000) (whole 1000) (Some (whole 100)) RATIO_ONE
    (mkCaps None None None) = whole 2.
Proof. reflexivity. Qed.

Lemma risk_sized_bounds_witness :
  let q := 200000000 in
  0 ≤ q ∧
  (0 < raw (whole 10000 : Money) → 0 < raw (whole 100 : Price) → ∀ entry is_long, e8_ok entry →
     q * Z.abs (raw entry - raw (brackets entry is_long (whole 100) (rr ex_params)).1) * SCALE ≤
       raw (whole 10000 : Money) * ratio (risk_pct ex_params) *
       Z.max 0 (Z.min SCALE (ratio RATIO_ONE))) ∧
  (0 < raw (whole 10000 : Money) → 0 < raw (whole 1000 : Price) →
     q * raw (whole 1000 : Price) ≤ raw (whole 10000 : Money) * ratio (max_leverage ex_params)) ∧
  Forall (λ cap : Qty, q ≤ Z.max 0 (raw cap)) [].
Proof.
  apply (risk_sized_bounds ex_params (whole 10000) (whole 1000) (whole 100) RATIO_ONE
           (mkCaps None None None)).
  split; vm_compute; congruence.
Defined.

(** And no larger quantity would do: within the two roundings of the budget, the
    result is the greatest under all of the limits. *)
Lemma risk_sized_greatest params equity price d conviction caps x :
  params_ok params → 0 < raw equity → 0 < raw price → 0 < raw d → 0 ≤ x →
  let budget := raw (scale (scale equity (risk_pct params)) (clamped conviction)) in
  let lever := raw (scale equity (max_leverage params)) in
  Z.quot (budget * SCALE) (raw d) ≤ i64_max → Z.quot (lever * SCALE) (raw price) ≤ i64_max →
  x ≤ raw (risk_sized_qty params equity price (Some d) conviction caps) ↔
    x * raw d ≤ budget * SCALE ∧ x * raw price ≤ lever * SCALE ∧
    Forall (λ cap, x ≤ Z.max 0 (raw cap)) (cap_list caps).
Proof.
  intros [Hr Hl] He Hp Hd Hx budget lever Hf1 Hf2. unfold risk_sized_qty, is_positive.
  rewrite !(proj2 (Z.ltb_lt _ _)) by done. cbn [negb orb].
  destruct (scale_bounds equity (risk_pct params)) as [Hb1 _]; [lia|done|].
  destruct (scale_bounds (scale equity (risk_pct params)) (clamped conviction)) as [Hb2 _];
    [done|apply clamped_bounds|].
  destruct (scale_bounds equity (max_leverage params)) as [Hlev _]; [lia|done|].
  rewrite caps_apply_spec, raw_min, Z.min_glb_iff.
  rewrite <-(divide_greatest _ d x) by done. rewrite <-(divide_greatest _ price x) by done. tauto.
Qed.

(** ** The trailing stop *)

(** The better of two prices, and the price a stop distance behind one. *)
Definition best (is_long : bool) (x y : Z) : Z := if is_long then Z.max x y else Z.min x y.
Definition behind (is_long : bool) (x d : Z) : Z :=
  i64_saturate (if is_long then x - d else x + d).
Definition at_least (is_long : bool) (x y : Z) : Prop := if is_long then x ≤ y else y ≤ x.

Lemma best_spec l x y z : at_least l (best l x y) z ↔ at_least l x z ∧ at_least l y z.
Proof. destruct l; simpl; lia. Qed.

Lemma behind_best l x y d : behind l (best l x y) d = best l (behind l x d) (behind l y d).
Proof. unfold behind. destruct l; simpl; unfold_ranges; lia. Qed.

Lemma ratchet_raw l entry price d wm prev :
  let r := trail_ratchet l entry price d wm prev in
  raw r.1 = match wm with Some w => best l (raw w) (raw price) | None => raw price end ∧
  raw r.2 =
    (let s := behind l (best l (raw entry) (raw r.1)) (raw d) in
     match prev with Some p => best l s (raw p) | None => s end).
Proof.
  cbv zeta. rewrite behind_best. unfold trail_ratchet, behind, best.
  destruct l, wm, prev; cbn [fst snd raw]; rewrite ?raw_max, ?raw_min; cbn [raw];
    rewrite ?raw_max, ?raw_min; done.
Qed.

(** The caller's loop: each mark is fed with what the last one returned. *)
Fixpoint trail_run (l : bool) (entry : Price) (marks : list (Price * Price))
    (wm stop : option Price) : option Price * option Price :=
  match marks with
  | [] => (wm, stop)
  | (price, d) :: marks' =>
      let r := trail_ratchet l entry price d wm stop in
      trail_run l entry marks' (Some r.1) (Some r.2)
  end.

(** The best of a list of prices, from [x] on. *)
Definition best_of (l : bool) (x : Z) (ps : list Z) : Z := foldl (best l) x ps.

(** The stop each mark would set on its own: [d] behind the best so far. *)
Fixpoint candidates (l : bool) (x : Z) (marks : list (Price * Price)) : list Z :=
  match marks with
  | [] => []
  | (price, d) :: marks' =>
      behind l (best l x (raw price)) (raw d) :: candidates l (best l x (raw price)) marks'
  end.

Lemma best_assoc l x y z : best l (best l x y) z = best l x (best l y z).
Proof. destruct l; simpl; lia. Qed.

Lemma best_comm l x y : best l x y = best l y x.
Proof. destruct l; simpl; lia. Qed.

Lemma trail_run_spec l entry : ∀ marks w s,
  trail_run l entry marks (Some w) (Some s) =
    (Some (from_raw (best_of l (raw w) (raw ∘ fst <$> marks))),
     Some (from_raw (best_of l (raw s) (candidates l (best l (raw entry) (raw w)) marks)))).
Proof.
  induction marks as [|[p d] marks IH]; intros w s; cbn [trail_run].
  { destruct w, s. done. }
  destruct (ratchet_raw l entry p d (Some w) (Some s)) as [E1 E2].
  rewrite IH. clear IH. cbn [fmap list_fmap compose fst best_of foldl candidates]. cbv zeta in E2.
  rewrite E2, E1. unfold best_of. rewrite best_assoc. do 3 f_equal. by rewrite best_comm.
Qed.

Lemma at_least_refl l x : at_least l x x.
Proof. destruct l; simpl; lia. Qed.

Lemma at_least_trans l x y z : at_least l x y → at_least l y z → at_least l x z.
Proof. destruct l; simpl; lia. Qed.

Lemma at_least_best l x y : at_least l x (best l x y) ∧ at_least l y (best l x y).
Proof. apply best_spec, at_least_refl. Qed.

Lemma best_of_spec l ps : ∀ x,
  best_of l x ps ∈ x :: ps ∧ ∀ y, y ∈ x :: ps → at_least l y (best_of l x ps).
Proof.
  induction ps as [|p ps IH]; intros x; cbn [best_of foldl].
  { split; [by left|]. intros y ->%list_elem_of_singleton. apply at_least_refl. }
  destruct (IH (best l x p)) as [Hin Hle]. change (foldl (best l) (best l x p) ps)
    with (best_of l (best l x p) ps). destruct (at_least_best l x p) as [H1 H2]. split.
  - apply elem_of_cons in Hin as [->|Hin]; [|by do 2 right].
    destruct l; simpl; [destruct (Z.max_spec x p) as [[_ ->]|[_ ->]]
                       |destruct (Z.min_spec x p) as [[_ ->]|[_ ->]]]; set_solver.
  - intros y [->|[->|Hy]%elem_of_cons]%elem_of_cons.
    + eapply at_least_trans; [exact H1|]. apply Hle. by left.
    + eapply at_least_trans; [exact H2|]. apply Hle. by left.
    + apply Hle. by right.
Qed.

Lemma behind_mono l x y d : at_least l x y → at_least l (behind l x d) (behind l y d).
Proof. unfold behind. destruct l; simpl; unfold_ranges; lia. Qed.

Lemma candidate_beyond l d marks : ∀ x,
  d ∈ marks.*2 → ∃ c, c ∈ candidates l x marks ∧ at_least l (behind l x (raw d)) c.
Proof.
  induction marks as [|[p d'] marks IH]; intros x; cbn [fmap list_fmap snd candidates].
  { by intros ?%elem_of_nil. }
  destruct (at_least_best l x (raw p)) as [Hx _]. intros [->|Hd]%elem_of_cons.
  - eexists. split; [by left|]. by apply behind_mono.
  - destruct (IH (best l x (raw p)) Hd) as (c & Hc & Hle). exists c. split; [by right|].
    eapply at_least_trans; [|exact Hle]. by apply behind_mono.
Qed.

Lemma trail_run_app l entry a : ∀ b w s,
  trail_run l entry (a ++ b) w s =
    trail_run l entry b (trail_run l entry a w s).1 (trail_run l entry a w s).2.
Proof. induction a as [|[p d] a IH]; intros; [done|]. cbn [app trail_run]. apply IH. Qed.

Lemma trail_run_first l entry p d marks :
  trail_run l entry ((p, d) :: marks) None None =
    (Some (from_raw (best_of l (raw p) (raw ∘ fst <$> marks))),
     Some (from_raw (best_of l (behind l (best l (raw entry) (raw p)) (raw d))
                      (candidates l (best l (raw entry) (raw p)) marks)))).
Proof.
  cbn [trail_run]. destruct (ratchet_raw l entry p d None None) as [E1 E2].
  by rewrite trail_run_spec, E2, E1.
Qed.

(** C23: the trailing stop only tightens.  Feed any marks, each with a stop
    distance of its own, starting with nothing: the watermark is the best price
    seen, and the stop is the tightest of all the stops the marks would have set
    on their own, each a stop distance behind the better of the entry and the
    best price until then.  So a stop is never looser than an earlier one, nor
    than the bracket at the entry for any distance that was given. *)
Theorem trail_tightens l entry p d marks :
  ∃ wm stop,
    trail_run l entry ((p, d) :: marks) None None = (Some wm, Some stop) ∧
    raw wm = best_of l (raw p) (raw ∘ fst <$> marks) ∧
    raw stop ∈ candidates l (raw entry) ((p, d) :: marks) ∧
    (∀ s, s ∈ candidates l (raw entry) ((p, d) :: marks) → at_least l s (raw stop)) ∧
    (∀ d', d' ∈ ((p, d) :: marks).*2 →
       at_least l (raw (brackets entry l d' RATIO_ZERO).1) (raw stop)) ∧
    (∀ p' d', ∃ wm' stop',
       trail_run l entry (((p, d) :: marks) ++ [(p', d')]) None None = (Some wm', Some stop') ∧
       at_least l (raw stop) (raw stop')).
Proof.
  eexists _, _. split; [apply trail_run_first|]. cbn [raw]. split; [done|].
  destruct (best_of_spec l (candidates l (best l (raw entry) (raw p)) marks)
              (behind l (best l (raw entry) (raw p)) (raw d))) as [Hin Hle].
  split_and!; [exact Hin|exact Hle| |].
  - intros d' Hd'. destruct (candidate_beyond l d' _ (raw entry) Hd') as (c & Hc & Hb).
    eapply at_least_trans; [|apply Hle, Hc]. unfold brackets, behind in *. by destruct l.
  - intros p' d'. rewrite trail_run_app, trail_run_first. cbn [fst snd trail_run].
    eexists _, _. split; [done|]. set (r := trail_ratchet _ _ _ _ _ _).
    destruct (ratchet_raw l entry p' d' (Some (from_raw (best_of l (raw p) (raw ∘ fst <$> marks))))
      (Some (from_raw (best_of l (behind l (best l (raw entry) (raw p)) (raw d))
                      (candidates l (best l (raw entry) (raw p)) marks))))) as [_ E].
    cbv zeta in E. fold r in E. rewrite E. apply at_least_best.
Qed.

Definition ex_marks : list (Price * Price) :=
  [(whole 110, whole 5); (whole 104, whole 5); (whole 112, whole 20)].

(** Bought at 100: the stop goes to 105, stays there when the mark falls back,
    and stays there when the distance widens. *)
Example ex_trail :
  trail_run true (whole 100) ex_marks None None = (Some (whole 112), Some (whole 105)).
Proof. reflexivity. Qed.

(** ** The average true range *)

Definition true_range (prev : Price) (c : Candle) : Z :=
  Z.max (Z.max (raw (high c) - raw (low c)) (Z.abs (raw (high c) - raw prev)))
    (Z.abs (raw (low c) - raw prev)).

Fixpoint true_ranges (prev : Price) (cs : list Candle) : list Z :=
  match cs with
  | [] => []
  | c :: cs' => true_range prev c :: true_ranges (close c) cs'
  end.

(** Prices as venues quote them: not negative. *)
Definition candle_ok (c : Candle) : Prop :=
  0 ≤ raw (high c) ≤ i64_max ∧ 0 ≤ raw (low c) ≤ i64_max ∧ 0 ≤ raw (close c) ≤ i64_max.

Lemma true_range_bounds prev c :
  0 ≤ raw prev ≤ i64_max → candle_ok c → 0 ≤ true_range prev c ≤ i64_max.
Proof. intros Hp (Hh & Hl & _). unfold true_range. lia. Qed.

Lemma atr_loop_run cs : ∀ total prev,
  0 ≤ raw prev ≤ i64_max → Forall candle_ok cs →
  atr_loop cs total prev = Ok (total + zsum (true_ranges prev cs)).
Proof.
  induction cs as [|c cs IH]; intros total prev Hp Hcs; cbn [atr_loop true_ranges zsum foldr].
  { f_equal. lia. }
  apply Forall_cons in Hcs as [Hc Hcs]. pose proof Hc as (Hh & Hl & Hcl).
  rewrite !i64_saturate_in by (unfold_ranges; lia).
  unfold i64_abs. rewrite !(proj2 (Z.eqb_neq _ _)) by (unfold_ranges; lia).
  cbn [mbind result_bind]. rewrite IH by done. unfold true_range, zsum. f_equal. lia.
Qed.

Lemma sum_bounds cs : ∀ prev,
  0 ≤ raw prev ≤ i64_max → Forall candle_ok cs →
  0 ≤ zsum (true_ranges prev cs) ≤ i64_max * Z.of_nat (length cs).
Proof.
  induction cs as [|c cs IH]; intros prev Hp Hcs; [simpl; lia|].
  apply Forall_cons in Hcs as [Hc Hcs]. pose proof Hc as (_ & _ & Hcl).
  pose proof (true_range_bounds prev c Hp Hc). specialize (IH (close c) Hcl Hcs).
  cbn [true_ranges zsum foldr length]. unfold zsum in IH. lia.
Qed.

(** The average true range is the mean of the last [period] true ranges,
    truncated, exactly when there are enough bars, and never panics. *)
Lemma atr_mean cs period :
  Forall candle_ok cs →
  atr cs period =
    (if base.decide (period ≠ 0%nat ∧ (period < length cs)%nat) then
       match drop (length cs - period - 1) cs with
       | first :: window =>
           Ok (Some (from_raw (Z.quot (zsum (true_ranges (close first) window)) (Z.of_nat period))))
       | [] => Ok None
       end
     else Ok None).
Proof.
  intros Hcs. unfold atr. destruct (base.decide _) as [[H0 Hlen]|Hno].
  - rewrite (proj2 (Nat.eqb_neq _ _) H0), (proj2 (Nat.ltb_ge _ _)) by lia. cbn [orb].
    assert (length (drop (length cs - period - 1) cs) = S period) as Hd
      by (rewrite length_drop; lia).
    pose proof (Forall_drop _ (length cs - period - 1) _ Hcs) as Hall.
    destruct (drop _ cs) as [|first window]; [done|]. simpl in Hd.
    apply Forall_cons in Hall as [(_ & _ & Hf) Hw].
    rewrite atr_loop_run by done. cbn [mbind result_bind]. injection Hd as Hlw. rewrite Z.add_0_l, Hlw.
    pose proof (sum_bounds window (close first) Hf Hw) as [Hs1 Hs2]. rewrite Hlw in Hs2.
    assert (0 ≤ Z.quot (zsum (true_ranges (close first) window)) (Z.of_nat period) ≤ i64_max).
    { split; [apply Z.quot_pos; lia|]. apply Z.quot_le_upper_bound; lia. }
    unfold i64_try_from. rewrite (proj2 (fits_i64_spec _)) by (unfold_ranges; lia). done.
  - destruct (Nat.eqb period 0) eqn:E; [done|]. cbn [orb]. apply Nat.eqb_neq in E.
    rewrite (proj2 (Nat.ltb_lt _ _)); [done|]. lia.
Qed.

(** Off that domain it can: a gap of the whole range has no absolute value. *)
Example atr_can_panic :
  atr [mkCandle ZERO ZERO ZERO ONE; mkCandle ZERO MIN ZERO ZERO] 1 = Err AbsOverflow.
Proof. reflexivity. Qed.

(** ** Reaching a bracket *)

(** What a position has made per unit, with the sign of its direction. *)
Definition excursion (l : bool) (entry mark : Price) : Z :=
  if l then raw mark - raw entry else raw entry - raw mark.

(** A bracket is reached exactly when the excursion is as far as its distance:
    the stop first, and the target only when there is one. *)
Lemma breach_exact l entry mark d r :
  e8_ok (from_raw (raw entry - raw d) : Price) → e8_ok (from_raw (raw entry + raw d) : Price) →
  let t := raw (scale (from_raw (raw d)) r) in
  e8_ok (from_raw (raw entry - t) : Price) → e8_ok (from_raw (raw entry + t) : Price) →
  breached l mark (brackets entry l d r).1 (brackets entry l d r).2 =
    (if excursion l entry mark <=? - raw d then Some Stop
     else if (0 <? ratio r) && (t <=? excursion l entry mark) then Some Take
     else None).
Proof.
  intros H1 H2 t H3 H4. unfold e8_ok in *. simpl in *.
  unfold brackets, breached, excursion, ratio_is_positive. fold t.
  destruct l; cbn [fst snd]; unfold leb; cbn [raw];
    destruct (0 <? ratio r); cbn [fmap option_fmap option_map andb raw];
    rewrite ?(i64_saturate_in (raw entry - _)), ?(i64_saturate_in (raw entry + _)) by done;
    repeat match goal with |- context [?a <=? ?b] => destruct (Z.leb_spec a b) end;
    try done; lia.
Qed.
