(* ===== verification/Symbol.v ===== *)
(** * What the venue will take (sentinel-binance/src/symbol.rs)

    Quantities and prices on the venue's grid: the check made before an order is
    sent, and the rounding that puts a size on the grid. *)

From S2P Require Import Prelude Fixed Types.

Record SymbolRules := mkSymbolRules {
  symbol : Instrument;
  step_size : Qty;
  min_qty : Qty;
  tick_size : Price;
  min_notional : Money;
  quantity_precision : Z;
}.

#[export] Instance SymbolRules_eq_dec : EqDecision SymbolRules.
Proof. solve_decision. Defined.

Inductive Unplaceable :=
| OffStep (qty step : Qty)
| BelowMinQty (qty min : Qty)
| BelowMinNotional (notional min : Money)
| NonPositive.

#[export] Instance Unplaceable_eq_dec : EqDecision Unplaceable.
Proof. solve_decision. Defined.

Definition unplaceable_to_string (u : Unplaceable) : list byte :=
  match u with
  | OffStep q step => str "qty " ++ to_string q ++ str " is not a multiple of the step " ++ to_string step
  | BelowMinQty q min => str "qty " ++ to_string q ++ str " is below the minimum " ++ to_string min
  | BelowMinNotional n min =>
      str "notional " ++ to_string n ++ str " is below the minimum " ++ to_string min
  | NonPositive => str "qty must be positive"
  end.

(** [SymbolRules::check]. *)
Definition rules_check (r : SymbolRules) (qty : Qty) (price : Price) : result Unplaceable unit :=
  if negb (is_positive qty) then Err NonPositive
  else if is_positive (step_size r) && negb (Z.rem (raw qty) (raw (step_size r)) =? 0) then
    Err (OffStep qty (step_size r))
  else if ltb qty (min_qty r) then Err (BelowMinQty qty (min_qty r))
  else if is_positive (min_notional r) && is_positive price then
    let n := unwrap_or (notional price qty) ZERO in
    if ltb n (min_notional r) then Err (BelowMinNotional n (min_notional r)) else Ok tt
  else Ok tt.

Definition round_down (r : SymbolRules) (qty : Qty) : Qty :=
  if negb (is_positive qty) || negb (is_positive (step_size r)) then ZERO
  else from_raw (raw qty - Z.rem (raw qty) (raw (step_size r))).

Definition round_price_down (r : SymbolRules) (price : Price) : Price :=
  if negb (is_positive price) || negb (is_positive (tick_size r)) then ZERO
  else from_raw (raw price - Z.rem (raw price) (raw (tick_size r))).

(** [Symbols]: the rules of each symbol, by its name. *)
Abbreviation Symbols := (gmap Instrument SymbolRules).

Definition symbols_insert (r : SymbolRules) (s : Symbols) : Symbols := <[symbol r := r]> s.
Definition symbols_get (s : Symbols) (i : Instrument) : option SymbolRules := s !! i.
Definition symbols_all (s : Symbols) : list Instrument := sort_ids (map_to_list s).*1.

(** ** The grid *)

(** A whole multiple of the step. *)
Definition on_grid (step x : Z) : Prop := ∃ k, x = k * step.

Lemma rem_grid x step : 0 < step → Z.rem x step = 0 ↔ on_grid step x.
Proof.
  intros Hs. unfold on_grid. split.
  - intros H. exists (Z.quot x step). pose proof (Z.quot_rem x step ltac:(lia)). lia.
  - intros [k ->]. by apply Z.rem_mul; lia.
Qed.

(** Truncation of a positive number to the grid. *)
Lemma truncate_grid x step :
  0 < x → 0 < step →
  let y := x - Z.rem x step in
  on_grid step y ∧ 0 ≤ y ≤ x ∧ x < y + step ∧ ∀ z, on_grid step z → z ≤ x → z ≤ y.
Proof.
  intros Hx Hs y. subst y. rewrite Z.rem_mod_nonneg by lia.
  pose proof (Z.div_mod x step ltac:(lia)) as E. pose proof (Z.mod_pos_bound x step Hs).
  pose proof (Z.div_pos x step ltac:(lia) Hs).
  assert (x - x mod step = (x / step) * step) as -> by lia. split_and!; try nia; [by eexists|].
  intros z [k ->] Hz. assert (k ≤ x / step); [|nia]. apply Z.div_le_lower_bound; lia.
Qed.

(** What the check asks of an order. *)
Record placeable (r : SymbolRules) (q : Qty) (p : Price) : Prop := {
  pl_positive : 0 < raw q;
  pl_step : 0 < raw (step_size r) → on_grid (raw (step_size r)) (raw q);
  pl_min : raw (min_qty r) ≤ raw q;
  pl_notional : 0 < raw (min_notional r) → 0 < raw p →
    in_i64 (Z.quot (raw p * raw q) SCALE) ∧ raw (min_notional r) ≤ Z.quot (raw p * raw q) SCALE;
}.

Lemma notional_value p q m : notional p q = Ok m → raw m = Z.quot (raw p * raw q) SCALE.
Proof. by intros [? _]%notional_Ok. Qed.

Lemma min_notional_spec r q p :
  0 < raw (min_notional r) →
  ltb (unwrap_or (notional p q) ZERO) (min_notional r) = false ↔
    in_i64 (Z.quot (raw p * raw q) SCALE) ∧ raw (min_notional r) ≤ Z.quot (raw p * raw q) SCALE.
Proof.
  intros Hm. unfold ltb. rewrite Z.ltb_ge.
  destruct (notional p q) as [m|e] eqn:E; cbn [unwrap_or].
  - apply notional_Ok in E as [-> Hi]. tauto.
  - split; [cbn; lia|]. intros [Hi _]. unfold notional in E.
    destruct (_ || _) eqn:Hb; [|done]. unfold in_i64 in Hi.
    apply orb_true_iff in Hb as [?%Z.ltb_lt|?%Z.ltb_lt]; lia.
Qed.

Lemma worth_enough r q p :
  (if is_positive (min_notional r) && is_positive p then
     let n := unwrap_or (notional p q) ZERO in
     if ltb n (min_notional r) then Err (BelowMinNotional n (min_notional r)) else Ok tt
   else Ok tt) = Ok tt ↔
  (0 < raw (min_notional r) → 0 < raw p →
    in_i64 (Z.quot (raw p * raw q) SCALE) ∧ raw (min_notional r) ≤ Z.quot (raw p * raw q) SCALE).
Proof.
  unfold is_positive. destruct (Z.ltb_spec 0 (raw (min_notional r))) as [Hm|Hm]; cbn [andb];
    [|split; [lia|done]].
  destruct (Z.ltb_spec 0 (raw p)) as [Hp|Hp]; [|split; [lia|done]]. cbv zeta.
  pose proof (min_notional_spec r q p Hm) as Hn. destruct (ltb _ _); [|tauto].
  split; [done|]. intros H. by apply Hn in H.
Qed.

(** The check lets through exactly the orders the venue's filters allow. *)
Lemma rules_check_spec r q p : rules_check r q p = Ok tt ↔ placeable r q p.
Proof.
  unfold rules_check, is_positive at 1 2, ltb at 1.
  destruct (Z.ltb_spec 0 (raw q)) as [Hq|Hq]; cbn [negb]; [|split; [done|intros []; lia]].
  destruct (Z.ltb_spec 0 (raw (step_size r))) as [Hs|Hs]; cbn [andb].
  1: destruct (Z.eqb_spec (Z.rem (raw q) (raw (step_size r))) 0) as [Hr|Hr]; cbn [negb];
       [apply (rem_grid _ _ Hs) in Hr | split; [done|intros [_ H _ _]; exfalso; by apply Hr, rem_grid, H]].
  all: destruct (Z.ltb_spec (raw q) (raw (min_qty r))) as [Hm|Hm]; [split; [done|intros []; lia]|].
  all: rewrite worth_enough; split; [intros H; split; auto; lia|by intros []].
Qed.

(** What becomes of a price on its way out: cut down to the grid of the tick, and
    nothing when it, or the tick, is not positive. *)
Definition snapped (tick p sent : Z) : Prop :=
  if bool_decide (0 < p ∧ 0 < tick) then on_grid tick sent ∧ 0 ≤ sent ≤ p ∧ p < sent + tick else sent = 0.

Lemma round_price_snapped r p : snapped (raw (tick_size r)) (raw p) (raw (round_price_down r p)).
Proof.
  unfold snapped, round_price_down, is_positive. case_bool_decide as Hb.
  - destruct Hb as [Hp Ht]. rewrite !(proj2 (Z.ltb_lt _ _)) by done. cbn [negb orb raw].
    destruct (truncate_grid (raw p) (raw (tick_size r)) Hp Ht) as (H1 & H2 & H3 & _). exact (conj H1 (conj H2 H3)).
  - destruct (Z.ltb_spec 0 (raw p)), (Z.ltb_spec 0 (raw (tick_size r))); try done. by exfalso; apply Hb.
Qed.

(** C20: sizes are put on the venue's grid, and only there. Rounding a positive
    size down to a positive step gives the largest multiple of the step that is no
    larger, less than one step below it; a size already on the grid is left alone;
    what is rounded is never refused for its step; any other size, or a step that
    is not positive, is rounded to nothing. And a check passes exactly when the
    size is positive, on the grid, at least the minimum, and, where there is a
    price to value it at, worth at least the minimum value; without a price, as a
    market order that came with no quote, the value is not looked at. *)
Theorem grid_round_down (r : SymbolRules) (q : Qty) (p : Price) :
  let step := raw (step_size r) in
  let q' := round_down r q in
  (0 < raw q → 0 < step →
    on_grid step (raw q') ∧ 0 ≤ raw q' ≤ raw q ∧ raw q < raw q' + step ∧
    (∀ x, on_grid step x → x ≤ raw q → x ≤ raw q') ∧
    (on_grid step (raw q) → q' = q) ∧
    (∀ x s, rules_check r q' p ≠ Err (OffStep x s))) ∧
  (raw q ≤ 0 ∨ step ≤ 0 → q' = ZERO) ∧
  (rules_check r q p = Ok tt ↔ placeable r q p).
Proof.
  intros step q'. split_and!; [intros Hq Hs| |apply rules_check_spec].
  - assert (raw q' = raw q - Z.rem (raw q) step) as E.
    { unfold q', round_down, is_positive. by rewrite !(proj2 (Z.ltb_lt _ _)). }
    destruct (truncate_grid (raw q) step Hq Hs) as (H1 & H2 & H3 & H4). rewrite <-E in H1, H2, H3, H4.
    split_and!; [done|lia..|done| |].
    + intros Hg. apply raw_inj. rewrite E. apply (rem_grid _ _ Hs) in Hg. fold step in Hg. lia.
    + intros x s. apply (rem_grid _ _ Hs) in H1. unfold rules_check. fold step. rewrite H1.
      cbn [Z.eqb negb]. rewrite andb_false_r. repeat case_match; congruence.
  - intros Hn. unfold q', round_down, is_positive.
    destruct (Z.ltb_spec 0 (raw q)), (Z.ltb_spec 0 (raw (step_size r))); try done. unfold step in *. lia.
Qed.

(** A market order with no quote, worth next to nothing, passes the check. *)
Example unpriced_order_not_valued :
  let r := mkSymbolRules (inline_or_default 16 (str "BTCUSDT")) (from_raw 1) (from_raw 1)
             (from_raw 10000000) (from_raw 10000000000) 4 in
  rules_check r (from_raw 1) ZERO = Ok tt ∧
  rules_check r (from_raw 1) (from_raw 10943250000000) =
    Err (BelowMinNotional (from_raw 109432) (from_raw 10000000000)).
Proof. vm_compute. split; reflexivity. Qed.

Definition ex_rules : SymbolRules :=
  mkSymbolRules (inline_or_default 16 (str "BTCUSDT")) (from_raw 250000) (from_raw 100000)
    (from_raw 10000000) (from_raw 10000000000) 4.

Lemma grid_round_down_witness :
  let q := from_raw 1337700 in
  let p := from_raw 10943250000000 in
  let step := raw (step_size ex_rules) in
  let q' := round_down ex_rules q in
  raw q' = 1250000 ∧ rules_check ex_rules q p = Err (OffStep q (from_raw 250000)) ∧
  (on_grid step (raw q') ∧ 0 ≤ raw q' ≤ raw q ∧ raw q < raw q' + step ∧
   (∀ x, on_grid step x → x ≤ raw q → x ≤ raw q') ∧
   (on_grid step (raw q) → q' = q) ∧
   (∀ x s, rules_check ex_rules q' p ≠ Err (OffStep x s))) ∧
  (rules_check ex_rules q p = Ok tt ↔ placeable ex_rules q p).
Proof.
  intros q p step q'. split; [vm_compute; reflexivity|]. split; [vm_compute; reflexivity|].
  destruct (grid_round_down ex_rules q p) as (H1 & _ & H3). split; [|exact H3].
  apply H1; vm_compute; reflexivity.
Defined.
