(* ===== verification/Signing.v ===== *)
(** * Signed queries and the venue's clock (sentinel-binance/src/signing.rs)

    The query string is built once and both signed and sent.  Whatever the
    values are, it reads back as the parameters that were pushed, so nothing an
    upstream id contains can add a parameter or change one.  The clock is an
    offset, estimated at the midpoint of a round trip. *)

From S2P Require Import Prelude Fixed Text Types.

Definition RECV_WINDOW_MS : Z := 5000.

(** ** The query string *)

(** A [Query]: its encoded text. *)
Abbreviation Query := (list byte).

Definition is_ascii_alphanumeric (c : byte) : bool :=
  let z := b2z c in
  ((48 <=? z) && (z <=? 57)) || ((65 <=? z) && (z <=? 90)) || ((97 <=? z) && (z <=? 122)).

Definition unreserved (c : byte) : bool :=
  is_ascii_alphanumeric c || bool_decide (c ∈ [z2b 45; z2b 95; z2b 46; z2b 126]).

Definition hex_digit (nibble : Z) : byte := z2b (if nibble <=? 9 then 48 + nibble else 65 + (nibble - 10)).

Definition encode_byte (c : byte) : list byte :=
  if unreserved c then [c]
  else [z2b 37; hex_digit (Z.shiftr (b2z c) 4); hex_digit (Z.land (b2z c) 15)].

Definition encode_into (value : list byte) : list byte := value ≫= encode_byte.

Definition AMP : byte := z2b 38.
Definition EQUALS : byte := z2b 61.

Definition query_push (key value : list byte) (q : Query) : Query :=
  (if bool_decide (q = []) then [] else q ++ [AMP]) ++ key ++ [EQUALS] ++ encode_into value.

Definition query_push_opt (key : list byte) (value : option (list byte)) (q : Query) : Query :=
  match value with Some v => query_push key v q | None => q end.

Section signing.
(** HMAC-SHA256, of the [hmac] and [sha2] crates: a digest under a key. *)
Context (hmac_sha256 : list byte → list byte → list byte).

(** [sign]: the digest in hexadecimal. *)
Definition sign (secret message : list byte) : list byte :=
  hmac_sha256 secret message ≫= λ c, hex_fixed 2 (b2z c).

Definition query_sign (secret : list byte) (timestamp_ms : Z) (q : Query) : list byte :=
  let payload := query_push (str "recvWindow") (dec RECV_WINDOW_MS)
                   (query_push (str "timestamp") (dec timestamp_ms) q) in
  payload ++ str "&signature=" ++ sign secret payload.
End signing.

(** ** The clock *)

(** [u64 as i64]. *)
Definition as_i64 (x : Z) : Z := if x <=? i64_max then x else x - 2 ^ 64.

(** [ServerClock::sync_round_trip]: the new offset; the subtraction is checked,
    [None] is a panic. *)
Definition sync_round_trip (server_time_ms sent_ms received_ms : Z) : option Z :=
  let round_trip := Z.max 0 (received_ms - sent_ms) in
  let half := round_trip / 2 in
  let midpoint := Z.min u64_max (sent_ms + half) in
  i64_checked (as_i64 server_time_ms - as_i64 midpoint).

Definition clock_sync (server_time_ms local_time_ms : Z) : option Z :=
  sync_round_trip server_time_ms local_time_ms local_time_ms.

Definition venue_time_ms (offset_ms local_time_ms : Z) : Z :=
  Z.max 0 (i64_saturate (as_i64 local_time_ms + offset_ms)).

(** ** Reading a query back *)

(** The reader of [application/x-www-form-urlencoded] text, without its plus
    sign: the reference [query_push] is measured against. *)
Definition from_hex (c : byte) : option Z := to_digit 16 c.

Fixpoint percent_decode (s : list byte) : option (list byte) :=
  match s with
  | [] => Some []
  | c :: s' =>
      if bool_decide (c = z2b 37) then
        match s' with
        | h :: l :: rest =>
            hi ← from_hex h; lo ← from_hex l; out ← percent_decode rest;
            Some (z2b (16 * hi + lo) :: out)
        | _ => None
        end
      else out ← percent_decode s'; Some (c :: out)
  end.

Definition read_param (s : list byte) : option (list byte * list byte) :=
  '(k, v) ← split_once EQUALS s; v ← percent_decode v; Some (k, v).

Definition read_query (s : list byte) : option (list (list byte * list byte)) :=
  mapM read_param (split_on AMP s).

(** A key as the code spells them: no separator and no escape. *)
Definition plain (k : list byte) : Prop := Forall (λ c, unreserved c = true) k ∧ k ≠ [].

Lemma encode_byte_decodes c rest out :
  percent_decode rest = Some out → percent_decode (encode_byte c ++ rest) = Some (c :: out).
Proof.
  intros H. unfold encode_byte. destruct (unreserved c) eqn:Hu.
  - cbn [app percent_decode]. rewrite bool_decide_eq_false_2; [by rewrite H|]. by intros ->.
  - cbn [app percent_decode]. rewrite bool_decide_eq_true_2 by done. unfold from_hex.
    assert (to_digit 16 (hex_digit (Z.shiftr (b2z c) 4)) = Some (b2z c / 16) ∧
            to_digit 16 (hex_digit (Z.land (b2z c) 15)) = Some (b2z c mod 16)) as [-> ->].
    { destruct c; vm_compute; split; reflexivity. }
    cbn [mbind option_bind]. rewrite H. cbn. do 2 f_equal.
    rewrite <-(z2b_b2z c) at 3. f_equal. pose proof (Z.div_mod (b2z c) 16). lia.
Qed.

Lemma encode_into_decodes v : percent_decode (encode_into v) = Some v.
Proof.
  induction v as [|c v IH]; [done|]. unfold encode_into in *. rewrite bind_cons.
  by apply encode_byte_decodes.
Qed.

Lemma unreserved_decodes v : Forall (λ c, unreserved c = true) v → percent_decode v = Some v.
Proof.
  induction 1 as [|c v Hc _ IH]; [done|]. pose proof (encode_byte_decodes c v v IH) as H.
  unfold encode_byte in H. by rewrite Hc in H.
Qed.

(** What an encoded value is made of. *)
Definition in_value (c : byte) : Prop := c ≠ AMP ∧ c ≠ EQUALS.

Lemma unreserved_in_value c : unreserved c = true → in_value c.
Proof. intros H. split; by intros ->. Qed.

Lemma encode_byte_in_value c : Forall in_value (encode_byte c).
Proof. destruct c; repeat constructor; discriminate. Qed.

Lemma encode_into_in_value v : Forall in_value (encode_into v).
Proof.
  induction v as [|c v IH]; [constructor|]. unfold encode_into in *. rewrite bind_cons.
  apply Forall_app. split; [apply encode_byte_in_value|done].
Qed.

Lemma split_on_app sep a b : split_on sep (a ++ sep :: b) = split_on sep a ++ split_on sep b.
Proof.
  induction a as [|c a IH]; cbn [app split_on]; [by rewrite bool_decide_eq_true_2|].
  rewrite IH. case_bool_decide; [done|]. destruct (split_on sep a) eqn:E; [|done].
  destruct a as [|d a]; cbn in E; [done|]. case_bool_decide; [done|]. by destruct (split_on sep a).
Qed.

Lemma split_on_none sep a : Forall (λ c, c ≠ sep) a → split_on sep a = [a].
Proof.
  induction 1 as [|c a Hc _ IH]; [done|]. cbn [split_on]. by rewrite bool_decide_eq_false_2, IH.
Qed.

Lemma split_once_at sep a b : Forall (λ c, c ≠ sep) a → split_once sep (a ++ sep :: b) = Some (a, b).
Proof.
  induction 1 as [|c a Hc _ IH]; cbn [app split_once]; [by rewrite bool_decide_eq_true_2|].
  by rewrite bool_decide_eq_false_2, IH.
Qed.

(** One parameter, on its own. *)
Definition param_text (key value : list byte) : list byte := key ++ [EQUALS] ++ value.

Lemma read_param_text key value v :
  plain key → percent_decode value = Some v → read_param (param_text key value) = Some (key, v).
Proof.
  intros [Hk _] Hv. unfold read_param, param_text. cbn [app]. rewrite split_once_at.
  - cbn. by rewrite Hv.
  - eapply Forall_impl; [exact Hk|]. intros c Hc. apply (unreserved_in_value c Hc).
Qed.

Lemma param_text_whole key value :
  plain key → Forall in_value value → split_on AMP (param_text key value) = [param_text key value].
Proof.
  intros [Hk _] Hv. apply split_on_none. unfold param_text. apply Forall_app. split.
  - eapply Forall_impl; [exact Hk|]. intros c Hc. apply (unreserved_in_value c Hc).
  - apply Forall_app. split; [by repeat constructor|].
    eapply Forall_impl; [exact Hv|]. by intros c [].
Qed.

(** A text of parameters, and one more after it. *)
Lemma read_query_snoc q ps key value v :
  read_query q = Some ps → plain key → Forall in_value value → percent_decode value = Some v →
  read_query (q ++ [AMP] ++ param_text key value) = Some (ps ++ [(key, v)]).
Proof.
  intros Hq Hk Hv Hd. unfold read_query in *. cbn [app]. rewrite split_on_app, param_text_whole by done.
  apply mapM_Some. apply Forall2_app; [by apply mapM_Some|].
  constructor; [by apply read_param_text|constructor].
Qed.

(** The parameters of a query, pushed in order. *)
Definition query_of (params : list (list byte * list byte)) : Query :=
  foldl (λ q kv, query_push kv.1 kv.2 q) [] params.

(** Empty, or the text of what was pushed. *)
Definition query_holds (q : Query) (params : list (list byte * list byte)) : Prop :=
  (q = [] ∧ params = []) ∨ (q ≠ [] ∧ read_query q = Some params).

Lemma query_push_holds q params key value :
  query_holds q params → plain key → query_holds (query_push key value q) (params ++ [(key, value)]).
Proof.
  intros Hq Hk. pose proof (encode_into_in_value value) as Hv.
  pose proof (encode_into_decodes value) as Hd. right. unfold query_push.
  destruct Hq as [[-> ->]|[Hne Hq]].
  - rewrite bool_decide_eq_true_2 by done. cbn [app]. change (key ++ EQUALS :: ?v) with (param_text key v).
    split; [by destruct Hk as [_ ?]; destruct key|]. unfold read_query.
    rewrite param_text_whole by done. cbn. by rewrite (read_param_text _ _ _ Hk Hd).
  - rewrite bool_decide_eq_false_2 by done. split; [by destruct q|].
    rewrite <-app_assoc. by apply read_query_snoc.
Qed.

Lemma query_of_holds params :
  Forall (λ kv : list byte * list byte, plain kv.1) params → query_holds (query_of params) params.
Proof.
  induction params as [|[k v] params IH] using rev_ind; intros Hp; [by left|].
  apply Forall_app in Hp as [Hp Hk]. apply Forall_cons in Hk as [Hk _]. unfold query_of. rewrite foldl_snoc.
  apply (query_push_holds _ params k v); [by apply IH|exact Hk].
Qed.

Lemma hex_unreserved n : Forall (λ c, unreserved c = true) (hex_fixed 2 (b2z n)).
Proof. destruct n; repeat constructor. Qed.

Lemma sign_unreserved hmac secret m : Forall (λ c, unreserved c = true) (sign hmac secret m).
Proof.
  unfold sign. induction (hmac secret m) as [|c l IH]; [constructor|]. rewrite bind_cons.
  apply Forall_app. split; [apply hex_unreserved|done].
Qed.

(** ** Properties *)

(** C18: a signed query says what it was given. Whatever the values are, the text that is sent reads
    back as the parameters that were pushed, in their order, then the timestamp,
    the window and the signature: no value can add a parameter, change one, or
    end the query early; and the signature is over every byte before it. *)
Theorem query_reads_back (hmac : list byte → list byte → list byte) (secret : list byte)
    (timestamp_ms : Z) (params : list (list byte * list byte)) :
  Forall (λ kv : list byte * list byte, plain kv.1) params →
  let text := query_sign hmac secret timestamp_ms (query_of params) in
  ∃ payload, text = payload ++ str "&signature=" ++ sign hmac secret payload ∧
    read_query text = Some (params ++
      [(str "timestamp", dec timestamp_ms); (str "recvWindow", str "5000");
       (str "signature", sign hmac secret payload)]).
Proof.
  intros Hp text. unfold text, query_sign. eexists. split; [done|].
  pose proof (query_of_holds params Hp) as H.
  apply (query_push_holds _ _ (str "timestamp") (dec timestamp_ms)) in H; [|by split; [repeat constructor|]].
  apply (query_push_holds _ _ (str "recvWindow") (dec RECV_WINDOW_MS)) in H; [|by split; [repeat constructor|]].
  set (payload := query_push (str "recvWindow") _ _) in *.
  destruct H as [[_ H]|[_ H]]; [by destruct params|].
  change (str "&signature=" ++ ?s) with ([AMP] ++ param_text (str "signature") s).
  pose proof (sign_unreserved hmac secret payload) as Hs.
  erewrite read_query_snoc; [|exact H|by split; [repeat constructor|]| |by apply unreserved_decodes].
  - by rewrite <-!app_assoc.
  - eapply Forall_impl; [exact Hs|]. apply unreserved_in_value.
Qed.

Lemma query_reads_back_witness :
  let hmac := λ k m : list byte, take 4 (m ++ k) in
  let params := [(str "symbol", str "BTCUSDT"); (str "newClientOrderId", str "a&side=SELL%26")] in
  let text := query_sign hmac (str "secret") 1700000000000 (query_of params) in
  query_of params = str "symbol=BTCUSDT&newClientOrderId=a%26side%3DSELL%2526" ∧
  ∃ payload, text = payload ++ str "&signature=" ++ sign hmac (str "secret") payload ∧
    read_query text = Some (params ++
      [(str "timestamp", dec 1700000000000); (str "recvWindow", str "5000");
       (str "signature", sign hmac (str "secret") payload)]).
Proof.
  intros hmac params text. split; [vm_compute; reflexivity|].
  apply (query_reads_back hmac (str "secret") 1700000000000 params).
  unfold params. repeat (constructor; [split; [repeat constructor|discriminate]|]). constructor.
Defined.

(** The estimate of the venue's clock is wrong by at most half a round trip. Let the venue's clock
    run [skew] milliseconds from ours, and let it answer with the time it had at
    some instant between the request and the reply: the offset kept is within
    half the round trip of the skew, rounded up, so a timestamp made from it
    later is too, which for a trip shorter than the receive window is a
    timestamp the venue accepts. *)
Theorem clock_error (skew sent received at_ : Z) :
  0 ≤ sent ≤ at_ → at_ ≤ received < 2 ^ 62 → - 2 ^ 61 < skew < 2 ^ 61 → 0 ≤ at_ + skew →
  ∃ offset, sync_round_trip (at_ + skew) sent received = Some offset ∧
    Z.abs (offset - skew) ≤ (received - sent + 1) / 2 ∧
    ∀ now, 0 ≤ now < 2 ^ 61 → 0 ≤ now + skew → 0 ≤ now + offset →
      Z.abs (venue_time_ms offset now - (now + skew)) ≤ (received - sent + 1) / 2.
Proof.
  intros Hs Hr Hk Hpos. unfold sync_round_trip, as_i64.
  assert (0 ≤ (received - sent) / 2 ≤ received - sent) as Hh.
  { split; [apply Z.div_pos; lia|]. apply Z.div_le_upper_bound; lia. }
  pose proof (Z.div_mod (received - sent) 2 ltac:(lia)) as Ed.
  pose proof (Z.mod_pos_bound (received - sent) 2 ltac:(lia)).
  pose proof (Z.div_mod (received - sent + 1) 2 ltac:(lia)) as Ed'.
  pose proof (Z.mod_pos_bound (received - sent + 1) 2 ltac:(lia)).
  rewrite Z.max_r, Z.min_r by (unfold_ranges; lia).
  rewrite !(proj2 (Z.leb_le _ _)) by (unfold_ranges; lia).
  exists (at_ + skew - (sent + (received - sent) / 2)). split_and!.
  - unfold i64_checked. rewrite (proj2 (fits_i64_spec _)); [done|]. unfold_ranges. lia.
  - lia.
  - intros now Hn H1 H2. unfold venue_time_ms, as_i64.
    rewrite (proj2 (Z.leb_le _ _)) by (unfold_ranges; lia).
    assert (i64_saturate (now + (at_ + skew - (sent + (received - sent) / 2))) =
            now + (at_ + skew - (sent + (received - sent) / 2))) as ->; [|lia].
    unfold i64_saturate. unfold_ranges. lia.
Qed.

Lemma clock_error_witness :
  ∃ offset, sync_round_trip (1040 + -700) 1000 1100 = Some offset ∧
    Z.abs (offset - -700) ≤ (1100 - 1000 + 1) / 2 ∧
    ∀ now, 0 ≤ now < 2 ^ 61 → 0 ≤ now + -700 → 0 ≤ now + offset →
      Z.abs (venue_time_ms offset now - (now + -700)) ≤ (1100 - 1000 + 1) / 2.
Proof. apply (clock_error (-700) 1000 1100 1040); lia. Defined.
