(* ===== verification/Domain.v ===== *)
(** * The order lifecycle (sentinel-domain)

    [transition] is the pure function [(order, event) -> order] of
    transition.rs, with the allowed-transition map of state.rs as the runtime
    guard it is, the events of event.rs and the errors of error.rs.  The
    theorems are the lifecycle's contract: nothing moves outside the map,
    UNKNOWN and RECONCILING have one exit each, fills account exactly. *)

From S2P Require Import Prelude Fixed Text Types.

(** ** States (state.rs) *)

Inductive OrderState :=
| Created | Submitting | Working | Partial | CancelPending | Unknown
| Reconciling | Filled | Canceled | Rejected.

#[export] Instance OrderState_eq_dec : EqDecision OrderState.
Proof. solve_decision. Defined.

#[export] Instance OrderState_wire : WireEnum OrderState := {
  enum_name := "OrderState";
  ALL := [Created; Submitting; Working; Partial; CancelPending; Unknown;
          Reconciling; Filled; Canceled; Rejected];
  as_u8 s := match s with
    | Created => 1 | Submitting => 2 | Working => 3 | Partial => 4
    | CancelPending => 5 | Unknown => 6 | Reconciling => 7 | Filled => 8
    | Canceled => 9 | Rejected => 10 end;
  as_str s := match s with
    | Created => str "CREATED" | Submitting => str "SUBMITTING"
    | Working => str "WORKING" | Partial => str "PARTIAL"
    | CancelPending => str "CANCEL_PENDING" | Unknown => str "UNKNOWN"
    | Reconciling => str "RECONCILING" | Filled => str "FILLED"
    | Canceled => str "CANCELED" | Rejected => str "REJECTED" end;
}.

Definition is_terminal (s : OrderState) : bool :=
  match s with Filled | Canceled | Rejected => true | _ => false end.

Definition is_live (s : OrderState) : bool :=
  match s with
  | Created | Submitting | Working | Partial | CancelPending | Unknown
  | Reconciling => true
  | _ => false
  end.

Definition locks_instrument (s : OrderState) : bool :=
  match s with Unknown | Reconciling => true | _ => false end.

(** The map: states reachable from each state. *)
Definition allowed (s : OrderState) : list OrderState :=
  match s with
  | Created => [Submitting; Reconciling]
  | Submitting => [Working; Partial; Filled; Rejected; Unknown; Reconciling]
  | Working => [Partial; Filled; CancelPending; Canceled; Reconciling]
  | Partial => [Partial; Filled; CancelPending; Canceled; Reconciling]
  | CancelPending => [CancelPending; Canceled; Filled; Reconciling]
  | Unknown => [Reconciling]
  | Reconciling => [Reconciling; Working; Partial; Filled; Canceled; Rejected]
  | Filled | Canceled | Rejected => [Reconciling]
  end.

Definition permits (s target : OrderState) : bool :=
  existsb (λ t, bool_decide (t = target)) (allowed s).

(** ** Events (event.rs) *)

Module EventKind.
Inductive t :=
| SubmissionStarted | VenueAcked | VenueRejected | SubmissionTimedOut
| FillReceived | CancelRequested | CancelConfirmed | ReconcileStarted
| ReconcileResolved.
End EventKind.

#[export] Instance EventKind_eq_dec : EqDecision EventKind.t.
Proof. solve_decision. Defined.

#[export] Instance EventKind_wire : WireEnum EventKind.t := {
  enum_name := "EventKind";
  ALL := [EventKind.SubmissionStarted; EventKind.VenueAcked; EventKind.VenueRejected;
          EventKind.SubmissionTimedOut; EventKind.FillReceived;
          EventKind.CancelRequested; EventKind.CancelConfirmed;
          EventKind.ReconcileStarted; EventKind.ReconcileResolved];
  as_u8 k := match k with
    | EventKind.SubmissionStarted => 1 | EventKind.VenueAcked => 2
    | EventKind.VenueRejected => 3 | EventKind.SubmissionTimedOut => 4
    | EventKind.FillReceived => 5 | EventKind.CancelRequested => 6
    | EventKind.CancelConfirmed => 7 | EventKind.ReconcileStarted => 8
    | EventKind.ReconcileResolved => 9 end;
  as_str k := match k with
    | EventKind.SubmissionStarted => str "SUBMISSION_STARTED"
    | EventKind.VenueAcked => str "VENUE_ACKED"
    | EventKind.VenueRejected => str "VENUE_REJECTED"
    | EventKind.SubmissionTimedOut => str "SUBMISSION_TIMED_OUT"
    | EventKind.FillReceived => str "FILL_APPLIED"
    | EventKind.CancelRequested => str "CANCEL_REQUESTED"
    | EventKind.CancelConfirmed => str "CANCEL_CONFIRMED"
    | EventKind.ReconcileStarted => str "RECONCILE_STARTED"
    | EventKind.ReconcileResolved => str "RECONCILE_RESOLVED" end;
}.

Inductive ReconcileCause :=
| SubmissionTimeout | CancelTimeout | ReplayedMidSubmission | LateFill
| LateCancelConfirm | StaleSweep | PositionDisagreement.

#[export] Instance ReconcileCause_eq_dec : EqDecision ReconcileCause.
Proof. solve_decision. Defined.

Definition cause_as_str (c : ReconcileCause) : list byte :=
  match c with
  | SubmissionTimeout => str "submission timeout"
  | CancelTimeout => str "cancel timeout"
  | ReplayedMidSubmission => str "replayed mid-submission"
  | LateFill => str "late fill"
  | LateCancelConfirm => str "late cancel-confirm"
  | StaleSweep => str "stale sweep"
  | PositionDisagreement => str "position disagreement"
  end.

Record RejectReason := mkRejectReason { code : Z; text : InlineStr 64 }.
#[export] Instance RejectReason_eq_dec : EqDecision RejectReason.
Proof. solve_decision. Defined.

(** [while end > 0 && !text.is_char_boundary(end) { end -= 1; }]. *)
Fixpoint floor_boundary (text : list byte) (e : nat) : nat :=
  match e with
  | O => O
  | S e' => if is_char_boundary text e then e else floor_boundary text e'
  end.

Definition reject_reason_new (code : Z) (text : list byte) : RejectReason :=
  let e := floor_boundary text (Nat.min (length text) 64) in
  mkRejectReason code (inline_or_default 64 (take e text)).

(** [Display for RejectReason]. *)
Definition reject_reason_to_string (r : RejectReason) : list byte :=
  str "[" ++ dec_signed (code r) ++ str "] " ++ inline_as_str (text r).

Inductive OrderEvent :=
| SubmissionStarted
| VenueAcked (venue_order_id : VenueOrderId)
| VenueRejected (reason : RejectReason)
| SubmissionTimedOut
| FillReceived (exec_id : ExecId) (qty : Qty) (price : Price)
| CancelRequested
| CancelConfirmed
| ReconcileStarted (cause : ReconcileCause)
| ReconcileResolved (state : OrderState) (venue_order_id : option VenueOrderId)
    (filled_qty : Qty).

#[export] Instance OrderEvent_eq_dec : EqDecision OrderEvent.
Proof. solve_decision. Defined.

Definition event_kind (e : OrderEvent) : EventKind.t :=
  match e with
  | SubmissionStarted => EventKind.SubmissionStarted
  | VenueAcked _ => EventKind.VenueAcked
  | VenueRejected _ => EventKind.VenueRejected
  | SubmissionTimedOut => EventKind.SubmissionTimedOut
  | FillReceived _ _ _ => EventKind.FillReceived
  | CancelRequested => EventKind.CancelRequested
  | CancelConfirmed => EventKind.CancelConfirmed
  | ReconcileStarted _ => EventKind.ReconcileStarted
  | ReconcileResolved _ _ _ => EventKind.ReconcileResolved
  end.

Definition is_venue_evidence (e : OrderEvent) : bool :=
  match e with
  | VenueAcked _ | VenueRejected _ | FillReceived _ _ _ | CancelConfirmed
  | ReconcileResolved _ _ _ => true
  | _ => false
  end.

(** ** Errors (error.rs) *)

Inductive TransitionError :=
| Illegal (from : OrderState) (event : EventKind.t) (to : option OrderState)
| RequiresReconciliation (state : OrderState) (event : EventKind.t)
| Overfill (ordered filled attempted : Qty)
| NonPositiveFill (qty : Qty)
| QtyOverflow.

#[export] Instance TransitionError_eq_dec : EqDecision TransitionError.
Proof. solve_decision. Defined.

(** [Display for TransitionError].  The figure a rejected fill would have taken the
    order to is written as the raw integer, without its scale. *)
Definition transition_error_to_string (e : TransitionError) : list byte :=
  match e with
  | Illegal from event (Some to) =>
      as_str event ++ str " in " ++ as_str from ++ str ": " ++ as_str from ++ str " -> " ++ as_str to ++
      str " is not allowed"
  | Illegal from event None => as_str event ++ str " in " ++ as_str from ++ str " is not allowed"
  | RequiresReconciliation state event =>
      as_str event ++ str " in " ++ as_str state ++ str "; reconcile before applying"
  | Overfill ordered filled attempted =>
      str "fill of " ++ to_string attempted ++ str " takes filled to " ++
      dec_signed (i64_saturate (raw filled + raw attempted)) ++ str " on an order of " ++ to_string ordered
  | NonPositiveFill qty => str "fill qty must be positive, got " ++ to_string qty
  | QtyOverflow => str "quantity arithmetic overflowed"
  end.

Example overfill_text_is_unscaled :
  transition_error_to_string (Overfill (whole 10) (whole 0) (whole 21)) =
    str "fill of 21 takes filled to 2100000000 on an order of 10".
Proof. reflexivity. Qed.

Definition needs_reconciliation (e : TransitionError) : bool :=
  match e with RequiresReconciliation _ _ => true | _ => false end.

Definition transition_integrity_violation (e : TransitionError) : bool :=
  match e with Overfill _ _ _ | QtyOverflow => true | _ => false end.

(** ** The order (order.rs) *)

Record OrderCore := mkOrderCore {
  client_order_id : ClientOrderId;
  instrument : Instrument;
  side : Side;
  qty : Qty;
  filled_qty : Qty;
  state : OrderState;
  venue_order_id : option VenueOrderId;
}.

#[export] Instance OrderCore_eq_dec : EqDecision OrderCore.
Proof. solve_decision. Defined.

Definition created (c : ClientOrderId) (i : Instrument) (s : Side) (q : Qty) : OrderCore :=
  mkOrderCore c i s q ZERO Created None.

Definition core_remaining_qty (o : OrderCore) : Qty :=
  max (unwrap_or (checked_sub (qty o) (filled_qty o)) ZERO) ZERO.

Definition signed_filled (o : OrderCore) : Qty :=
  from_raw (i64_saturate (raw (filled_qty o) * sign (side o))).

(** The [..order] updates of the transition arms. *)
Definition set_state (o : OrderCore) (s : OrderState) : OrderCore :=
  mkOrderCore (client_order_id o) (instrument o) (side o) (qty o) (filled_qty o) s
    (venue_order_id o).
Definition set_filled (o : OrderCore) (q : Qty) : OrderCore :=
  mkOrderCore (client_order_id o) (instrument o) (side o) (qty o) q (state o)
    (venue_order_id o).
Definition set_venue_id (o : OrderCore) (v : option VenueOrderId) : OrderCore :=
  mkOrderCore (client_order_id o) (instrument o) (side o) (qty o) (filled_qty o)
    (state o) v.

(** ** The transition function (transition.rs) *)

Definition OVERFILL_GROSS_MULTIPLE : nat := 2.

Definition guard (from to : OrderState) (event : EventKind.t) :
    result TransitionError unit :=
  if permits from to then Ok tt else Err (Illegal from event (Some to)).

(** The loop [for _ in 1..OVERFILL_GROSS_MULTIPLE]. *)
Fixpoint gross_loop (n : nat) (ceiling qty : Qty) : result TransitionError Qty :=
  match n with
  | O => Ok ceiling
  | S n' =>
      ceiling ← map_err (λ _, QtyOverflow) (checked_add ceiling qty);
      gross_loop n' ceiling qty
  end.

Definition gross_ceiling (qty : Qty) : result TransitionError Qty :=
  gross_loop (OVERFILL_GROSS_MULTIPLE - 1) qty qty.

#[global] Arguments gross_ceiling : simpl never.

Definition apply_fill (order : OrderCore) (fill_qty : Qty) (kind : EventKind.t) :
    result TransitionError OrderCore :=
  let s := state order in
  if is_terminal s || bool_decide (s = Unknown) then Err (RequiresReconciliation s kind)
  else if negb (match s with
                | Submitting | Working | Partial | CancelPending | Reconciling => true
                | _ => false
                end) then Err (Illegal s kind None)
  else if negb (is_positive fill_qty) then Err (NonPositiveFill fill_qty)
  else
    new_filled ← map_err (λ _, QtyOverflow) (checked_add (filled_qty order) fill_qty);
    ceiling ← gross_ceiling (qty order);
    if ltb ceiling new_filled then
      Err (Overfill (qty order) (filled_qty order) fill_qty)
    else
      let recorded := min new_filled (qty order) in
      let target :=
        if bool_decide (s = Reconciling) then Reconciling
        else if leb (qty order) recorded then Filled
        else if bool_decide (s = CancelPending) then CancelPending
        else Partial in
      _ ← guard s target kind;
      Ok (set_filled (set_state order target) recorded).

Definition apply_cancel_confirmed (order : OrderCore) (kind : EventKind.t) :
    result TransitionError OrderCore :=
  let s := state order in
  match s with
  | Reconciling => Ok order
  | Canceled => Ok order
  | Filled | Rejected | Unknown => Err (RequiresReconciliation s kind)
  | CancelPending | Working | Partial =>
      _ ← guard s Canceled kind;
      Ok (set_state order Canceled)
  | Created | Submitting => Err (Illegal s kind (Some Canceled))
  end.

Definition transition (order : OrderCore) (event : OrderEvent) :
    result TransitionError OrderCore :=
  let s := state order in
  let kind := event_kind event in
  let illegal (to : OrderState) := Illegal s kind (Some to) in
  match event with
  | SubmissionStarted =>
      if negb (bool_decide (s = Created)) then Err (illegal Submitting)
      else
        _ ← guard s Submitting kind;
        Ok (set_state order Submitting)
  | VenueAcked venue_order_id =>
      if negb (bool_decide (s = Submitting)) then Err (illegal Working)
      else
        _ ← guard s Working kind;
        Ok (set_venue_id (set_state order Working) (Some venue_order_id))
  | VenueRejected _ =>
      if negb (bool_decide (s = Submitting)) then Err (illegal Rejected)
      else
        _ ← guard s Rejected kind;
        Ok (set_state order Rejected)
  | SubmissionTimedOut =>
      if negb (bool_decide (s = Submitting)) then Err (illegal Unknown)
      else
        _ ← guard s Unknown kind;
        Ok (set_state order Unknown)
  | FillReceived _ qty _ => apply_fill order qty kind
  | CancelRequested =>
      if negb (match s with Working | Partial => true | _ => false end) then
        Err (illegal CancelPending)
      else
        _ ← guard s CancelPending kind;
        Ok (set_state order CancelPending)
  | CancelConfirmed => apply_cancel_confirmed order kind
  | ReconcileStarted _ =>
      if bool_decide (s = Reconciling) then Err (illegal Reconciling)
      else
        _ ← guard s Reconciling kind;
        Ok (set_state order Reconciling)
  | ReconcileResolved st vid filled =>
      if negb (bool_decide (s = Reconciling)) then Err (illegal st)
      else
        _ ← guard s st kind;
        ceiling ← gross_ceiling (qty order);
        if is_negative filled || ltb ceiling filled then
          Err (Overfill (qty order) ZERO filled)
        else
          Ok (set_venue_id
                (set_filled (set_state order st) (min filled (qty order)))
                (match vid with Some v => Some v | None => venue_order_id order end))
  end.

(** An order driven through a list of events. *)
Fixpoint drive (order : OrderCore) (events : list OrderEvent) :
    result TransitionError OrderCore :=
  match events with
  | [] => Ok order
  | e :: es => order ← transition order e; drive order es
  end.

#[export] Instance OrderState_laws : WireEnumLaws OrderState.
Proof. solve_wire_laws. Qed.
#[export] Instance EventKind_laws : WireEnumLaws EventKind.t.
Proof. solve_wire_laws. Qed.

(** ** Shape of a successful transition *)

(** Splits [H : transition o e = Ok o'], [e] a given event, by the state of [o]
    into the arms that can succeed. *)
Ltac transition_cases H :=
  let o := match type of H with transition ?o _ = _ => o end in
  destruct o as [? ? ? ? ? st ?]; simpl in H; destruct st; simpl in H;
  unfold apply_fill, apply_cancel_confirmed, guard, mbind, result_bind in H; simpl in H;
  try discriminate H.

Lemma gross_ceiling_Ok q c : gross_ceiling q = Ok c ↔ raw c = 2 * raw q ∧ in_i64 (2 * raw q).
Proof.
  unfold gross_ceiling. simpl. unfold mbind, result_bind, map_err.
  destruct (checked_add q q) as [v|] eqn:E.
  - apply checked_add_Ok in E as [E ?]. replace (2 * raw q) with (raw q + raw q) by lia.
    split; [naive_solver|]. intros [? _]. f_equal. apply raw_inj. lia.
  - split; [done|]. intros [Hc Hr].
    assert (checked_add q q = Ok c) by (apply checked_add_Ok; split; [lia|by replace (raw q + raw q) with (2 * raw q) by lia]).
    congruence.
Qed.

Lemma gross_ceiling_Err q e : gross_ceiling q = Err e → e = QtyOverflow.
Proof.
  unfold gross_ceiling. simpl. unfold mbind, result_bind, map_err.
  destruct (checked_add q q); naive_solver.
Qed.

(** What a fill does to the recorded quantity. *)
Lemma apply_fill_Ok o q k o' :
  apply_fill o q k = Ok o' →
  ∃ target,
    0 < raw q ∧ raw (filled_qty o) + raw q ≤ 2 * raw (qty o) ∧
    in_i64 (raw (filled_qty o) + raw q) ∧
    o' = set_filled (set_state o target)
           (min (from_raw (raw (filled_qty o) + raw q)) (qty o)) ∧
    permits (state o) target = true ∧
    target = (if bool_decide (state o = Reconciling) then Reconciling
              else if raw (qty o) <=? raw (filled_qty o) + raw q then Filled
              else if bool_decide (state o = CancelPending) then CancelPending
              else Partial).
Proof.
  unfold apply_fill. intros H.
  do 3 (case_bool_in H; [done|]). z_reflect.
  destruct (checked_add _ _) as [nf|] eqn:Ea; [|done]. simpl in H.
  apply checked_add_Ok in Ea as [Hnf Hin].
  destruct (gross_ceiling (qty o)) as [c|] eqn:Ec; [|done]. simpl in H.
  apply gross_ceiling_Ok in Ec as [Hc _].
  case_bool_in H; [done|].
  unfold guard in H. destruct (permits _ _) eqn:Hp; [|done]. simpl in H. simplify_eq.
  assert (nf = from_raw (raw (filled_qty o) + raw q)) as -> by (apply raw_inj; done).
  eexists. split_and!; [..|exact Hp|].
  - unfold is_positive in *. z_reflect. done.
  - unfold ltb in *. z_reflect. simpl in *. lia.
  - done.
  - done.
  - unfold leb. rewrite raw_min. simpl. repeat case_bool; z_reflect; try done; lia.
Qed.

(** The authorised facts of an order are never rewritten. *)
Definition same_identity (o o' : OrderCore) : Prop :=
  client_order_id o' = client_order_id o ∧ instrument o' = instrument o ∧
  side o' = side o ∧ qty o' = qty o.

Lemma transition_identity o e o' : transition o e = Ok o' → same_identity o o'.
Proof.
  intros H. destruct e.
  5: { apply apply_fill_Ok in H as (t & _ & _ & _ & -> & _). done. }
  all: transition_cases H; case_hyp H; done.
Qed.

Lemma permits_elem s t : permits s t = true ↔ t ∈ allowed s.
Proof.
  unfold permits. rewrite existsb_exists. setoid_rewrite <-list_elem_of_In.
  split.
  - intros (x & ? & ?). z_reflect. by subst.
  - intros. exists t. by rewrite bool_decide_eq_true_2.
Qed.

(** The lifecycle map is the specification. A transition that succeeds goes
    where the map allows, or is the duplicate cancel confirmation of an already
    cancelled order, which changes nothing. *)
Theorem transition_within_map o e o' :
  transition o e = Ok o' →
  permits (state o) (state o') = true ∨
  (e = CancelConfirmed ∧ state o = Canceled ∧ o' = o).
Proof.
  intros H. destruct e.
  5: { apply apply_fill_Ok in H as (t & _ & _ & _ & -> & ? & _). by left. }
  all: transition_cases H; case_hyp H; simpl; auto.
Qed.

Definition ex_order (q : Z) : OrderCore :=
  created (inline_or_default 36 (str "UI-4bb5ba826e2e1")) (inline_or_default 16 (str "BTCUSD"))
    Buy (whole q).

Lemma transition_within_map_witness :
  permits (state (ex_order 10)) (state (set_state (ex_order 10) Submitting)) = true ∨
  (SubmissionStarted = CancelConfirmed ∧ state (ex_order 10) = Canceled ∧
   set_state (ex_order 10) Submitting = ex_order 10).
Proof. apply (transition_within_map (ex_order 10) SubmissionStarted). reflexivity. Defined.

(** UNKNOWN is left through reconciliation only, and RECONCILING only
    through the venue's own answer; every other event leaves the order where it
    was. *)
Theorem locked_states_exit o e o' :
  transition o e = Ok o' → state o' ≠ state o →
  (state o = Unknown → ∃ cause, e = ReconcileStarted cause ∧ state o' = Reconciling) ∧
  (state o = Reconciling →
     ∃ vid filled, e = ReconcileResolved (state o') vid filled ∧
       (match vid with Some v => venue_order_id o' = Some v
                     | None => venue_order_id o' = venue_order_id o end) ∧
       raw (filled_qty o') = Z.min (raw filled) (raw (qty o))).
Proof.
  intros H Hne. destruct e.
  5: { apply apply_fill_Ok in H as (t & _ & _ & _ & -> & Hp & ->). simpl in *.
       destruct (state o) eqn:Es; split; intros ?; try done; exfalso;
         revert Hp; repeat case_bool; done. }
  all: transition_cases H; case_hyp H; simpl in *; split; try done.
  - eauto.
  - intros _. eexists _, _. split; [reflexivity|]. simpl. by rewrite raw_min.
  - intros _. eexists _, _. split; [reflexivity|]. simpl. by rewrite raw_min.
Qed.

Lemma locked_states_exit_witness :
  let u := set_state (ex_order 10) Unknown in
  (state u = Unknown → ∃ cause, ReconcileStarted SubmissionTimeout = ReconcileStarted cause ∧
     state (set_state u Reconciling) = Reconciling) ∧
  (state u = Reconciling →
     ∃ vid filled, ReconcileStarted SubmissionTimeout =
        ReconcileResolved (state (set_state u Reconciling)) vid filled ∧
       (match vid with Some v => venue_order_id (set_state u Reconciling) = Some v
                     | None => venue_order_id (set_state u Reconciling) = venue_order_id u end) ∧
       raw (filled_qty (set_state u Reconciling)) = Z.min (raw filled) (raw (qty u))).
Proof.
  intros u. apply (locked_states_exit u (ReconcileStarted SubmissionTimeout));
    [reflexivity | discriminate].
Defined.

(** ** The order invariant *)

(** An authorised quantity, and a recorded fill inside it. *)
Definition order_ok (o : OrderCore) : Prop :=
  0 < raw (qty o) ∧ in_i64 (raw (qty o)) ∧ 0 ≤ raw (filled_qty o) ≤ raw (qty o).

Lemma created_ok c i s q : 0 < raw q → in_i64 (raw q) → order_ok (created c i s q).
Proof. unfold order_ok; simpl. intros. split_and!; auto; lia. Qed.

Lemma set_state_ok o s : order_ok o → order_ok (set_state o s).
Proof. done. Qed.

#[export] Hint Resolve created_ok set_state_ok : sentinel.

Lemma transition_order_ok o e o' : order_ok o → transition o e = Ok o' → order_ok o'.
Proof.
  intros (Hq & Hr & Hf) H. unfold order_ok. destruct e.
  5: { apply apply_fill_Ok in H as (t & ? & ? & ? & -> & _). simpl. rewrite raw_min.
       simpl. split_and!; auto; lia. }
  all: transition_cases H; case_hyp H; simpl in *; try done.
  all: match goal with E : _ || _ = false |- _ =>
         apply orb_false_iff in E as [Hn _]; unfold is_negative in Hn end;
    z_reflect; rewrite raw_min; split_and!; auto; lia.
Qed.

(** What an event says has been executed of the order by now. *)
Definition executed_by (o : OrderCore) (e : OrderEvent) : Z :=
  match e with
  | FillReceived _ q _ => raw (filled_qty o) + raw q
  | ReconcileResolved _ _ filled => raw filled
  | _ => raw (filled_qty o)
  end.

Lemma transition_reported o e o' :
  order_ok o → transition o e = Ok o' →
  raw (filled_qty o') = Z.min (executed_by o e) (raw (qty o)) ∧ 0 ≤ executed_by o e ≤ 2 * raw (qty o).
Proof.
  intros (Hq & _ & Hf) H. destruct e.
  5: { apply apply_fill_Ok in H as (t & ? & ? & _ & -> & _). simpl. rewrite raw_min. simpl. lia. }
  all: transition_cases H; case_hyp H; simpl in *; try lia.
  all: match goal with
         E : gross_ceiling _ = Ok _, F : _ || _ = false |- _ =>
           apply gross_ceiling_Ok in E as [Ec _]; apply orb_false_iff in F as [Hn Hl]
       end;
    unfold is_negative, ltb in Hn, Hl; z_reflect; rewrite raw_min; simpl in *; lia.
Qed.

(** The states in which a fill is looked at at all. *)
Definition takes_fills (s : OrderState) : bool :=
  match s with Submitting | Working | Partial | CancelPending | Reconciling => true | _ => false end.

(** More than twice the order is an overfill, or more than a quantity can hold. *)
Lemma absurd_fill_refused o x q p :
  order_ok o → takes_fills (state o) = true → 2 * raw (qty o) < raw (filled_qty o) + raw q →
  ∃ err, transition o (FillReceived x q p) = Err err ∧ transition_integrity_violation err = true.
Proof.
  intros (Hq & _ & Hf) Ht Hover. cbn [transition event_kind]. unfold apply_fill.
  replace (is_terminal (state o) || _) with false by (by destruct (state o)).
  replace (negb (match state o with _ => _ end)) with false by (by destruct (state o)).
  replace (is_positive q) with true by (unfold is_positive; symmetry; apply Z.ltb_lt; lia). cbn [negb].
  destruct (checked_add (filled_qty o) q) as [nf|] eqn:Ea; [|by eexists].
  apply checked_add_Ok in Ea as [Hnf _]. cbn [map_err mbind result_bind].
  destruct (gross_ceiling (qty o)) as [c|err] eqn:Ec; [|apply gross_ceiling_Err in Ec as ->; by eexists].
  apply gross_ceiling_Ok in Ec as [Hc _]. cbn [mbind result_bind].
  replace (ltb c nf) with true by (unfold ltb; symmetry; apply Z.ltb_lt; lia). by eexists.
Qed.

(** C31: the recorded fill of an order stays between zero and its quantity, whatever the venue
    reports. An event that is accepted records what it says has been executed by
    now, clamped to the quantity, and can say no more than twice of it; a fill
    that would take the recorded amount beyond twice the quantity is refused as
    an integrity violation in every state that takes fills, RECONCILING
    included. What it is measured with is the recorded, so already clamped,
    amount: smaller over-matches one after another are each absorbed. *)
Theorem transition_preserves_ok o e :
  order_ok o →
  (∀ o', transition o e = Ok o' →
    order_ok o' ∧ qty o' = qty o ∧ raw (filled_qty o') = Z.min (executed_by o e) (raw (qty o)) ∧
    0 ≤ executed_by o e ≤ 2 * raw (qty o)) ∧
  (∀ x q p, e = FillReceived x q p → takes_fills (state o) = true → 2 * raw (qty o) < executed_by o e →
    ∃ err, transition o e = Err err ∧ transition_integrity_violation err = true).
Proof.
  intros Hok. split.
  - intros o' H. pose proof (transition_reported o e o' Hok H) as [??].
    pose proof (transition_identity o e o' H) as (_ & _ & _ & ?).
    split_and!; [by eapply transition_order_ok|done|lia..].
  - intros x q p -> Ht Hover. by apply absurd_fill_refused.
Qed.

Lemma transition_preserves_ok_witness :
  let o := set_state (ex_order 10) Reconciling in
  let e := FillReceived (inline_or_default 40 (str "E-1")) (whole 21) (whole 100) in
  order_ok o ∧ (∃ err, transition o e = Err err ∧ transition_integrity_violation err = true).
Proof.
  intros o e. assert (order_ok o) as H by (repeat split; vm_compute; congruence).
  split; [exact H|]. eapply (proj2 (transition_preserves_ok o e H)); reflexivity.
Defined.

(** ** Fills *)

Definition fill_event (f : ExecId * Qty * Price) : OrderEvent :=
  FillReceived f.1.1 f.1.2 f.2.
Definition fill_qty (f : ExecId * Qty * Price) : Z := raw f.1.2.

Lemma apply_fill_within o q k :
  order_ok o → in_i64 (2 * raw (qty o)) → 0 < raw q →
  raw (filled_qty o) + raw q ≤ 2 * raw (qty o) →
  permits (state o)
    (if bool_decide (state o = Reconciling) then Reconciling
     else if raw (qty o) <=? raw (filled_qty o) + raw q then Filled
     else if bool_decide (state o = CancelPending) then CancelPending else Partial) = true →
  is_terminal (state o) = false → state o ≠ Unknown → state o ≠ Created →
  ∃ o', apply_fill o q k = Ok o'.
Proof.
  intros (? & ? & ?) Hc Hq Hle Hp Ht Hu Hcr. unfold apply_fill.
  rewrite Ht, bool_decide_eq_false_2 by done. simpl.
  replace (negb _) with false by (by destruct (state o)).
  unfold is_positive. rewrite (proj2 (Z.ltb_lt _ _)) by done. simpl.
  assert (in_i64 (raw (filled_qty o) + raw q)) as Hin by (unfold_ranges; lia).
  unfold checked_add at 1. rewrite (i64_checked_in _ Hin). simpl.
  rewrite (proj2 (gross_ceiling_Ok (qty o) (from_raw (2 * raw (qty o))))) by done. simpl.
  unfold ltb. simpl. rewrite (proj2 (Z.ltb_ge _ _)) by done.
  unfold leb. rewrite raw_min. simpl.
  replace (raw (qty o) <=? Z.min (raw (filled_qty o) + raw q) (raw (qty o)))
    with (raw (qty o) <=? raw (filled_qty o) + raw q) by (apply eq_bool_prop_intro; rewrite !Is_true_true, !Z.leb_le; lia).
  unfold guard. rewrite Hp. simpl. eauto.
Qed.

(** Filled and remaining are exact across any sequence of executions that
    stays inside the order (R1.5), and the order is FILLED when, and only when,
    the last unit is in. *)
Theorem partial_fills_exact o fs :
  order_ok o → in_i64 (2 * raw (qty o)) →
  (state o = Working ∨ state o = Partial) → raw (filled_qty o) < raw (qty o) →
  Forall (λ f, 0 < fill_qty f) fs →
  raw (filled_qty o) + zsum (fill_qty <$> fs) ≤ raw (qty o) →
  ∃ o', drive o (fill_event <$> fs) = Ok o' ∧
    raw (filled_qty o') = raw (filled_qty o) + zsum (fill_qty <$> fs) ∧
    raw (core_remaining_qty o') = raw (qty o) - raw (filled_qty o') ∧
    (state o' = Filled ↔ raw (filled_qty o') = raw (qty o)).
Proof.
  intros Hok H2 Hst Hlt Hpos. revert o Hok H2 Hst Hlt.
  induction Hpos as [|f fs Hf Hfs IH]; intros o Hok H2 Hst Hlt Hsum.
  - exists o. csimpl in *. destruct Hok as (? & ? & ?). unfold core_remaining_qty.
    split_and!; [done|lia| |].
    + rewrite raw_max. unfold checked_sub. rewrite i64_checked_in; simpl; unfold_ranges; lia.
    + destruct Hst as [-> | ->]; split; try done; lia.
  - csimpl in *. unfold fill_qty in Hf at 1.
    assert (0 ≤ zsum (fill_qty <$> fs)) as Hnn.
    { apply zsum_nonneg, Forall_fmap. eapply Forall_impl; [exact Hfs|]. simpl. lia. }
    unfold fill_qty at 1 in Hsum. pose proof Hok as (? & ? & ?).
    destruct (apply_fill_within o f.1.2 EventKind.FillReceived) as [o1 Ho1];
      try done; try lia; try (by destruct Hst as [-> | ->]).
    { destruct Hst as [-> | ->]; simpl; by case_bool. }
    simpl. rewrite Ho1. simpl.
    assert (order_ok o1) as Hok1 by (eapply (transition_order_ok o (fill_event f)); done).
    pose proof (apply_fill_Ok _ _ _ _ Ho1) as (t & _ & _ & _ & -> & _ & Ht).
    assert (raw (min (from_raw (raw (filled_qty o) + raw f.1.2)) (qty o)) =
              raw (filled_qty o) + raw f.1.2) as Hmin by (rewrite raw_min; simpl; lia).
    assert (Hst' : bool_decide (state o = Reconciling) = false ∧
              bool_decide (state o = CancelPending) = false) by (by destruct Hst as [-> | ->]).
    destruct Hst' as [-> Hcp] in Ht. rewrite Hcp in Ht.
    destruct (Z.leb_spec (raw (qty o)) (raw (filled_qty o) + raw f.1.2)).
    + assert (fs = []) as ->.
      { destruct fs as [|g fs]; [done|]. csimpl in *. inv Hfs.
        assert (0 ≤ zsum (fill_qty <$> fs)).
        { apply zsum_nonneg, Forall_fmap. eapply Forall_impl; [eassumption|]. simpl. lia. }
        lia. }
      eexists. split; [reflexivity|]. simpl. rewrite Hmin. unfold fill_qty. simpl.
      unfold core_remaining_qty. simpl. rewrite raw_max. unfold checked_sub. simpl. rewrite Hmin.
      destruct Hok as (? & ? & ?).
      rewrite i64_checked_in by (unfold_ranges; lia). subst t. simpl.
      split_and!; [lia|lia|]. split; intros; [lia|done].
    + destruct (IH _ Hok1) as (o2 & Hd & Hv & Hrem & Hfin); simpl; auto; try (rewrite ?Hmin; lia).
      exists o2. csimpl in *. rewrite Hmin in Hv. unfold fill_qty at 1.
      split_and!; [done|lia|done|done].
Qed.

Lemma partial_fills_exact_witness :
  let o := set_state (ex_order 10) Working in
  let f n q := (inline_or_default 40 (str n), whole q, whole 100) in
  let fs := [f "E-0" 3; f "E-1" 3; f "E-2" 4] in
  ∃ o', drive o (fill_event <$> fs) = Ok o' ∧
    raw (filled_qty o') = raw (filled_qty o) + zsum (fill_qty <$> fs) ∧
    raw (core_remaining_qty o') = raw (qty o) - raw (filled_qty o') ∧
    (state o' = Filled ↔ raw (filled_qty o') = raw (qty o)).
Proof.
  intros o f fs. apply (partial_fills_exact o fs).
  - repeat split; vm_compute; congruence.
  - split; vm_compute; congruence.
  - by left.
  - reflexivity.
  - repeat constructor.
  - vm_compute; congruence.
Defined.

(** ** Evidence that may not be applied *)

(** The events that are evidence for, and never a move from, a state. *)
Definition is_evidence_only (s : OrderState) (e : OrderEvent) : bool :=
  match e with
  | FillReceived _ _ _ => is_terminal s || bool_decide (s = Unknown)
  | CancelConfirmed => match s with Filled | Rejected | Unknown => true | _ => false end
  | _ => false
  end.

(** An order is routed to reconciliation for exactly the evidence that
    contradicts what was booked: a fill for an order believed finished or of
    unprovable outcome, or a cancel confirmation for one filled, rejected or
    unknown (R1.7); nothing else asks for it and such evidence never applies. *)
Theorem evidence_policy o e :
  (∃ err, transition o e = Err err ∧ needs_reconciliation err = true) ↔
  is_evidence_only (state o) e = true.
Proof.
  split.
  - intros (err & H & Hn). destruct e; simpl in H.
    5: { unfold apply_fill in H. simpl. case_bool_in H; [done|].
         do 2 (case_bool_in H; [by simplify_eq|]).
         unfold mbind, result_bind, map_err, guard in H.
         case_hyp H; try done.
         match goal with E : gross_ceiling _ = Err _ |- _ =>
           apply gross_ceiling_Err in E; by subst end. }
    all: try unfold apply_cancel_confirmed in H; destruct (state o); simpl in *; try done;
      unfold guard, mbind, result_bind in H; simpl in H; case_hyp H; try done.
    all: match goal with E : gross_ceiling _ = Err _ |- _ =>
           apply gross_ceiling_Err in E; by subst end.
  - destruct e; simpl; try done.
    + intros H. unfold apply_fill. rewrite H. eauto.
    + intros H. destruct (state o) eqn:E; try done; simpl; unfold apply_cancel_confirmed;
        rewrite E; eauto.
Qed.

(** ** Recovery *)

Definition recovery (o : OrderCore) (cause : ReconcileCause) (s : OrderState)
    (vid : option VenueOrderId) (filled : Qty) : list OrderEvent :=
  (if bool_decide (state o = Reconciling) then [] else [ReconcileStarted cause]) ++
  [ReconcileResolved s vid filled].

(** No state is a dead end. From any state, UNKNOWN and the terminal ones
    included, asking the venue and recording its answer succeeds, and leaves
    the order with the venue's state and the venue's quantity, clamped to what
    was authorised (R1.3, R1.12). *)
Theorem recovery_total o cause s vid filled :
  order_ok o → in_i64 (2 * raw (qty o)) → permits Reconciling s = true →
  0 ≤ raw filled ≤ 2 * raw (qty o) →
  ∃ o', drive o (recovery o cause s vid filled) = Ok o' ∧
    state o' = s ∧ raw (filled_qty o') = Z.min (raw filled) (raw (qty o)) ∧
    same_identity o o'.
Proof.
  intros Hok H2 Hp Hf.
  assert (∀ o1, state o1 = Reconciling → same_identity o o1 → 
     ∃ o', drive o1 [ReconcileResolved s vid filled] = Ok o' ∧
       state o' = s ∧ raw (filled_qty o') = Z.min (raw filled) (raw (qty o)) ∧
       same_identity o o') as Hres.
  { intros o1 Hs (? & ? & ? & Hq). simpl. rewrite Hs. simpl. unfold guard.
    rewrite Hp. simpl. rewrite Hq.
    rewrite (proj2 (gross_ceiling_Ok (qty o) (from_raw (2 * raw (qty o))))) by done. simpl.
    unfold is_negative, ltb. simpl.
    rewrite (proj2 (Z.ltb_ge _ _)), (proj2 (Z.ltb_ge _ _)) by lia. simpl.
    eexists. split_and!; [reflexivity|done|simpl; by rewrite raw_min|].
    by rewrite <-Hq. }
  unfold recovery. case_bool_decide as Hs; [by apply Hres|].
  simpl app.
  assert (transition o (ReconcileStarted cause) = Ok (set_state o Reconciling)) as Hst.
  { simpl. rewrite bool_decide_eq_false_2 by done. unfold guard.
    by destruct (state o). }
  cbn [drive]. rewrite Hst. by apply Hres.
Qed.

Lemma recovery_total_witness :
  let o := set_state (ex_order 10) Unknown in
  ∃ o', drive o (recovery o SubmissionTimeout Partial None (whole 4)) = Ok o' ∧
    state o' = Partial ∧ raw (filled_qty o') = Z.min (raw (whole 4 : Qty)) (raw (qty o)) ∧
    same_identity o o'.
Proof.
  intros o. apply (recovery_total o SubmissionTimeout Partial None (whole 4)).
  - repeat split; vm_compute; congruence.
  - split; vm_compute; congruence.
  - reflexivity.
  - split; vm_compute; congruence.
Defined.

(** The overfill ceiling is measured against the clamped record. While an order
    is reconciling, any number of executions, each for the whole order, is
    absorbed without one of them being an overfill: the order does not move,
    and each of them is a fill the position books in full. *)
Theorem reconciling_absorbs_any_overfill o fs :
  order_ok o → in_i64 (2 * raw (qty o)) → state o = Reconciling →
  filled_qty o = qty o → Forall (λ f, fill_qty f = raw (qty o)) fs →
  drive o (fill_event <$> fs) = Ok o.
Proof.
  intros Hok H2 Hs Hf Hfs. induction Hfs as [|f fs Hfq _ IH]; [done|].
  csimpl. pose proof Hok as (? & ? & ?). unfold fill_qty in Hfq.
  destruct (apply_fill_within o f.1.2 EventKind.FillReceived) as [o1 Ho1];
    rewrite ?Hs, ?Hf; simpl; try done; try lia.
  unfold fill_event. simpl. rewrite Ho1. simpl.
  apply apply_fill_Ok in Ho1 as (t & _ & _ & _ & -> & _ & ->).
  rewrite bool_decide_eq_true_2 by done.
  assert (set_filled (set_state o Reconciling)
            (min (from_raw (raw (filled_qty o) + raw f.1.2)) (qty o)) = o) as ->; [|done].
  destruct o; simpl in *; subst. unfold set_filled; simpl. f_equal.
  apply raw_inj. rewrite raw_min. simpl. lia.
Qed.

Lemma reconciling_absorbs_any_overfill_witness :
  let o := set_filled (set_state (ex_order 10) Reconciling) (whole 10) in
  let f n := (inline_or_default 40 (str n), whole 10, whole 100) in
  drive o (fill_event <$> [f "E-1"; f "E-2"; f "E-3"; f "E-4"]) = Ok o.
Proof.
  intros o f. apply reconciling_absorbs_any_overfill; try reflexivity.
  - repeat split; vm_compute; congruence.
  - split; vm_compute; congruence.
  - repeat constructor.
Defined.
