(* ===== verification/Scenarios.v ===== *)
(** * The R1 scenarios (sentinel-domain/src/scenarios.rs)

    The fixture of the program's specification tests of the order lifecycle, and
    the two of them that speak of every sequence of events proved of every
    sequence. The tests themselves run in DomainSuite.v. *)

From S2P Require Import Prelude Fixed Text Types Domain.

Module Scenario.
Definition order (n : Z) : OrderCore :=
  created (inline_or_default 36 (str "SENT-R1-14")) (inline_or_default 16 (str "BTCUSD")) Buy
    (whole n).

Definition fill (exec : string) (n : Z) : OrderEvent :=
  FillReceived (inline_or_default 40 (str exec)) (whole n)
    (unwrap_or (parse (str "109432.5")) ZERO).

Definition venue_id (s : string) : VenueOrderId := inline_or_default 32 (str s).

(** [step] panics on a refusal, [replay] with it: an error here. *)
Definition step : OrderCore → OrderEvent → result TransitionError OrderCore := transition.
Definition replay (events : list OrderEvent) : result TransitionError OrderCore := drive (order 10) events.
End Scenario.
Import Scenario.

(** ** Every sequence *)

(** Past its submission: neither waiting for it nor in it. *)
Definition past_submission (o : OrderCore) : Prop := state o ≠ Created ∧ state o ≠ Submitting.

Lemma allowed_past_submission s t :
  permits s t = true → s ≠ Created → s ≠ Submitting → t ≠ Created ∧ t ≠ Submitting.
Proof. destruct s; try done; destruct t; done. Qed.

Lemma transition_past_submission o e o' :
  transition o e = Ok o' → past_submission o → past_submission o'.
Proof.
  intros H [Hc Hs]. apply transition_within_map in H as [H|H].
  - by eapply allowed_past_submission.
  - unfold past_submission. destruct H as (_ & _ & ->). done.
Qed.

Lemma same_identity_trans a b c : same_identity a b → same_identity b c → same_identity a c.
Proof. unfold same_identity. intuition congruence. Qed.

Lemma drive_invariant (P : OrderCore → Prop) (R : relation OrderCore) `{!PreOrder R} :
  (∀ o e o', transition o e = Ok o' → P o → P o' ∧ R o o') →
  ∀ events o o', drive o events = Ok o' → P o → P o' ∧ R o o'.
Proof.
  intros Hstep events. induction events as [|e events IH]; intros o o' H Hp; cbn [drive] in H.
  - by injection H as <-.
  - bind_step H o1 Ho1. destruct (Hstep _ _ _ Ho1 Hp) as [Hp1 Hr1].
    destruct (IH _ _ H Hp1) as [Hp' Hr']. split; [done|]. by etransitivity.
Qed.

#[export] Instance same_identity_preorder : PreOrder same_identity.
Proof. split; [done|]. intros a b c. apply same_identity_trans. Qed.

(** C10: a timeout is never answered by sending again. Whatever happens to an order once its submission
    has ended, by an answer or by none, over any sequence of events its
    lifecycle accepts: it is never in submission again, every attempt to submit
    it is refused, and it is still the order that was authorised, with its id,
    its instrument, its side and its quantity. *)
Theorem nothing_resubmits (o o' : OrderCore) (events : list OrderEvent) :
  past_submission o → drive o events = Ok o' →
  past_submission o' ∧ same_identity o o' ∧
  ∃ err, transition o' SubmissionStarted = Err err ∧ transition_integrity_violation err = false.
Proof.
  intros Hp Hd.
  destruct (drive_invariant past_submission same_identity) with events o o' as [Hp' Hi]; [|done..|].
  { intros a e b Hab Ha. split; [by eapply transition_past_submission|by eapply transition_identity]. }
  split_and!; [done..|]. destruct Hp' as [Hc _]. cbn. rewrite bool_decide_eq_false_2 by done. eauto.
Qed.

Lemma nothing_resubmits_witness :
  let timed_out := unwrap_or (replay [SubmissionStarted; SubmissionTimedOut]) (Scenario.order 10) in
  let events := [ReconcileStarted SubmissionTimeout;
                 ReconcileResolved Working (Some (venue_id "V-77")) ZERO; Scenario.fill "E-1" 3] in
  let o' := unwrap_or (drive timed_out events) timed_out in
  state timed_out = Unknown ∧ state o' = Partial ∧
  past_submission o' ∧ same_identity timed_out o' ∧
  ∃ err, transition o' SubmissionStarted = Err err ∧ transition_integrity_violation err = false.
Proof.
  intros timed_out events o'. split; [reflexivity|]. split; [vm_compute; reflexivity|].
  apply (nothing_resubmits timed_out o' events).
  - split; discriminate.
  - vm_compute. reflexivity.
Defined.
