(* ===== verification/Intent.v ===== *)
(** * Intents and products (sentinel-domain/src/intent.rs, product.rs)

    The validating constructor that is the only way to build an intent, and the
    product definition with its lifetime gate. *)

From S2P Require Import Prelude Fixed Types.

(** ** Economic order intent *)

Inductive IntentError :=
| NonPositiveQty | NonPositivePrice | StopLimitUnsupported | EmptyIdempotencyKey
| MissingPrice (kind : OrderKind).

#[export] Instance IntentError_eq_dec : EqDecision IntentError.
Proof. solve_decision. Defined.

(** [Display for IntentError]. *)
Definition intent_error_to_string (e : IntentError) : list byte :=
  match e with
  | NonPositiveQty => str "intent qty must be positive"
  | NonPositivePrice => str "prices must be positive"
  | StopLimitUnsupported => str "stop-limit is not supported: set a stop price or a limit price"
  | EmptyIdempotencyKey => str "idempotency key must be non-empty"
  | MissingPrice kind => as_str kind ++ str " requires a price"
  end.

Module Intent.
Record t := mk {
  client_order_id : ClientOrderId;
  instrument : Instrument;
  side : Side;
  qty : Qty;
  kind : OrderKind;
  limit_price : option Price;
  stop_price : option Price;
  authority : Authority;
  trace_id : TraceId;
  quote_at_decision : option Price;
}.

#[global] Instance t_eq_dec : EqDecision t.
Proof. solve_decision. Defined.

(** [Option::is_some_and(|p| !p.is_positive())]. *)
Definition not_positive (p : option Price) : bool :=
  match p with Some p => negb (is_positive p) | None => false end.

Definition is_some {A} (o : option A) : bool :=
  match o with Some _ => true | None => false end.

Definition new (c : ClientOrderId) (i : Instrument) (s : Side) (q : Qty)
    (k : OrderKind) (limit stop : option Price) (a : Authority) (tr : TraceId)
    (quote : option Price) : result IntentError t :=
  if inline_is_empty c then Err EmptyIdempotencyKey
  else if negb (is_positive q) then Err NonPositiveQty
  else if not_positive limit || not_positive stop || not_positive quote
  then Err NonPositivePrice
  else if is_some limit && is_some stop then Err StopLimitUnsupported
  else if needs_limit_price k && negb (is_some limit) then Err (MissingPrice k)
  else if needs_stop_price k && negb (is_some stop) then Err (MissingPrice k)
  else Ok (mk c i s q k limit stop a tr quote).

Definition market c i s q a tr : result IntentError t :=
  new c i s q Market None None a tr None.

Definition limit c i s q price a tr : result IntentError t :=
  new c i s q Limit (Some price) None a tr None.

Definition stop_market c i s q trigger tr : result IntentError t :=
  new c i s q StopMarket None (Some trigger) ProtectiveExit tr None.

Definition opens_exposure (x : t) : bool := authority_opens_exposure (authority x).

Definition signed_qty (x : t) : Qty :=
  from_raw (i64_saturate (raw (qty x) * sign (side x))).

(** [EconomicOrderIntent { qty: to, ..intent }]. *)
Definition with_qty (x : t) (q : Qty) : t :=
  mk (client_order_id x) (instrument x) (side x) q (kind x) (limit_price x)
    (stop_price x) (authority x) (trace_id x) (quote_at_decision x).
End Intent.

(** ** Products *)

Inductive Settlement := Cash | Physical.
#[export] Instance Settlement_eq_dec : EqDecision Settlement.
Proof. solve_decision. Defined.
#[export] Instance Settlement_wire : WireEnum Settlement := {
  enum_name := "Settlement";
  ALL := [Cash; Physical];
  as_u8 s := match s with Cash => 1 | Physical => 2 end;
  as_str s := match s with Cash => str "CASH" | Physical => str "PHYSICAL" end;
}.

Inductive Exercise := European | American | NotApplicable.
#[export] Instance Exercise_eq_dec : EqDecision Exercise.
Proof. solve_decision. Defined.
#[export] Instance Exercise_wire : WireEnum Exercise := {
  enum_name := "Exercise";
  ALL := [European; American; NotApplicable];
  as_u8 e := match e with European => 1 | American => 2 | NotApplicable => 3 end;
  as_str e := match e with
    | European => str "EUROPEAN" | American => str "AMERICAN" | NotApplicable => str "NONE" end;
}.

Inductive ContractKind := Perpetual | Future | Option.
#[export] Instance ContractKind_eq_dec : EqDecision ContractKind.
Proof. solve_decision. Defined.
#[export] Instance ContractKind_wire : WireEnum ContractKind := {
  enum_name := "ContractKind";
  ALL := [Perpetual; Future; Option];
  as_u8 c := match c with Perpetual => 1 | Future => 2 | Option => 3 end;
  as_str c := match c with
    | Perpetual => str "PERPETUAL" | Future => str "FUTURE" | Option => str "OPTION" end;
}.

Inductive Expiration := Never | At (t : Nanos).

Module Product.
Record t := mk {
  instrument : Instrument;
  contract : ContractKind;
  settlement : Settlement;
  exercise : Exercise;
  multiplier : Qty;
  tick_size : Price;
  lot_size : Qty;
  expiration : Expiration;
  listed_at : Nanos;
}.

Inductive error :=
| NonPositiveIncrement | ExpirationContradictsKind | ExerciseContradictsKind
| ExpiresBeforeListing.

(** [Display for ProductError]. *)
Definition error_to_string (e : error) : list byte :=
  match e with
  | NonPositiveIncrement => str "multiplier, tick and lot must be positive"
  | ExpirationContradictsKind => str "a perpetual cannot expire, and a dated contract must"
  | ExerciseContradictsKind => str "an option needs an exercise style, and a future cannot have one"
  | ExpiresBeforeListing => str "expiry precedes listing"
  end.

Definition validate (p : t) : result error unit :=
  if negb (is_positive (multiplier p)) || negb (is_positive (tick_size p))
     || negb (is_positive (lot_size p))
  then Err NonPositiveIncrement
  else match contract p, expiration p with
  | Perpetual, At _ | (Future | Option), Never => Err ExpirationContradictsKind
  | _, _ =>
      match contract p, exercise p with
      | Option, NotApplicable | (Perpetual | Future), (European | American) =>
          Err ExerciseContradictsKind
      | _, _ =>
          match expiration p with
          | At t => if t <=? listed_at p then Err ExpiresBeforeListing else Ok tt
          | Never => Ok tt
          end
      end
  end.

Definition early_assignment_possible (p : t) : bool :=
  match exercise p with American => true | _ => false end.
Definition has_delivery_risk (p : t) : bool :=
  match settlement p with Physical => true | _ => false end.

Definition is_tradable_at (p : t) (now : Nanos) : bool :=
  if now <? listed_at p then false
  else match expiration p with
       | Never => true
       | At t => now <? t
       end.

Definition accrues_funding (p : t) : bool :=
  match contract p with Perpetual => true | _ => false end.
End Product.

#[export] Instance Settlement_laws : WireEnumLaws Settlement.
Proof. solve_wire_laws. Qed.
#[export] Instance Exercise_laws : WireEnumLaws Exercise.
Proof. solve_wire_laws. Qed.
#[export] Instance ContractKind_laws : WireEnumLaws ContractKind.
Proof. solve_wire_laws. Qed.

(** ** What a constructed intent satisfies *)

Definition price_pos (p : option Price) : Prop :=
  match p with Some p => 0 < raw p | None => True end.

(** Everything an intent promises its users: a key, a positive quantity,
    positive prices, at most one of them, and the one its kind needs. *)
Record intent_valid (x : Intent.t) : Prop := {
  iv_key : inline_is_empty (Intent.client_order_id x) = false;
  iv_qty : 0 < raw (Intent.qty x);
  iv_limit : price_pos (Intent.limit_price x);
  iv_stop : price_pos (Intent.stop_price x);
  iv_quote : price_pos (Intent.quote_at_decision x);
  iv_one_price : Intent.limit_price x = None ∨ Intent.stop_price x = None;
  iv_needs_limit : Intent.kind x = Limit → Intent.limit_price x ≠ None;
  iv_needs_stop : Intent.kind x = StopMarket → Intent.stop_price x ≠ None;
}.

Lemma not_positive_false p : Intent.not_positive p = false ↔ price_pos p.
Proof.
  destruct p as [p|]; simpl; [|done]. unfold is_positive.
  rewrite negb_false_iff, Z.ltb_lt. done.
Qed.

(** The constructor builds exactly the valid intents, with the fields it
    was given: nothing valid is refused and nothing invalid exists. *)
Theorem intent_new_exact c i s q k l st a tr qu :
  let x := Intent.mk c i s q k l st a tr qu in
  Intent.new c i s q k l st a tr qu = Ok x ↔ intent_valid x.
Proof.
  intros x. unfold Intent.new. split.
  - intros H. do 6 (case_bool_in H; [done|]).
    repeat match goal with E : _ || _ = false |- _ => apply orb_false_iff in E as [? ?] end.
    rewrite !not_positive_false in *. unfold is_positive in *. z_reflect.
    split; simpl; auto.
    + destruct l, st; simpl in *; auto; done.
    + intros -> ->. done.
    + intros -> ->. done.
  - intros [Hk Hq Hl Hs Hqu H1 Hnl Hns]; simpl in *.
    apply not_positive_false in Hl, Hs, Hqu. unfold is_positive.
    rewrite Hk, (proj2 (Z.ltb_lt _ _) Hq), Hl, Hs, Hqu. simpl.
    replace (Intent.is_some l && Intent.is_some st) with false
      by (destruct H1 as [-> | ->]; [done|by rewrite andb_false_r]).
    replace (needs_limit_price k && _) with false by (destruct k, l; naive_solver).
    replace (needs_stop_price k && _) with false by (destruct k, st; naive_solver).
    done.
Qed.

Lemma intent_new_Ok c i s q k l st a tr qu x :
  Intent.new c i s q k l st a tr qu = Ok x → x = Intent.mk c i s q k l st a tr qu.
Proof. unfold Intent.new. intros H. case_hyp H. done. Qed.

(** A resting stop is a protective exit whatever the caller wants. *)
Lemma stop_market_is_exit c i s q p tr x :
  Intent.stop_market c i s q p tr = Ok x → Intent.opens_exposure x = false.
Proof. intros H%intent_new_Ok. by subst. Qed.

(** ** The contract lifetime *)

(** A valid product is tradable exactly on the half-open interval from its
    listing to its expiry, which is never empty; a perpetual's has no end. *)
Theorem product_lifetime p :
  Product.validate p = Ok tt →
  (∀ now, Product.is_tradable_at p now = true ↔
     Product.listed_at p ≤ now ∧
     match Product.expiration p with At t => now < t | Never => True end) ∧
  Product.is_tradable_at p (Product.listed_at p) = true ∧
  (Product.accrues_funding p = true ↔ Product.expiration p = Never).
Proof.
  intros H.
  assert (∀ now, Product.is_tradable_at p now = true ↔
     Product.listed_at p ≤ now ∧
     match Product.expiration p with At t => now < t | Never => True end) as Hgate.
  { intros now. unfold Product.is_tradable_at.
    destruct (Z.ltb_spec now (Product.listed_at p)); [split; [done|lia]|].
    destruct (Product.expiration p); rewrite ?Z.ltb_lt; naive_solver lia. }
  split; [done|]. rewrite Hgate. unfold Product.validate, Product.accrues_funding in *.
  case_bool_in H; [done|].
  destruct (Product.contract p), (Product.expiration p), (Product.exercise p);
    simpl in *; try done; try (case_bool_in H; [done|]; z_reflect);
    split; try done; lia.
Qed.

Lemma product_lifetime_witness :
  let p := Product.mk (inline_or_default 16 (str "BTCUSD")) Future Cash NotApplicable
             (whole 1) (whole 1) (whole 1) (At 9000) 1000 in
  (∀ now, Product.is_tradable_at p now = true ↔ 1000 ≤ now ∧ now < 9000) ∧
  Product.is_tradable_at p 1000 = true ∧
  (Product.accrues_funding p = true ↔ At 9000 = Never).
Proof. intros p. apply (product_lifetime p). reflexivity. Defined.
