(* ===== verification/DomainSuite.v ===== *)
(** * The tests of the domain (sentinel-domain)

    The unit tests of the crate's modules and the R1 scenarios of scenarios.rs,
    each with all its assertions, run on the lifecycle of Domain.v and the
    constructors of Intent.v. Left out are the two tests that only ask the
    compiler whether a type is Copy. *)

From S2P Require Import Prelude Suite Fixed Text Types Domain Scenarios Intent.

Definition reconciling_evidence (s : OrderState) (k : EventKind.t) : result TransitionError OrderCore :=
  Err (RequiresReconciliation s k).

(** [matches!(r, Err(TransitionError::Illegal { from: s, .. }))] and the like. *)
Definition illegal_from (s : OrderState) (r : result TransitionError OrderCore) : bool :=
  match r with Err (Illegal from _ _) => bool_decide (from = s) | _ => false end.
Definition overfilled (r : result TransitionError OrderCore) : bool :=
  match r with Err (Overfill _ _ _) => true | _ => false end.
Definition non_positive (r : result TransitionError OrderCore) : bool :=
  match r with Err (NonPositiveFill _) => true | _ => false end.

(** ** transition.rs *)

Module TransitionTests.
Definition new_order (n : Z) : option OrderCore :=
  c ← unwrap (inline_new 36 (str "UI-4bb5ba826e2e1"));
  i ← unwrap (inline_new 16 (str "BTCUSD"));
  Some (created c i Buy (whole n)).

Definition venue_id (s : string) : option VenueOrderId := unwrap (inline_new 32 (str s)).

Definition fill_bytes (exec : list byte) (n : Z) : option OrderEvent :=
  e ← unwrap (inline_new 40 exec);
  Some (FillReceived e (whole n) (whole 100)).
Definition fill (exec : string) (n : Z) : option OrderEvent := fill_bytes (str exec) n.

(** [drive]: every step has to land. *)
Definition driven (o : OrderCore) (events : list OrderEvent) : option OrderCore := unwrap (drive o events).
Definition apply (o : OrderCore) (e : OrderEvent) : option OrderCore := unwrap (transition o e).

Definition working (n : Z) : option OrderCore :=
  o ← new_order n;
  v ← venue_id "V-1";
  driven o [SubmissionStarted; VenueAcked v].

(** [OrderCore { state, ..working(10) }]. *)
Definition working_in (s : OrderState) : option OrderCore :=
  o ← working 10; Some (set_state o s).

Definition submission_acknowledgement_and_a_full_fill : Test :=
  o ← new_order 10;
  v ← venue_id "V-1";
  f ← fill "E-1" 10;
  o ← driven o [SubmissionStarted; VenueAcked v; f];
  _ ← assert_eq (state o) Filled;
  _ ← assert_eq (filled_qty o) (whole 10);
  _ ← assert_eq (venue_order_id o) (Some v);
  assert_eq (core_remaining_qty o) ZERO.

(** The partials of the loop, numbered from [i]. *)
Fixpoint partials (o : OrderCore) (i : Z) (qs : list Z) : option OrderCore :=
  match qs with
  | [] => Some o
  | q :: qs =>
      f ← fill_bytes (str "E-" ++ dec i) q;
      o ← apply o f;
      _ ← assert_eq (state o) Partial;
      partials o (i + 1) qs
  end.

Definition partial_fills_account_exactly : Test :=
  o ← working 10;
  o ← partials o 0 [3; 3; 1; 2];
  _ ← assert_eq (filled_qty o) (whole 9);
  _ ← assert_eq (core_remaining_qty o) (whole 1);
  f ← fill "E-last" 1;
  o ← apply o f;
  _ ← assert_eq (state o) Filled;
  assert_eq (core_remaining_qty o) ZERO.

Definition an_execution_report_may_race_ahead_of_the_acknowledgement : Test :=
  o ← new_order 10;
  f ← fill "E-1" 4;
  o ← driven o [SubmissionStarted; f];
  _ ← assert_eq (state o) Partial;
  assert_eq (filled_qty o) (whole 4).

Definition a_timeout_parks_in_unknown_and_nothing_may_act_on_it : Test :=
  o ← new_order 10;
  o ← driven o [SubmissionStarted; SubmissionTimedOut];
  _ ← assert_eq (state o) Unknown;
  _ ← assert (locks_instrument (state o));
  _ ← assert (negb (is_terminal (state o)));
  _ ← assert (is_err (transition o CancelRequested));
  _ ← assert (is_err (transition o SubmissionStarted));
  v ← venue_id "V-1";
  _ ← assert (is_err (transition o (VenueAcked v)));
  f ← fill "E-1" 4;
  _ ← assert_eq (transition o f) (reconciling_evidence Unknown EventKind.FillReceived);
  o ← apply o (ReconcileStarted SubmissionTimeout);
  assert_eq (state o) Reconciling.

Definition a_timeout_outside_submitting_is_a_caller_bug : Test :=
  o ← working 10;
  assert (illegal_from Working (transition o SubmissionTimedOut)).

Definition a_fill_during_cancel_pending_is_accepted_and_the_cancel_stays_open : Test :=
  o ← working 10;
  f1 ← fill "E-1" 4;
  o ← driven o [f1; CancelRequested];
  _ ← assert_eq (state o) CancelPending;
  f2 ← fill "E-2" 3;
  o ← apply o f2;
  _ ← assert_eq (state o) CancelPending;
  _ ← assert_eq (filled_qty o) (whole 7);
  o ← apply o CancelConfirmed;
  _ ← assert_eq (state o) Canceled;
  _ ← assert_eq (filled_qty o) (whole 7);
  assert_eq (core_remaining_qty o) (whole 3).

Definition a_completing_fill_during_cancel_pending_fills_the_order : Test :=
  o ← working 10;
  f ← fill "E-1" 10;
  o ← driven o [CancelRequested; f];
  assert_eq (state o) Filled.

Definition a_fill_after_terminal_is_evidence_not_an_application : Test :=
  for_each [Filled; Canceled; Rejected] (λ terminal,
    o ← working_in terminal;
    f ← fill "E-late" 1;
    assert_eq (transition o f) (reconciling_evidence terminal EventKind.FillReceived)).

Definition a_cancel_confirm_contradicting_a_terminal_order_reconciles : Test :=
  for_each [Filled; Rejected; Unknown] (λ s,
    o ← working_in s;
    assert_eq (transition o CancelConfirmed) (reconciling_evidence s EventKind.CancelConfirmed)).

Definition a_duplicate_cancel_confirm_is_absorbed_not_escalated : Test :=
  o ← working 10;
  o ← driven o [CancelRequested; CancelConfirmed];
  _ ← assert_eq (state o) Canceled;
  again ← apply o CancelConfirmed;
  assert_eq again o.

Definition an_unsolicited_cancel_is_accepted_from_working_and_partial : Test :=
  w ← working 10;
  o ← apply w CancelConfirmed;
  _ ← assert_eq (state o) Canceled;
  f ← fill "E-1" 4;
  o ← driven w [f];
  o ← apply o CancelConfirmed;
  _ ← assert_eq (state o) Canceled;
  assert_eq (filled_qty o) (whole 4).

Definition asked (o : OrderCore) : option OrderCore := driven o [ReconcileStarted StaleSweep].

Definition reconciliation_ingests_evidence_without_concluding_from_it : Test :=
  o ← working 10;
  o ← asked o;
  f ← fill "E-1" 10;
  o ← apply o f;
  _ ← assert_eq (state o) Reconciling;
  _ ← assert_eq (filled_qty o) (whole 10);
  same ← apply o CancelConfirmed;
  _ ← assert_eq same o;
  v ← venue_id "V-1";
  o ← apply o (ReconcileResolved Filled (Some v) (whole 10));
  assert_eq (state o) Filled.

Definition resolution_replaces_local_belief_with_venue_truth : Test :=
  o ← working 10;
  f ← fill "E-1" 7;
  o ← driven o [f; ReconcileStarted PositionDisagreement];
  _ ← assert_eq (filled_qty o) (whole 7);
  v ← venue_id "V-1";
  resolved ← apply o (ReconcileResolved Filled (Some v) (whole 10));
  assert_eq (filled_qty resolved) (whole 10).

Definition resolution_can_report_the_order_never_existed : Test :=
  o ← new_order 10;
  o ← driven o [SubmissionStarted; SubmissionTimedOut; ReconcileStarted SubmissionTimeout];
  o ← apply o (ReconcileResolved Canceled None ZERO);
  _ ← assert_eq (state o) Canceled;
  _ ← assert_eq (filled_qty o) ZERO;
  assert_eq (venue_order_id o) None.

Definition resolution_keeps_a_venue_id_we_already_knew : Test :=
  o ← working 10;
  o ← asked o;
  o ← apply o (ReconcileResolved Working None ZERO);
  v ← venue_id "V-1";
  assert_eq (venue_order_id o) (Some v).

Definition reconciling_twice_is_a_caller_bug : Test :=
  o ← working 10;
  o ← asked o;
  assert (is_err (transition o (ReconcileStarted LateFill))).

Definition resolving_an_order_that_is_not_reconciling_is_a_caller_bug : Test :=
  o ← working 10;
  assert (illegal_from Working (transition o (ReconcileResolved Filled None (whole 10)))).

Definition a_mild_over_match_is_tolerated_and_clamped : Test :=
  o ← working 10;
  f ← fill "E-1" 11;
  o ← apply o f;
  _ ← assert_eq (state o) Filled;
  assert_eq (filled_qty o) (whole 10).

Definition an_absurd_overfill_is_a_fault_and_says_so : Test :=
  o ← working 10;
  f ← fill "E-1" 21;
  err ← unwrap_err (transition o f);
  _ ← assert (overfilled (Err err));
  assert (transition_integrity_violation err).

Definition overfill_is_measured_cumulatively_not_per_fill : Test :=
  o ← working 10;
  f1 ← fill "E-1" 9;
  o ← driven o [f1];
  f2 ← fill "E-2" 9;
  o2 ← apply o f2;
  _ ← assert_eq (filled_qty o2) (whole 10);
  f3 ← fill "E-3" 12;
  assert (overfilled (transition o f3)).

Definition a_zero_or_negative_fill_is_refused : Test :=
  for_each [0; -1] (λ q,
    e ← fill "E-1" q;
    o ← working 10;
    assert (non_positive (transition o e))).

Definition resolution_refuses_a_filled_quantity_outside_the_tolerance : Test :=
  o ← working 10;
  o ← asked o;
  for_each [whole (-1); whole 21] (λ bad,
    assert (overfilled (transition o (ReconcileResolved Filled None bad)))).

Definition cancelling_an_unknown_order_is_impossible : Test :=
  for_each ALL (λ s,
    o ← working_in s;
    let allowed := match s with Working | Partial => true | _ => false end in
    assert_eq (is_ok (transition o CancelRequested)) allowed).

Definition map_samples : option (list OrderEvent) :=
  v ← venue_id "V-1";
  f1 ← fill "E-1" 1;
  f2 ← fill "E-2" 10;
  Some [SubmissionStarted; VenueAcked v; VenueRejected (reject_reason_new (-2019) (str "no margin"));
        SubmissionTimedOut; f1; f2; CancelRequested; CancelConfirmed; ReconcileStarted StaleSweep;
        ReconcileResolved Filled None (whole 10)].

Definition no_event_can_reach_a_state_the_map_forbids : Test :=
  samples ← map_samples;
  for_each ALL (λ from, for_each samples (λ event,
    before ← working_in from;
    if_ok (transition before event) (λ after,
      assert (bool_decide (state after = from) || permits from (state after))))).

Definition identity_samples : option (list OrderEvent) :=
  v ← venue_id "V-1";
  f ← fill "E-1" 3;
  Some [SubmissionStarted; VenueAcked v; f; CancelRequested; CancelConfirmed; ReconcileStarted StaleSweep].

Definition the_authorised_quantity_is_never_rewritten : Test :=
  samples ← identity_samples;
  for_each ALL (λ from, for_each samples (λ event,
    before ← working_in from;
    if_ok (transition before event) (λ after,
      _ ← assert_eq (qty after) (qty before);
      _ ← assert_eq (client_order_id after) (client_order_id before);
      _ ← assert_eq (instrument after) (instrument before);
      assert_eq (side after) (side before)))).

Definition filled_never_exceeds_the_authorised_quantity : Test :=
  for_each ALL (λ from, for_each [1; 5; 10; 11; 19] (λ q,
    before ← working_in from;
    f ← fill "E-x" q;
    if_ok (transition before f) (λ after, assert (leb (filled_qty after) (qty after))))).

Definition tests : list Test :=
  [submission_acknowledgement_and_a_full_fill; partial_fills_account_exactly;
   an_execution_report_may_race_ahead_of_the_acknowledgement;
   a_timeout_parks_in_unknown_and_nothing_may_act_on_it;
   a_timeout_outside_submitting_is_a_caller_bug;
   a_fill_during_cancel_pending_is_accepted_and_the_cancel_stays_open;
   a_completing_fill_during_cancel_pending_fills_the_order;
   a_fill_after_terminal_is_evidence_not_an_application;
   a_cancel_confirm_contradicting_a_terminal_order_reconciles;
   a_duplicate_cancel_confirm_is_absorbed_not_escalated;
   an_unsolicited_cancel_is_accepted_from_working_and_partial;
   reconciliation_ingests_evidence_without_concluding_from_it;
   resolution_replaces_local_belief_with_venue_truth;
   resolution_can_report_the_order_never_existed; resolution_keeps_a_venue_id_we_already_knew;
   reconciling_twice_is_a_caller_bug;
   resolving_an_order_that_is_not_reconciling_is_a_caller_bug;
   a_mild_over_match_is_tolerated_and_clamped; an_absurd_overfill_is_a_fault_and_says_so;
   overfill_is_measured_cumulatively_not_per_fill; a_zero_or_negative_fill_is_refused;
   resolution_refuses_a_filled_quantity_outside_the_tolerance;
   cancelling_an_unknown_order_is_impossible; no_event_can_reach_a_state_the_map_forbids;
   the_authorised_quantity_is_never_rewritten; filled_never_exceeds_the_authorised_quantity].
End TransitionTests.

Example transition_tests_pass : suite TransitionTests.tests = true.
Proof. vm_compute. reflexivity. Qed.

(** ** scenarios.rs *)

Module ScenarioTests.
Import Scenario.

Definition step (o : OrderCore) (e : OrderEvent) : option OrderCore := unwrap (Scenario.step o e).
Definition replayed (events : list OrderEvent) : option OrderCore := unwrap (replay events).

Definition r1_14_compound_failure_chain : Test :=
  let o := order 10 in
  _ ← assert_eq (state o) Created;
  (* the submission times out *)
  o ← step o SubmissionStarted;
  o ← step o SubmissionTimedOut;
  _ ← assert_eq (state o) Unknown;
  _ ← assert (locks_instrument (state o));
  _ ← assert (is_err (transition o SubmissionStarted));
  _ ← assert (is_err (transition o CancelRequested));
  (* the venue had accepted it after all *)
  o ← step o (ReconcileStarted SubmissionTimeout);
  o ← step o (ReconcileResolved Working (Some (venue_id "V-77")) ZERO);
  _ ← assert_eq (state o) Working;
  _ ← assert_eq (venue_order_id o) (Some (venue_id "V-77"));
  _ ← assert (negb (locks_instrument (state o)));
  (* two partial fills *)
  o ← step o (fill "E-1" 3);
  o ← step o (fill "E-2" 2);
  _ ← assert_eq (state o) Partial;
  _ ← assert_eq (filled_qty o) (whole 5);
  (* a cancel, and a third fill in the middle of it *)
  o ← step o CancelRequested;
  _ ← assert_eq (state o) CancelPending;
  o ← step o (fill "E-3" 2);
  _ ← assert_eq (state o) CancelPending;
  _ ← assert_eq (filled_qty o) (whole 7);
  (* a crash, and the restart *)
  rebuilt ← replayed
    [SubmissionStarted; SubmissionTimedOut; ReconcileStarted SubmissionTimeout;
     ReconcileResolved Working (Some (venue_id "V-77")) ZERO; fill "E-1" 3; fill "E-2" 2;
     CancelRequested; fill "E-3" 2];
  _ ← assert_eq rebuilt o;
  (* the venue disagrees *)
  o ← step o (ReconcileStarted PositionDisagreement);
  o ← step o (fill "E-4" 1);
  _ ← assert_eq (state o) Reconciling;
  o ← step o (ReconcileResolved Canceled (Some (venue_id "V-77")) (whole 8));
  (* what is true at the end *)
  _ ← assert_eq (state o) Canceled;
  _ ← assert_eq (filled_qty o) (whole 8);
  _ ← assert_eq (core_remaining_qty o) (whole 2);
  _ ← assert_eq (qty o) (whole 10);
  assert (negb (locks_instrument (state o))).

Definition replaying_the_same_events_twice_yields_the_same_order : Test :=
  let events := [SubmissionStarted; VenueAcked (venue_id "V-1"); fill "E-1" 4; fill "E-2" 6] in
  once ← replayed events;
  twice ← replayed events;
  _ ← assert_eq once twice;
  assert_eq (state once) Filled.

Definition r1_7_a_late_fill_reopens_rather_than_being_dropped : Test :=
  o ← replayed [SubmissionStarted; VenueAcked (venue_id "V-1"); fill "E-1" 10];
  _ ← assert_eq (state o) Filled;
  err ← unwrap_err (transition o (fill "E-2" 1));
  _ ← assert (needs_reconciliation err);
  _ ← assert (negb (transition_integrity_violation err));
  o ← step o (ReconcileStarted LateFill);
  o ← step o (ReconcileResolved Filled (Some (venue_id "V-1")) (whole 10));
  assert_eq (filled_qty o) (whole 10).

(** The frontier is a stack, its last element first here; a state is pushed once,
    so ten turns empty it. *)
Definition resubmit_samples : list OrderEvent :=
  [SubmissionStarted; VenueAcked (venue_id "V-1"); SubmissionTimedOut; fill "E-x" 1; CancelRequested;
   CancelConfirmed; ReconcileStarted LateFill; ReconcileResolved Working None ZERO].

Fixpoint expand (o : OrderCore) (samples : list OrderEvent) (seen : list OrderState)
    (frontier : list OrderCore) : option (list OrderState * list OrderCore) :=
  match samples with
  | [] => Some (seen, frontier)
  | e :: samples =>
      match transition o e with
      | Err _ => expand o samples seen frontier
      | Ok next =>
          _ ← assert_ne (state next) Submitting;
          if bool_decide (state next ∈ seen) then expand o samples seen frontier
          else expand o samples (seen ++ [state next]) (next :: frontier)
      end
  end.

Fixpoint explore (fuel : nat) (seen : list OrderState) (frontier : list OrderCore) :
    option (list OrderState) :=
  match frontier with
  | [] => Some seen
  | o :: frontier =>
      match fuel with
      | O => None
      | S fuel =>
          '(seen, frontier) ← expand o resubmit_samples seen frontier;
          explore fuel seen frontier
      end
  end.

Definition r1_3_nothing_resubmits_after_a_timeout : Test :=
  timed_out ← replayed [SubmissionStarted; SubmissionTimedOut];
  _ ← assert_eq (state timed_out) Unknown;
  seen ← explore 10 [state timed_out] [timed_out];
  assert (Nat.ltb 1 (length seen)).

Definition r1_9_authorised_quantity_is_written_once : Test :=
  o ← replayed [SubmissionStarted; VenueAcked (venue_id "V-1"); fill "E-1" 3; CancelRequested;
                fill "E-2" 2; CancelConfirmed];
  _ ← assert_eq (qty o) (whole 10);
  id ← unwrap (inline_new 36 (str "SENT-R1-14"));
  assert_eq (client_order_id o) id.

Definition an_absurd_overfill_is_distinguishable_from_a_late_fill : Test :=
  o ← replayed [SubmissionStarted; VenueAcked (venue_id "V-1")];
  err ← unwrap_err (transition o (fill "E-1" 25));
  _ ← assert (overfilled (Err err));
  _ ← assert (transition_integrity_violation err);
  assert (negb (needs_reconciliation err)).

Definition tests : list Test :=
  [r1_14_compound_failure_chain; replaying_the_same_events_twice_yields_the_same_order;
   r1_7_a_late_fill_reopens_rather_than_being_dropped; r1_3_nothing_resubmits_after_a_timeout;
   r1_9_authorised_quantity_is_written_once;
   an_absurd_overfill_is_distinguishable_from_a_late_fill].
End ScenarioTests.

Example scenario_tests_pass : suite ScenarioTests.tests = true.
Proof. vm_compute. reflexivity. Qed.

(** ** state.rs, event.rs, order.rs, error.rs *)

Module LifecycleTests.
Definition unknown_leads_only_to_reconciling : Test := assert_eq (allowed Unknown) [Reconciling].

Definition terminal_states_lead_only_to_reconciling : Test :=
  for_each ALL (λ s, if is_terminal s then assert_eq (allowed s) [Reconciling] else Some tt).

Definition nothing_returns_to_created_or_submitting : Test :=
  for_each ALL (λ from,
    _ ← assert (negb (permits from Created));
    if bool_decide (from = Created) then Some tt else assert (negb (permits from Submitting))).

Definition every_state_is_reachable_from_somewhere : Test :=
  for_each ALL (λ target,
    if bool_decide (target = Created) then Some tt
    else assert (existsb (λ from, permits from target) ALL)).

Definition only_unprovable_states_lock_the_instrument : Test :=
  for_each ALL (λ s,
    assert_eq (locks_instrument s) (match s with Unknown | Reconciling => true | _ => false end)).

Definition live_and_terminal_partition_the_states : Test :=
  for_each ALL (λ s, assert_ne (is_live s) (is_terminal s)).

Fixpoint distinct (edges : list OrderState) : Test :=
  match edges with
  | [] => Some tt
  | a :: edges => _ ← assert (negb (bool_decide (a ∈ edges))); distinct edges
  end.
Definition the_map_holds_no_duplicate_edges : Test := for_each ALL (λ from, distinct (allowed from)).

(** Event samples of the shapes in the order of [EventKind::ALL]. *)
Definition shapes : list OrderEvent :=
  [SubmissionStarted; VenueAcked inline_empty;
   VenueRejected (reject_reason_new (-2019) (str "insufficient margin")); SubmissionTimedOut;
   FillReceived inline_empty (whole 1) (whole 1); CancelRequested; CancelConfirmed;
   ReconcileStarted LateFill; ReconcileResolved Filled None (whole 1)].

Definition every_kind_has_exactly_one_event_shape : Test :=
  _ ← assert_eq (length shapes) (length (ALL : list EventKind.t));
  for_each (zip shapes ALL) (λ '(sample, kind), assert_eq (event_kind sample) kind).

Definition only_the_venue_counts_as_venue_evidence : Test :=
  _ ← assert (is_venue_evidence CancelConfirmed);
  _ ← assert (is_venue_evidence (FillReceived inline_empty (whole 1) (whole 1)));
  _ ← assert (negb (is_venue_evidence SubmissionStarted));
  _ ← assert (negb (is_venue_evidence CancelRequested));
  _ ← assert (negb (is_venue_evidence SubmissionTimedOut));
  assert (negb (is_venue_evidence (ReconcileStarted StaleSweep))).

Definition reject_reason_truncates_prose_without_splitting_a_character : Test :=
  let long := mjoin (replicate 10 (str "margin is insufficient — ")) in
  let text := text (reject_reason_new (-2019) long) in
  _ ← assert (Nat.leb (inline_len text) 64);
  let shown := inline_as_str text in
  assert (bool_decide (take (length shown) long = shown)).

Definition reject_reason_keeps_short_messages_whole : Test :=
  let r := reject_reason_new (-2027) (str "exceeds max notional") in
  _ ← assert_eq (inline_as_str (text r)) (str "exceeds max notional");
  assert_eq (reject_reason_to_string r) (str "[-2027] exceeds max notional").

Definition order : option OrderCore := TransitionTests.new_order 10.

Definition a_new_order_is_created_unfilled_and_unnamed : Test :=
  o ← order;
  _ ← assert_eq (state o) Created;
  _ ← assert_eq (filled_qty o) ZERO;
  _ ← assert_eq (venue_order_id o) None;
  assert_eq (core_remaining_qty o) (whole 10).

Definition remaining_never_goes_negative : Test :=
  o ← order;
  assert_eq (core_remaining_qty (set_filled o (whole 12))) ZERO.

Definition sells_produce_negative_position_deltas : Test :=
  o ← order;
  let o := set_filled o (whole 4) in
  _ ← assert_eq (signed_filled o) (whole 4);
  let o := mkOrderCore (client_order_id o) (instrument o) Sell (qty o) (filled_qty o) (state o) (venue_order_id o) in
  assert_eq (signed_filled o) (whole (-4)).

Definition only_reconciliation_errors_ask_for_reconciliation : Test :=
  _ ← assert (needs_reconciliation (RequiresReconciliation Filled EventKind.FillReceived));
  assert (negb (needs_reconciliation (Illegal Filled EventKind.CancelRequested None))).

Definition overfill_and_overflow_are_integrity_violations : Test :=
  _ ← assert (transition_integrity_violation (Overfill (whole 1) (whole 1) (whole 5)));
  _ ← assert (transition_integrity_violation QtyOverflow);
  assert (negb (transition_integrity_violation (RequiresReconciliation Filled EventKind.FillReceived))).

Definition errors_read_as_sentences : Test :=
  _ ← assert_eq (transition_error_to_string (Illegal Unknown EventKind.CancelRequested (Some CancelPending)))
        (str "CANCEL_REQUESTED in UNKNOWN: UNKNOWN -> CANCEL_PENDING is not allowed");
  assert_eq (transition_error_to_string (RequiresReconciliation Filled EventKind.FillReceived))
    (str "FILL_APPLIED in FILLED; reconcile before applying").

Definition tests : list Test :=
  [unknown_leads_only_to_reconciling; terminal_states_lead_only_to_reconciling;
   nothing_returns_to_created_or_submitting; every_state_is_reachable_from_somewhere;
   only_unprovable_states_lock_the_instrument; live_and_terminal_partition_the_states;
   the_map_holds_no_duplicate_edges; every_kind_has_exactly_one_event_shape;
   only_the_venue_counts_as_venue_evidence;
   reject_reason_truncates_prose_without_splitting_a_character;
   reject_reason_keeps_short_messages_whole; a_new_order_is_created_unfilled_and_unnamed;
   remaining_never_goes_negative; sells_produce_negative_position_deltas;
   only_reconciliation_errors_ask_for_reconciliation;
   overfill_and_overflow_are_integrity_violations; errors_read_as_sentences].
End LifecycleTests.

Example lifecycle_tests_pass : suite LifecycleTests.tests = true.
Proof. vm_compute. reflexivity. Qed.

(** ** intent.rs, product.rs *)

Module IntentTests.
Definition coid (s : string) : option ClientOrderId := unwrap (inline_new 36 (str s)).
Definition btc : option Instrument := unwrap (inline_new 16 (str "BTCUSD")).

(** [assert_eq!(..., Err(e))] on a constructor given the key UI-1 and BTCUSD. *)
Definition refused (make : ClientOrderId → Instrument → result IntentError Intent.t) (e : IntentError) : Test :=
  c ← coid "UI-1"; i ← btc; assert_is e (unwrap_err (make c i)).
Definition made (make : ClientOrderId → Instrument → result IntentError Intent.t) : option Intent.t :=
  c ← coid "UI-1"; i ← btc; unwrap (make c i).

Definition a_market_entry_validates : Test :=
  x ← made (λ c i, Intent.market c i Buy (whole 3) Entry 7);
  _ ← assert (Intent.opens_exposure x);
  _ ← assert_eq (Intent.signed_qty x) (whole 3);
  assert_eq (Intent.limit_price x) None.

Definition quantity_must_be_positive_because_direction_lives_in_side : Test :=
  for_each [ZERO; whole (-1)] (λ q,
    refused (λ c i, Intent.market c i Sell q Entry TRACE_NONE) NonPositiveQty).

Definition an_empty_idempotency_key_is_refused : Test :=
  refused (λ _ i, Intent.market inline_empty i Buy (whole 1) Entry TRACE_NONE) EmptyIdempotencyKey.

Definition stop_limit_is_refused_rather_than_approximated : Test :=
  refused (λ c i, Intent.new c i Sell (whole 1) Limit (Some (whole 100)) (Some (whole 99))
                    ProtectiveExit TRACE_NONE None) StopLimitUnsupported.

Definition a_kind_without_the_price_it_needs_is_refused : Test :=
  _ ← refused (λ c i, Intent.new c i Buy (whole 1) Limit None None Entry TRACE_NONE None)
        (MissingPrice Limit);
  refused (λ c i, Intent.new c i Sell (whole 1) StopMarket None None ProtectiveExit TRACE_NONE None)
    (MissingPrice StopMarket).

Definition prices_must_be_positive : Test :=
  for_each [ZERO; whole (-1)] (λ bad,
    refused (λ c i, Intent.limit c i Buy (whole 1) bad Entry TRACE_NONE) NonPositivePrice).

Definition a_resting_stop_is_always_a_protective_exit : Test :=
  x ← made (λ c i, Intent.stop_market c i Sell (whole 3) (whole 95000) TRACE_NONE);
  _ ← assert_eq (Intent.authority x) ProtectiveExit;
  assert (negb (Intent.opens_exposure x)).

Definition a_sell_intent_is_a_negative_delta : Test :=
  x ← made (λ c i, Intent.market c i Sell (whole 3) ProtectiveExit TRACE_NONE);
  assert_eq (Intent.signed_qty x) (whole (-3)).

Definition tests : list Test :=
  [a_market_entry_validates; quantity_must_be_positive_because_direction_lives_in_side;
   an_empty_idempotency_key_is_refused; stop_limit_is_refused_rather_than_approximated;
   a_kind_without_the_price_it_needs_is_refused; prices_must_be_positive;
   a_resting_stop_is_always_a_protective_exit; a_sell_intent_is_a_negative_delta].
End IntentTests.

Example intent_tests_pass : suite IntentTests.tests = true.
Proof. vm_compute. reflexivity. Qed.

Module ProductTests.
Import Product.
#[local] Instance error_eq_dec : EqDecision error.
Proof. solve_decision. Defined.

(** A product of the fixture's instrument, multiplier, tick and lot. *)
Definition product (c : ContractKind) (s : Settlement) (e : Exercise) (x : Expiration) : option t :=
  i ← unwrap (inline_new 16 (str "BTCUSD"));
  m ← qty_of "0.001";
  tick ← px "0.5";
  Some (mk i c s e m tick (whole 1) x 1000).

Definition perp : option t := product Perpetual Cash NotApplicable Never.
Definition american_option : option t := product Option Physical American (At 9000).

Definition invalid (p : t) (e : error) : Test := assert_is e (unwrap_err (validate p)).

Definition a_perpetual_validates_and_accrues_funding : Test :=
  p ← perp;
  _ ← unwrap (validate p);
  _ ← assert (accrues_funding p);
  _ ← assert (negb (early_assignment_possible p));
  assert (negb (has_delivery_risk p)).

Definition a_perpetual_that_expires_is_refused : Test :=
  p ← product Perpetual Cash NotApplicable (At 9000);
  invalid p ExpirationContradictsKind.

Definition a_dated_contract_without_an_expiry_is_refused : Test :=
  p ← product Future Cash NotApplicable Never;
  invalid p ExpirationContradictsKind.

Definition exercise_style_must_match_the_contract_kind : Test :=
  opt ← product Option Physical NotApplicable (At 9000);
  _ ← invalid opt ExerciseContradictsKind;
  p ← product Perpetual Cash European Never;
  invalid p ExerciseContradictsKind.

Definition increments_must_be_positive : Test :=
  p ← perp;
  let with_ m tick lot :=
    mk (instrument p) (contract p) (settlement p) (exercise p) m tick lot (expiration p) (listed_at p) in
  for_each [with_ ZERO (tick_size p) (lot_size p); with_ (multiplier p) ZERO (lot_size p);
            with_ (multiplier p) (tick_size p) (whole (-1))] (λ p, invalid p NonPositiveIncrement).

Definition a_contract_cannot_expire_before_it_was_listed : Test :=
  p ← product Future Cash NotApplicable (At 500);
  invalid p ExpiresBeforeListing.

Definition a_contract_is_untradable_outside_its_lifetime : Test :=
  p ← product Future Cash NotApplicable (At 9000);
  _ ← unwrap (validate p);
  for_each [(999, false); (1000, true); (8999, true); (9000, false); (9001, false)] (λ '(now, tradable),
    assert_eq (is_tradable_at p now) tradable).

Definition a_perpetual_is_tradable_forever_but_not_before_listing : Test :=
  p ← perp;
  _ ← assert (negb (is_tradable_at p 999));
  assert (is_tradable_at p u64_max).

Definition an_american_option_carries_early_assignment_and_delivery_risk : Test :=
  p ← american_option;
  _ ← unwrap (validate p);
  _ ← assert (early_assignment_possible p);
  _ ← assert (has_delivery_risk p);
  _ ← assert (negb (accrues_funding p));
  euro ← product Option Physical European (At 9000);
  _ ← unwrap (validate euro);
  _ ← assert (negb (early_assignment_possible euro));
  assert (has_delivery_risk euro).

Definition tests : list Test :=
  [a_perpetual_validates_and_accrues_funding; a_perpetual_that_expires_is_refused;
   a_dated_contract_without_an_expiry_is_refused; exercise_style_must_match_the_contract_kind;
   increments_must_be_positive; a_contract_cannot_expire_before_it_was_listed;
   a_contract_is_untradable_outside_its_lifetime;
   a_perpetual_is_tradable_forever_but_not_before_listing;
   an_american_option_carries_early_assignment_and_delivery_risk].
End ProductTests.

Example product_tests_pass : suite ProductTests.tests = true.
Proof. vm_compute. reflexivity. Qed.
