(* ===== verification/Position.v ===== *)
(** * Position accounting (sentinel-ledger/src/position.rs)

    Signed size, total cost and realised profit.  [apply_fill] is the method on
    [&mut self] with its early returns: what it assigned before an overflow
    stays assigned.  The theorems: the size moves by exactly the signed fill,
    a flat position carries no basis, and money is conserved. *)

From S2P Require Import Prelude Fixed Types.

Record Position := mkPosition {
  pos_qty : Qty;
  cost_basis : Money;
  realized : Money;
}.

#[export] Instance Position_eq_dec : EqDecision Position.
Proof. solve_decision. Defined.

(** [Position::default()]. *)
Definition position_default : Position := mkPosition ZERO ZERO ZERO.

Inductive PositionOverflow := position_overflow.

Definition is_flat (p : Position) : bool := is_zero (pos_qty p).
Definition abs_qty (p : Position) : Qty := abs (pos_qty p).

Definition avg_entry (p : Position) : option Price :=
  if is_zero (pos_qty p) then None
  else
    let scaled := raw (cost_basis p) * SCALE in
    let per_unit := Z.quot scaled (raw (pos_qty p)) in
    from_raw <$> i64_try_from per_unit.

Definition unrealized (p : Position) (mark : Price) : Money :=
  if is_zero (pos_qty p) then ZERO
  else
    let value := unwrap_or (notional mark (pos_qty p)) ZERO in
    unwrap_or (checked_sub value (cost_basis p)) ZERO.

(** [raw.checked_mul(by).ok_or(PositionOverflow)], rewrapped. *)
Definition checked_sign {d} (x : e8 d) (by_ : Z) : result PositionOverflow (e8 d) :=
  from_raw <$> ok_or (i64_checked (raw x * by_)) position_overflow.

Definition or_overflow {E A} (m : result E A) : result PositionOverflow A :=
  map_err (λ _, position_overflow) m.

Definition slice_of_basis (p : Position) (closing held : Qty) :
    result PositionOverflow Money :=
  if is_zero held then Ok ZERO
  else if bool_decide (closing = held) then Ok (abs (cost_basis p))
  else
    let numerator := raw (abs (cost_basis p)) * raw closing in
    let slice := Z.quot numerator (raw held) in
    from_raw <$> ok_or (i64_try_from slice) position_overflow.

(** The field assignments of the method. *)
Definition set_pos_qty (q : Qty) (p : Position) : Position :=
  mkPosition q (cost_basis p) (realized p).
Definition set_cost_basis (c : Money) (p : Position) : Position :=
  mkPosition (pos_qty p) c (realized p).
Definition set_realized (r : Money) (p : Position) : Position :=
  mkPosition (pos_qty p) (cost_basis p) r.

Abbreviation PosM := (ST Position PositionOverflow).

(** The opening branch: same direction, or from flat. *)
Definition fill_opening (signed : Qty) (signed_cost : Money) : PosM unit :=
  self ← st_get id;
  q ← st_lift (or_overflow (checked_add (pos_qty self) signed));
  _ ← st_modify (set_pos_qty q);
  c ← st_lift (or_overflow (checked_add (cost_basis self) signed_cost));
  st_modify (set_cost_basis c).

(** Closing up to what is held: book the profit, take the closed share of the
    basis and of the size, and make flat mean flat. *)
Definition fill_closing (closing held : Qty) (price : Price) : PosM unit :=
  self ← st_get id;
  closed_cost ← st_lift (slice_of_basis self closing held);
  proceeds ← st_lift (or_overflow (notional price closing));
  let direction := if is_positive (pos_qty self) then 1 else -1 in
  gross ← st_lift (or_overflow (checked_sub proceeds closed_cost));
  pnl ← st_lift (checked_sign gross direction);
  r ← st_lift (or_overflow (checked_add (realized self) pnl));
  _ ← st_modify (set_realized r);
  share ← st_lift (checked_sign closed_cost direction);
  c ← st_lift (or_overflow (checked_sub (cost_basis self) share));
  _ ← st_modify (set_cost_basis c);
  closed ← st_lift (checked_sign closing direction);
  q ← st_lift (or_overflow (checked_sub (pos_qty self) closed));
  _ ← st_modify (set_pos_qty q);
  st_modify (λ p, if is_zero (pos_qty p) then set_cost_basis ZERO p else p).

(** The part of the fill past the position, which opens the other side. *)
Definition fill_flip (side : Side) (flipped : Qty) (price : Price) : PosM unit :=
  if is_positive flipped then
    opened ← st_lift (or_overflow (notional price flipped));
    q ← st_lift (checked_sign flipped (sign side));
    _ ← st_modify (set_pos_qty q);
    c ← st_lift (checked_sign opened (sign side));
    st_modify (set_cost_basis c)
  else mret tt.

Definition position_apply_fill (side : Side) (qty : Qty) (price : Price) : PosM unit :=
  signed ← st_lift (checked_sign qty (sign side));
  cost ← st_lift (or_overflow (notional price qty));
  signed_cost ← st_lift (checked_sign cost (sign side));
  self ← st_get id;
  let opening :=
    is_zero (pos_qty self) || eqb (is_positive (pos_qty self)) (is_positive signed) in
  if opening then fill_opening signed signed_cost
  else
    let held := abs (pos_qty self) in
    let closing := min qty held in
    _ ← fill_closing closing held price;
    flipped ← st_lift (or_overflow (checked_sub qty closing));
    fill_flip side flipped price.

(** ** The invariant of a position *)

(** Representable, flat means flat, and the basis signed as the size is. *)
Record position_ok (p : Position) : Prop := {
  po_qty : e8_ok (pos_qty p);
  po_basis : e8_ok (cost_basis p);
  po_realized : e8_ok (realized p);
  po_flat : raw (pos_qty p) = 0 → raw (cost_basis p) = 0;
  po_long : 0 < raw (pos_qty p) → 0 ≤ raw (cost_basis p);
  po_short : raw (pos_qty p) < 0 → raw (cost_basis p) ≤ 0;
}.

Lemma position_default_ok : position_ok position_default.
Proof. split; simpl; unfold e8_ok; simpl; unfold_ranges; lia. Qed.

#[export] Hint Resolve position_default_ok : sentinel.

(** ** The checked operations *)

Lemma checked_sign_Ok {d} (x : e8 d) b y :
  checked_sign x b = Ok y ↔ raw y = raw x * b ∧ in_i64 (raw x * b).
Proof.
  unfold checked_sign, ok_or. destruct (i64_checked _) as [v|] eqn:E; simpl.
  - apply i64_checked_Some in E as [-> ?]. destruct y; naive_solver.
  - apply i64_checked_None in E. naive_solver.
Qed.

Lemma or_overflow_Ok {E A} (m : result E A) a : or_overflow m = Ok a ↔ m = Ok a.
Proof. destruct m; naive_solver. Qed.

(** What the checked operations of a run say about the integers. *)
Ltac checked_facts :=
  repeat match goal with
         | H : or_overflow _ = Ok _ |- _ => apply (proj1 (or_overflow_Ok _ _)) in H
         | H : checked_add _ _ = Ok _ |- _ => apply (proj1 (checked_add_Ok _ _ _)) in H as [? ?]
         | H : checked_sub _ _ = Ok _ |- _ => apply (proj1 (checked_sub_Ok _ _ _)) in H as [? ?]
         | H : checked_sign _ _ = Ok _ |- _ => apply (proj1 (checked_sign_Ok _ _ _)) in H as [? ?]
         | H : notional _ _ = Ok _ |- _ => apply notional_Ok in H as [? ?]
         end.

(** A checked result is in range. *)
Ltac in_i64_rw :=
  match goal with
  | H : ?x = _ |- in_i64 ?x => rewrite H; done
  | |- in_i64 _ => unfold_ranges; simpl in *; lia
  end.

(** ** The three legs of a fill *)

(** What a position has cost net of what it has earned. *)
Definition net (p : Position) : Z := raw (realized p) - raw (cost_basis p).

Lemma fill_opening_Ok signed sc p p' :
  fill_opening signed sc p = (p', Ok tt) →
  raw (pos_qty p') = raw (pos_qty p) + raw signed ∧ e8_ok (pos_qty p') ∧
  raw (cost_basis p') = raw (cost_basis p) + raw sc ∧ e8_ok (cost_basis p') ∧
  realized p' = realized p.
Proof.
  unfold fill_opening. intros H. st_steps H. checked_facts. simpl.
  unfold e8_ok. split_and!; first [done | congruence | in_i64_rw].
Qed.

(** The closed share of the basis never exceeds it, and closing everything
    takes everything. *)
Lemma slice_of_basis_Ok p closing held c :
  slice_of_basis p closing held = Ok c → 0 ≤ raw closing ≤ raw held → 0 < raw held →
  raw c = Z.quot (raw (abs (cost_basis p)) * raw closing) (raw held) ∧
  0 ≤ raw c ≤ raw (abs (cost_basis p)) ∧
  (raw closing = raw held → raw c = raw (abs (cost_basis p))).
Proof.
  intros H Hc Hh. unfold slice_of_basis in H.
  assert (0 ≤ raw (abs (cost_basis p))) as Hb.
  { unfold abs. simpl. unfold_ranges. lia. }
  set (b := raw (abs (cost_basis p))) in *.
  assert (raw c = Z.quot (b * raw closing) (raw held)) as Hq.
  { unfold is_zero in H. rewrite (proj2 (Z.eqb_neq _ _)) in H by lia.
    case_bool_decide as E.
    - simplify_eq. change (b = Z.quot (b * raw held) (raw held)).
      symmetry. apply Z.quot_mul. lia.
    - unfold ok_or, i64_try_from in H. case_bool_in H; simpl in H; [|done]. by simplify_eq. }
  rewrite Hq. split_and!; [done|apply Z.quot_pos; nia| |].
  - apply Z.quot_le_upper_bound; nia.
  - intros ->. apply Z.quot_mul. lia.
Qed.

Lemma fill_closing_Ok closing held price p p' :
  fill_closing closing held price p = (p', Ok tt) →
  0 ≤ raw closing ≤ raw held → 0 < raw held →
  let dir := if is_positive (pos_qty p) then 1 else -1 in
  ∃ share proceeds,
    0 ≤ share ≤ raw (abs (cost_basis p)) ∧
    (raw closing = raw held → share = raw (abs (cost_basis p))) ∧
    notional price closing = Ok proceeds ∧
    raw (pos_qty p') = raw (pos_qty p) - raw closing * dir ∧ e8_ok (pos_qty p') ∧
    raw (realized p') = raw (realized p) + (raw proceeds - share) * dir ∧
    e8_ok (realized p') ∧ e8_ok (cost_basis p') ∧
    raw (cost_basis p') =
      (if raw (pos_qty p') =? 0 then 0 else raw (cost_basis p) - share * dir).
Proof.
  intros H Hc Hh dir. unfold fill_closing in H. subst dir. st_steps H.
  match goal with
  | H1 : slice_of_basis _ _ _ = Ok ?c, H2 : or_overflow (notional _ _) = Ok ?n |- _ =>
      apply (proj1 (or_overflow_Ok _ _)) in H2; pose proof H2 as Hn;
      apply slice_of_basis_Ok in H1 as (_ & Hsh & Hall); [|done|done];
      exists (raw c), n
  end.
  checked_facts. simpl in *. unfold is_zero, e8_ok. simpl.
  match goal with
  | |- context [raw ?q =? 0] => destruct (Z.eqb_spec (raw q) 0) as [E|E]
  end; simpl; rewrite ?E, ?(proj2 (Z.eqb_neq _ _) E); simpl.
  all: split_and!; try done; try lia; try in_i64_rw; by apply notional_Ok.
Qed.

Lemma fill_flip_Ok side flipped price p p' :
  fill_flip side flipped price p = (p', Ok tt) →
  (raw flipped ≤ 0 ∧ p' = p) ∨
  (0 < raw flipped ∧ ∃ opened, notional price flipped = Ok opened ∧
     raw (pos_qty p') = raw flipped * sign side ∧ e8_ok (pos_qty p') ∧
     raw (cost_basis p') = raw opened * sign side ∧ e8_ok (cost_basis p') ∧
     realized p' = realized p).
Proof.
  unfold fill_flip, is_positive. intros H.
  destruct (Z.ltb_spec 0 (raw flipped)).
  - right. split; [done|]. st_steps H.
    match goal with
    | H1 : or_overflow (notional _ _) = Ok ?o |- _ =>
        exists o; apply (proj1 (or_overflow_Ok _ _)) in H1; pose proof H1
    end.
    split; [done|]. checked_facts. unfold e8_ok. simpl. split_and!; first [done | congruence | in_i64_rw].
  - left. st_steps H. split; [lia|done].
Qed.

(** ** A whole fill *)

(** What a fill of [qty] at total [cost] does to a position, up to a rounding
    unit [slack] of the fixed-point cost. *)
Record accounted (side : Side) (qty cost slack : Z) (p p' : Position) : Prop := {
  acc_qty : raw (pos_qty p') = raw (pos_qty p) + sign side * qty;
  acc_ok : position_ok p';
  acc_net : raw (cost_basis p) ≠ i64_min →
            net p' = net p - sign side * (cost - slack);
}.

Lemma sign_cases side : sign side = 1 ∨ sign side = -1.
Proof. destruct side; auto. Qed.

Lemma opening_test_spec p side (signed : Qty) qty :
  raw signed = qty * sign side → 0 < qty →
  is_zero (pos_qty p) || eqb (is_positive (pos_qty p)) (is_positive signed) = true ↔
  0 ≤ raw (pos_qty p) * sign side.
Proof.
  intros Hs Hq. unfold is_zero, is_positive. rewrite Hs.
  rewrite orb_true_iff, Z.eqb_eq, eqb_true_iff.
  destruct (sign_cases side) as [-> | ->];
    destruct (Z.ltb_spec 0 (raw (pos_qty p)));
    match goal with |- context [0 <? ?x] => destruct (Z.ltb_spec 0 x) end;
    split; intros; simplify_eq; first [lia | by right | by left | naive_solver lia].
Qed.

Lemma opening_accounted side qty price cost signed sc p p' :
  position_ok p → 0 < raw qty → 0 ≤ raw cost →
  raw signed = raw qty * sign side → raw sc = raw cost * sign side →
  0 ≤ raw (pos_qty p) * sign side →
  notional price qty = Ok cost →
  fill_opening signed sc p = (p', Ok tt) →
  accounted side (raw qty) (raw cost) 0 p p'.
Proof.
  intros Hp Hq Hc Hs Hsc Hdir _ H.
  apply fill_opening_Ok in H as (H1 & H2 & H3 & H4 & H5).
  destruct Hp. split; [lia | split | unfold net; rewrite H5; lia];
    rewrite ?H5; try done;
    destruct (sign_cases side) as [E|E]; rewrite E in *; lia.
Qed.

(** The cost of the two halves of a split fill is the cost of the whole, up to
    one unit. *)
Lemma notional_split price a b ca cb c :
  0 ≤ raw price → 0 ≤ raw a → 0 ≤ raw b →
  notional price a = Ok ca → notional price b = Ok cb →
  Z.quot (raw price * (raw a + raw b)) SCALE = c →
  0 ≤ c - (raw ca + raw cb) ≤ 1.
Proof.
  intros Hp Ha Hb [Hca _]%notional_Ok [Hcb _]%notional_Ok <-.
  rewrite Hca, Hcb, !Z.quot_div_nonneg by (unfold SCALE; nia).
  rewrite Z.mul_add_distr_l. unfold SCALE.
  set (x := raw price * raw a). set (y := raw price * raw b).
  pose proof (Z.div_mod x 100000000). pose proof (Z.mod_pos_bound x 100000000).
  pose proof (Z.div_mod y 100000000). pose proof (Z.mod_pos_bound y 100000000).
  pose proof (Z.div_mod (x + y) 100000000). pose proof (Z.mod_pos_bound (x + y) 100000000).
  lia.
Qed.

(** Opposite the position, up to its size: the closing leg. *)
Lemma closing_accounted side closing held price cost p p' :
  position_ok p → 0 < raw closing ≤ raw held → held = abs (pos_qty p) →
  raw (pos_qty p) * sign side < 0 → notional price closing = Ok cost →
  fill_closing closing held price p = (p', Ok tt) →
  accounted side (raw closing) (raw cost) 0 p p' ∧
  (raw closing < raw held → raw (pos_qty p') * sign side < 0) ∧
  (raw closing = raw held → raw (pos_qty p) ≠ i64_min → raw (pos_qty p') = 0).
Proof.
  intros Hp Hc -> Hdir Hn H. destruct Hp. unfold e8_ok in *.
  change (raw (abs ?x)) with (i64_saturate (Z.abs (raw x))) in *.
  apply fill_closing_Ok in H
    as (share & proceeds & Hs & Hall & Hpr & Hq & Hq' & Hr & Hr' & Hb' & Hb);
    change (raw (abs ?x)) with (i64_saturate (Z.abs (raw x))) in *; [|lia|lia].
  assert (proceeds = cost) as -> by congruence. unfold is_positive in *.
  destruct (Z.eqb_spec (raw (pos_qty p')) 0) as [E|E];
    destruct (sign_cases side) as [Es|Es]; rewrite Es in *;
    destruct (Z.ltb_spec 0 (raw (pos_qty p))); try lia.
  all: split_and!; [split; [lia|split; try done; try lia| ]| |];
    unfold net; rewrite ?Hr, ?Hb, ?Es; unfold_ranges; try lia.
Qed.

(** Opposite the position: close, then open the other side with the rest. *)
Lemma opposing_accounted side (qty : Qty) price cost p p' :
  position_ok p → e8_ok qty → 0 < raw qty → 0 ≤ raw price →
  raw (pos_qty p) * sign side < 0 → notional price qty = Ok cost →
  (fill_closing (min qty (abs (pos_qty p))) (abs (pos_qty p)) price
   ≫= λ _, st_lift (or_overflow (checked_sub qty (min qty (abs (pos_qty p)))))
   ≫= λ flipped, fill_flip side flipped price) p = (p', Ok tt) →
  ∃ slack, 0 ≤ slack ≤ 1 ∧ (slack = 0 ∨ raw (pos_qty p) * raw (pos_qty p') < 0) ∧
    accounted side (raw qty) (raw cost) slack p p'.
Proof.
  intros Hp Hqok Hq Hprice Hdir Hn H.
  set (held := abs (pos_qty p)) in *. set (closing := min qty held) in *.
  assert (raw held = i64_saturate (Z.abs (raw (pos_qty p)))) as Hheld by done.
  assert (raw closing = Z.min (raw qty) (raw held)) as Hcl by apply raw_min.
  assert (held = abs (pos_qty p)) as Heq by done. clearbody held closing.
  assert (0 < raw held) as Hh by (destruct (sign_cases side); unfold_ranges; lia).
  apply st_bind_Ok in H as (p1 & [] & Hc & H). st_steps H.
  match goal with
  | H1 : or_overflow (checked_sub _ _) = Ok ?f |- _ =>
      apply (proj1 (or_overflow_Ok _ _)) in H1;
      apply checked_sub_Ok in H1 as [Hf _]
  end.
  pose proof Hc as Hc'. apply fill_closing_Ok in Hc' as (? & cc & _ & _ & Hcc & _); [|lia|lia].
  eapply closing_accounted in Hc as (Ha & Hpart & Hall); eauto; [|lia].
  apply fill_flip_Ok in H as [[Hle ->] | (Hpos & opened & Ho & Hq1 & Hq1' & Hb1 & Hb1' & Hr1)].
  - exists 0. split_and!; [lia|lia|by left|]. 
    assert (closing = qty) as Hcq by (apply raw_inj; lia).
    subst closing. congruence.
  - assert (raw (pos_qty p) ≠ i64_min) as Hmin.
    { intros E. rewrite E in Hheld. unfold e8_ok in Hqok. unfold_ranges. lia. }
    assert (raw (pos_qty p1) = 0) as Hz by (apply Hall; [lia|done]).
    destruct Ha as [Ha1 Ha2 Ha3]. destruct Ha2.
    apply notional_Ok in Hn as [Hn Hn'].
    pose proof (notional_split price closing a cc opened (raw cost)) as Hsplit.
    rewrite Hn in Hsplit.
    assert (0 ≤ raw cost - (raw cc + raw opened) ≤ 1) as Hslack.
    { rewrite Hn. apply Hsplit; try done; try lia. do 2 f_equal. lia. }
    assert (0 ≤ raw opened) as Hop.
    { apply notional_Ok in Ho as [-> _]. apply Z.quot_pos; unfold SCALE; nia. }
    exists (raw cost - (raw cc + raw opened)).
    destruct (sign_cases side) as [E|E]; rewrite E in *.
    all: split_and!; [lia|lia|right; nia|split; [lia|split|intros Hm; specialize (Ha3 Hm)]].
    all: unfold net in *; rewrite ?Hr1, ?E in *; try done; lia.
Qed.

Lemma position_fill_accounted side qty price p p' :
  position_apply_fill side qty price p = (p', Ok tt) →
  position_ok p → e8_ok qty → 0 < raw qty → 0 ≤ raw price →
  ∃ cost slack, notional price qty = Ok cost ∧ 0 ≤ slack ≤ 1 ∧
    (slack = 0 ∨ raw (pos_qty p) * raw (pos_qty p') < 0) ∧
    accounted side (raw qty) (raw cost) slack p p'.
Proof.
  intros H Hp Hqok Hq Hprice. unfold position_apply_fill in H.
  st_steps H.
  match goal with
  | H1 : checked_sign qty _ = Ok ?s, H2 : or_overflow _ = Ok ?c,
    H3 : checked_sign _ _ = Ok ?sc |- _ =>
      apply checked_sign_Ok in H1 as [Hs _]; apply (proj1 (or_overflow_Ok _ _)) in H2;
      apply checked_sign_Ok in H3 as [Hsc _]; rename H2 into Hn, c into cost
  end.
  assert (0 ≤ raw cost) as Hcost.
  { apply notional_Ok in Hn as [-> _]. apply Z.quot_pos; unfold SCALE; nia. }
  exists cost. unfold id in H.
  pose proof (opening_test_spec p side _ _ Hs Hq) as Ho. case_bool_in H.
  - exists 0. split_and!; [done|lia|lia|by left|].
    eapply opening_accounted; eauto. by apply Ho.
  - eapply opposing_accounted in H as (slack & ? & ? & ?); eauto.
    apply Z.nle_gt. intros Hle. by apply Ho in Hle.
Qed.


(** A short position of 3 units bought through into a long one. *)
Definition ex_short : Position :=
  mkPosition (whole (-3)) (whole (-300)) (whole 2).

Lemma ex_short_ok : position_ok ex_short.
Proof. split; vm_compute; try split; discriminate. Qed.


(** C34: money is conserved, for a well-formed position, a positive size and a price that is not
    negative, as long as the cost basis is not the least machine integer (whose
    magnitude the code saturates by one unit): what a position has earned net of
    what it has cost moves by the cost of the fill and by nothing else, except
    that a fill that flips the position, whose cost is computed in two halves,
    may differ from the cost of the whole by one unit of the last place. *)
Theorem position_money_conserved side qty price p p' :
  position_apply_fill side qty price p = (p', Ok tt) →
  position_ok p → e8_ok qty → 0 < raw qty → 0 ≤ raw price →
  raw (cost_basis p) ≠ i64_min →
  ∃ cost slack, notional price qty = Ok cost ∧
    0 ≤ slack ≤ 1 ∧ (slack = 0 ∨ raw (pos_qty p) * raw (pos_qty p') < 0) ∧
    raw (realized p') - raw (cost_basis p') =
      raw (realized p) - raw (cost_basis p) - sign side * (raw cost - slack).
Proof.
  intros H Hp Hok Hq Hpr Hm.
  destruct (position_fill_accounted _ _ _ _ _ H Hp Hok Hq Hpr)
    as (cost & slack & ? & ? & ? & [_ _ Hnet]).
  exists cost, slack. specialize (Hnet Hm). done.
Qed.

Lemma position_money_conserved_witness :
  let p' := mkPosition (whole 2) (whole 220) (whole (-28)) in
  ∃ cost slack, notional (whole 110) (whole 5) = Ok cost ∧
    0 ≤ slack ≤ 1 ∧ (slack = 0 ∨ raw (pos_qty ex_short) * raw (pos_qty p') < 0) ∧
    raw (realized p') - raw (cost_basis p') =
      raw (realized ex_short) - raw (cost_basis ex_short) - sign Buy * (raw cost - slack).
Proof.
  intros p'.
  apply (position_money_conserved Buy (whole 5) (whole 110) ex_short p');
    [reflexivity | exact ex_short_ok | split; discriminate | reflexivity
    | discriminate | discriminate].
Defined.

(** At the excluded basis a unit goes missing without a flip: one hundred millionth
    of a short closed at nothing, for the whole range of money and not a unit more. *)
Example least_basis_loses_a_unit :
  let p := mkPosition (from_raw (-1)) (from_raw i64_min) ZERO in
  position_apply_fill Buy (from_raw 1) ZERO p = (mkPosition ZERO ZERO (from_raw i64_max), Ok tt) ∧
  raw (realized p) - raw (cost_basis p) = i64_max + 1.
Proof. split; reflexivity. Qed.
