(* ===== verification/ValueSuite.v ===== *)
(** * The tests of the values (sentinel-types, sentinel-risk, sentinel-ledger/src/position.rs)

    The unit tests of sizing, brackets and the trailing stop, of one position's
    netting and average cost, and of the decimals, ids and enums, each with all
    its assertions. *)

From S2P Require Import Prelude Fixed Suite Text Types Risk Position.

(** ** sentinel-risk/src/lib.rs *)

Module RiskTests.
#[export] Instance Ratio_eq_dec : EqDecision Ratio.
Proof. solve_decision. Defined.
#[export] Instance Breach_eq_dec : EqDecision Breach.
Proof. solve_decision. Defined.

Definition ratio (s : string) : option Ratio := unwrap (ratio_parse (str s)).

Definition params : option RiskParams :=
  risk_pct ← ratio "0.02";
  max_leverage ← ratio "100";
  stop_atr_mult ← ratio "2";
  fallback_stop_pct ← ratio "0.005";
  rr ← ratio "1.5";
  Some (mkRiskParams risk_pct max_leverage stop_atr_mult fallback_stop_pct rr true).

Definition candle (high low close : string) : option Candle :=
  h ← px high; l ← px low; c ← px close; Some (mkCandle c h l c).

Definition no_caps : Caps := mkCaps None None None.

(** [risk_sized_qty(params(), money(equity), px(price), Some(px(dist)), ...)]. *)
Definition sized (equity price dist : string) (c : Ratio) (caps : Caps) : option Qty :=
  p ← params;
  equity ← money equity;
  price ← px price;
  dist ← px dist;
  Some (risk_sized_qty p equity price (Some dist) c caps).

Definition a_stop_out_costs_what_was_risked : Test :=
  qty ← sized "10000" "50000" "100" RATIO_ONE no_caps;
  _ ← assert_eq qty (whole 2);
  p ← px "100";
  loss ← unwrap (notional p qty);
  assert_is loss (money "200").

Definition a_wider_stop_buys_less : Test :=
  let size dist := sized "10000" "50000" dist RATIO_ONE no_caps in
  _ ← assert_is (whole 1) (size "200");
  _ ← assert_is (whole 2) (size "100");
  assert_is (whole 4) (size "50").

Definition conviction_scales_the_risk_and_is_clamped : Test :=
  let size c := sized "10000" "50000" "100" c no_caps in
  half ← ratio "0.5";
  _ ← assert_is (whole 1) (size half);
  _ ← assert_is ZERO (size RATIO_ZERO);
  three ← ratio "3";
  at_three ← size three;
  _ ← assert_is at_three (size RATIO_ONE);
  minus ← ratio "-1";
  assert_is ZERO (size minus).

Definition leverage_caps_a_stop_that_is_absurdly_tight : Test :=
  p ← params;
  two ← ratio "2";
  let p := mkRiskParams (risk_pct p) two (stop_atr_mult p) (fallback_stop_pct p) (rr p) (trail p) in
  equity ← money "10000";
  price ← px "50000";
  dist ← px "0.01";
  assert_is (risk_sized_qty p equity price (Some dist) RATIO_ONE no_caps) (qty_of "0.4").

Definition the_tightest_cap_wins : Test :=
  _ ← assert_is (whole 2) (sized "10000" "50000" "100" RATIO_ONE no_caps);
  margin ← qty_of "1.5";
  available ← qty_of "0.75";
  assert_is available
    (sized "10000" "50000" "100" RATIO_ONE (mkCaps (Some margin) (Some (whole 3)) (Some available))).

Definition no_headroom_sizes_to_zero_rather_than_refusing : Test :=
  assert_is ZERO (sized "10000" "50000" "100" RATIO_ONE (mkCaps None None (Some (whole (-5))))).

(** The five inputs; the fourth has no stop distance. *)
Definition missing_inputs_size_to_zero : Test :=
  for_each [("0", "50000", Some "100"); ("10000", "0", Some "100"); ("10000", "50000", Some "0");
            ("10000", "50000", None); ("-1", "50000", Some "100")]%string (λ '(equity, price, stop),
    p ← params;
    equity ← money equity;
    price ← px price;
    stop ← match stop with Some s => Some <$> px s | None => Some None end;
    assert_eq (risk_sized_qty p equity price stop RATIO_ONE no_caps) ZERO).

Definition sizing_rounds_down : Test :=
  qty ← sized "10000" "100" "3" RATIO_ONE no_caps;
  assert_is qty (qty_of "66.66666666").

Definition the_stop_falls_back_to_a_percentage_until_the_atr_is_warm : Test :=
  p ← params;
  price ← px "50000";
  _ ← assert_is (stop_distance p price None) (px "250");
  zero ← px "0";
  _ ← assert_is (stop_distance p price (Some zero)) (px "250");
  warm ← px "300";
  assert_is (stop_distance p price (Some warm)) (px "600").

Definition the_atr_is_none_until_there_are_enough_bars : Test :=
  bar ← candle "101" "99" "100";
  short ← unwrap (atr (replicate 14 bar) 14);
  _ ← assert_eq short None;
  enough ← unwrap (atr (replicate 15 bar) 14);
  two ← px "2";
  _ ← assert_eq enough (Some two);
  none ← unwrap (atr [] 14);
  assert_eq none None.

Definition the_atr_counts_gaps_as_range : Test :=
  flat ← candle "100" "100" "100";
  gap ← candle "120" "119" "120";
  range ← unwrap (atr [flat; flat; gap] 2);
  ten ← px "10";
  assert_eq range (Some ten).

Definition brackets_sit_the_right_side_for_each_direction : Test :=
  entry ← px "100";
  dist ← px "2";
  rr ← ratio "1.5";
  let '(stop, take) := brackets entry true dist rr in
  _ ← assert_is stop (px "98");
  _ ← assert_is take (Some <$> px "103");
  let '(stop, take) := brackets entry false dist rr in
  _ ← assert_is stop (px "102");
  assert_is take (Some <$> px "97").

Definition a_zero_reward_ratio_disables_the_target_entirely : Test :=
  entry ← px "100";
  dist ← px "2";
  let '(stop, take) := brackets entry true dist RATIO_ZERO in
  _ ← assert_is stop (px "98");
  _ ← assert_eq take None;
  far ← px "1000";
  _ ← assert_eq (breached true far stop take) None;
  at_stop ← px "98";
  assert_eq (breached true at_stop stop take) (Some Stop).

(** [breached(is_long, px(mark), px(stop), take.map(px))]. *)
Definition breach (is_long : bool) (mark stop : string) (take : option string) :
    option (option Breach) :=
  mark ← px mark;
  stop ← px stop;
  take ← match take with Some s => Some <$> px s | None => Some None end;
  Some (breached is_long mark stop take).

Definition breaches_are_inclusive_at_the_price : Test :=
  _ ← assert_is (Some Stop) (breach true "98" "98" None);
  _ ← assert_is (Some Stop) (breach false "102" "102" None);
  assert_is (Some Take) (breach true "103" "98" (Some "103"%string)).

Definition a_stop_takes_precedence_over_a_target : Test :=
  assert_is (Some Stop) (breach true "90" "98" (Some "103"%string)).

(** [trail_ratchet(is_long, px("100"), px(price), px(dist), wm, stop)], which has
    to come back with that watermark and that stop. *)
Definition ratchet (is_long : bool) (price dist : string) (before : option (Price * Price)) :
    option (Price * Price) :=
  entry ← px "100";
  price ← px price;
  dist ← px dist;
  Some (trail_ratchet is_long entry price dist (fst <$> before) (snd <$> before)).

Definition pair (wm stop : string) : option (Price * Price) := w ← px wm; s ← px stop; Some (w, s).

Definition the_trail_follows_the_high_and_never_loosens : Test :=
  one ← ratchet true "100" "2" None;
  _ ← assert_is one (pair "100" "98");
  two ← ratchet true "110" "2" (Some one);
  _ ← assert_is two (pair "110" "108");
  three ← ratchet true "104" "2" (Some two);
  assert_is three (pair "110" "108").

Definition a_widening_stop_distance_cannot_loosen_the_trail : Test :=
  one ← ratchet true "120" "2" None;
  _ ← assert_is one.2 (px "118");
  two ← ratchet true "120" "10" (Some one);
  assert_is two.2 (px "118").

Definition the_short_trail_mirrors_the_long_one : Test :=
  one ← ratchet false "100" "2" None;
  _ ← assert_is one (pair "100" "102");
  two ← ratchet false "90" "2" (Some one);
  _ ← assert_is two (pair "90" "92");
  three ← ratchet false "96" "2" (Some two);
  assert_is three (pair "90" "92").

Definition the_trail_is_never_looser_than_the_static_bracket : Test :=
  trailed ← ratchet true "90" "2" None;
  entry ← px "100";
  dist ← px "2";
  assert_eq trailed.2 (brackets entry true dist RATIO_ZERO).1.

Definition sizing_and_the_stop_use_the_same_distance : Test :=
  p ← params;
  equity ← money "10000";
  price ← px "50000";
  bar ← candle "50300" "49700" "50000";
  range ← unwrap (atr (replicate 20 bar) 14);
  let dist := stop_distance p price range in
  let qty := risk_sized_qty p equity price (Some dist) RATIO_ONE no_caps in
  let stop := (brackets price true dist (rr p)).1 in
  loss_at_stop ← unwrap (notional (from_raw (raw price - raw stop)) qty);
  let budget := scale equity (risk_pct p) in
  one_tick ← unwrap (notional dist (from_raw 1));
  let shortfall := raw budget - raw loss_at_stop in
  assert ((0 <=? shortfall) && (shortfall <=? raw one_tick)).

Definition tests : list Test :=
  [a_stop_out_costs_what_was_risked; a_wider_stop_buys_less;
   conviction_scales_the_risk_and_is_clamped; leverage_caps_a_stop_that_is_absurdly_tight;
   the_tightest_cap_wins; no_headroom_sizes_to_zero_rather_than_refusing;
   missing_inputs_size_to_zero; sizing_rounds_down;
   the_stop_falls_back_to_a_percentage_until_the_atr_is_warm;
   the_atr_is_none_until_there_are_enough_bars; the_atr_counts_gaps_as_range;
   brackets_sit_the_right_side_for_each_direction;
   a_zero_reward_ratio_disables_the_target_entirely; breaches_are_inclusive_at_the_price;
   a_stop_takes_precedence_over_a_target; the_trail_follows_the_high_and_never_loosens;
   a_widening_stop_distance_cannot_loosen_the_trail; the_short_trail_mirrors_the_long_one;
   the_trail_is_never_looser_than_the_static_bracket; sizing_and_the_stop_use_the_same_distance].
End RiskTests.

Example risk_tests_pass : suite RiskTests.tests = true.
Proof. vm_compute. reflexivity. Qed.

(** ** sentinel-ledger/src/position.rs *)

Module PositionTests.
(** [p.apply_fill(side, qty, px(price)).unwrap()]. *)
Definition fill (side : Side) (qty : Qty) (price : string) (p : Position) : option Position :=
  price ← px price;
  match position_apply_fill side qty price p with (p, Ok _) => Some p | (_, Err _) => None end.
Definition buy (n : Z) : string → Position → option Position := fill Buy (whole n).
Definition sell (n : Z) : string → Position → option Position := fill Sell (whole n).

(** [p.avg_entry() == Some(px(price))], and the unrealised P&L at a mark. *)
Definition averages (p : Position) (price : string) : Test := assert_is (avg_entry p) (Some <$> px price).
Definition unrealized_at (p : Position) (mark : string) : option Money := m ← px mark; Some (unrealized p m).

Definition flat : Position := position_default.

Definition a_flat_position_has_no_average_and_no_pnl : Test :=
  _ ← assert (is_flat flat);
  _ ← assert_eq (avg_entry flat) None;
  assert_is ZERO (unrealized_at flat "109432.5").

Definition buying_opens_a_long_at_the_fill_price : Test :=
  p ← buy 3 "100" flat;
  _ ← assert_eq (pos_qty p) (whole 3);
  _ ← assert_is (cost_basis p) (money "300");
  _ ← averages p "100";
  assert_eq (realized p) ZERO.

Definition adding_to_a_long_averages_the_entry : Test :=
  p ← buy 2 "100" flat;
  p ← buy 2 "110" p;
  _ ← assert_eq (pos_qty p) (whole 4);
  _ ← assert_is (cost_basis p) (money "420");
  averages p "105".

Definition selling_a_long_books_the_difference : Test :=
  p ← buy 4 "100" flat;
  p ← sell 1 "110" p;
  _ ← assert_eq (pos_qty p) (whole 3);
  _ ← assert_is (realized p) (money "10");
  _ ← assert_is (cost_basis p) (money "300");
  averages p "100".

Definition a_short_books_profit_when_price_falls : Test :=
  p ← sell 2 "100" flat;
  _ ← assert_eq (pos_qty p) (whole (-2));
  _ ← assert_is (cost_basis p) (money "-200");
  _ ← averages p "100";
  p ← buy 2 "90" p;
  _ ← assert (is_flat p);
  _ ← assert_is (realized p) (money "20");
  assert_eq (cost_basis p) ZERO.

Definition a_short_books_a_loss_when_price_rises : Test :=
  p ← sell 2 "100" flat;
  p ← buy 2 "110" p;
  assert_is (realized p) (money "-20").

Definition partially_closing_a_short_leaves_the_rest_short : Test :=
  p ← sell 4 "100" flat;
  p ← buy 1 "90" p;
  _ ← assert_eq (pos_qty p) (whole (-3));
  _ ← assert_is (realized p) (money "10");
  _ ← assert_is (cost_basis p) (money "-300");
  averages p "100".

Definition closing_flat_leaves_no_residual_basis : Test :=
  p ← buy 3 "109432.5" flat;
  p ← sell 1 "109500" p;
  p ← sell 1 "109400" p;
  p ← sell 1 "109450" p;
  _ ← assert (is_flat p);
  _ ← assert_eq (cost_basis p) ZERO;
  assert_is ZERO (unrealized_at p "109432.5").

Definition a_fill_larger_than_the_position_flips_it : Test :=
  p ← buy 2 "100" flat;
  p ← sell 5 "110" p;
  _ ← assert_eq (pos_qty p) (whole (-3));
  _ ← assert_is (realized p) (money "20");
  _ ← assert_is (cost_basis p) (money "-330");
  averages p "110".

Definition a_short_flipped_long_carries_nothing_across_either : Test :=
  p ← sell 2 "100" flat;
  p ← buy 5 "90" p;
  _ ← assert_eq (pos_qty p) (whole 3);
  _ ← assert_is (realized p) (money "20");
  _ ← assert_is (cost_basis p) (money "270");
  averages p "90".

Definition unrealised_tracks_the_mark_in_both_directions : Test :=
  gain ← money "20";
  loss ← money "-20";
  long ← buy 2 "100" flat;
  _ ← assert_is gain (unrealized_at long "110");
  _ ← assert_is loss (unrealized_at long "90");
  short ← sell 2 "100" flat;
  _ ← assert_is gain (unrealized_at short "90");
  assert_is loss (unrealized_at short "110").

Definition a_round_trip_at_the_same_price_books_nothing : Test :=
  p ← buy 7 "109432.5" flat;
  p ← sell 7 "109432.5" p;
  _ ← assert (is_flat p);
  assert_eq (realized p) ZERO.

Definition partial_closes_sum_to_the_whole_close : Test :=
  p ← buy 3 "109432.5" flat;
  p ← sell 1 "109500" p;
  p ← sell 1 "109500" p;
  piecemeal ← sell 1 "109500" p;
  w ← buy 3 "109432.5" flat;
  wholesale ← sell 3 "109500" w;
  _ ← assert_eq (realized piecemeal) (realized wholesale);
  assert (is_flat piecemeal && is_flat wholesale).

Definition fractional_sizes_stay_exact : Test :=
  q ← qty_of "0.001";
  p ← fill Buy q "109432.5" flat;
  _ ← assert_is (cost_basis p) (money "109.4325");
  p ← fill Sell q "109532.5" p;
  _ ← assert_is (realized p) (money "0.1");
  assert (is_flat p).

Definition overflow_is_reported_rather_than_wrapped : Test :=
  let p := set_pos_qty MAX flat in
  price ← px "1";
  err ← unwrap_err (position_apply_fill Buy (whole 1) price p).2;
  match err with position_overflow => Some tt end.

Definition tests : list Test :=
  [a_flat_position_has_no_average_and_no_pnl; buying_opens_a_long_at_the_fill_price;
   adding_to_a_long_averages_the_entry; selling_a_long_books_the_difference;
   a_short_books_profit_when_price_falls; a_short_books_a_loss_when_price_rises;
   partially_closing_a_short_leaves_the_rest_short; closing_flat_leaves_no_residual_basis;
   a_fill_larger_than_the_position_flips_it; a_short_flipped_long_carries_nothing_across_either;
   unrealised_tracks_the_mark_in_both_directions; a_round_trip_at_the_same_price_books_nothing;
   partial_closes_sum_to_the_whole_close; fractional_sizes_stay_exact;
   overflow_is_reported_rather_than_wrapped].
End PositionTests.

Example position_tests_pass : suite PositionTests.tests = true.
Proof. vm_compute. reflexivity. Qed.

(** ** sentinel-types/src/fixed.rs *)

Module FixedTests.
Definition parses_to (s : string) (n : Z) : Test := p ← px s; assert_eq (raw p) n.

Definition parses_the_forms_venues_actually_send : Test :=
  for_each [("0", 0); ("1", SCALE); ("-1", - SCALE); ("+1", SCALE); ("12.5", 1250000000);
            (".5", 50000000); ("0.00000001", 1); ("-0.00000001", -1);
            ("109432.5", 10943250000000)]%string (λ '(s, n), parses_to s n).

Definition refuses_rather_than_rounds : Test :=
  for_each [("1.234567891", TooPrecise); ("1e5", Malformed); ("1,000", Malformed); ("12.", Malformed);
            ("", Empty); ("-", Empty); (".", Malformed); ("99999999999.0", OutOfRange)]%string
    (λ '(s, e), err ← unwrap_err (parse (str s) : result ParseError Price); assert_eq err e).

Definition trailing_zeros_beyond_precision_are_not_a_loss : Test :=
  p ← px "1.500000000000";
  _ ← assert_is p (px "1.5");
  z ← px "0.000000000";
  assert_eq z ZERO.

Definition display_round_trips_through_parse : Test :=
  for_each [0; 1; -1; SCALE; - SCALE; 1250000000; 10943250000000; i64_max; i64_min] (λ r,
    let p : Price := from_raw r in
    assert_is p (unwrap (parse (to_string p)))).

Definition display_is_the_short_form : Test :=
  for_each [(SCALE, "1"); (1250000000, "12.5"); (1, "0.00000001"); (-1, "-0.00000001"); (0, "0")]%string
    (λ '(r, s), assert_eq (to_string (from_raw r : Price)) (str s)).

Definition notional_is_exact_at_venue_scale : Test :=
  p ← px "109432.5";
  n ← unwrap (notional p (whole 3));
  assert_eq (to_string n) (str "328297.5").

Definition notional_truncates_toward_zero_and_says_so : Test :=
  half ← px "0.5";
  _ ← assert_is ZERO (unwrap (notional half (from_raw 1)));
  _ ← assert_is ZERO (unwrap (notional half (from_raw (-1))));
  assert_is (from_raw 1) (unwrap (notional half (from_raw 2))).

Definition notional_reports_overflow_instead_of_wrapping : Test :=
  _ ← assert (is_err (notional MAX MAX));
  assert_is MAX (unwrap (notional MAX (whole 1))).

Definition checked_arithmetic_reports_the_edges : Test :=
  _ ← assert (is_err (checked_add (MAX : Qty) (from_raw 1)));
  _ ← assert (is_err (checked_sub (MIN : Qty) (from_raw 1)));
  assert_is (whole (-1) : Qty) (unwrap (checked_sub (whole 2) (whole 3))).

Definition abs_saturates_at_min_rather_than_wrapping : Test :=
  _ ← assert_eq (abs (MIN : Qty)) MAX;
  assert_eq (abs (whole (-3) : Qty)) (whole 3).

Definition whole_saturates_rather_than_wrapping : Test :=
  _ ← assert_eq (whole i64_max : Qty) MAX;
  assert_eq (whole i64_min : Qty) MIN.

Definition parsing_is_available_in_const_context : Test := parses_to "0.5" 50000000.

Definition tests : list Test :=
  [parses_the_forms_venues_actually_send; refuses_rather_than_rounds;
   trailing_zeros_beyond_precision_are_not_a_loss; display_round_trips_through_parse;
   display_is_the_short_form; notional_is_exact_at_venue_scale;
   notional_truncates_toward_zero_and_says_so; notional_reports_overflow_instead_of_wrapping;
   checked_arithmetic_reports_the_edges; abs_saturates_at_min_rather_than_wrapping;
   whole_saturates_rather_than_wrapping; parsing_is_available_in_const_context].
End FixedTests.

Example fixed_tests_pass : suite FixedTests.tests = true.
Proof. vm_compute. reflexivity. Qed.

(** ** sentinel-types/src/ids.rs, enums.rs, lib.rs *)

Module TypesTests.
(** [Side::from_u8(v).is_err()] for a vocabulary named by its type. *)
Definition refuses (A : Type) `{WireEnum A} (v : Z) : Test := assert (is_err (from_u8 (A := A) v)).
Definition byte_trips (A : Type) `{WireEnum A, EqDecision A} : Test :=
  for_each (ALL : list A) (λ a, assert_is a (unwrap (from_u8 (as_u8 a)))).
Definition text_trips (A : Type) `{WireEnum A, EqDecision A} : Test :=
  for_each (ALL : list A) (λ a, assert_is a (unwrap (from_str (as_str a)))).

Definition holds_a_real_client_order_id : Test :=
  id ← unwrap (inline_new 36 (str "UI-4bb5ba826e2e"));
  _ ← assert_eq (inline_as_str id) (str "UI-4bb5ba826e2e");
  assert_eq (inline_len id) 15%nat.

Definition refuses_to_truncate_an_id : Test :=
  let xs n := replicate n (Byte.x78 : byte) in
  err ← unwrap_err (inline_new 36 (xs 37%nat));
  _ ← assert_eq (tl_len err, tl_capacity err) (37, 36)%nat;
  assert (is_ok (inline_new 36 (xs 36%nat))).

Definition equal_strings_have_equal_bytes : Test :=
  a ← unwrap (inline_new 16 (str "BTCUSD"));
  b ← unwrap (inline_new 16 (str "BTCUSD"));
  _ ← assert_eq (il_bytes a) (il_bytes b);
  assert_eq (drop 6 (il_bytes a)) (replicate 10 (Byte.x00 : byte)).

Definition round_trips_through_padded_bytes : Test :=
  id ← unwrap (inline_new 36 (str "UI-af1d562998f7"));
  _ ← assert_is id (unwrap (from_padded 36 (il_bytes id)));
  assert_is inline_empty (unwrap (from_padded 36 (replicate 36 (Byte.x00 : byte)))).

Definition rejects_padding_that_is_not_padding : Test :=
  assert (is_err (from_padded 16
    ([Byte.x41; Byte.x42; Byte.x00; Byte.x44] ++ replicate 12 (Byte.x00 : byte)))).

Definition rejects_bytes_that_are_not_utf8 : Test :=
  assert (is_err (from_padded 16 ([Byte.xff] ++ replicate 15 (Byte.x00 : byte)))).

Definition epoch_and_seq_advance_without_wrapping : Test :=
  _ ← assert_eq (epoch_next GENESIS) 1;
  _ ← assert_eq (epoch_next u64_max) u64_max;
  assert_eq (seq_next SEQ_ZERO) 1.

Definition trace_id_renders_full_width : Test :=
  _ ← assert_eq (trace_to_string TRACE_NONE) (replicate 32 ch_zero);
  assert_eq (trace_to_string 1681963670) (str "0000000000000000000000006440ba96").

Definition zero_is_never_a_valid_discriminant : Test :=
  _ ← refuses Side 0;
  _ ← refuses Authority 0;
  _ ← refuses OrderKind 0;
  refuses TimeInForce 0.

Definition discriminants_round_trip : Test :=
  _ ← byte_trips Side;
  _ ← byte_trips Authority;
  _ ← byte_trips OrderKind;
  byte_trips TimeInForce.

Definition text_round_trips : Test := _ ← text_trips Side; text_trips Authority.

Definition discriminants_are_pinned : Test :=
  _ ← assert_eq (as_u8 Buy) 1;
  _ ← assert_eq (as_u8 Sell) 2;
  _ ← assert_eq (as_u8 Entry) 1;
  _ ← assert_eq (as_u8 ProtectiveExit) 2;
  _ ← assert_eq (as_u8 Market) 1;
  _ ← assert_eq (as_u8 Limit) 2;
  assert_eq (as_u8 StopMarket) 3.

Definition side_flips_and_signs : Test :=
  _ ← assert_eq (opposite Buy) Sell;
  _ ← assert_eq (opposite Sell) Buy;
  _ ← assert_eq (sign Buy) 1;
  _ ← assert_eq (sign Sell) (-1);
  for_each ALL (λ s, assert_eq (opposite (opposite s)) s).

Definition only_entries_open_exposure : Test :=
  _ ← assert (authority_opens_exposure Entry);
  assert (negb (authority_opens_exposure ProtectiveExit)).

Definition each_kind_declares_the_prices_it_needs : Test :=
  _ ← assert (negb (needs_limit_price Market));
  _ ← assert (needs_limit_price Limit);
  _ ← assert (needs_stop_price StopMarket);
  assert (negb (needs_stop_price Limit)).

Definition nanos_measure_age_not_direction : Test :=
  let t0 := 1000000000 in
  let t1 := 3500000000 in
  _ ← assert_eq (saturating_since t1 t0) 2500000000;
  assert_eq (saturating_since t0 t1) 0.

Definition nanos_convert_to_seconds : Test :=
  _ ← assert_eq (as_secs 3999999999) 3;
  assert_eq (as_secs 0) 0.

Definition the_pieces_compose_into_an_order : Test :=
  instrument ← unwrap (inline_new 16 (str "BTCUSD"));
  coid ← unwrap (inline_new 36 (str "UI-4bb5ba826e2e"));
  let qty : Qty := whole 3 in
  p ← px "109432.5";
  _ ← assert_eq (inline_as_str instrument) (str "BTCUSD");
  _ ← assert_eq (inline_len coid) 15%nat;
  n ← unwrap (notional p qty);
  _ ← assert_eq (to_string n) (str "328297.5");
  assert_eq (sign Buy * raw qty) (raw qty).

Definition tests : list Test :=
  [holds_a_real_client_order_id; refuses_to_truncate_an_id; equal_strings_have_equal_bytes;
   round_trips_through_padded_bytes; rejects_padding_that_is_not_padding;
   rejects_bytes_that_are_not_utf8; epoch_and_seq_advance_without_wrapping;
   trace_id_renders_full_width; zero_is_never_a_valid_discriminant; discriminants_round_trip;
   text_round_trips; discriminants_are_pinned; side_flips_and_signs; only_entries_open_exposure;
   each_kind_declares_the_prices_it_needs; nanos_measure_age_not_direction;
   nanos_convert_to_seconds; the_pieces_compose_into_an_order].
End TypesTests.

Example types_tests_pass : suite TypesTests.tests = true.
Proof. vm_compute. reflexivity. Qed.
