(* ===== verification/Crc.v ===== *)
(** * CRC-32C (sentinel-journal/src/crc32c.rs)

    The lookup table built bit by bit, and the byte-at-a-time loop.  The theorems:
    the table-driven loop computes the bit-serial shift register, checksumming
    in pieces is checksumming the whole, and a corruption confined to four
    consecutive bytes always changes the checksum. *)

From S2P Require Import Prelude.

Definition POLY : Z := 0x82F63B78.
Definition u32_mask : Z := 0xFFFFFFFF.

(** One turn of the inner loop of [build_table]. *)
Definition bit_step (crc : Z) : Z :=
  if Z.land crc 1 =? 1 then Z.lxor (Z.shiftr crc 1) POLY else Z.shiftr crc 1.

(** [while bit < 8]. *)
Definition table_entry (i : Z) : Z := Nat.iter 8 bit_step i.

Definition build_table : list Z := table_entry ∘ Z.of_nat <$> seq 0 256.

Definition TABLE : list Z := Eval vm_compute in build_table.

(** The body of the loop of [update]: the index is a byte, so the table lookup
    is always in range. *)
Definition byte_step (crc : Z) (b : byte) : Z :=
  let low := Z.land crc 255 in
  Z.lxor (Z.shiftr crc 8) (nth (Z.to_nat (Z.lxor low (b2z b))) TABLE 0).

(** [!crc] on [u32]. *)
Definition not32 (crc : Z) : Z := Z.lxor crc u32_mask.

Definition update (crc : Z) (bytes : list byte) : Z :=
  not32 (foldl byte_step (not32 crc) bytes).

Definition checksum (bytes : list byte) : Z := update 0 bytes.

Definition u32_ok (z : Z) : Prop := 0 ≤ z < 2 ^ 32.

(** The published check value of CRC-32C. *)
Example checksum_check_value : checksum (str "123456789") = 0xE3069283.
Proof. reflexivity. Qed.

(** ** The reference: a shift register fed one bit at a time *)

Definition serial_byte (crc : Z) (b : byte) : Z :=
  Nat.iter 8 bit_step (Z.lxor crc (b2z b)).

Definition serial_update (crc : Z) (bytes : list byte) : Z :=
  not32 (foldl serial_byte (not32 crc) bytes).

(** ** The shift register is linear and invertible *)

Lemma bit_step_odd c :
  bit_step c = Z.lxor (Z.shiftr c 1) (if Z.odd c then POLY else 0).
Proof.
  unfold bit_step. change 1 with (Z.ones 1) at 1. rewrite Z.land_ones by lia.
  change (2 ^ 1) with 2. rewrite Zmod_odd. destruct (Z.odd c); simpl; [done|].
  by rewrite Z.lxor_0_r.
Qed.

Lemma bit_step_lxor a b : bit_step (Z.lxor a b) = Z.lxor (bit_step a) (bit_step b).
Proof.
  rewrite !bit_step_odd, Z.shiftr_lxor, <-!Z.bit0_odd, Z.lxor_spec.
  apply Z.bits_inj'. intros n Hn. rewrite !Z.lxor_spec.
  destruct (Z.testbit a 0), (Z.testbit b 0); simpl; rewrite ?Z.bits_0;
    repeat match goal with |- context [Z.testbit ?x n] => destruct (Z.testbit x n) end;
    done.
Qed.

Lemma iter_bit_step_lxor n a b :
  Nat.iter n bit_step (Z.lxor a b) = Z.lxor (Nat.iter n bit_step a) (Nat.iter n bit_step b).
Proof. induction n as [|n IH]; simpl; [done|]. by rewrite IH, bit_step_lxor. Qed.

Lemma bit_step_double c : bit_step (Z.shiftl c 1) = c.
Proof.
  rewrite bit_step_odd, Z.shiftr_shiftl_l, Z.shiftl_0_r by lia.
  rewrite Z.shiftl_mul_pow2, Z.mul_comm, Z.odd_mul by lia. simpl. apply Z.lxor_0_r.
Qed.

Lemma iter_bit_step_shiftl n c :
  Nat.iter n bit_step (Z.shiftl c (Z.of_nat n)) = c.
Proof.
  revert c. induction n as [|n IH]; intros c; [apply Z.shiftl_0_r|].
  rewrite Nat.iter_succ_r.
  replace (Z.shiftl c (Z.of_nat (S n))) with (Z.shiftl (Z.shiftl c (Z.of_nat n)) 1).
  - by rewrite bit_step_double, IH.
  - rewrite Z.shiftl_shiftl by lia. f_equal. lia.
Qed.

Lemma byte_shiftl c : Nat.iter 8 bit_step (Z.shiftl c 8) = c.
Proof. apply (iter_bit_step_shiftl 8). Qed.

Lemma u32_shiftr c n : 0 ≤ n → u32_ok c → u32_ok (Z.shiftr c n).
Proof.
  intros Hn [? ?]. rewrite Z.shiftr_div_pow2 by done.
  assert (0 < 2 ^ n) by (apply Z.pow_pos_nonneg; lia).
  split; [apply Z.div_pos; lia|].
  eapply Z.le_lt_trans; [apply Z.div_le_upper_bound with (q := c); nia|done].
Qed.

Lemma u32_lxor a b : u32_ok a → u32_ok b → u32_ok (Z.lxor a b).
Proof.
  intros [Ha Ha'] [Hb Hb'].
  assert (0 ≤ Z.lxor a b) as H0 by (apply Z.lxor_nonneg; lia).
  split; [done|]. destruct (decide (Z.lxor a b = 0)) as [->|]; [done|].
  apply Z.log2_lt_pow2; [lia|].
  eapply Z.le_lt_trans; [by apply Z.log2_lxor|].
  assert (∀ x, 0 ≤ x < 2 ^ 32 → Z.log2 x < 32) as Hlog.
  { intros x Hx. destruct (decide (x = 0)) as [->|]; [done|].
    apply Z.log2_lt_pow2; lia. }
  pose proof (Hlog a). pose proof (Hlog b). lia.
Qed.

Lemma u32_bit_step c : u32_ok c → u32_ok (bit_step c).
Proof.
  intros Hc. rewrite bit_step_odd. apply u32_lxor; [by apply u32_shiftr|].
  destruct (Z.odd c); vm_compute; by split.
Qed.

Lemma u32_iter n c : u32_ok c → u32_ok (Nat.iter n bit_step c).
Proof. intros. induction n; simpl; auto using u32_bit_step. Qed.

Lemma u32_not32 c : u32_ok c → u32_ok (not32 c).
Proof. intros. apply u32_lxor; [done|]. vm_compute. by split. Qed.

Lemma u32_byte b : u32_ok (b2z b).
Proof. pose proof (b2z_range b). unfold u32_ok. lia. Qed.

#[export] Hint Resolve u32_shiftr u32_lxor u32_bit_step u32_iter u32_not32 u32_byte
  : sentinel.

(** The top bit of the polynomial is set, so the bit shifted out can be read
    back: one step loses nothing. *)
Lemma bit_step_inj a b : u32_ok a → u32_ok b → bit_step a = bit_step b → a = b.
Proof.
  intros [Ha Ha'] [Hb Hb'] H. rewrite !bit_step_odd in H.
  assert (∀ c, 0 ≤ c < 2 ^ 32 →
    Z.testbit (Z.lxor (Z.shiftr c 1) (if Z.odd c then POLY else 0)) 31 = Z.odd c) as Htop.
  { intros c Hc. rewrite Z.lxor_spec, Z.shiftr_spec by lia.
    rewrite (Z.bits_above_log2 c (31 + 1)); [by destruct (Z.odd c)|lia|].
    destruct (decide (c = 0)) as [->|]; [done|]. apply Z.log2_lt_pow2; lia. }
  assert (Z.odd a = Z.odd b) as Hodd by (rewrite <-(Htop a), <-(Htop b), H; lia || done).
  rewrite Hodd in H.
  apply (f_equal (λ z, Z.lxor z (if Z.odd b then POLY else 0))) in H.
  rewrite !Z.lxor_assoc, !Z.lxor_nilpotent, !Z.lxor_0_r in H.
  rewrite !Z.shiftr_div_pow2 in H by lia. change (2 ^ 1) with 2 in H.
  rewrite (Z.div_mod a 2), (Z.div_mod b 2), !Zmod_odd, Hodd, H by lia. done.
Qed.

Lemma iter_bit_step_inj n a b :
  u32_ok a → u32_ok b → Nat.iter n bit_step a = Nat.iter n bit_step b → a = b.
Proof.
  revert a b. induction n as [|n IH]; intros a b Ha Hb H; [done|].
  simpl in H. apply IH; [done..|]. apply bit_step_inj; auto with sentinel.
Qed.

(** ** The table computes the register *)

Lemma TABLE_nth i : 0 ≤ i < 256 → nth (Z.to_nat i) TABLE 0 = table_entry i.
Proof.
  intros Hi. assert (Forall (λ n, nth n TABLE 0 = table_entry (Z.of_nat n)) (seq 0 256)) as H.
  { apply Forall_forall. intros n Hn%elem_of_seq.
    change TABLE with (table_entry ∘ Z.of_nat <$> seq 0 256).
    rewrite nth_lookup, list_lookup_fmap, lookup_seq_lt by lia. done. }
  rewrite Forall_forall in H. rewrite H by (apply elem_of_seq; lia). f_equal. lia.
Qed.

Lemma byte_lxor_range a b : 0 ≤ Z.lxor (Z.land a 255) (b2z b) < 256.
Proof.
  change 255 with (Z.ones 8). rewrite Z.land_ones by lia.
  pose proof (Z.mod_pos_bound a (2 ^ 8)). pose proof (b2z_range b).
  change 256 with (2 ^ 8).
  set (x := a mod 2 ^ 8) in *. set (y := b2z b) in *.
  assert (0 ≤ Z.lxor x y) by (apply Z.lxor_nonneg; lia).
  split; [done|]. rewrite <-(Z.mod_small x (2 ^ 8)), <-(Z.mod_small y (2 ^ 8)) by lia.
  rewrite <-!Z.land_ones by lia.
  assert (Z.lxor (Z.land x (Z.ones 8)) (Z.land y (Z.ones 8)) =
          Z.land (Z.lxor x y) (Z.ones 8)) as ->.
  { apply Z.bits_inj'. intros n Hn. rewrite ?Z.lxor_spec, ?Z.land_spec, ?Z.lxor_spec.
    destruct (Z.testbit x n), (Z.testbit y n), (Z.testbit (Z.ones 8) n); done. }
  rewrite Z.land_ones by lia. apply Z.mod_pos_bound. lia.
Qed.

Lemma split_low_byte c : 0 ≤ c → c = Z.lxor (Z.shiftl (Z.shiftr c 8) 8) (Z.land c 255).
Proof.
  intros Hc. apply Z.bits_inj'. intros n Hn. change 255 with (Z.ones 8).
  rewrite Z.lxor_spec, Z.land_spec, Z.testbit_ones_nonneg by lia.
  destruct (Z.ltb_spec n 8).
  - rewrite Z.shiftl_spec_low by lia. by destruct (Z.testbit c n).
  - rewrite Z.shiftl_spec, Z.shiftr_spec by lia. replace (n - 8 + 8) with n by lia.
    by destruct (Z.testbit c n).
Qed.

Lemma byte_step_serial c b : 0 ≤ c → byte_step c b = serial_byte c b.
Proof.
  intros Hc. unfold byte_step, serial_byte.
  rewrite TABLE_nth by apply byte_lxor_range. unfold table_entry.
  transitivity (Nat.iter 8 bit_step
    (Z.lxor (Z.shiftl (Z.shiftr c 8) 8) (Z.lxor (Z.land c 255) (b2z b)))).
  - by rewrite (iter_bit_step_lxor 8 (Z.shiftl _ _)), byte_shiftl.
  - by rewrite <-Z.lxor_assoc, <-split_low_byte.
Qed.

Lemma u32_serial c b : u32_ok c → u32_ok (serial_byte c b).
Proof. intros. unfold serial_byte. auto with sentinel. Qed.

Lemma u32_foldl c l : u32_ok c → u32_ok (foldl serial_byte c l).
Proof. revert c. induction l; simpl; auto using u32_serial. Qed.

Lemma foldl_byte_step c l : u32_ok c → foldl byte_step c l = foldl serial_byte c l.
Proof.
  revert c. induction l as [|b l IH]; intros c Hc; simpl; [done|].
  rewrite byte_step_serial by (destruct Hc; lia). apply IH. by apply u32_serial.
Qed.

#[export] Hint Resolve u32_serial u32_foldl : sentinel.

Lemma update_serial c l : u32_ok c → update c l = serial_update c l.
Proof. intros. unfold update, serial_update. rewrite foldl_byte_step; auto with sentinel. Qed.

Lemma not32_not32 c : not32 (not32 c) = c.
Proof. unfold not32. by rewrite Z.lxor_assoc, Z.lxor_nilpotent, Z.lxor_0_r. Qed.

Lemma update_app c a b : update c (a ++ b) = update (update c a) b.
Proof. unfold update. by rewrite not32_not32, foldl_app. Qed.

Lemma u32_update c l : u32_ok c → u32_ok (update c l).
Proof. intros. rewrite update_serial by done. unfold serial_update. auto with sentinel. Qed.

#[export] Hint Resolve u32_update : sentinel.

(** ** Bursts *)

(** Bytes fed one by one are the little-endian word fed at once. *)
Lemma foldl_serial_word c l :
  foldl serial_byte c l = Nat.iter (8 * length l) bit_step (Z.lxor c (from_le l)).
Proof.
  revert c. induction l as [|b l IH]; intros c.
  - simpl. by rewrite Z.lxor_0_r.
  - cbn [foldl length]. rewrite IH.
    replace (8 * S (length l))%nat with (8 * length l + 8)%nat by lia.
    rewrite Nat.iter_add. f_equal. unfold serial_byte.
    change (from_le (b :: l)) with (Z.lor (b2z b) (Z.shiftl (from_le l) 8)).
    rewrite <-Z.lxor_lor.
    + rewrite <-Z.lxor_assoc, (iter_bit_step_lxor 8 _ (Z.shiftl _ _)).
      by rewrite byte_shiftl.
    + apply Z.bits_inj'. intros n Hn. rewrite Z.land_spec, Z.bits_0.
      destruct (Z.ltb_spec n 8).
      * rewrite Z.shiftl_spec_low by lia. by destruct (Z.testbit _ n).
      * pose proof (b2z_range b) as Hb. rewrite (Z.bits_above_log2 (b2z b)); [done|lia|].
        destruct (decide (b2z b = 0)) as [->|]; [simpl; lia|].
        apply Z.log2_lt_pow2; [lia|].
        eapply Z.lt_le_trans; [apply Hb|]. change 256 with (2 ^ 8).
        apply Z.pow_le_mono_r; lia.
Qed.

Lemma from_le_inj a b : length a = length b → from_le a = from_le b → a = b.
Proof.
  intros Hl H. rewrite <-(le_bytes_from a _ eq_refl), H, Hl. by apply le_bytes_from.
Qed.

Lemma foldl_serial_inj l c d :
  u32_ok c → u32_ok d → foldl serial_byte c l = foldl serial_byte d l → c = d.
Proof.
  revert c d. induction l as [|b l IH]; intros c d Hc Hd H; [done|].
  simpl in H. apply IH in H; [|auto with sentinel..].
  unfold serial_byte in H. apply iter_bit_step_inj in H; [|auto with sentinel..].
  apply (f_equal (λ z, Z.lxor z (b2z b))) in H.
  by rewrite !Z.lxor_assoc, !Z.lxor_nilpotent, !Z.lxor_0_r in H.
Qed.

Lemma from_le_u32 l : (length l ≤ 4)%nat → u32_ok (from_le l).
Proof.
  intros Hl. pose proof (from_le_range l) as [? Hr]. split; [done|].
  eapply Z.lt_le_trans; [exact Hr|]. apply Z.pow_le_mono_r; lia.
Qed.

Lemma update_burst c pre x y post :
  u32_ok c → length x = length y → (length x ≤ 4)%nat →
  update c (pre ++ x ++ post) = update c (pre ++ y ++ post) → x = y.
Proof.
  intros Hc Hl H4 H. rewrite !update_serial in H by done. unfold serial_update in H.
  apply (f_equal not32) in H. rewrite !not32_not32, !foldl_app in H.
  set (s := foldl serial_byte (not32 c) pre) in *.
  assert (u32_ok s) as Hs by (unfold s; auto with sentinel).
  apply foldl_serial_inj in H; [|auto with sentinel..].
  rewrite !foldl_serial_word, Hl in H.
  apply iter_bit_step_inj in H; [|apply u32_lxor; [done|apply from_le_u32; lia]..].
  apply (f_equal (Z.lxor s)) in H.
  rewrite <-!Z.lxor_assoc, !Z.lxor_nilpotent, !Z.lxor_0_l in H. by apply from_le_inj.
Qed.

(** ** Properties *)

(** C39: the table-driven loop computes the bit-serial CRC-32C register, for
    every starting checksum and every message. *)
Theorem update_is_crc32c c bytes :
  u32_ok c → update c bytes = serial_update c bytes ∧ u32_ok (update c bytes).
Proof. auto using update_serial with sentinel. Qed.

Lemma update_is_crc32c_witness :
  update 0 (str "123456789") = serial_update 0 (str "123456789") ∧
  u32_ok (update 0 (str "123456789")).
Proof. apply update_is_crc32c. vm_compute. by split. Defined.

(** A corruption confined to four consecutive bytes, wherever it falls,
    changes the checksum. *)
Theorem update_detects_bursts c pre x y post :
  u32_ok c → length x = length y → (length x ≤ 4)%nat → x ≠ y →
  update c (pre ++ x ++ post) ≠ update c (pre ++ y ++ post).
Proof. intros ? ? ? Hxy H. apply Hxy. eauto using update_burst. Qed.

Lemma update_detects_bursts_witness :
  update 0 (str "seq " ++ str "41" ++ str " FILL") ≠
  update 0 (str "seq " ++ str "14" ++ str " FILL").
Proof.
  apply update_detects_bursts; [vm_compute; by split|done|simpl; lia|discriminate].
Defined.
