(* ===== verification/Format.v ===== *)
(** * The on-disk frame layout (sentinel-journal/src/format.rs)

    Segment and frame headers as bytes, their checksum, and the decoders with
    every refusal.  The theorems: what was encoded decodes to itself, and a
    frame corrupted in up to four consecutive covered bytes is never accepted. *)

From S2P Require Import Prelude Fixed Types Crc.

Definition MAGIC : list byte := str "SENTJRN" ++ [Byte.x01].
Definition VERSION : Z := 2.
Definition SEGMENT_HEADER_LEN : nat := 32.
Definition FRAME_HEADER_LEN : nat := 36.
Definition MAX_PAYLOAD : Z := Z.shiftl 1 20.
Definition SEGMENT_TARGET_BYTES : Z := Z.shiftl 64 20.

Module RecordKind.
Inductive t :=
| EpochClaimed | IntentPersisted | OrderEvent | Decision | Mark | Balance | Ticked.
End RecordKind.

#[export] Instance RecordKind_eq_dec : EqDecision RecordKind.t.
Proof. solve_decision. Defined.

#[export] Instance RecordKind_wire : WireEnum RecordKind.t := {
  enum_name := "RecordKind";
  ALL := [RecordKind.EpochClaimed; RecordKind.IntentPersisted; RecordKind.OrderEvent;
          RecordKind.Decision; RecordKind.Mark; RecordKind.Balance; RecordKind.Ticked];
  as_u8 k := match k with
    | RecordKind.EpochClaimed => 1 | RecordKind.IntentPersisted => 2
    | RecordKind.OrderEvent => 3 | RecordKind.Decision => 4 | RecordKind.Mark => 5
    | RecordKind.Balance => 6 | RecordKind.Ticked => 7 end;
  as_str k := match k with
    | RecordKind.EpochClaimed => str "EPOCH_CLAIMED"
    | RecordKind.IntentPersisted => str "INTENT_PERSISTED"
    | RecordKind.OrderEvent => str "ORDER_EVENT"
    | RecordKind.Decision => str "DECISION" | RecordKind.Mark => str "MARK"
    | RecordKind.Balance => str "BALANCE" | RecordKind.Ticked => str "TICKED" end;
}.

#[export] Instance RecordKind_laws : WireEnumLaws RecordKind.t.
Proof. solve_wire_laws. Qed.

Record FrameHeader := mkFrameHeader {
  fh_seq : Seq;
  fh_epoch : Epoch;
  fh_nanos : Nanos;
  fh_kind : RecordKind.t;
  fh_len : Z;
}.

#[export] Instance FrameHeader_eq_dec : EqDecision FrameHeader.
Proof. solve_decision. Defined.

Definition frame_len (h : FrameHeader) : nat := FRAME_HEADER_LEN + Z.to_nat (fh_len h).

Record SegmentHeader := mkSegmentHeader { sh_base_seq : Seq; sh_created : Nanos }.

#[export] Instance SegmentHeader_eq_dec : EqDecision SegmentHeader.
Proof. solve_decision. Defined.

Inductive FormatError :=
| NotAJournal
| UnsupportedVersion (found : Z)
| PayloadTooLarge (len : Z)
| Truncated (want have : Z)
| ChecksumMismatch (stored computed : Z)
| UnknownKind (kind : Z).

#[export] Instance FormatError_eq_dec : EqDecision FormatError.
Proof. solve_decision. Defined.

(** [take2], [take4], [take8]: the fixed-width reads. *)
Definition slice (n at_ : nat) (bytes : list byte) : list byte := take n (drop at_ bytes).

(** The encoders fill their whole array front to back, field by field. *)
Definition encode_segment_header (base_seq : Seq) (created : Nanos) : list byte :=
  MAGIC ++ le_bytes 4 VERSION ++ le_bytes 4 0 ++ le_bytes 8 base_seq ++ le_bytes 8 created.

Definition decode_segment_header (bytes : list byte) : result FormatError SegmentHeader :=
  if negb (bool_decide (slice 8 0 bytes = MAGIC)) then Err NotAJournal
  else
    let version := from_le (slice 4 8 bytes) in
    if negb (version =? VERSION) then Err (UnsupportedVersion version)
    else Ok (mkSegmentHeader (from_le (slice 8 16 bytes)) (from_le (slice 8 24 bytes))).

Definition encode_frame_header (h : FrameHeader) : list byte :=
  le_bytes 4 (fh_len h) ++ le_bytes 4 0 ++ le_bytes 8 (fh_seq h) ++
  le_bytes 8 (fh_epoch h) ++ le_bytes 8 (fh_nanos h) ++
  le_bytes 2 (as_u8 (fh_kind h)) ++ le_bytes 2 0.

(** Bytes 8 onward of the header, then the payload. *)
Definition frame_checksum (header payload : list byte) : Z :=
  update (checksum (drop 8 header)) payload.

(** [out[4..8].copy_from_slice(&v.to_le_bytes())]. *)
Definition put_checksum (header : list byte) (v : Z) : list byte :=
  take 4 header ++ le_bytes 4 v ++ drop 8 header.

Definition finish_frame_header (header payload : list byte) : list byte :=
  put_checksum header (frame_checksum header payload).

Definition decode_frame_header (bytes payload : list byte) :
    result FormatError FrameHeader :=
  let len := from_le (slice 4 0 bytes) in
  if MAX_PAYLOAD <? len then Err (PayloadTooLarge len)
  else if negb (Z.of_nat (length payload) =? len) then
    Err (Truncated len (Z.of_nat (length payload)))
  else
    let stored := from_le (slice 4 4 bytes) in
    let without_crc := put_checksum bytes 0 in
    let computed := frame_checksum without_crc payload in
    if negb (stored =? computed) then Err (ChecksumMismatch stored computed)
    else
      let kind_raw := from_le (slice 2 32 bytes) in
      kind ← ok_or (if kind_raw <=? 255 then ok (from_u8 kind_raw) else None)
               (UnknownKind kind_raw);
      Ok (mkFrameHeader (from_le (slice 8 8 bytes)) (from_le (slice 8 16 bytes))
            (from_le (slice 8 24 bytes)) kind len).

(** What the writer puts on disk for one record. *)
Definition encode_frame (h : FrameHeader) (payload : list byte) : list byte :=
  finish_frame_header (encode_frame_header h) payload ++ payload.

Definition u64_ok (z : Z) : Prop := 0 ≤ z < 2 ^ 64.

Record header_ok (h : FrameHeader) : Prop := {
  ho_seq : u64_ok (fh_seq h);
  ho_epoch : u64_ok (fh_epoch h);
  ho_nanos : u64_ok (fh_nanos h);
  ho_len : 0 ≤ fh_len h ≤ MAX_PAYLOAD;
}.

(** ** Field access *)

Lemma slice_here n l r : length l = n → slice n 0 (l ++ r) = l.
Proof. intros <-. unfold slice. by rewrite drop_0, take_app_length. Qed.

Lemma slice_skip n m l r : (length l ≤ m)%nat → slice n m (l ++ r) = slice n (m - length l) r.
Proof. intros. unfold slice. by rewrite drop_app_ge. Qed.

Lemma slice_all n l : length l = n → slice n 0 l = l.
Proof. intros <-. unfold slice. by rewrite drop_0, firstn_all. Qed.

Lemma take_slice l n k m : (n + k ≤ m)%nat → slice k n (take m l) = slice k n l.
Proof.
  intros. unfold slice. rewrite skipn_firstn_comm, take_take. f_equal. lia.
Qed.

(** Reads a field out of a concatenation of fields of known width. *)
Ltac read_field :=
  repeat first
    [ rewrite slice_here by (rewrite ?length_le_bytes; reflexivity)
    | rewrite slice_all by (rewrite ?length_le_bytes; reflexivity)
    | rewrite slice_skip by (rewrite ?length_le_bytes; simpl; lia);
      rewrite ?length_le_bytes; cbn [Nat.sub length] ].

Lemma length_encode_frame_header h : length (encode_frame_header h) = FRAME_HEADER_LEN.
Proof. unfold encode_frame_header. by rewrite !length_app, !length_le_bytes. Qed.

Lemma length_put_checksum b v : length b = FRAME_HEADER_LEN → length (put_checksum b v) = FRAME_HEADER_LEN.
Proof.
  intros H. unfold put_checksum.
  rewrite !length_app, length_le_bytes, length_take, length_drop, H. done.
Qed.

Lemma length_encode_frame h p :
  length (encode_frame h p) = (FRAME_HEADER_LEN + length p)%nat.
Proof.
  unfold encode_frame, finish_frame_header.
  by rewrite length_app, length_put_checksum by apply length_encode_frame_header.
Qed.

Lemma drop_put_checksum b v : length b = FRAME_HEADER_LEN → drop 8 (put_checksum b v) = drop 8 b.
Proof.
  intros H. unfold put_checksum. rewrite app_assoc, drop_app_length'; [done|].
  rewrite length_app, length_take, length_le_bytes, H. done.
Qed.

Lemma put_put_checksum b v w :
  length b = FRAME_HEADER_LEN → put_checksum (put_checksum b v) w = put_checksum b w.
Proof.
  intros H. unfold put_checksum at 1. rewrite drop_put_checksum by done.
  unfold put_checksum. rewrite take_app_length'; [done|].
  by rewrite length_take, H.
Qed.

Lemma frame_checksum_app h p : frame_checksum h p = checksum (drop 8 h ++ p).
Proof. unfold frame_checksum, checksum. by rewrite <-update_app. Qed.

Lemma frame_checksum_u32 h p : u32_ok (frame_checksum h p).
Proof. rewrite frame_checksum_app. apply u32_update. vm_compute. by split. Qed.

(** The checksum a reader computes over a finished header is the one stored. *)
Lemma frame_checksum_put b v p :
  length b = FRAME_HEADER_LEN → frame_checksum (put_checksum b v) p = frame_checksum b p.
Proof. intros. unfold frame_checksum. by rewrite drop_put_checksum. Qed.

Lemma stored_checksum b v :
  length b = FRAME_HEADER_LEN → u32_ok v → from_le (slice 4 4 (put_checksum b v)) = v.
Proof.
  intros H Hv. unfold put_checksum.
  rewrite slice_skip by (rewrite length_take; lia).
  rewrite length_take, H. cbn [Nat.sub Nat.min FRAME_HEADER_LEN].
  rewrite slice_here by apply length_le_bytes. by apply from_le_bytes.
Qed.

Lemma frame_roundtrip h p :
  header_ok h → Z.of_nat (length p) = fh_len h →
  decode_frame_header (finish_frame_header (encode_frame_header h) p) p = Ok h.
Proof.
  intros [Hs He Hn Hl] Hp. unfold decode_frame_header, finish_frame_header.
  set (crc := frame_checksum (encode_frame_header h) p).
  pose proof (length_encode_frame_header h) as Hlen.
  rewrite stored_checksum by (done || apply frame_checksum_u32).
  rewrite put_put_checksum, frame_checksum_put by done. fold crc.
  rewrite Z.eqb_refl. simpl negb. cbn iota.
  assert (take 4 (encode_frame_header h) = le_bytes 4 (fh_len h)) as Ht.
  { unfold encode_frame_header. by rewrite take_app_length' by (by rewrite length_le_bytes). }
  assert (drop 8 (encode_frame_header h) =
    le_bytes 8 (fh_seq h) ++ le_bytes 8 (fh_epoch h) ++ le_bytes 8 (fh_nanos h) ++
    le_bytes 2 (as_u8 (fh_kind h)) ++ le_bytes 2 0) as Hd.
  { unfold encode_frame_header. rewrite app_assoc, drop_app_length'; [done|].
    by rewrite length_app, !length_le_bytes. }
  unfold put_checksum. rewrite Ht, Hd. read_field.
  pose proof (as_u8_byte (fh_kind h)) as Hk. unfold u64_ok, MAX_PAYLOAD in *.
  assert (Z.shiftl 1 20 < 2 ^ 32) by done.
  rewrite !from_le_bytes by (simpl Z.of_nat; lia).
  rewrite Hp, Z.eqb_refl. simpl negb. cbn iota.
  rewrite (proj2 (Z.ltb_ge _ _)), (proj2 (Z.leb_le _ _)) by lia.
  rewrite from_u8_as_u8. by destruct h.
Qed.

(** A frame whose stored checksum is not that of its bytes is refused as such. *)
Lemma decode_mismatch bytes payload :
  length bytes = FRAME_HEADER_LEN →
  from_le (slice 4 0 bytes) ≤ MAX_PAYLOAD →
  Z.of_nat (length payload) = from_le (slice 4 0 bytes) →
  from_le (slice 4 4 bytes) ≠ checksum (drop 8 bytes ++ payload) →
  decode_frame_header bytes payload =
    Err (ChecksumMismatch (from_le (slice 4 4 bytes)) (checksum (drop 8 bytes ++ payload))).
Proof.
  intros Hb Hm Hp Hc. unfold decode_frame_header.
  rewrite (proj2 (Z.ltb_ge _ _)), Hp, Z.eqb_refl by done. simpl negb. cbn iota.
  rewrite frame_checksum_put, frame_checksum_app by done.
  by rewrite (proj2 (Z.eqb_neq _ _)) by done.
Qed.

(** The fields a written frame opens with, and what its checksum covers. *)
Lemma encode_frame_prefix h p :
  header_ok h → Z.of_nat (length p) = fh_len h →
  let frame := encode_frame h p in
  from_le (slice 4 0 frame) = fh_len h ∧
  from_le (slice 4 4 frame) = checksum (drop 8 frame).
Proof.
  intros [_ _ _ Hl] Hp frame. unfold frame, encode_frame, finish_frame_header.
  pose proof (length_encode_frame_header h) as Hle. split.
  - unfold put_checksum, encode_frame_header.
    rewrite take_app_length' by (by rewrite length_le_bytes).
    rewrite <-!app_assoc. read_field. rewrite from_le_bytes; [done|].
    unfold MAX_PAYLOAD in Hl. assert (Z.shiftl 1 20 < 2 ^ 32) by done. simpl Z.of_nat. lia.
  - set (hd := encode_frame_header h) in *. set (c := frame_checksum hd p).
    pose proof (length_put_checksum hd c Hle) as Hlp.
    assert (slice 4 4 (put_checksum hd c ++ p) = slice 4 4 (put_checksum hd c)) as ->.
    { unfold slice. rewrite drop_app_le, take_app_le; [done| |]; rewrite ?length_drop, Hlp; unfold FRAME_HEADER_LEN; lia. }
    rewrite stored_checksum by (done || apply frame_checksum_u32).
    rewrite drop_app_le by (rewrite Hlp; unfold FRAME_HEADER_LEN; lia).
    rewrite drop_put_checksum by done. apply frame_checksum_app.
Qed.

(** ** Properties *)

(** A frame read back from what the writer put on disk carries the header
    that was written, for every header and payload the format can hold. *)
Theorem frame_header_roundtrip h payload :
  header_ok h → Z.of_nat (length payload) = fh_len h →
  let frame := encode_frame h payload in
  length frame = frame_len h ∧
  decode_frame_header (take FRAME_HEADER_LEN frame) (drop FRAME_HEADER_LEN frame) = Ok h.
Proof.
  intros Hh Hp frame. unfold frame, frame_len. split.
  - rewrite length_encode_frame. lia.
  - unfold encode_frame, finish_frame_header.
    pose proof (length_put_checksum _ (frame_checksum (encode_frame_header h) payload)
      (length_encode_frame_header h)) as E.
    rewrite take_app_length', drop_app_length' by done. by apply frame_roundtrip.
Qed.

Definition ex_header : FrameHeader := mkFrameHeader 41 3 1000 RecordKind.Decision 5.

Lemma ex_header_ok : header_ok ex_header.
Proof. split; vm_compute; split; congruence. Qed.

Lemma frame_header_roundtrip_witness :
  let frame := encode_frame ex_header (str "hello") in
  length frame = frame_len ex_header ∧
  decode_frame_header (take FRAME_HEADER_LEN frame) (drop FRAME_HEADER_LEN frame) =
    Ok ex_header.
Proof. apply frame_header_roundtrip; [exact ex_header_ok | reflexivity]. Defined.

(** When up to four consecutive bytes of a written frame, past its
    checksum field, are replaced by others, whatever else the bytes then say the
    frame is not decoded: the reader stops there instead of replaying it. *)
Theorem corrupt_frame_refused h payload pre x y post :
  header_ok h → Z.of_nat (length payload) = fh_len h →
  drop 8 (encode_frame h payload) = pre ++ x ++ post →
  length x = length y → (length x ≤ 4)%nat → x ≠ y →
  let bad := take 8 (encode_frame h payload) ++ pre ++ y ++ post in
  ∃ stored computed,
    decode_frame_header (take FRAME_HEADER_LEN bad) (drop FRAME_HEADER_LEN bad) =
      Err (ChecksumMismatch stored computed).
Proof.
  intros Hh Hp Hsplit Hxy H4 Hne bad.
  set (frame := encode_frame h payload) in *.
  destruct (encode_frame_prefix h payload Hh Hp) as [Hlenf Hcrc]. fold frame in Hlenf, Hcrc.
  assert (length frame = (36 + length payload)%nat) as Hlf by apply length_encode_frame.
  assert (length frame = length bad) as Hlen.
  { rewrite <-(take_drop 8 frame). unfold bad. rewrite Hsplit, !length_app. lia. }
  assert (take 8 bad = take 8 frame) as Ht8.
  { unfold bad. apply take_app_length'. rewrite length_take. lia. }
  assert (drop 8 bad = pre ++ y ++ post) as Hd8.
  { unfold bad. apply drop_app_length'. rewrite length_take. lia. }
  assert (∀ n k, (n + k ≤ 8)%nat → slice k n (take 36 bad) = slice k n frame) as Hfld.
  { intros n k Hnk. rewrite <-(take_slice frame n k 8), <-(take_slice (take 36 bad) n k 8) by lia.
    rewrite take_take. simpl Nat.min. by rewrite Ht8. }
  rewrite <-(Hfld 0 4)%nat in Hlenf by lia. rewrite <-(Hfld 4 4)%nat in Hcrc by lia.
  assert (drop 8 (take 36 bad) ++ drop 36 bad = drop 8 bad) as Hcov.
  { rewrite <-(take_drop 36 bad) at 3. rewrite drop_app_le; [done|]. rewrite length_take. lia. }
  do 2 eexists. unfold FRAME_HEADER_LEN. apply decode_mismatch.
  - rewrite length_take. unfold FRAME_HEADER_LEN. lia.
  - destruct Hh. lia.
  - rewrite length_drop. lia.
  - rewrite Hcov, Hcrc, Hsplit, Hd8. intros E.
    by apply update_burst in E; [|vm_compute; by split|done..].
Qed.

Lemma corrupt_frame_refused_witness :
  let frame := encode_frame ex_header (str "hello") in
  let bad := take 8 frame ++ take 28 (drop 8 frame) ++ str "jell" ++ str "o" in
  ∃ stored computed,
    decode_frame_header (take FRAME_HEADER_LEN bad) (drop FRAME_HEADER_LEN bad) =
      Err (ChecksumMismatch stored computed).
Proof.
  apply (corrupt_frame_refused ex_header (str "hello") _ (str "hell") (str "jell"));
    [exact ex_header_ok | reflexivity | vm_compute; reflexivity | reflexivity
    | simpl; lia | discriminate].
Defined.
