(* ===== verification/Codec.v ===== *)
(** * Field-by-field codec (sentinel-record/src/buf.rs)

    The checked [Reader] with its offset, and the bytes each [Writer] method
    appends.  [reads m enc a] is the contract between them: on a buffer that
    holds [enc] at the reader's offset, [m] yields [a] and stops right after. *)

From S2P Require Import Prelude Fixed Types.

Module CodecError.
Inductive t :=
| Truncated (want have : nat)
| BadDiscriminant (e : UnknownDiscriminant)
| BadText
| BadFlag (value : Z)
| TrailingBytes (extra : nat).
End CodecError.

#[export] Instance CodecError_eq_dec : EqDecision CodecError.t.
Proof. solve_decision. Defined.

(** ** Writer

    Each method appends to the buffer and returns the writer, so a chain of
    calls is the concatenation of what they append. *)
Module W.
Definition u8 (v : Z) : list byte := [z2b v].
Definition flag (v : bool) : list byte := [if v then Byte.x01 else Byte.x00].
Definition i32 (v : Z) : list byte := le_bytes 4 v.
Definition i64 (v : Z) : list byte := le_bytes 8 v.
Definition u64 (v : Z) : list byte := le_bytes 8 v.
Definition trace (v : TraceId) : list byte := le_bytes 16 v.
Definition text {N} (v : InlineStr N) : list byte := il_bytes v.
Definition price (v : Price) : list byte := i64 (raw v).
Definition qty (v : Qty) : list byte := i64 (raw v).
Definition money (v : Money) : list byte := i64 (raw v).
Definition opt_price (v : option Price) : list byte :=
  flag (match v with Some _ => true | None => false end) ++
  price (default ZERO v).
End W.

(** ** Reader *)

Record Reader := mkReader { rd_bytes : list byte; rd_at : nat }.

Abbreviation RD := (ST Reader CodecError.t).

Definition reader_new (bytes : list byte) : Reader := mkReader bytes 0.

Definition remaining (r : Reader) : nat := length (rd_bytes r) - rd_at r.

Definition finish : RD unit :=
  n ← st_get remaining;
  if Nat.eqb n 0 then mret tt else st_fail (CodecError.TrailingBytes n).

Module R.
Definition take_n (n : nat) : RD (list byte) :=
  r ← st_get id;
  if (remaining r <? n)%nat then st_fail (CodecError.Truncated n (remaining r))
  else
    _ ← st_modify (λ r, mkReader (rd_bytes r) (rd_at r + n));
    mret (take n (drop (rd_at r) (rd_bytes r))).

(** [self.take(1)?[0]]: the slice has one byte. *)
Definition u8 : RD Z :=
  b ← take_n 1;
  mret (b2z (hd Byte.x00 b)).

Definition flag : RD bool :=
  v ← u8;
  if v =? 0 then mret false
  else if v =? 1 then mret true
  else st_fail (CodecError.BadFlag v).

Definition i32 : RD Z := b ← take_n 4; mret (from_le_signed b).
Definition i64 : RD Z := b ← take_n 8; mret (from_le_signed b).
Definition u64 : RD Z := b ← take_n 8; mret (from_le b).
Definition trace : RD TraceId := b ← take_n 16; mret (from_le b).

Definition text (N : nat) : RD (InlineStr N) :=
  b ← take_n N;
  st_lift (map_err (λ _, CodecError.BadText) (from_padded N b)).

Definition price : RD Price := v ← i64; mret (from_raw v).
Definition qty : RD Qty := v ← i64; mret (from_raw v).
Definition money : RD Money := v ← i64; mret (from_raw v).

Definition opt_price : RD (option Price) :=
  present ← flag;
  value ← price;
  mret (if (present : bool) then Some value else None).

(** [T::from_u8(r.u8()?)?]. *)
Definition enum (A : Type) `{WireEnum A} : RD A :=
  v ← u8;
  st_lift (map_err CodecError.BadDiscriminant (from_u8 v)).
End R.

(** ** The contract between a read and the bytes written for it *)

Record reads {A} (m : RD A) (enc : list byte) (a : A) : Prop := {
  reads_ok pre post :
    m (mkReader (pre ++ enc ++ post) (length pre)) =
      (mkReader (pre ++ enc ++ post) (length pre + length enc), Ok a);
  (** On any shorter buffer the read is refused as truncated. *)
  reads_short pre k :
    (k < length enc)%nat →
    ∃ r want have, m (mkReader (pre ++ take k enc) (length pre)) =
      (r, Err (CodecError.Truncated want have));
}.
Arguments reads_ok {A m enc a} _ pre post.
Arguments reads_short {A m enc a} _ pre k _.

Lemma reads_ret {A} (a : A) : reads (mret a) [] a.
Proof. split; [intros; simpl; by rewrite Nat.add_0_r | simpl; lia]. Qed.

Lemma reads_bind {A B} (m : RD A) (f : A → RD B) e1 e2 a b :
  reads m e1 a → reads (f a) e2 b → reads (m ≫= f) (e1 ++ e2) b.
Proof.
  intros [H1 S1] [H2 S2]. split; unfold mbind, ST_bind.
  - intros pre post. rewrite <-app_assoc, H1. specialize (H2 (pre ++ e1) post).
    rewrite length_app, <-app_assoc in H2. rewrite H2, length_app. do 2 f_equal. lia.
  - intros pre k Hk. rewrite length_app in Hk.
    destruct (decide (k < length e1)%nat) as [Hlt|Hge].
    + rewrite take_app_le by lia.
      destruct (S1 pre k Hlt) as (r & w & h & ->). eauto.
    + rewrite take_app_ge by lia. rewrite H1.
      destruct (S2 (pre ++ e1) (k - length e1)%nat) as (r & w & h & E); [lia|].
      rewrite <-app_assoc, length_app in E. rewrite E. eauto.
Qed.

(** A last read with nothing after it. *)
Lemma reads_map {A B} (m : RD A) (f : A → RD B) e a b :
  reads m e a → reads (f a) [] b → reads (m ≫= f) e b.
Proof. intros H1 H2. rewrite <-(app_nil_r e). by eapply reads_bind. Qed.

Lemma reads_lift {A} (r : result CodecError.t A) a : r = Ok a → reads (st_lift r) [] a.
Proof.
  intros ->. split; [|simpl; lia]. intros. unfold st_lift. by rewrite Nat.add_0_r.
Qed.

Lemma reads_take enc n : length enc = n → reads (R.take_n n) enc enc.
Proof.
  intros <-. split.
  - intros pre post.
    unfold R.take_n, st_get, st_modify, mbind, ST_bind, mret, ST_ret, remaining, id.
    simpl. rewrite !length_app.
    destruct (Nat.ltb_spec (length pre + (length enc + length post) - length pre)
                (length enc)); [lia|].
    by rewrite drop_app_length, take_app_length.
  - intros pre k Hk. unfold R.take_n, st_get, mbind, ST_bind, remaining, id. simpl.
    rewrite length_app, length_take.
    destruct (Nat.ltb_spec (length pre + k `min` length enc - length pre)%nat
                (length enc)); [|lia].
    unfold st_fail. eauto.
Qed.

Lemma reads_u8 v : 0 ≤ v < 256 → reads R.u8 (W.u8 v) v.
Proof.
  intros Hv. unfold R.u8. eapply reads_map; [by apply reads_take|]. simpl.
  rewrite b2z_z2b by done. apply reads_ret.
Qed.

Lemma reads_flag v : reads R.flag (W.flag v) v.
Proof.
  unfold R.flag. destruct v.
  - eapply reads_map; [apply (reads_u8 1); lia|]. apply reads_ret.
  - eapply reads_map; [apply (reads_u8 0); lia|]. apply reads_ret.
Qed.

Lemma reads_i32 v : - 2 ^ 31 ≤ v < 2 ^ 31 → reads R.i32 (W.i32 v) v.
Proof.
  intros Hv. unfold R.i32. eapply reads_map; [apply reads_take; done|].
  unfold W.i32. rewrite from_le_signed_bytes by (done || simpl; lia). apply reads_ret.
Qed.

Lemma reads_i64 v : in_i64 v → reads R.i64 (W.i64 v) v.
Proof.
  intros Hv. unfold R.i64. eapply reads_map; [apply reads_take; done|].
  unfold W.i64. unfold_ranges.
  rewrite from_le_signed_bytes by (lia || (simpl Z.of_nat; simpl Z.pow; lia)).
  apply reads_ret.
Qed.

Lemma reads_u64 v : 0 ≤ v < 2 ^ 64 → reads R.u64 (W.u64 v) v.
Proof.
  intros Hv. unfold R.u64. eapply reads_map; [apply reads_take; done|].
  unfold W.u64. rewrite from_le_bytes by done. apply reads_ret.
Qed.

Lemma reads_trace v : 0 ≤ v < 2 ^ 128 → reads R.trace (W.trace v) v.
Proof.
  intros Hv. unfold R.trace. eapply reads_map; [apply reads_take; done|].
  unfold W.trace. rewrite from_le_bytes by done. apply reads_ret.
Qed.

Lemma reads_text N (v : InlineStr N) :
  (N ≤ 255)%nat → inline_wf v → inline_clean v → reads (R.text N) (W.text v) v.
Proof.
  intros HN Hw Hc. unfold R.text, W.text.
  eapply reads_map; [apply reads_take, Hw|]. apply reads_lift.
  by rewrite from_padded_clean.
Qed.

Lemma reads_e8 {d} (v : e8 d) : e8_ok v →
  reads (v ← R.i64; mret (from_raw v)) (W.i64 (raw v)) v.
Proof.
  intros Hv. eapply reads_map; [by apply reads_i64|]. destruct v. apply reads_ret.
Qed.

Lemma reads_price v : e8_ok v → reads R.price (W.price v) v.
Proof. apply reads_e8. Qed.
Lemma reads_qty v : e8_ok v → reads R.qty (W.qty v) v.
Proof. apply reads_e8. Qed.
Lemma reads_money v : e8_ok v → reads R.money (W.money v) v.
Proof. apply reads_e8. Qed.

Definition opt_ok {d} (v : option (e8 d)) : Prop :=
  match v with Some v => e8_ok v | None => True end.

Lemma reads_opt_price v : opt_ok v → reads R.opt_price (W.opt_price v) v.
Proof.
  intros Hv. unfold R.opt_price, W.opt_price.
  eapply reads_bind; [apply reads_flag|]. eapply reads_map; [apply reads_price|].
  - destruct v; [done|]. vm_compute. split; discriminate.
  - destruct v; apply reads_ret.
Qed.

Lemma reads_enum A `{WireEnumLaws A} (a : A) : reads (R.enum A) (W.u8 (as_u8 a)) a.
Proof.
  unfold R.enum. eapply reads_map; [apply reads_u8, as_u8_byte|].
  apply reads_lift. by rewrite from_u8_as_u8.
Qed.

#[export] Hint Resolve reads_u8 reads_flag reads_i32 reads_i64 reads_u64 reads_trace
  reads_text reads_price reads_qty reads_money reads_opt_price reads_enum reads_ret
  : sentinel.

(** A whole record: read the fields, then assert nothing is left. *)
Section whole.
Context {A : Type} (m : RD A) (enc : list byte) (a : A) (Hm : reads m enc a).

Definition read_whole : RD A := r ← m; _ ← finish; mret r.

Lemma whole_exact : (read_whole (reader_new enc)).2 = Ok a.
Proof.
  pose proof (reads_ok Hm [] []) as H. simpl in H. rewrite app_nil_r in H.
  unfold read_whole, mbind, ST_bind, reader_new. rewrite H.
  unfold finish, st_get, remaining, mbind, ST_bind. simpl. by rewrite Nat.sub_diag.
Qed.

Lemma whole_trailing x extra :
  (read_whole (reader_new (enc ++ x :: extra))).2 =
    Err (CodecError.TrailingBytes (S (length extra))).
Proof.
  pose proof (reads_ok Hm [] (x :: extra)) as H. simpl in H.
  unfold read_whole, mbind, ST_bind, reader_new. rewrite H.
  unfold finish, st_get, remaining, mbind, ST_bind. simpl.
  rewrite length_app. simpl.
  replace (length enc + S (length extra) - length enc)%nat with (S (length extra)) by lia.
  done.
Qed.

Lemma whole_truncated k :
  (k < length enc)%nat →
  ∃ want have, (read_whole (reader_new (take k enc))).2 = Err (CodecError.Truncated want have).
Proof.
  intros Hk. destruct (reads_short Hm [] k Hk) as (r & w & h & H). simpl in H.
  unfold read_whole, mbind, ST_bind, reader_new. rewrite H. eauto.
Qed.
End whole.
