(* ===== verification/Records.v ===== *)
(** * The journal's vocabulary (sentinel-record/src/record.rs)

    Every record the log can hold, its bytes and the decoder.  The theorems: a
    record decodes back to itself, and a payload that is a byte short or a byte
    long of a record is refused, so no two records share bytes. *)

From S2P Require Import Prelude Fixed Types Domain Intent Format Codec.

Module Actor.
Inductive t :=
| Gateway | Guards | Reconciler | Protection | Strategy | Supervisor | Sizing.
End Actor.

#[export] Instance Actor_eq_dec : EqDecision Actor.t.
Proof. solve_decision. Defined.

#[export] Instance Actor_wire : WireEnum Actor.t := {
  enum_name := "Actor";
  ALL := [Actor.Gateway; Actor.Guards; Actor.Reconciler; Actor.Protection;
          Actor.Strategy; Actor.Supervisor; Actor.Sizing];
  as_u8 a := match a with
    | Actor.Gateway => 1 | Actor.Guards => 2 | Actor.Reconciler => 3
    | Actor.Protection => 4 | Actor.Strategy => 5 | Actor.Supervisor => 6
    | Actor.Sizing => 7 end;
  as_str a := match a with
    | Actor.Gateway => str "gateway" | Actor.Guards => str "guards"
    | Actor.Reconciler => str "reconciler" | Actor.Protection => str "protection"
    | Actor.Strategy => str "strategy" | Actor.Supervisor => str "supervisor"
    | Actor.Sizing => str "sizing" end;
}.

#[export] Instance Actor_laws : WireEnumLaws Actor.t.
Proof. solve_wire_laws. Qed.

Module DecisionKind.
Inductive t :=
| EntryPlaced | EntryBlocked | ExitPlaced | ExitClamped | SizingComputed
| ReconcileScheduled | Halted | Resumed | StanceDeclared.
End DecisionKind.

#[export] Instance DecisionKind_eq_dec : EqDecision DecisionKind.t.
Proof. solve_decision. Defined.

#[export] Instance DecisionKind_wire : WireEnum DecisionKind.t := {
  enum_name := "DecisionKind";
  ALL := [DecisionKind.EntryPlaced; DecisionKind.EntryBlocked; DecisionKind.ExitPlaced;
          DecisionKind.ExitClamped; DecisionKind.SizingComputed;
          DecisionKind.ReconcileScheduled; DecisionKind.Halted; DecisionKind.Resumed;
          DecisionKind.StanceDeclared];
  as_u8 k := match k with
    | DecisionKind.EntryPlaced => 1 | DecisionKind.EntryBlocked => 2
    | DecisionKind.ExitPlaced => 3 | DecisionKind.ExitClamped => 4
    | DecisionKind.SizingComputed => 5 | DecisionKind.ReconcileScheduled => 6
    | DecisionKind.Halted => 7 | DecisionKind.Resumed => 8
    | DecisionKind.StanceDeclared => 9 end;
  as_str k := match k with
    | DecisionKind.EntryPlaced => str "ENTRY_PLACED"
    | DecisionKind.EntryBlocked => str "ENTRY_BLOCKED"
    | DecisionKind.ExitPlaced => str "EXIT_PLACED"
    | DecisionKind.ExitClamped => str "EXIT_CLAMPED"
    | DecisionKind.SizingComputed => str "SIZING_COMPUTED"
    | DecisionKind.ReconcileScheduled => str "RECONCILE_SCHEDULED"
    | DecisionKind.Halted => str "HALTED" | DecisionKind.Resumed => str "RESUMED"
    | DecisionKind.StanceDeclared => str "STANCE_DECLARED" end;
}.

#[export] Instance DecisionKind_laws : WireEnumLaws DecisionKind.t.
Proof. solve_wire_laws. Qed.

Abbreviation Note := (InlineStr 96).
Abbreviation Asset := (InlineStr 8).

Module Rec.
Inductive t :=
| EpochClaimed (epoch : Epoch) (resumed_from : Seq)
| IntentPersisted (intent : Intent.t)
| OrderEvent (client_order_id : ClientOrderId) (trace_id : TraceId)
    (from_state to_state : OrderState) (applied : bool) (event : Domain.OrderEvent)
| Decision (instrument : Instrument) (actor : Actor.t) (kind : DecisionKind.t)
    (trace_id : TraceId) (value : Money) (note : Note)
| Mark (instrument : Instrument) (price : Price)
| Balance (asset : Asset) (amount : Money)
| Ticked.
End Rec.

#[export] Instance Rec_eq_dec : EqDecision Rec.t.
Proof. solve_decision. Defined.

Definition rec_kind (r : Rec.t) : RecordKind.t :=
  match r with
  | Rec.EpochClaimed _ _ => RecordKind.EpochClaimed
  | Rec.IntentPersisted _ => RecordKind.IntentPersisted
  | Rec.OrderEvent _ _ _ _ _ _ => RecordKind.OrderEvent
  | Rec.Decision _ _ _ _ _ _ => RecordKind.Decision
  | Rec.Mark _ _ => RecordKind.Mark
  | Rec.Balance _ _ => RecordKind.Balance
  | Rec.Ticked => RecordKind.Ticked
  end.

(** ** Encoding *)

Definition cause_to_u8 (c : ReconcileCause) : Z :=
  match c with
  | SubmissionTimeout => 1
  | CancelTimeout => 2
  | ReplayedMidSubmission => 3
  | LateFill => 4
  | LateCancelConfirm => 5
  | StaleSweep => 6
  | PositionDisagreement => 7
  end.

Definition cause_from_u8 (v : Z) : result CodecError.t ReconcileCause :=
  if v =? 1 then Ok SubmissionTimeout
  else if v =? 2 then Ok CancelTimeout
  else if v =? 3 then Ok ReplayedMidSubmission
  else if v =? 4 then Ok LateFill
  else if v =? 5 then Ok LateCancelConfirm
  else if v =? 6 then Ok StaleSweep
  else if v =? 7 then Ok PositionDisagreement
  else Err (CodecError.BadDiscriminant (mkUnknownDiscriminant "ReconcileCause" v)).

Definition encode_event (e : OrderEvent) : list byte :=
  match e with
  | SubmissionStarted | SubmissionTimedOut | CancelRequested | CancelConfirmed => []
  | VenueAcked venue_order_id => W.text venue_order_id
  | VenueRejected reason => W.i32 (code reason) ++ W.text (text reason)
  | FillReceived exec_id qty price => W.text exec_id ++ W.qty qty ++ W.price price
  | ReconcileStarted cause => W.u8 (cause_to_u8 cause)
  | ReconcileResolved state venue_order_id filled_qty =>
      W.u8 (as_u8 state) ++ W.flag (Intent.is_some venue_order_id) ++
      W.text (default inline_empty venue_order_id) ++ W.qty filled_qty
  end.

(** [Record::encode]: the payload appended to the buffer. *)
Definition encode (r : Rec.t) : list byte :=
  match r with
  | Rec.EpochClaimed epoch resumed_from => W.u64 epoch ++ W.u64 resumed_from
  | Rec.IntentPersisted i =>
      W.text (Intent.client_order_id i) ++ W.text (Intent.instrument i) ++
      W.u8 (as_u8 (Intent.side i)) ++ W.u8 (as_u8 (Intent.kind i)) ++
      W.u8 (as_u8 (Intent.authority i)) ++ W.qty (Intent.qty i) ++
      W.opt_price (Intent.limit_price i) ++ W.opt_price (Intent.stop_price i) ++
      W.opt_price (Intent.quote_at_decision i) ++ W.trace (Intent.trace_id i)
  | Rec.OrderEvent client_order_id trace_id from_state to_state applied event =>
      W.text client_order_id ++ W.trace trace_id ++ W.u8 (as_u8 from_state) ++
      W.u8 (as_u8 to_state) ++ W.u8 (if applied then 1 else 0) ++
      W.u8 (as_u8 (event_kind event)) ++ encode_event event
  | Rec.Decision instrument actor kind trace_id value note =>
      W.text instrument ++ W.u8 (as_u8 actor) ++ W.u8 (as_u8 kind) ++
      W.trace trace_id ++ W.money value ++ W.text note
  | Rec.Mark instrument price => W.text instrument ++ W.price price
  | Rec.Balance asset amount => W.text asset ++ W.money amount
  | Rec.Ticked => []
  end.

(** ** Decoding *)

Definition decode_event : RD OrderEvent :=
  kind ← R.enum EventKind.t;
  match kind with
  | EventKind.SubmissionStarted => mret SubmissionStarted
  | EventKind.VenueAcked =>
      v ← R.text 32;
      mret (VenueAcked v)
  | EventKind.VenueRejected =>
      code ← R.i32;
      text ← R.text 64;
      mret (VenueRejected (mkRejectReason code text))
  | EventKind.SubmissionTimedOut => mret SubmissionTimedOut
  | EventKind.FillReceived =>
      exec_id ← R.text 40;
      qty ← R.qty;
      price ← R.price;
      mret (FillReceived exec_id qty price)
  | EventKind.CancelRequested => mret CancelRequested
  | EventKind.CancelConfirmed => mret CancelConfirmed
  | EventKind.ReconcileStarted =>
      v ← R.u8;
      cause ← st_lift (cause_from_u8 v);
      mret (ReconcileStarted cause)
  | EventKind.ReconcileResolved =>
      state ← R.enum OrderState;
      present ← R.flag;
      id ← R.text 32;
      filled ← R.qty;
      mret (ReconcileResolved state (if (present : bool) then Some id else None) filled)
  end.

(** The [match kind] of [Record::decode]. *)
Definition decode_fields (kind : RecordKind.t) : RD Rec.t :=
  match kind with
  | RecordKind.EpochClaimed =>
      epoch ← R.u64;
      resumed ← R.u64;
      mret (Rec.EpochClaimed epoch resumed)
  | RecordKind.IntentPersisted =>
      client_order_id ← R.text 36;
      instrument ← R.text 16;
      side ← R.enum Side;
      order_kind ← R.enum OrderKind;
      authority ← R.enum Authority;
      qty ← R.qty;
      limit_price ← R.opt_price;
      stop_price ← R.opt_price;
      quote_at_decision ← R.opt_price;
      trace_id ← R.trace;
      intent ← st_lift (map_err (λ _, CodecError.BadText)
        (Intent.new client_order_id instrument side qty order_kind limit_price
           stop_price authority trace_id quote_at_decision));
      mret (Rec.IntentPersisted intent)
  | RecordKind.OrderEvent =>
      client_order_id ← R.text 36;
      trace_id ← R.trace;
      from_state ← R.enum OrderState;
      to_state ← R.enum OrderState;
      applied ← R.u8;
      event ← decode_event;
      mret (Rec.OrderEvent client_order_id trace_id from_state to_state
              (negb (applied =? 0)) event)
  | RecordKind.Decision =>
      instrument ← R.text 16;
      actor ← R.enum Actor.t;
      kind ← R.enum DecisionKind.t;
      trace_id ← R.trace;
      value ← R.money;
      note ← R.text 96;
      mret (Rec.Decision instrument actor kind trace_id value note)
  | RecordKind.Mark =>
      instrument ← R.text 16;
      price ← R.price;
      mret (Rec.Mark instrument price)
  | RecordKind.Balance =>
      asset ← R.text 8;
      amount ← R.money;
      mret (Rec.Balance asset amount)
  | RecordKind.Ticked => mret Rec.Ticked
  end.

(** [Record::decode]. *)
Definition decode (kind : RecordKind.t) (payload : list byte) : result CodecError.t Rec.t :=
  (read_whole (decode_fields kind) (reader_new payload)).2.

(** ** What a record in memory satisfies *)

(** A text the constructors built from input without a NUL byte. *)
Definition text_ok {N} (s : InlineStr N) : Prop := inline_wf s ∧ inline_clean s.
Definition trace_ok (t : TraceId) : Prop := 0 ≤ t < 2 ^ 128.

Definition event_ok (e : OrderEvent) : Prop :=
  match e with
  | SubmissionStarted | SubmissionTimedOut | CancelRequested | CancelConfirmed
  | ReconcileStarted _ => True
  | VenueAcked v => text_ok v
  | VenueRejected r => - 2 ^ 31 ≤ code r < 2 ^ 31 ∧ text_ok (text r)
  | FillReceived e q p => text_ok e ∧ e8_ok q ∧ e8_ok p
  | ReconcileResolved _ v q =>
      match v with Some v => text_ok v | None => True end ∧ e8_ok q
  end.

(** A value of the type is one its validating constructor returned. *)
Record intent_ok (i : Intent.t) : Prop := {
  io_valid : Intent.new (Intent.client_order_id i) (Intent.instrument i) (Intent.side i)
    (Intent.qty i) (Intent.kind i) (Intent.limit_price i) (Intent.stop_price i)
    (Intent.authority i) (Intent.trace_id i) (Intent.quote_at_decision i) = Ok i;
  io_coid : text_ok (Intent.client_order_id i);
  io_instrument : text_ok (Intent.instrument i);
  io_qty : e8_ok (Intent.qty i);
  io_limit : opt_ok (Intent.limit_price i);
  io_stop : opt_ok (Intent.stop_price i);
  io_quote : opt_ok (Intent.quote_at_decision i);
  io_trace : trace_ok (Intent.trace_id i);
}.

Definition record_ok (r : Rec.t) : Prop :=
  match r with
  | Rec.EpochClaimed e s => 0 ≤ e < 2 ^ 64 ∧ 0 ≤ s < 2 ^ 64
  | Rec.IntentPersisted i => intent_ok i
  | Rec.OrderEvent c t _ _ _ e => text_ok c ∧ trace_ok t ∧ event_ok e
  | Rec.Decision i _ _ t v n => text_ok i ∧ trace_ok t ∧ e8_ok v ∧ text_ok n
  | Rec.Mark i p => text_ok i ∧ e8_ok p
  | Rec.Balance a m => text_ok a ∧ e8_ok m
  | Rec.Ticked => True
  end.

(** ** The decoder reads what the encoder wrote *)

Lemma reads_text_ok N (v : InlineStr N) : (N ≤ 255)%nat → text_ok v → reads (R.text N) (W.text v) v.
Proof. intros ? []. auto with sentinel. Qed.

Lemma text_ok_empty N : text_ok (@inline_empty N).
Proof. split; [apply inline_empty_wf | unfold inline_clean; simpl; set_solver]. Qed.

(** One field of a record, or its end. *)
Ltac read_one :=
  lazymatch goal with
  | |- reads (mret _) _ _ => apply reads_ret
  | |- reads (R.text _ ≫= _) (_ ++ _) _ =>
      eapply reads_bind; [apply reads_text_ok; [lia | done]|]
  | |- reads (R.text _ ≫= _) _ _ =>
      eapply reads_map; [apply reads_text_ok; [lia | done]|]
  | |- reads (R.enum _ ≫= _) (_ ++ _) _ => eapply reads_bind; [apply (reads_enum _)|]
  | |- reads (_ ≫= _) (_ ++ _) _ => eapply reads_bind; [solve [eauto with sentinel]|]
  | |- reads (_ ≫= _) _ _ => eapply reads_map; [solve [eauto with sentinel]|]
  end; cbv beta.
Ltac read_fields := cbv beta; repeat read_one.

Lemma reads_event e :
  event_ok e → reads decode_event (W.u8 (as_u8 (event_kind e)) ++ encode_event e) e.
Proof.
  intros He. unfold decode_event.
  eapply reads_bind; [apply (reads_enum _)|].
  destruct e as [|v|[c t]| |x q p| | |cause|st vid q]; cbn [event_ok code text] in He;
    cbn [encode_event event_kind code text]; destruct_and?;
    try solve [read_fields].
  - eapply reads_map; [apply reads_u8; destruct cause; simpl; lia|].
    eapply (reads_map _ _ []); [apply reads_lift|].
    + by destruct cause.
    + apply reads_ret.
  - eapply reads_bind; [apply (reads_enum OrderState)|].
    eapply reads_bind; [apply reads_flag|].
    eapply reads_bind; [apply reads_text_ok; [lia|]|].
    { destruct vid; [done|apply text_ok_empty]. }
    eapply reads_map; [by apply reads_qty|]. destruct vid; apply reads_ret.
Qed.

Lemma reads_record r : record_ok r → reads (decode_fields (rec_kind r)) (encode r) r.
Proof.
  intros Hr.
  destruct r as [e s|i|c t fs ts ap ev|i a k t v n|i p|a m|];
    cbn [record_ok rec_kind encode decode_fields] in *; destruct_and?; try solve [read_fields].
  - destruct Hr. read_fields.
    eapply reads_map; [apply reads_lift; by rewrite io_valid0|]. apply reads_ret.
  - read_fields.
    eapply (reads_bind _ _ _ _ (if ap then 1 else 0)); [apply reads_u8; destruct ap; lia|].
    eapply reads_map; [by apply reads_event|]. destruct ap; apply reads_ret.
Qed.

(** ** The decoder reads nothing else *)

(** Whatever the buffer holds, a value that is read satisfies [P]. *)
Definition yields {A} (m : RD A) (P : A → Prop) : Prop := ∀ r r' a, m r = (r', Ok a) → P a.

Lemma yields_ret {A} (a : A) (P : A → Prop) : P a → yields (mret a) P.
Proof. intros Ha r r' x [= _ <-]. done. Qed.
Lemma yields_bind {A B} (m : RD A) (f : A → RD B) (P : A → Prop) (Q : B → Prop) :
  yields m P → (∀ a, P a → yields (f a) Q) → yields (m ≫= f) Q.
Proof. intros Hm Hf r r' b E. apply st_bind_Ok in E as (r1 & a & Ha & Hb). eapply Hf; [by eapply Hm|exact Hb]. Qed.
Lemma yields_lift {A} (m : result CodecError.t A) (P : A → Prop) : (∀ a, m = Ok a → P a) → yields (st_lift m) P.
Proof. intros Hm r r' a [= _ E]. by apply Hm. Qed.
Lemma yields_any {A} (m : RD A) : yields m (λ _, True). Proof. done. Qed.

Lemma yields_take n : yields (R.take_n n) (λ b, length b = n).
Proof.
  intros r r' b E. unfold R.take_n in E. apply st_bind_Ok in E as (r1 & x & [= <- <-] & E).
  unfold id in E. destruct (Nat.ltb_spec (remaining r) n); [done|].
  apply st_bind_Ok in E as (r2 & u & _ & [= _ <-]). unfold remaining in *. rewrite length_take, length_drop. lia.
Qed.

Lemma from_le_signed_range l : (0 < length l)%nat →
  - 2 ^ (8 * Z.of_nat (length l) - 1) ≤ from_le_signed l < 2 ^ (8 * Z.of_nat (length l) - 1).
Proof.
  intros Hl. pose proof (from_le_range l) as Hr. unfold from_le_signed. cbv zeta.
  replace (8 * Z.of_nat (length l)) with (Z.succ (8 * Z.of_nat (length l) - 1)) in * by lia.
  rewrite Z.pow_succ_r in * by lia. rewrite (Z.mul_comm 2), Z.div_mul by lia.
  replace (Z.succ _ - 1) with (8 * Z.of_nat (length l) - 1) by lia. case_bool; z_reflect; lia.
Qed.

Lemma yields_text N : yields (R.text N) text_ok.
Proof.
  eapply yields_bind; [apply yields_take|]. intros b Hb. apply yields_lift. intros x Hx.
  apply map_err_is_Ok in Hx. apply from_padded_Ok in Hx as (_ & ? & ?); [done|exact Hb].
Qed.
Lemma yields_u64 : yields R.u64 (λ v, 0 ≤ v < 2 ^ 64).
Proof.
  eapply yields_bind; [apply yields_take|]. intros b Hb. cbn in Hb. apply yields_ret.
  pose proof (from_le_range b) as Hr. by rewrite Hb in Hr.
Qed.
Lemma yields_trace : yields R.trace trace_ok.
Proof.
  eapply yields_bind; [apply yields_take|]. intros b Hb. cbn in Hb. apply yields_ret.
  pose proof (from_le_range b) as Hr. by rewrite Hb in Hr.
Qed.
Lemma yields_i32 : yields R.i32 (λ v, - 2 ^ 31 ≤ v < 2 ^ 31).
Proof.
  eapply yields_bind; [apply yields_take|]. intros b Hb. cbn in Hb. apply yields_ret.
  pose proof (from_le_signed_range b ltac:(lia)) as Hr. by rewrite Hb in Hr.
Qed.
Lemma yields_e8 {d} : yields (v ← R.i64; mret (from_raw v : e8 d)) e8_ok.
Proof.
  eapply (yields_bind _ _ in_i64).
  - eapply yields_bind; [apply yields_take|]. intros b Hb. cbn in Hb. apply yields_ret.
    pose proof (from_le_signed_range b ltac:(lia)) as Hr. rewrite Hb in Hr.
    unfold_ranges. cbn in Hr. lia.
  - intros v Hv. by apply yields_ret.
Qed.
Lemma yields_opt_price : yields R.opt_price opt_ok.
Proof.
  eapply yields_bind; [apply yields_any|]. intros present _.
  eapply yields_bind; [apply yields_e8|]. intros v Hv. apply yields_ret. by destruct present.
Qed.

(** One read of a record, what it gives, and the end. *)
Create HintDb yields.
#[local] Hint Resolve yields_text yields_u64 yields_trace yields_i32 yields_e8 yields_opt_price : yields.
Ltac yield_one :=
  first
    [ apply yields_ret
    | eapply yields_bind; [first [solve [eauto 2 with yields nocore]|apply yields_any]|intros ? ?] ].

Lemma yields_event : yields decode_event event_ok.
Proof.
  unfold decode_event. eapply yields_bind; [apply yields_any|]. intros [] _; repeat yield_one; try done.
  cbn. split; [by rename select bool into present; destruct present|done].
Qed.

Lemma yields_intent c i s q k l st a t quote :
  text_ok c → text_ok i → e8_ok q → opt_ok l → opt_ok st → trace_ok t → opt_ok quote →
  yields (st_lift (map_err (λ _, CodecError.BadText) (Intent.new c i s q k l st a t quote))) intent_ok.
Proof.
  intros. apply yields_lift. intros x Hx. apply map_err_is_Ok in Hx.
  pose proof (intent_new_Ok _ _ _ _ _ _ _ _ _ _ _ Hx) as ->. by split.
Qed.
#[local] Hint Resolve yields_event yields_intent : yields.

Lemma yields_record kind : yields (decode_fields kind) (λ r, rec_kind r = kind ∧ record_ok r).
Proof. destruct kind; cbn [decode_fields]; repeat yield_one; done. Qed.

Lemma decode_ok kind bytes r : decode kind bytes = Ok r → rec_kind r = kind ∧ record_ok r.
Proof.
  unfold decode. intros E. destruct (read_whole _ _) as [rd res] eqn:Hr. cbn [snd] in E. subst res.
  unfold read_whole in Hr. apply st_bind_Ok in Hr as (rd1 & x & Hx & Hr).
  apply st_bind_Ok in Hr as (rd2 & u & _ & [= _ <-]). by apply yields_record in Hx.
Qed.

(** ** Properties *)

(** C37: every record whose fields are of their types and whose texts hold no NUL decodes from its
    own bytes to itself, under the kind its frame carries (the codec pads texts
    with NULs, so a text that holds one is written and does not come back:
    [nul_in_id_breaks_the_log]); and whatever bytes a frame holds, what decodes
    from them is a record of the kind it carries with every text, amount and
    counter of its type and free of NULs, and with an intent its constructor
    accepts. *)
Theorem record_roundtrip r :
  (record_ok r → decode (rec_kind r) (encode r) = Ok r) ∧
  (∀ kind bytes, decode kind bytes = Ok r → rec_kind r = kind ∧ record_ok r).
Proof.
  split; [|intros kind bytes; apply decode_ok].
  intros Hr. by apply (whole_exact _ _ _ (reads_record r Hr)).
Qed.

Definition ex_text (N : nat) (s : string) : InlineStr N := inline_or_default N (str s).

Definition ex_record : Rec.t :=
  Rec.OrderEvent (ex_text 36 "c-1") 77 Reconciling Partial true
    (ReconcileResolved Partial (Some (ex_text 32 "V-9")) (whole 4)).

Lemma ex_text_ok (N : nat) s :
  utf8_valid (str s) = true → (length (str s) ≤ N)%nat → Byte.x00 ∉ str s →
  text_ok (ex_text N s).
Proof.
  intros Hu Hl Hz. unfold ex_text, inline_or_default.
  destruct (inline_new N (str s)) as [x|e] eqn:E.
  - split; [by eapply inline_new_wf|]. apply inline_new_Ok in E as [_ ->].
    unfold inline_clean. simpl. by rewrite take_app_length.
  - unfold inline_new in E. case_bool_in E; [|done]. apply Nat.ltb_lt in Heqb. lia.
Qed.

Lemma ex_record_ok : record_ok ex_record.
Proof.
  unfold ex_record. cbn [record_ok event_ok]. split_and!.
  1,3: apply ex_text_ok; [done | vm_compute; lia | vm_compute; set_solver].
  all: vm_compute; split; congruence.
Qed.

Lemma record_roundtrip_witness :
  decode (rec_kind ex_record) (encode ex_record) = Ok ex_record ∧
  rec_kind ex_record = RecordKind.OrderEvent ∧ record_ok ex_record.
Proof.
  split; [apply (record_roundtrip ex_record); exact ex_record_ok|].
  apply (record_roundtrip ex_record) with (bytes := encode ex_record). vm_compute. reflexivity.
Defined.

(** C38: a record is a fixed shape.  Any strict prefix of its bytes is refused
    as truncated and any extension as trailing bytes: a payload of another
    layout under the same kind never decodes as a different record by accident
    of its length. *)
Theorem record_shape_exact r :
  record_ok r →
  (∀ k, (k < length (encode r))%nat →
     ∃ want have, decode (rec_kind r) (take k (encode r)) =
       Err (CodecError.Truncated want have)) ∧
  (∀ extra, extra ≠ [] →
     decode (rec_kind r) (encode r ++ extra) =
       Err (CodecError.TrailingBytes (length extra))).
Proof.
  intros Hr. pose proof (reads_record r Hr) as H. split.
  - intros k Hk. by apply (whole_truncated _ _ _ H).
  - intros [|x extra] Hne; [done|]. apply (whole_trailing _ _ _ H).
Qed.

Lemma record_shape_exact_witness :
  (∀ k, (k < length (encode ex_record))%nat →
     ∃ want have, decode (rec_kind ex_record) (take k (encode ex_record)) =
       Err (CodecError.Truncated want have)) ∧
  (∀ extra, extra ≠ [] →
     decode (rec_kind ex_record) (encode ex_record ++ extra) =
       Err (CodecError.TrailingBytes (length extra))).
Proof. apply record_shape_exact. exact ex_record_ok. Defined.

(** The applied flag is read as "not zero", where the codec's own flags refuse
    any byte but 0 and 1: a record with another byte there decodes. *)
Lemma applied_byte_not_checked :
  let good := Rec.OrderEvent (ex_text 36 "c-1") 0 Working Working true CancelRequested in
  let bytes := encode good in
  let odd := take 54 bytes ++ [Byte.x02] ++ drop 55 bytes in
  odd ≠ bytes ∧ decode RecordKind.OrderEvent odd = Ok good.
Proof. split; [discriminate | reflexivity]. Qed.
