(* ===== verification/Segment.v ===== *)
(** * Segment files (sentinel-journal/src/segment.rs, error.rs)

    A segment is its bytes; reading one is a scan that stops at the first frame
    that is short, over-long or fails its checksum.  The theorems: whatever the
    crash left of the frame being written, the scan recovers every whole frame
    before it and reports exactly where they end. *)

From S2P Require Import Prelude Fixed Types Crc Format.

(** The operating system's own error value is carried by the code for display
    only; the model keeps what was being attempted. *)
Module JournalError.
Inductive t :=
| Io (doing : string)
| Format (e : FormatError)
| AlreadyClaimed
| SequenceGap (expected found : Seq)
| PayloadTooLarge (len : nat)
| Poisoned (doing : string).

Definition is_fatal (e : t) : bool :=
  match e with Poisoned _ | SequenceGap _ _ => true | _ => false end.
End JournalError.

#[export] Instance JournalError_eq_dec : EqDecision JournalError.t.
Proof. solve_decision. Defined.

(** A segment file's content. *)
Abbreviation File := (list byte).

Record ScanResult := mkScanResult {
  last_seq : Seq;
  last_epoch : Epoch;
  good_end : nat;
  torn : bool;
  records : Z;
}.

#[export] Instance ScanResult_eq_dec : EqDecision ScanResult.
Proof. solve_decision. Defined.

(** The payload length a frame header claims. *)
Definition claimed_len (frame_header : list byte) : Z := from_le (slice 4 0 frame_header).

(** The loop of [scan_segment]: each turn moves [offset] past a whole frame, so
    the file's length is fuel enough. *)
Fixpoint scan_loop (fuel : nat) (file : File) (offset : nat) (acc_seq : Seq)
    (acc_epoch : Epoch) (count : Z) (expected_seq : Seq) :
    result JournalError.t ScanResult :=
  let size := length file in
  let done_ := Ok (mkScanResult acc_seq acc_epoch offset (offset <? size)%nat count) in
  match fuel with
  | O => done_
  | S fuel' =>
      if (size - offset <? FRAME_HEADER_LEN)%nat then done_
      else
        let frame_header := slice FRAME_HEADER_LEN offset file in
        let claimed := claimed_len frame_header in
        let frame_end := Z.of_nat (offset + FRAME_HEADER_LEN) + claimed in
        if (MAX_PAYLOAD <? claimed) || (Z.of_nat size <? frame_end) then done_
        else
          let payload := slice (Z.to_nat claimed) (offset + FRAME_HEADER_LEN) file in
          match decode_frame_header frame_header payload with
          | Err _ => done_
          | Ok header =>
              if negb (fh_seq header =? expected_seq) then
                Err (JournalError.SequenceGap expected_seq (fh_seq header))
              else
                scan_loop fuel' file (Z.to_nat frame_end) (fh_seq header) (fh_epoch header)
                  (count + 1) (seq_next (fh_seq header))
          end
  end.

Definition scan_segment (file : File) : result JournalError.t ScanResult :=
  if (length file <? SEGMENT_HEADER_LEN)%nat then
    Err (JournalError.Io "read segment header")
  else
    segment ← map_err JournalError.Format
      (decode_segment_header (slice SEGMENT_HEADER_LEN 0 file));
    scan_loop (length file) file SEGMENT_HEADER_LEN SEQ_ZERO GENESIS 0 (sh_base_seq segment).

(** [read_exact] of [n] bytes at [offset]: nothing when the file has not got them. *)
Definition read_exact (n offset : nat) (file : File) : option (list byte) :=
  if (offset + n <=? length file)%nat then Some (slice n offset file) else None.

(** [read_frame_at], with the payload it leaves in the caller's buffer. [size] is
    the length the file had when it was measured; [now] and [later] are its
    contents at the two reads, which find less when it has shrunk since. *)
Definition read_frame_at (now later : File) (offset size : nat) :
    result JournalError.t (option (FrameHeader * list byte)) :=
  if (size - offset <? FRAME_HEADER_LEN)%nat then Ok None
  else
    match read_exact FRAME_HEADER_LEN offset now with
    | None => Ok None
    | Some frame_header =>
        let claimed := claimed_len frame_header in
        if MAX_PAYLOAD <? claimed then
          Err (JournalError.Format (PayloadTooLarge claimed))
        else if Z.of_nat size <? Z.of_nat (offset + FRAME_HEADER_LEN) + claimed then Ok None
        else
          match read_exact (Z.to_nat claimed) (offset + FRAME_HEADER_LEN) later with
          | None => Ok None
          | Some payload =>
              header ← map_err JournalError.Format (decode_frame_header frame_header payload);
              Ok (Some (header, payload))
          end
    end.

Lemma read_exact_there n offset file :
  (offset + n ≤ length file)%nat → read_exact n offset file = Some (slice n offset file).
Proof. intros H. unfold read_exact. by rewrite (proj2 (Nat.leb_le _ _)). Qed.

(** ** What a segment holds *)

(** A framed record: its header and payload. *)
Abbreviation Frame := (FrameHeader * list byte)%type.

Definition frame_bytes (f : Frame) : list byte := encode_frame f.1 f.2.
Definition frames_bytes (fs : list Frame) : list byte := concat (frame_bytes <$> fs).

Lemma frames_bytes_cons f fs : frames_bytes (f :: fs) = frame_bytes f ++ frames_bytes fs.
Proof. reflexivity. Qed.

Lemma frames_bytes_app a b : frames_bytes (a ++ b) = frames_bytes a ++ frames_bytes b.
Proof. unfold frames_bytes. by rewrite fmap_app, concat_app. Qed.

#[global] Arguments frame_bytes : simpl never.
#[global] Arguments frames_bytes : simpl never.

(** The content of a segment holding [fs] and nothing else. *)
Definition segment_bytes (base : Seq) (created : Nanos) (fs : list Frame) : File :=
  encode_segment_header base created ++ frames_bytes fs.

Definition frame_ok (f : Frame) : Prop :=
  header_ok f.1 ∧ Z.of_nat (length f.2) = fh_len f.1.

(** Consecutive sequence numbers from [s], as [append] assigns them. *)
Fixpoint seq_from (s : Seq) (fs : list Frame) : Prop :=
  match fs with
  | [] => True
  | f :: fs' => fh_seq f.1 = s ∧ frame_ok f ∧ seq_from (s + 1) fs'
  end.

(** What a crash can leave of the frame being written when it hit: a strict
    prefix, down to nothing at all. *)
Definition torn_tail (tail : list byte) : Prop :=
  ∃ f k, frame_ok f ∧ (k < length (frame_bytes f))%nat ∧ tail = take k (frame_bytes f).

Lemma slice_drop n k (l : list byte) : slice n k l = slice n 0 (drop k l).
Proof. unfold slice. by rewrite drop_0. Qed.

Lemma slice_app n l (r : list byte) : (n ≤ length l)%nat → slice n 0 (l ++ r) = slice n 0 l.
Proof. intros. unfold slice. by rewrite !drop_0, take_app_le. Qed.

Lemma slice_exact n l (r : list byte) : n = length l → slice n 0 (l ++ r) = l.
Proof. intros ->. unfold slice. by rewrite drop_0, take_app_length. Qed.

Lemma length_frame_bytes f :
  length (frame_bytes f) = (FRAME_HEADER_LEN + length f.2)%nat.
Proof. apply length_encode_frame. Qed.

Lemma claimed_frame f rest :
  frame_ok f → claimed_len (slice FRAME_HEADER_LEN 0 (frame_bytes f ++ rest)) = fh_len f.1.
Proof.
  intros [Hh Hp]. unfold claimed_len, slice at 2. rewrite drop_0, take_slice by (unfold FRAME_HEADER_LEN; lia).
  rewrite slice_app by (rewrite length_frame_bytes; unfold FRAME_HEADER_LEN; lia).
  by apply encode_frame_prefix.
Qed.

(** The header and payload of a frame, as a reader slices them out. *)
Lemma decode_frame f rest :
  frame_ok f →
  decode_frame_header (slice FRAME_HEADER_LEN 0 (frame_bytes f ++ rest))
    (slice (Z.to_nat (fh_len f.1)) FRAME_HEADER_LEN (frame_bytes f ++ rest)) = Ok f.1 ∧
  slice (Z.to_nat (fh_len f.1)) FRAME_HEADER_LEN (frame_bytes f ++ rest) = f.2.
Proof.
  intros [Hh Hp]. unfold frame_bytes, encode_frame. rewrite <-app_assoc.
  set (hd := finish_frame_header (encode_frame_header f.1) f.2).
  assert (length hd = FRAME_HEADER_LEN) as Hl
    by (apply length_put_checksum, length_encode_frame_header).
  rewrite slice_exact by done.
  rewrite (slice_drop _ FRAME_HEADER_LEN), drop_app_length' by done.
  rewrite slice_exact by lia. split; [|done]. by apply frame_roundtrip.
Qed.

(** ** Scanning *)

Definition final_seq (q : Seq) (fs : list Frame) : Seq := foldl (λ _ f, fh_seq f.1) q fs.
Definition final_epoch (e : Epoch) (fs : list Frame) : Epoch := foldl (λ _ f, fh_epoch f.1) e fs.

Lemma seq_from_app s a b :
  seq_from s (a ++ b) ↔ seq_from s a ∧ seq_from (s + Z.of_nat (length a)) b.
Proof.
  revert s. induction a as [|f a IH]; intros s.
  - simpl. rewrite Z.add_0_r. tauto.
  - cbn [app seq_from length]. rewrite IH.
    replace (s + 1 + Z.of_nat (length a)) with (s + Z.of_nat (S (length a))) by lia. tauto.
Qed.

Lemma final_seq_from s q fs :
  seq_from s fs → q = s - 1 → final_seq q fs = s + Z.of_nat (length fs) - 1.
Proof.
  revert s q. induction fs as [|f fs IH]; intros s q Hs ->.
  - simpl. lia.
  - destruct Hs as (Hf & _ & Hs). unfold final_seq. simpl. rewrite Hf.
    fold (final_seq s fs). rewrite (IH (s + 1) s Hs) by lia. lia.
Qed.

(** The next sequence number never saturates under a frame that has one. *)
Lemma seq_from_next s fs : u64_ok s → seq_from (s + 1) fs → seq_from (seq_next s) fs.
Proof.
  intros Hs. destruct fs as [|f fs]; [done|]. intros (Hf & Hok & Hr).
  pose proof Hok as [[Hu _ _ _] _]. unfold u64_ok in *. unfold seq_next.
  rewrite u64_saturate_in by (unfold_ranges; lia). exact (conj Hf (conj Hok Hr)).
Qed.

Lemma length_of_drop (file rest : list byte) (offset n : nat) l :
  drop offset file = l ++ rest → (offset ≤ length file)%nat → length l = n →
  length file = (offset + n + length rest)%nat.
Proof.
  intros H Ho <-. apply (f_equal length) in H. rewrite length_drop, length_app in H. lia.
Qed.

Lemma scan_step n file offset q e c s f rest :
  drop offset file = frame_bytes f ++ rest → (offset ≤ length file)%nat → frame_ok f →
  scan_loop (S n) file offset q e c s =
    if negb (fh_seq f.1 =? s) then Err (JournalError.SequenceGap s (fh_seq f.1))
    else scan_loop n file (offset + length (frame_bytes f)) (fh_seq f.1) (fh_epoch f.1)
           (c + 1) (seq_next (fh_seq f.1)).
Proof.
  intros Hd Ho Hf. pose proof (length_of_drop _ _ _ _ _ Hd Ho (length_frame_bytes f)) as Hlen.
  destruct (decode_frame f rest Hf) as [Hdec Hpay]. pose proof Hf as [Hh Hp].
  cbn [scan_loop]. rewrite (slice_drop _ offset), Hd, claimed_frame by done.
  assert (slice (Z.to_nat (fh_len f.1)) (offset + FRAME_HEADER_LEN) file = f.2) as ->.
  { rewrite <-Hpay, <-Hd. unfold slice. by rewrite drop_drop. }
  rewrite Hpay in Hdec. rewrite Hdec.
  rewrite (proj2 (Nat.ltb_ge _ _)) by lia.
  rewrite (proj2 (Z.ltb_ge MAX_PAYLOAD _)) by (destruct Hh; lia).
  rewrite (proj2 (Z.ltb_ge _ _)) by lia. cbn [orb].
  replace (Z.to_nat (Z.of_nat (offset + FRAME_HEADER_LEN) + fh_len f.1))
    with (offset + length (frame_bytes f))%nat; [done|].
  rewrite length_frame_bytes. lia.
Qed.

(** A torn tail stops the scan where it begins. *)
Lemma scan_torn n file offset q e c s tail :
  drop offset file = tail → (offset ≤ length file)%nat → torn_tail tail →
  scan_loop n file offset q e c s =
    Ok (mkScanResult q e offset (negb (Nat.eqb (length tail) 0)) c).
Proof.
  intros Hd Ho (f & k & [Hh Hp] & Hk & ->).
  assert (length file = (offset + k)%nat) as Hlen.
  { apply (f_equal length) in Hd. rewrite length_drop, length_take in Hd. lia. }
  assert ((offset <? length file)%nat = negb (Nat.eqb (length (take k (frame_bytes f))) 0)) as Ht.
  { rewrite length_take, Nat.min_l, Hlen by lia.
    destruct (Nat.eqb_spec k 0); [apply Nat.ltb_ge | apply Nat.ltb_lt]; lia. }
  destruct n as [|n]; cbn [scan_loop]; rewrite <-Ht; [done|].
  destruct (Nat.ltb_spec (length file - offset) FRAME_HEADER_LEN); [done|].
  assert (claimed_len (slice FRAME_HEADER_LEN offset file) = fh_len f.1) as ->.
  { rewrite slice_drop, Hd, <-(claimed_frame f []) by done. rewrite app_nil_r.
    unfold claimed_len. f_equal. unfold slice at 2 4. rewrite !drop_0, take_take.
    by rewrite Nat.min_l by lia. }
  rewrite length_frame_bytes in Hk.
  rewrite (proj2 (Z.ltb_lt (Z.of_nat (length file)) _)) by lia.
  by rewrite orb_true_r.
Qed.

Lemma torn_tail_nil f : frame_ok f → torn_tail [].
Proof.
  intros Hf. exists f, 0%nat. split_and!; [done| |by rewrite take_0].
  rewrite length_frame_bytes. unfold FRAME_HEADER_LEN. lia.
Qed.

Lemma scan_frames fs : ∀ n file offset q e c s tail,
  drop offset file = frames_bytes fs ++ tail → (offset ≤ length file)%nat →
  u64_ok s → seq_from s fs → torn_tail tail → (length fs ≤ n)%nat →
  scan_loop n file offset q e c s =
    Ok (mkScanResult (final_seq q fs) (final_epoch e fs)
          (offset + length (frames_bytes fs)) (negb (Nat.eqb (length tail) 0))
          (c + Z.of_nat (length fs))).
Proof.
  induction fs as [|f fs IH]; intros n file offset q e c s tail Hd Ho Hu Hs Ht Hn.
  - change (drop offset file = tail) in Hd. simpl. rewrite (scan_torn n file offset q e c s tail), Nat.add_0_r by done.
    do 2 f_equal. lia.
  - destruct Hs as (Hfs & Hf & Hs). destruct n as [|n]; [simpl in Hn; lia|].
    rewrite frames_bytes_cons, <-app_assoc in Hd.
    rewrite (scan_step n file offset q e c s f _ Hd Ho Hf), Hfs, Z.eqb_refl. simpl negb.
    pose proof (length_of_drop _ _ _ _ _ Hd Ho (length_frame_bytes f)) as Hlen.
    rewrite (IH n file _ s (fh_epoch f.1) (c + 1) (seq_next s) tail).
    + rewrite frames_bytes_cons, length_app. unfold final_seq, final_epoch. simpl.
      rewrite Hfs. do 2 f_equal; lia.
    + by rewrite <-drop_drop, Hd, drop_app_length.
    + rewrite length_frame_bytes. lia.
    + unfold seq_next. pose proof (u64_saturate_in (s + 1)). unfold u64_ok in *.
      unfold_ranges. lia.
    + by apply seq_from_next.
    + done.
    + simpl in Hn. lia.
Qed.

Lemma length_frames fs : (length fs ≤ length (frames_bytes fs))%nat.
Proof.
  induction fs as [|f fs IH]; [simpl; lia|]. rewrite frames_bytes_cons.
  rewrite length_app, length_frame_bytes. unfold FRAME_HEADER_LEN. cbn [length]. lia.
Qed.

Lemma length_encode_segment_header b c : length (encode_segment_header b c) = SEGMENT_HEADER_LEN.
Proof. unfold encode_segment_header. by rewrite !length_app, !length_le_bytes. Qed.

Lemma segment_header_roundtrip b c :
  u64_ok b → u64_ok c →
  decode_segment_header (encode_segment_header b c) = Ok (mkSegmentHeader b c).
Proof.
  intros Hb Hc. unfold decode_segment_header, encode_segment_header.
  assert (length MAGIC = 8%nat) as HM by reflexivity.
  rewrite (slice_here 8 MAGIC) by done. rewrite bool_decide_eq_true_2 by done.
  rewrite !(slice_skip _ _ MAGIC) by (rewrite HM; lia). rewrite HM. cbn [Nat.sub].
  read_field. unfold u64_ok in *.
  rewrite !from_le_bytes by first [done | (vm_compute; split; congruence)].
  done.
Qed.

Lemma scan_segment_frames base created fs tail :
  u64_ok base → u64_ok created → seq_from base fs → torn_tail tail →
  scan_segment (segment_bytes base created fs ++ tail) =
    Ok (mkScanResult (final_seq SEQ_ZERO fs) (final_epoch GENESIS fs)
          (length (segment_bytes base created fs))
          (negb (Nat.eqb (length tail) 0)) (Z.of_nat (length fs))).
Proof.
  intros Hb Hc Hs Ht. unfold scan_segment, segment_bytes.
  pose proof (length_encode_segment_header base created) as Hl.
  rewrite (proj2 (Nat.ltb_ge _ _)) by (rewrite !length_app; lia).
  rewrite <-app_assoc, slice_exact by (symmetry; exact Hl).
  rewrite segment_header_roundtrip by assumption.
  cbv [mbind result_bind map_err sh_base_seq].
  rewrite (scan_frames fs _ _ _ _ _ _ _ tail).
  - rewrite length_app, Hl. reflexivity.
  - apply drop_app_length'. symmetry. exact Hl.
  - rewrite !length_app. lia.
  - done.
  - done.
  - done.
  - pose proof (length_frames fs). rewrite !length_app. lia.
Qed.

(** How many whole frames are in the first [k] bytes. *)
Fixpoint whole_within (k : nat) (fs : list Frame) : nat :=
  match fs with
  | [] => 0
  | f :: fs' =>
      if (length (frame_bytes f) <=? k)%nat then S (whole_within (k - length (frame_bytes f)) fs')
      else 0
  end.

Lemma whole_within_le fs : ∀ k, (whole_within k fs ≤ length fs)%nat.
Proof.
  induction fs as [|f fs IH]; intros k; cbn [whole_within length]; [lia|].
  case_match; [specialize (IH (k - length (frame_bytes f))%nat)|]; lia.
Qed.

(** A tail cut anywhere leaves whole frames and at most one torn one. *)
Lemma cut_frames fs : ∀ k,
  Forall frame_ok fs → fs ≠ [] →
  ∃ tail, take k (frames_bytes fs) = frames_bytes (take (whole_within k fs) fs) ++ tail ∧
    torn_tail tail.
Proof.
  induction fs as [|f fs IH]; intros k Hok Hne; [done|].
  apply Forall_cons in Hok as [Hf Hok]. rewrite frames_bytes_cons. cbn [whole_within].
  destruct (Nat.leb_spec (length (frame_bytes f)) k) as [Hk|Hk].
  - rewrite take_app_ge by lia. destruct fs as [|g fs].
    + exists []. split; [|by eapply torn_tail_nil].
      unfold frames_bytes. simpl. by rewrite take_nil, !app_nil_r.
    + destruct (IH (k - length (frame_bytes f))%nat Hok) as (tail & -> & Ht); [done|].
      exists tail. cbn [take]. by rewrite frames_bytes_cons, <-app_assoc.
  - exists (take k (frame_bytes f)). rewrite take_app_le by lia. split; [done|]. by exists f, k.
Qed.

Lemma seq_from_ok s fs : seq_from s fs → Forall frame_ok fs.
Proof.
  revert s. induction fs as [|f fs IH]; intros s; [constructor|].
  intros (_ & ? & ?). constructor; eauto.
Qed.
