(* ===== verification/Journal.v ===== *)
(** * The writer (sentinel-journal/src/writer.rs)

    Claim, append, flush: the in-memory buffer and the directory of segments it
    reaches.  The theorems: a claim after a crash recovers every record a flush
    acknowledged, in order, under the next epoch, and a journal that failed a
    flush never accepts work again. *)

From S2P Require Import Prelude Fixed Types Crc Format Segment.

(** A journal directory: its segment files by base sequence, as
    [list_segments] returns them, in order. *)
Abbreviation Dir := (list (Seq * File)).

(** [create_new]: refuses a name that exists; listing order is kept. *)
Fixpoint dir_insert (base : Seq) (file : File) (dir : Dir) : Dir :=
  match dir with
  | [] => [(base, file)]
  | (b, f) :: dir' =>
      if base <? b then (base, file) :: dir else (b, f) :: dir_insert base file dir'
  end.

(** Bytes written to the end of the segment named [base]. *)
Definition dir_append (base : Seq) (bytes : list byte) (dir : Dir) : Dir :=
  (λ s : Seq * File, if s.1 =? base then (s.1, s.2 ++ bytes) else s) <$> dir.

Definition dir_exists (base : Seq) (dir : Dir) : bool :=
  existsb (λ s : Seq * File, s.1 =? base) dir.

Record ClaimReport := mkClaimReport {
  cr_epoch : Epoch;
  cr_resumed_from : Seq;
  cr_existing_records : Z;
  cr_truncated_bytes : Z;
}.

Record Stats := mkStats {
  st_records : Z;
  st_payload_bytes : Z;
  st_flushes : Z;
  st_segments_rolled : Z;
}.

Definition stats_default : Stats := mkStats 0 0 0 0.

(** The writer.  [j_dir] stands for the directory the path names, and the open
    segment file is the entry [j_segment_base] of it. *)
Record Journal := mkJournal {
  j_dir : Dir;
  j_epoch : Epoch;
  j_next_seq : Seq;
  j_segment_base : Seq;
  j_segment_bytes : Z;
  j_buffer : list byte;
  j_buffered_records : Z;
  j_poisoned : option string;
  j_stats : Stats;
  j_claim_report : ClaimReport;
}.

(** What the operating system answers during a flush.  A failed write may have
    written part of the buffer, a failed sync all of it, and a failed segment
    creation may leave part of a header behind. *)
Inductive FlushIo :=
| IoOk
| WriteFails (written : nat)
| SyncFails
| CreateFails (header_written : option nat).

Definition is_poisoned (j : Journal) : bool :=
  match j_poisoned j with Some _ => true | None => false end.

Definition durable_seq (j : Journal) : Seq :=
  u64_saturate (j_next_seq j - (j_buffered_records j + 1)).

(** Field updates. *)
Definition set_buffer (b : list byte) (n : Z) (j : Journal) : Journal :=
  mkJournal (j_dir j) (j_epoch j) (j_next_seq j) (j_segment_base j) (j_segment_bytes j)
    b n (j_poisoned j) (j_stats j) (j_claim_report j).
Definition set_dir (d : Dir) (j : Journal) : Journal :=
  mkJournal d (j_epoch j) (j_next_seq j) (j_segment_base j) (j_segment_bytes j)
    (j_buffer j) (j_buffered_records j) (j_poisoned j) (j_stats j) (j_claim_report j).
Definition set_next_seq (s : Seq) (j : Journal) : Journal :=
  mkJournal (j_dir j) (j_epoch j) s (j_segment_base j) (j_segment_bytes j)
    (j_buffer j) (j_buffered_records j) (j_poisoned j) (j_stats j) (j_claim_report j).
Definition set_segment (base : Seq) (bytes : Z) (j : Journal) : Journal :=
  mkJournal (j_dir j) (j_epoch j) (j_next_seq j) base bytes
    (j_buffer j) (j_buffered_records j) (j_poisoned j) (j_stats j) (j_claim_report j).
Definition set_poisoned (d : string) (j : Journal) : Journal :=
  mkJournal (j_dir j) (j_epoch j) (j_next_seq j) (j_segment_base j) (j_segment_bytes j)
    (j_buffer j) (j_buffered_records j) (Some d) (j_stats j) (j_claim_report j).
Definition set_stats (s : Stats) (j : Journal) : Journal :=
  mkJournal (j_dir j) (j_epoch j) (j_next_seq j) (j_segment_base j) (j_segment_bytes j)
    (j_buffer j) (j_buffered_records j) (j_poisoned j) s (j_claim_report j).

Abbreviation JM := (ST Journal JournalError.t).

(** [poison]: the first failed flush, never cleared. *)
Definition poison {A} (doing : string) : JM A :=
  _ ← st_modify (set_poisoned doing);
  st_fail (JournalError.Io doing).

Definition append (kind : RecordKind.t) (now : Nanos) (payload : list byte) : JM Seq :=
  self ← st_get id;
  match j_poisoned self with
  | Some doing => st_fail (JournalError.Poisoned doing)
  | None =>
      if MAX_PAYLOAD <? Z.of_nat (length payload) then
        st_fail (JournalError.PayloadTooLarge (length payload))
      else
        let len := Z.of_nat (length payload) in
        let seq := j_next_seq self in
        let header := mkFrameHeader seq (j_epoch self) now kind len in
        let bytes := finish_frame_header (encode_frame_header header) payload in
        _ ← st_modify (λ j, set_buffer ((j_buffer j ++ bytes) ++ payload)
                              (j_buffered_records j + 1) j);
        _ ← st_modify (set_next_seq (seq_next seq));
        _ ← st_modify (λ j, let s := j_stats j in
              set_stats (mkStats (st_records s + 1) (st_payload_bytes s + len)
                           (st_flushes s) (st_segments_rolled s)) j);
        mret seq
  end.

(** [segment::create_segment], into the directory of the writer. *)
Definition create_segment (io : FlushIo) (base_seq : Seq) (created : Nanos) : JM unit :=
  self ← st_get id;
  if dir_exists base_seq (j_dir self) then st_fail (JournalError.Io "create segment")
  else
    let header := encode_segment_header base_seq created in
    match io with
    | CreateFails None => st_fail (JournalError.Io "create segment")
    | CreateFails (Some n) =>
        _ ← st_modify (set_dir (dir_insert base_seq (take n header) (j_dir self)));
        st_fail (JournalError.Io "write segment header")
    | _ => st_modify (set_dir (dir_insert base_seq header (j_dir self)))
    end.

Definition roll (io : FlushIo) : JM unit :=
  self ← st_get id;
  _ ← create_segment io (j_next_seq self) 0;
  _ ← st_modify (set_segment (j_next_seq self) (Z.of_nat SEGMENT_HEADER_LEN));
  st_modify (λ j, let s := j_stats j in
    set_stats (mkStats (st_records s) (st_payload_bytes s) (st_flushes s)
                 (st_segments_rolled s + 1)) j).

Definition flush (io : FlushIo) : JM Seq :=
  self ← st_get id;
  match j_poisoned self with
  | Some doing => st_fail (JournalError.Poisoned doing)
  | None =>
      match j_buffer self with
      | [] => mret (durable_seq self)
      | _ :: _ =>
          let write bytes :=
            st_modify (set_dir (dir_append (j_segment_base self) bytes (j_dir self))) in
          match io with
          | WriteFails n => _ ← write (take n (j_buffer self)); poison "write records"
          | SyncFails => _ ← write (j_buffer self); poison "sync records"
          | _ =>
              _ ← write (j_buffer self);
              _ ← st_modify (λ j, set_segment (j_segment_base j)
                    (j_segment_bytes j + Z.of_nat (length (j_buffer j))) j);
              _ ← st_modify (set_buffer [] 0);
              _ ← st_modify (λ j, let s := j_stats j in
                    set_stats (mkStats (st_records s) (st_payload_bytes s)
                      (st_flushes s + 1) (st_segments_rolled s)) j);
              bytes ← st_get j_segment_bytes;
              _ ← (if SEGMENT_TARGET_BYTES <=? bytes then roll io else mret tt);
              st_get durable_seq
          end
      end
  end.

Definition append_and_flush (io : FlushIo) (kind : RecordKind.t) (now : Nanos)
    (payload : list byte) : JM Seq :=
  seq ← append kind now payload;
  _ ← flush io;
  mret seq.

(** ** Claiming *)

Record ClaimScan := mkClaimScan {
  cs_dir : Dir;
  cs_truncated : Z;
  cs_records : Z;
  cs_seq : Seq;
  cs_epoch : Epoch;
}.

(** The loop over the segments: only the last may be torn, and it is cut. *)
Fixpoint claim_scan (segs : Dir) (acc : ClaimScan) : result JournalError.t ClaimScan :=
  match segs with
  | [] => Ok acc
  | (base, file) :: rest =>
      scan ← scan_segment file;
      let count := cs_records acc + records scan in
      let '(seq, epoch) :=
        if 0 <? records scan then (last_seq scan, last_epoch scan)
        else (cs_seq acc, cs_epoch acc) in
      if torn scan then
        match rest with
        | _ :: _ => Err (JournalError.SequenceGap (seq_next (last_seq scan)) (last_seq scan))
        | [] =>
            claim_scan rest
              (mkClaimScan (cs_dir acc ++ [(base, take (good_end scan) file)])
                 (Z.of_nat (length file - good_end scan)) count seq epoch)
        end
      else
        claim_scan rest
          (mkClaimScan (cs_dir acc ++ [(base, file)]) (cs_truncated acc) count seq epoch)
  end.

(** [Journal::claim]: [held] is what [try_lock] finds, [io] what the claim's own
    flush meets.  The directory is returned in every case, since the truncation
    of a torn tail stays when a later step fails. *)
Definition claim (held : bool) (io : FlushIo) (dir : Dir) (now : Nanos) :
    Dir * result JournalError.t Journal :=
  if held then (dir, Err JournalError.AlreadyClaimed)
  else
    match claim_scan dir (mkClaimScan [] 0 0 SEQ_ZERO GENESIS) with
    | Err e => (dir, Err e)
    | Ok scan =>
        let epoch := epoch_next (cs_epoch scan) in
        let next_seq := seq_next (cs_seq scan) in
        let '(dir, base, bytes) :=
          match last (cs_dir scan) with
          | Some (base, file) => (cs_dir scan, base, Z.of_nat (length file))
          | None =>
              (dir_insert next_seq (encode_segment_header next_seq now) (cs_dir scan),
               next_seq, Z.of_nat SEGMENT_HEADER_LEN)
          end in
        let journal := mkJournal dir epoch next_seq base bytes [] 0 None stats_default
          (mkClaimReport epoch (cs_seq scan) (cs_records scan) (cs_truncated scan)) in
        let payload := le_bytes 8 epoch ++ le_bytes 8 (cs_seq scan) in
        match append_and_flush io RecordKind.EpochClaimed now payload journal with
        | (journal, Ok _) => (j_dir journal, Ok (set_stats stats_default journal))
        | (journal, Err e) => (j_dir journal, Err e)
        end
    end.

(** ** What the directory and the buffer hold *)

(** A segment's base, creation time and records. *)
Abbreviation Group := (Seq * Nanos * list Frame)%type.

Definition group_file (g : Group) : Seq * File :=
  (g.1.1, segment_bytes g.1.1 g.1.2 g.2).
Definition whole_dir (gs : list Group) : Dir := group_file <$> gs.
Definition log (gs : list Group) : list Frame := concat (snd <$> gs).

(** Segments one after the other, none but the last empty, each named by the
    sequence of its first record. *)
Fixpoint groups_from (s : Seq) (gs : list Group) : Prop :=
  match gs with
  | [] => True
  | g :: gs' =>
      g.1.1 = s ∧ u64_ok s ∧ u64_ok g.1.2 ∧ seq_from s g.2 ∧ (gs' ≠ [] → g.2 ≠ []) ∧
      groups_from (s + Z.of_nat (length g.2)) gs'
  end.

(** The writer's memory agrees with its directory: [gs] is durable, [ps] is
    appended and not yet flushed. *)
Record writer_inv (j : Journal) (gs : list Group) (ps : list Frame) : Prop := {
  wi_dir : j_dir j = whole_dir gs;
  wi_last : ∃ g, last gs = Some g ∧ j_segment_base j = g.1.1;
  wi_groups : groups_from 1 gs;
  wi_pending : seq_from (1 + Z.of_nat (length (log gs))) ps;
  wi_buffer : j_buffer j = frames_bytes ps;
  wi_count : j_buffered_records j = Z.of_nat (length ps);
  wi_next : j_next_seq j = 1 + Z.of_nat (length (log gs ++ ps));
  wi_epoch : u64_ok (j_epoch j);
  wi_live : j_poisoned j = None;
}.

Lemma log_app a b : log (a ++ b) = log a ++ log b.
Proof. unfold log. by rewrite fmap_app, concat_app. Qed.

Lemma whole_dir_app a b : whole_dir (a ++ b) = whole_dir a ++ whole_dir b.
Proof. apply fmap_app. Qed.

Lemma groups_from_app s a b :
  groups_from s (a ++ b) ↔
  groups_from s a ∧ (b ≠ [] → a ≠ [] → ∀ g, last a = Some g → g.2 ≠ []) ∧
  groups_from (s + Z.of_nat (length (log a))) b.
Proof.
  revert s. induction a as [|g a IH]; intros s.
  - simpl. rewrite Z.add_0_r. naive_solver.
  - cbn [app groups_from]. rewrite IH. cbn [log fmap list_fmap concat].
    change (log (g :: a)) with (g.2 ++ log a). rewrite length_app.
    replace (s + Z.of_nat (length g.2) + Z.of_nat (length (log a)))
      with (s + Z.of_nat (length g.2 + length (log a))) by lia.
    assert (∀ P Q : Prop, (a ++ b ≠ [] → P) ↔ (a ≠ [] → P) ∧ (b ≠ [] → a = [] → P)) as Hsplit.
    { intros P _. destruct a, b; simpl; naive_solver. }
    rewrite (Hsplit (g.2 ≠ []) True). clear Hsplit IH.
    assert ((b ≠ [] → g :: a ≠ [] → ∀ g', last (g :: a) = Some g' → g'.2 ≠ []) ↔
            (b ≠ [] → a = [] → g.2 ≠ []) ∧
            (b ≠ [] → a ≠ [] → ∀ g', last a = Some g' → g'.2 ≠ [])) as ->.
    { destruct a as [|h a]; [simpl; naive_solver|]. rewrite last_cons_cons. naive_solver. }
    tauto.
Qed.

(** The records of consecutive segments are themselves consecutive. *)
Lemma groups_seq s gs : groups_from s gs → seq_from s (log gs).
Proof.
  revert s. induction gs as [|g gs IH]; intros s; [done|].
  intros (_ & _ & _ & Hs & _ & Hr). change (log (g :: gs)) with (g.2 ++ log gs).
  apply seq_from_app. split; [done|]. by apply IH.
Qed.

(** Names grow: every base before the last segment is below its own. *)
Lemma groups_bases s gs g :
  groups_from s (gs ++ [g]) → Forall (λ h : Group, h.1.1 < g.1.1) gs ∧ s ≤ g.1.1.
Proof.
  revert s. induction gs as [|h gs IH]; intros s; cbn [app groups_from].
  - intros (-> & _). split; [constructor|lia].
  - intros (Hb & _ & _ & _ & Hne & Hr). apply IH in Hr as [Hf Hle].
    assert (h.2 ≠ []) as Hh by (apply Hne; by destruct gs).
    destruct h as [[b c] [|f fs]]; [done|]. simpl in *.
    split; [constructor; [simpl; lia|done]|lia].
Qed.

Lemma dir_append_last gs g bytes :
  Forall (λ h : Group, h.1.1 < g.1.1) gs →
  dir_append g.1.1 bytes (whole_dir (gs ++ [g])) =
    whole_dir gs ++ [(g.1.1, (group_file g).2 ++ bytes)].
Proof.
  intros Hf. unfold dir_append. rewrite whole_dir_app, fmap_app. f_equal.
  - induction Hf as [|h gs Hh Hf IH]; [done|]. cbn [whole_dir fmap list_fmap].
    change (whole_dir (h :: gs)) with (group_file h :: whole_dir gs).
    cbn [fmap list_fmap group_file fst snd].
    rewrite (proj2 (Z.eqb_neq _ _)) by lia. f_equal. exact IH.
  - unfold whole_dir. cbn [fmap list_fmap group_file fst snd]. by rewrite Z.eqb_refl.
Qed.

Lemma dir_insert_last b file (dir : Dir) :
  Forall (λ s, s.1 < b) dir →
  dir_insert b file dir = dir ++ [(b, file)] ∧ dir_exists b dir = false.
Proof.
  induction 1 as [|[c f] dir Hc Hd [IH1 IH2]]; [done|]. cbn in Hc. cbn.
  rewrite (proj2 (Z.ltb_ge _ _)), (proj2 (Z.eqb_neq _ _)) by lia.
  unfold dir_exists in IH2. by rewrite IH1, IH2.
Qed.

(** ** Appending and flushing *)

Lemma append_inv kind now payload j gs ps j' seq :
  writer_inv j gs ps → u64_ok now → j_next_seq j < u64_max →
  append kind now payload j = (j', Ok seq) →
  let f := (mkFrameHeader (j_next_seq j) (j_epoch j) now kind (Z.of_nat (length payload)),
            payload) in
  seq = j_next_seq j ∧ writer_inv j' gs (ps ++ [f]) ∧ j_dir j' = j_dir j.
Proof.
  intros [Hd Hl Hg Hp Hb Hc Hn He Hlive] Hnow Hmax H f. unfold append in H.
  apply st_bind_Ok in H as (s & a & Hs & H). st_prim Hs. unfold id in H.
  rewrite Hlive in H. case_bool_in H; [done|]. z_reflect. st_steps H. subst seq.
  assert (frame_ok f) as Hf.
  { split; [|done]. split; simpl; auto; unfold u64_ok; unfold_ranges; lia. }
  split; [done|]. split; [|done]. rewrite length_app in Hn. split; simpl; try done.
  - apply seq_from_app. split; [done|]. split_and!; [simpl; lia|done..].
  - rewrite frames_bytes_app, Hb, <-app_assoc. f_equal.
    by rewrite frames_bytes_cons, app_nil_r.
  - rewrite length_app, Hc. simpl. lia.
  - unfold seq_next. rewrite u64_saturate_in by (unfold_ranges; lia).
    rewrite Hn, !length_app. simpl. lia.
Qed.

(** The last group grown by the pending records. *)
Definition grow (g : Group) (ps : list Frame) : Group := (g.1, g.2 ++ ps).

Lemma segment_bytes_grow g ps :
  (group_file g).2 ++ frames_bytes ps = (group_file (grow g ps)).2.
Proof.
  unfold group_file, grow, segment_bytes. cbn [fst snd].
  by rewrite frames_bytes_app, app_assoc.
Qed.

Lemma groups_grow gs g ps :
  groups_from 1 (gs ++ [g]) → seq_from (1 + Z.of_nat (length (log (gs ++ [g])))) ps →
  groups_from 1 (gs ++ [grow g ps]) ∧ log (gs ++ [grow g ps]) = log (gs ++ [g]) ++ ps.
Proof.
  intros (Hg & Hne & (Hb & Hu & Hc & Hs & _))%groups_from_app Hps.
  rewrite log_app, length_app in Hps. cbn [log fmap list_fmap concat length] in Hps.
  change (log [g]) with (g.2 ++ []) in Hps. rewrite app_nil_r in Hps. split.
  - apply groups_from_app. split; [done|]. split; [by intros; eapply Hne|].
    simpl. split_and!; try done. apply seq_from_app. split; [done|].
    by rewrite Nat2Z.inj_add, Z.add_assoc in Hps.
  - rewrite !log_app. unfold log at 2 4. simpl. by rewrite !app_nil_r, app_assoc.
Qed.

Lemma groups_new gs b :
  groups_from 1 gs → gs ≠ [] → (∀ g, last gs = Some g → g.2 ≠ []) →
  b = 1 + Z.of_nat (length (log gs)) → u64_ok b →
  groups_from 1 (gs ++ [(b, 0, [])]) ∧ log (gs ++ [(b, 0, [])]) = log gs.
Proof.
  intros Hg Hne Hl -> Hb. split.
  - apply groups_from_app. split; [done|]. split; [auto|]. simpl. split_and!; try done.
  - rewrite log_app. unfold log at 2. simpl. by rewrite app_nil_r.
Qed.

Lemma whole_dir_bases gs g b :
  groups_from 1 (gs ++ [g]) → g.1.1 < b → Forall (λ s : Seq * File, s.1 < b) (whole_dir (gs ++ [g])).
Proof.
  intros Hg Hb. apply groups_bases in Hg as [Hf _].
  rewrite whole_dir_app. apply Forall_app. split.
  - apply Forall_fmap. eapply Forall_impl; [exact Hf|]. intros h Hh. change (h.1.1 < b). cbv beta in Hh. lia.
  - repeat constructor. simpl. done.
Qed.

Lemma last_base gs g :
  groups_from 1 (gs ++ [g]) → g.1.1 = 1 + Z.of_nat (length (log gs)).
Proof. by intros (_ & _ & Hb & _)%groups_from_app. Qed.

(** Rolling names the new segment by the next sequence, after every other. *)
Lemma roll_inv io j gs g j' u :
  writer_inv j (gs ++ [g]) [] → g.2 ≠ [] → j_next_seq j < u64_max →
  roll io j = (j', Ok u) →
  writer_inv j' ((gs ++ [g]) ++ [(j_next_seq j, 0, [])]) [].
Proof.
  intros [Hd _ Hg Hp Hb Hc Hn He Hlive] Hne Hmax H.
  rewrite app_nil_r in Hn.
  assert (g.1.1 < j_next_seq j) as Hlt.
  { pose proof (last_base _ _ Hg). rewrite Hn, log_app, length_app.
    change (log [g]) with (g.2 ++ []). rewrite app_nil_r.
    destruct (g.2); [done|]. simpl. lia. }
  assert (u64_ok (j_next_seq j)) as Hu by (unfold u64_ok; unfold_ranges; lia).
  destruct (dir_insert_last (j_next_seq j) (encode_segment_header (j_next_seq j) 0)
              (whole_dir (gs ++ [g]))) as [Hins Hex]; [by apply whole_dir_bases|].
  destruct (groups_new (gs ++ [g]) (j_next_seq j)) as [Hg' Hlog']; try done.
  { by destruct gs. }
  { intros h. rewrite last_snoc. by intros [= <-]. }
  unfold roll in H. st_steps H.
  match goal with Hr : create_segment _ _ _ _ = (?s, Ok _) |- _ =>
    rename Hr into Hcr, s into s1 end.
  assert (s1 = set_dir (whole_dir (gs ++ [g]) ++
            [(j_next_seq j, encode_segment_header (j_next_seq j) 0)]) j) as ->.
  { unfold create_segment in Hcr. st_steps Hcr. unfold id in *. rewrite Hd, Hex, Hins in Hcr.
    destruct io as [| | |[n|]]; st_steps Hcr; try discriminate; done. }
  cbn beta iota. split; cbn -[whole_dir log encode_segment_header]; try done.
  - rewrite (whole_dir_app (gs ++ [g])). by f_equal.
  - eexists. by rewrite last_snoc.
  - by rewrite app_nil_r, Hlog'.
Qed.

(** A flush of a non-empty group: refused when the disk refuses it, and
    otherwise the group is in the directory before any roll. *)
Lemma flush_group io j gs g ps :
  writer_inv j (gs ++ [g]) ps → ps ≠ [] →
  match io with
  | WriteFails _ | SyncFails => ∃ j' e, flush io j = (j', Err e)
  | _ =>
      ∃ j1, writer_inv j1 (gs ++ [grow g ps]) [] ∧ j_next_seq j1 = j_next_seq j ∧
        flush io j =
          (_ ← (if SEGMENT_TARGET_BYTES <=? j_segment_bytes j1 then roll io else mret tt);
           st_get durable_seq) j1
  end.
Proof.
  intros [Hd (g' & Hl & Hbase) Hg Hp Hb Hc Hn He Hlive] Hne.
  rewrite last_snoc in Hl. injection Hl as <-.
  pose proof (groups_bases _ _ _ Hg) as [Hbs _].
  destruct (groups_grow gs g ps Hg Hp) as [Hg' Hlog'].
  assert (dir_append (j_segment_base j) (j_buffer j) (j_dir j) = whole_dir (gs ++ [grow g ps])) as Hdir.
  { rewrite Hd, Hbase, dir_append_last, Hb, segment_bytes_grow by done.
    by rewrite whole_dir_app. }
  set (j1 := set_stats (mkStats (st_records (j_stats j)) (st_payload_bytes (j_stats j))
               (st_flushes (j_stats j) + 1) (st_segments_rolled (j_stats j)))
             (set_buffer [] 0 (set_segment (j_segment_base j)
               (j_segment_bytes j + Z.of_nat (length (j_buffer j)))
               (set_dir (whole_dir (gs ++ [grow g ps])) j)))).
  assert (writer_inv j1 (gs ++ [grow g ps]) []) as H1.
  { split; simpl; try done.
    - exists (grow g ps). by rewrite last_snoc.
    - by rewrite app_nil_r, Hlog'. }
  assert (∃ x l, j_buffer j = x :: l) as (x & l & E).
  { rewrite Hb. destruct ps as [|p ps]; [done|]. rewrite frames_bytes_cons.
    destruct (frame_bytes p) as [|x l] eqn:E; [|by exists x, (l ++ frames_bytes ps)].
    apply (f_equal length) in E. rewrite length_frame_bytes in E. done. }
  unfold flush, poison, st_get, st_modify, st_fail, mbind, ST_bind, id.
  rewrite Hlive, Hdir, E. destruct io; eauto.
  all: exists j1; split_and!; [done..|]; unfold j1; by rewrite E.
Qed.

(** A flush that is acknowledged leaves every pending record in the directory,
    whether or not it rolled to a new segment. *)
Lemma flush_inv io j gs ps j' seq :
  writer_inv j gs ps → j_next_seq j < u64_max →
  flush io j = (j', Ok seq) →
  ∃ gs', writer_inv j' gs' [] ∧ log gs' = log gs ++ ps.
Proof.
  intros Hinv Hmax H. pose proof (wi_last _ _ _ Hinv) as (g & Hl & _).
  apply last_Some in Hl as (gs0 & ->).
  destruct (decide (ps = [])) as [->|Hne].
  - exists (gs0 ++ [g]). rewrite app_nil_r. split; [|done].
    unfold flush in H. st_steps H. unfold id in H.
    rewrite (wi_live _ _ _ Hinv), (wi_buffer _ _ _ Hinv) in H.
    change (frames_bytes []) with (@nil byte) in H. cbv iota in H. by st_prim H.
  - pose proof (flush_group io _ _ _ _ Hinv Hne) as Hf.
    destruct (groups_grow gs0 g ps (wi_groups _ _ _ Hinv) (wi_pending _ _ _ Hinv)) as [Hg' Hlog'].
    destruct io; [|naive_solver congruence..|].
    all: destruct Hf as (j1 & H1 & Hnext & Hf); rewrite Hf in H; st_steps H.
    all: match goal with Hr : (if _ then _ else _) _ = (_, Ok _) |- _ => rename Hr into Hroll end.
    all: case_bool_in Hroll; [|st_prim Hroll; subst; eauto].
    all: assert ((grow g ps).2 ≠ []) as Hgne by (destruct ps, (g.2) eqn:E; simpl; rewrite ?E; done).
    all: eexists; split; [eapply roll_inv; eauto; lia|].
    all: rewrite log_app; unfold log at 2; simpl; by rewrite app_nil_r.
Qed.

(** ** Claiming a directory a crash left behind *)

Lemma torn_nil : torn_tail [].
Proof.
  apply (torn_tail_nil (ex_header, str "hello")). split; [exact ex_header_ok|reflexivity].
Qed.

Lemma final_seq_app q a b : final_seq q (a ++ b) = final_seq (final_seq q a) b.
Proof. apply foldl_app. Qed.
Lemma final_epoch_app e a b : final_epoch e (a ++ b) = final_epoch (final_epoch e a) b.
Proof. apply foldl_app. Qed.

(** One segment, whole or torn, adds its records to the scan. *)
Lemma claim_scan_step s g tail rest acc :
  groups_from s [g] → torn_tail tail → (tail ≠ [] → rest = []) →
  claim_scan ((g.1.1, (group_file g).2 ++ tail) :: rest) acc =
    claim_scan rest (mkClaimScan (cs_dir acc ++ [group_file g])
      (if (length tail =? 0)%nat then cs_truncated acc else Z.of_nat (length tail))
      (cs_records acc + Z.of_nat (length g.2))
      (final_seq (cs_seq acc) g.2) (final_epoch (cs_epoch acc) g.2)).
Proof.
  intros (Hb & Hu & Hc & Hs & _ & _) Ht Hr. cbn [claim_scan].
  change (group_file g).2 with (segment_bytes g.1.1 g.1.2 g.2).
  rewrite scan_segment_frames by (by rewrite ?Hb).
  cbv [mbind result_bind]. cbn [records torn last_seq last_epoch good_end].
  assert ((if 0 <? Z.of_nat (length g.2)
           then (final_seq SEQ_ZERO g.2, final_epoch GENESIS g.2)
           else (cs_seq acc, cs_epoch acc)) =
          (final_seq (cs_seq acc) g.2, final_epoch (cs_epoch acc) g.2)) as ->.
  { destruct (g.2); [done|]. simpl. done. }
  destruct tail as [|x tail]; cbn [length Nat.eqb negb].
  - by rewrite app_nil_r.
  - rewrite Hr by done. cbn [claim_scan].
    rewrite take_app_length, length_app. cbn [length].
    by replace (length (segment_bytes g.1.1 g.1.2 g.2) + S (length tail) -
             length (segment_bytes g.1.1 g.1.2 g.2))%nat with (S (length tail)) by lia.
Qed.

Lemma claim_scan_whole gs : ∀ s rest acc,
  groups_from s gs →
  claim_scan (whole_dir gs ++ rest) acc =
    claim_scan rest (mkClaimScan (cs_dir acc ++ whole_dir gs) (cs_truncated acc)
      (cs_records acc + Z.of_nat (length (log gs)))
      (final_seq (cs_seq acc) (log gs)) (final_epoch (cs_epoch acc) (log gs))).
Proof.
  induction gs as [|g gs IH]; intros s rest acc Hg.
  - simpl. rewrite app_nil_r, Z.add_0_r. by destruct acc.
  - change (whole_dir (g :: gs)) with ([group_file g] ++ whole_dir gs).
    change (log (g :: gs)) with (g.2 ++ log gs).
    destruct Hg as (H1 & H2 & H3 & H4 & _ & Hr).
    pose proof (claim_scan_step s g [] (whole_dir gs ++ rest) acc) as Hstep.
    rewrite app_nil_r in Hstep. cbn [app]. 
    change (group_file g) with (g.1.1, (group_file g).2) at 1.
    rewrite Hstep; [|by split_and!|apply torn_nil|done].
    rewrite (IH _ _ _ Hr). cbn [cs_dir cs_truncated cs_records cs_seq cs_epoch length Nat.eqb].
    rewrite final_seq_app, final_epoch_app, length_app, <-app_assoc.
    f_equal. f_equal. lia.
Qed.

Lemma append_total kind now payload j :
  j_poisoned j = None → Z.of_nat (length payload) ≤ MAX_PAYLOAD →
  ∃ j' seq, append kind now payload j = (j', Ok seq).
Proof.
  intros Hl Hp. unfold append, st_get, mbind, ST_bind, id. rewrite Hl.
  rewrite (proj2 (Z.ltb_ge _ _)) by done. cbn. eauto.
Qed.

Lemma roll_total j gs g :
  writer_inv j (gs ++ [g]) [] → g.2 ≠ [] → ∃ j', roll IoOk j = (j', Ok tt).
Proof.
  intros [Hd _ Hg _ _ _ Hn _ _] Hne. rewrite app_nil_r in Hn.
  assert (g.1.1 < j_next_seq j) as Hlt.
  { pose proof (last_base _ _ Hg). rewrite Hn, log_app, length_app.
    change (log [g]) with (g.2 ++ []). rewrite app_nil_r.
    destruct (g.2); [done|]. simpl. lia. }
  destruct (dir_insert_last (j_next_seq j) (encode_segment_header (j_next_seq j) 0)
              (whole_dir (gs ++ [g]))) as [_ Hex]; [by apply whole_dir_bases|].
  unfold roll, create_segment, st_get, st_modify, mbind, ST_bind, id. rewrite Hd, Hex.
  cbn. eauto.
Qed.

Lemma flush_total j gs g ps :
  writer_inv j (gs ++ [g]) ps → ∃ j' seq, flush IoOk j = (j', Ok seq).
Proof.
  intros Hinv. destruct (decide (ps = [])) as [->|Hne].
  - destruct Hinv as [_ _ _ _ Hb _ _ _ Hlive].
    unfold flush, st_get, mbind, ST_bind, id. rewrite Hlive, Hb. cbn. eauto.
  - destruct (flush_group IoOk _ _ _ _ Hinv Hne) as (j1 & H1 & _ & ->).
    unfold mbind, ST_bind, st_get. destruct (_ <=? _).
    + destruct (roll_total _ _ _ H1) as [j2 ->]; [|eauto].
      destruct g as [? fs], ps; [done|]. simpl. by destruct fs.
    + cbn. eauto.
Qed.

(** The claim report is fixed at the claim. *)
Lemma append_report kind now p j : j_claim_report (append kind now p j).1 = j_claim_report j.
Proof.
  unfold append, st_get, st_modify, st_fail, mbind, ST_bind, mret, ST_ret, id.
  repeat case_match; simplify_eq/=; done.
Qed.

Lemma flush_report io j : j_claim_report (flush io j).1 = j_claim_report j.
Proof.
  unfold flush, poison, roll, create_segment, st_get, st_modify, st_fail, mbind, ST_bind,
    mret, ST_ret, id.
  repeat case_match; simplify_eq/=; done.
Qed.

(** The record a claim writes first. *)
Definition claim_record (l : list Frame) (now : Nanos) : Frame :=
  let epoch := epoch_next (final_epoch GENESIS l) in
  (mkFrameHeader (1 + Z.of_nat (length l)) epoch now RecordKind.EpochClaimed 16,
   le_bytes 8 epoch ++ le_bytes 8 (Z.of_nat (length l))).

(** The claim's own record, appended and flushed. *)
Lemma claim_appends j0 gs g now :
  let l := log (gs ++ [g]) in
  writer_inv j0 (gs ++ [g]) [] → u64_ok now → 2 + Z.of_nat (length l) < u64_max →
  j_epoch j0 = epoch_next (final_epoch GENESIS l) →
  ∃ j' gs',
    match append_and_flush IoOk RecordKind.EpochClaimed now
            (le_bytes 8 (epoch_next (final_epoch GENESIS l)) ++
             le_bytes 8 (Z.of_nat (length l))) j0 with
    | (j, Ok _) => (j_dir j, Ok (set_stats stats_default j))
    | (j, Err e) => (j_dir j, Err e)
    end = (j_dir j', Ok (E:=JournalError.t) j') ∧
    writer_inv j' gs' [] ∧ log gs' = l ++ [claim_record l now] ∧
    j_claim_report j' = j_claim_report j0.
Proof.
  intros l H0 Hnow Hmax Hep. set (e := epoch_next (final_epoch GENESIS l)) in *.
  set (payload := le_bytes 8 e ++ le_bytes 8 (Z.of_nat (length l))).
  pose proof (wi_next _ _ _ H0) as Hn0. rewrite app_nil_r in Hn0. fold l in Hn0.
  assert (length payload = 16%nat) as Hpl by done.
  destruct (append_total RecordKind.EpochClaimed now payload j0) as (j1 & s1 & Happ);
    [apply H0|done|].
  destruct (append_inv _ _ _ _ _ _ _ _ H0 Hnow ltac:(lia) Happ) as (_ & H1 & _).
  destruct (flush_total _ _ _ _ H1) as (j2 & s2 & Hfl).
  destruct (flush_inv _ _ _ _ _ _ H1 ltac:(rewrite (wi_next _ _ _ H1), length_app; simpl; fold l; lia) Hfl)
    as (gs' & H2 & Hlog).
  exists (set_stats stats_default j2), gs'.
  unfold append_and_flush, mbind, ST_bind. rewrite Happ, Hfl. split_and!.
  - done.
  - destruct H2. by split.
  - rewrite Hlog. unfold claim_record. fold l e payload. by rewrite Hpl, Hn0, Hep.
  - change (j_claim_report j2 = j_claim_report j0).
    pose proof (flush_report IoOk j1) as E1. rewrite Hfl in E1.
    pose proof (append_report RecordKind.EpochClaimed now payload j0) as E2.
    rewrite Happ in E2. simpl in *. congruence.
Qed.

(** A directory holding whole segments, the last possibly torn, is claimed: the
    log is what it held plus the claim record, under the next epoch. *)
Lemma claim_recovers gs g tail now :
  groups_from 1 (gs ++ [g]) → torn_tail tail → u64_ok now →
  let l := log (gs ++ [g]) in
  2 + Z.of_nat (length l) < u64_max →
  ∃ j' gs',
    claim false IoOk (whole_dir gs ++ [(g.1.1, (group_file g).2 ++ tail)]) now =
      (j_dir j', Ok j') ∧
    writer_inv j' gs' [] ∧ log gs' = l ++ [claim_record l now] ∧
    j_claim_report j' =
      mkClaimReport (epoch_next (final_epoch GENESIS l)) (Z.of_nat (length l))
        (Z.of_nat (length l)) (Z.of_nat (length tail)).
Proof.
  intros Hg Ht Hnow l Hmax. 
  pose proof Hg as (Hgs & _ & Hlast)%groups_from_app.
  assert (final_seq SEQ_ZERO l = Z.of_nat (length l)) as Hfs.
  { rewrite (final_seq_from 1) by first [apply groups_seq, Hg | done]. lia. }
  set (e := epoch_next (final_epoch GENESIS l)) in *.
  assert (u64_ok e) as He by (unfold e, epoch_next, u64_ok; unfold_ranges; lia).
  assert (claim_scan (whole_dir gs ++ [(g.1.1, (group_file g).2 ++ tail)])
            (mkClaimScan [] 0 0 SEQ_ZERO GENESIS) =
          Ok (mkClaimScan (whole_dir (gs ++ [g])) (Z.of_nat (length tail))
                (Z.of_nat (length l)) (Z.of_nat (length l)) (final_epoch GENESIS l))) as Hscan.
  { rewrite (claim_scan_whole gs 1) by done.
    rewrite (claim_scan_step _ g tail [] _ Hlast) by done. cbn [claim_scan].
    cbn [cs_dir cs_truncated cs_records cs_seq cs_epoch app].
    rewrite <-final_seq_app, <-final_epoch_app. 
    assert (log gs ++ g.2 = l) as ->.
    { unfold l. rewrite log_app. change (log [g]) with (g.2 ++ []). by rewrite app_nil_r. }
    rewrite whole_dir_app, Z.add_0_l, <-Nat2Z.inj_add, Hfs.
    assert (length (log gs) + length g.2 = length l)%nat as ->.
    { unfold l. rewrite log_app, length_app. change (log [g]) with (g.2 ++ []).
      by rewrite app_nil_r. }
    by destruct tail. }
  unfold claim. rewrite Hscan. cbn [cs_dir cs_truncated cs_records cs_seq cs_epoch].
  fold e. rewrite whole_dir_app. change (whole_dir [g]) with [group_file g].
  rewrite last_snoc. cbn [group_file].
  assert (seq_next (Z.of_nat (length l)) = 1 + Z.of_nat (length l)) as ->.
  { unfold seq_next. rewrite u64_saturate_in by (unfold_ranges; lia). lia. }
  match goal with
  | |- context [append_and_flush _ _ _ _ ?j] => apply (claim_appends j gs g now); [|done..]
  end.
  split; simpl; try done.
  - by rewrite whole_dir_app.
  - exists g. by rewrite last_snoc.
  - by rewrite app_nil_r.
Qed.

Lemma claim_fresh now :
  u64_ok now →
  ∃ j' gs', claim false IoOk [] now = (j_dir j', Ok j') ∧ writer_inv j' gs' [] ∧
    log gs' = [claim_record [] now].
Proof.
  intros Hnow. unfold claim. cbn [claim_scan cs_dir cs_seq cs_epoch cs_records cs_truncated last].
  change (seq_next SEQ_ZERO) with 1. cbn [dir_insert].
  match goal with
  | |- context [append_and_flush _ _ _ _ ?j] =>
      destruct (claim_appends j [] (1, now, []) now) as (j' & gs' & H & Hi & Hl & _)
  end; [|done|vm_compute; done|done|by exists j', gs'].
  split; try done.
  - by exists (1, now, []).
Qed.

(** ** Properties *)

(** Where a crash finds the writer: with [k] bytes of its buffer in the file,
    none of them between flushes; or with the group of a flush durable and the
    next segment being made, [h] bytes of its header in it; or with a last
    segment that holds its header alone, which no sync has covered yet and of
    which [h] bytes are left. *)
Inductive CrashPoint :=
| Writing (k : nat)
| Rolling (h : nat)
| Unsynced (h : nat).

Definition reached (j : Journal) (c : CrashPoint) : Prop :=
  match c with
  | Writing _ => True
  | Rolling _ =>
      j_buffer j ≠ [] ∧ SEGMENT_TARGET_BYTES ≤ j_segment_bytes j + Z.of_nat (length (j_buffer j))
  | Unsynced _ =>
      match last (j_dir j) with Some (_, file) => length file = SEGMENT_HEADER_LEN | None => False end
  end.

(** What it leaves in the directory. *)
Definition crash (j : Journal) (c : CrashPoint) : Dir :=
  match c with
  | Writing k => dir_append (j_segment_base j) (take k (j_buffer j)) (j_dir j)
  | Rolling h =>
      dir_insert (j_next_seq j) (take h (encode_segment_header (j_next_seq j) 0))
        (dir_append (j_segment_base j) (j_buffer j) (j_dir j))
  | Unsynced h =>
      (λ s : Seq * File, if s.1 =? j_segment_base j then (s.1, take h s.2) else s) <$> j_dir j
  end.

(** Whether it leaves a segment whose header is not all there. *)
Definition torn_header (c : CrashPoint) : bool :=
  match c with
  | Writing _ => false
  | Rolling h | Unsynced h => (h <? SEGMENT_HEADER_LEN)%nat
  end.

(** The records that were pending and are in the directory whole. *)
Definition survivors (c : CrashPoint) (pending : list Frame) : list Frame :=
  match c with
  | Writing k => take (whole_within k pending) pending
  | Rolling _ => pending
  | Unsynced _ => []
  end.

Lemma survivors_prefix c pending : ∃ lost, pending = survivors c pending ++ lost.
Proof.
  destruct c as [k|h|h]; cbn [survivors].
  - exists (drop (whole_within k pending) pending). by rewrite take_drop.
  - exists []. by rewrite app_nil_r.
  - by exists pending.
Qed.

Lemma survivors_length c pending : (length (survivors c pending) ≤ length pending)%nat.
Proof. destruct (survivors_prefix c pending) as [lost E]. rewrite E at 2. rewrite length_app. lia. Qed.

(** The claim cannot read a segment without its header, and takes what it finds
    to be a failed read rather than a torn tail: it fails, and every later one. *)
Lemma torn_segment_header_blocks_claim gs base created k io now :
  groups_from 1 gs → (k < SEGMENT_HEADER_LEN)%nat →
  claim false io (whole_dir gs ++ [(base, take k (encode_segment_header base created))]) now =
    (whole_dir gs ++ [(base, take k (encode_segment_header base created))],
     Err (JournalError.Io "read segment header")).
Proof.
  intros Hg Hk. unfold claim. rewrite (claim_scan_whole gs 1) by done.
  cbn [claim_scan]. unfold scan_segment.
  assert ((length (take k (encode_segment_header base created)) <? SEGMENT_HEADER_LEN)%nat = true)
    as ->; [|done].
  apply Nat.ltb_lt. rewrite length_take. lia.
Qed.

Lemma frames_bytes_nil fs : frames_bytes fs = [] → fs = [].
Proof.
  destruct fs as [|f fs]; [done|]. rewrite frames_bytes_cons. intros H.
  apply (f_equal length) in H. rewrite length_app, length_frame_bytes in H. done.
Qed.

Lemma take_header h base created :
  (SEGMENT_HEADER_LEN ≤ h)%nat →
  take h (encode_segment_header base created) = encode_segment_header base created.
Proof. intros. apply take_ge. by rewrite length_encode_segment_header. Qed.

(** What a crash leaves is whole segments, then whole records and one torn at
    the end of the last, or a last segment without all of its header. *)
Definition left_by (dir : Dir) (l : list Frame) : Prop :=
  ∃ gs g tail, dir = whole_dir gs ++ [(g.1.1, (group_file g).2 ++ tail)] ∧
    groups_from 1 (gs ++ [g]) ∧ torn_tail tail ∧ log (gs ++ [g]) = l.
Definition headless (dir : Dir) (l : list Frame) : Prop :=
  ∃ gs base created h, dir = whole_dir gs ++ [(base, take h (encode_segment_header base created))] ∧
    groups_from 1 gs ∧ (h < SEGMENT_HEADER_LEN)%nat ∧ log gs = l.

Lemma crash_writing j gs pending k :
  writer_inv j gs pending → left_by (crash j (Writing k)) (log gs ++ survivors (Writing k) pending).
Proof.
  intros [Hd (g & Hl & Hbase) Hg Hp Hb _ _ _ _].
  apply last_Some in Hl as (gs0 & ->). pose proof (groups_bases _ _ _ Hg) as [Hbs _].
  assert (∃ tail, take k (j_buffer j) = frames_bytes (survivors (Writing k) pending) ++ tail ∧
    torn_tail tail) as (tail & Hcut & Ht).
  { rewrite Hb. destruct (decide (pending = [])) as [->|Hne].
    - exists []. split; [by destruct k|apply torn_nil].
    - apply cut_frames; [|done]. by eapply seq_from_ok. }
  assert (seq_from (1 + Z.of_nat (length (log (gs0 ++ [g])))) (survivors (Writing k) pending)) as Hpn.
  { destruct (survivors_prefix (Writing k) pending) as [lost E]. rewrite E in Hp.
    by apply seq_from_app in Hp as [? _]. }
  destruct (groups_grow _ _ _ Hg Hpn) as [Hg' Hlog'].
  exists gs0, (grow g (survivors (Writing k) pending)), tail. split_and!; [|done..].
  unfold crash. rewrite Hd, Hbase, dir_append_last, Hcut, app_assoc, segment_bytes_grow by done. done.
Qed.

(** The directory of a roll, up to the header. *)
Lemma crash_rolling j gs pending h :
  writer_inv j gs pending → pending ≠ [] → j_next_seq j < u64_max →
  ∃ gs1, crash j (Rolling h) =
      whole_dir gs1 ++ [(j_next_seq j, take h (encode_segment_header (j_next_seq j) 0))] ∧
    groups_from 1 (gs1 ++ [(j_next_seq j, 0, [])]) ∧ log gs1 = log gs ++ pending.
Proof.
  intros [Hd (g & Hl & Hbase) Hg Hp Hb _ Hn _ _] Hne Hmax.
  apply last_Some in Hl as (gs0 & ->). pose proof (groups_bases _ _ _ Hg) as [Hbs _].
  destruct (groups_grow _ _ _ Hg Hp) as [Hg' Hlog']. exists (gs0 ++ [grow g pending]).
  assert ((grow g pending).2 ≠ []) as Hgne by (destruct pending, (g.2) eqn:E; simpl; rewrite ?E; done).
  rewrite <-Hlog' in Hn. split_and!; [| |done].
  - unfold crash. rewrite Hd, Hbase, dir_append_last, Hb, segment_bytes_grow by done.
    assert (whole_dir gs0 ++ [((grow g pending).1.1, (group_file (grow g pending)).2)] =
            whole_dir (gs0 ++ [grow g pending])) as Ew by (by rewrite whole_dir_app).
    change (g.1.1) with (grow g pending).1.1. rewrite Ew.
    apply dir_insert_last, whole_dir_bases; [done|].
    rewrite (last_base _ _ Hg'), Hn, log_app, length_app. change (log [grow g pending]) with ((grow g pending).2 ++ []).
    rewrite app_nil_r. destruct (grow g pending).2; [done|]. simpl. lia.
  - apply groups_new; [done|by destruct gs0| |done|].
    + intros x. rewrite last_snoc. by intros [= <-].
    + unfold u64_ok. unfold_ranges. lia.
Qed.

(** A last segment that is its header alone holds no record. *)
Lemma unsynced_empty j gs pending h :
  writer_inv j gs pending → reached j (Unsynced h) →
  ∃ gs0 g, gs = gs0 ++ [g] ∧ g.2 = [] ∧
    crash j (Unsynced h) = whole_dir gs0 ++ [(g.1.1, take h (encode_segment_header g.1.1 g.1.2))].
Proof.
  intros [Hd (g & Hl & Hbase) Hg _ _ _ _ _ _] Hr.
  apply last_Some in Hl as (gs0 & ->). pose proof (groups_bases _ _ _ Hg) as [Hbs _]. exists gs0, g.
  cbn [reached] in Hr. rewrite Hd, whole_dir_app in Hr. change (whole_dir [g]) with [group_file g] in Hr.
  rewrite last_snoc in Hr. cbn [group_file] in Hr. unfold segment_bytes in Hr.
  rewrite length_app, length_encode_segment_header in Hr.
  assert (g.2 = []) as E by (apply frames_bytes_nil, nil_length_inv; lia). split_and!; [done..|].
  cbn [crash]. rewrite Hd, Hbase, whole_dir_app, fmap_app. f_equal.
  - clear Hd Hg Hr. induction Hbs as [|x gs0 Hx Hbs IH]; [done|].
    change (whole_dir (x :: gs0)) with (group_file x :: whole_dir gs0). cbn [fmap list_fmap group_file fst snd].
    rewrite (proj2 (Z.eqb_neq _ _)) by lia. f_equal. exact IH.
  - change (whole_dir [g]) with [group_file g]. cbn [fmap list_fmap group_file fst snd].
    rewrite Z.eqb_refl. unfold segment_bytes. rewrite E.
    change (frames_bytes []) with (@nil byte). by rewrite app_nil_r.
Qed.

Lemma reached_pending j gs pending h :
  writer_inv j gs pending → reached j (Rolling h) → pending ≠ [].
Proof. intros Hi [Hb _] ->. apply Hb. by rewrite (wi_buffer _ _ _ Hi). Qed.

Lemma crash_left j gs pending c :
  writer_inv j gs pending → reached j c → j_next_seq j < u64_max →
  if torn_header c then headless (crash j c) (log gs ++ survivors c pending)
  else left_by (crash j c) (log gs ++ survivors c pending).
Proof.
  intros Hi Hr Hmax. destruct c as [k|h|h]; cbn [torn_header].
  - by apply crash_writing.
  - destruct (crash_rolling j gs pending h Hi (reached_pending _ _ _ _ Hi Hr) Hmax) as (gs1 & E & Hg & Hlog).
    destruct (Nat.ltb_spec h SEGMENT_HEADER_LEN) as [Hh|Hh].
    + exists gs1, (j_next_seq j), 0, h. split_and!; [done| |done|done].
      by apply groups_from_app in Hg as [? _].
    + exists gs1, (j_next_seq j, 0, []), []. rewrite E, take_header by done. split_and!; [|done|apply torn_nil|].
      * unfold group_file, segment_bytes. cbn [fst snd].
        change (frames_bytes []) with (@nil byte). by rewrite !app_nil_r.
      * rewrite log_app. change (log [(j_next_seq j, 0, [])]) with (@nil Frame). by rewrite app_nil_r.
  - destruct (unsynced_empty j gs pending h Hi Hr) as (gs0 & g & -> & Eg & E).
    pose proof (wi_groups _ _ _ Hi) as Hg. cbn [survivors]. rewrite app_nil_r.
    assert (log (gs0 ++ [g]) = log gs0) as El.
    { rewrite log_app. change (log [g]) with (g.2 ++ []). by rewrite Eg, app_nil_r. }
    destruct (Nat.ltb_spec h SEGMENT_HEADER_LEN) as [Hh|Hh].
    + exists gs0, g.1.1, g.1.2, h. split_and!; [done| |done|done].
      by apply groups_from_app in Hg as [? _].
    + exists gs0, g, []. split_and!; [|done|apply torn_nil|done].
      rewrite E, take_header by done. unfold group_file, segment_bytes. cbn [snd]. rewrite Eg.
      change (frames_bytes []) with (@nil byte). by rewrite !app_nil_r.
Qed.

(** The next claim cuts a torn record, and is refused by a torn header. *)
Lemma crash_claim j gs pending c now :
  writer_inv j gs pending → reached j c → torn_header c = false → u64_ok now →
  2 + Z.of_nat (length (log gs ++ pending)) < u64_max →
  ∃ j' gs', let l := log gs ++ survivors c pending in
    claim false IoOk (crash j c) now = (j_dir j', Ok j') ∧
    writer_inv j' gs' [] ∧ log gs' = l ++ [claim_record l now].
Proof.
  intros Hi Hr Ht Hnow Hmax.
  pose proof (wi_next _ _ _ Hi) as Hn. pose proof (crash_left j gs pending c Hi Hr ltac:(lia)) as Hl.
  rewrite Ht in Hl. destruct Hl as (gs0 & g & tail & -> & Hg & Htail & Hlog).
  pose proof (survivors_length c pending).
  destruct (claim_recovers gs0 g tail now Hg Htail Hnow) as (j' & gs' & Hc & Hi' & Hl' & _).
  { rewrite Hlog, length_app. rewrite length_app in Hmax. lia. }
  exists j', gs'. cbv zeta. by rewrite <-Hlog.
Qed.

Lemma crash_blocked j gs pending c :
  writer_inv j gs pending → reached j c → torn_header c = true → j_next_seq j < u64_max →
  headless (crash j c) (log gs ++ survivors c pending) ∧
  ∀ io now, claim false io (crash j c) now = (crash j c, Err (JournalError.Io "read segment header")).
Proof.
  intros Hi Hr Ht Hmax. pose proof (crash_left j gs pending c Hi Hr Hmax) as Hl. rewrite Ht in Hl.
  split; [done|]. intros io now. destruct Hl as (gs0 & base & created & h & -> & Hg & Hh & _).
  by apply torn_segment_header_blocks_claim.
Qed.

(** A flush that fails leaves what some crash would have left. *)
Lemma failed_flush_is_crash io j gs pending j' e :
  writer_inv j gs pending → j_next_seq j < u64_max → flush io j = (j', Err e) →
  ∃ c, reached j c ∧ j_dir j' = crash j c.
Proof.
  intros Hi Hmax H. pose proof (wi_live _ _ _ Hi) as Hlive.
  unfold flush, poison, roll, create_segment, st_get, st_modify, st_fail, mbind, ST_bind, mret, ST_ret, id in H.
  rewrite Hlive in H. destruct (j_buffer j) as [|x buf] eqn:Eb; [done|].
  assert (∀ k, reached j (Writing k)) as Hw by done.
  assert (crash j (Writing (length (j_buffer j))) =
          dir_append (j_segment_base j) (j_buffer j) (j_dir j)) as Hall
    by (cbn [crash]; by rewrite take_ge).
  destruct io as [|n| |[n|]]; cbn -[dir_append dir_insert dir_exists SEGMENT_TARGET_BYTES encode_segment_header] in H.
  2: { injection H as <- _. exists (Writing n). split; [done|]. cbn [crash j_dir set_poisoned set_dir].
       by rewrite Eb. }
  2: { injection H as <- _. exists (Writing (length (j_buffer j))). split; [done|]. rewrite Hall, Eb. done. }
  all: destruct (SEGMENT_TARGET_BYTES <=? _) eqn:Hroll; cbn -[dir_append dir_insert dir_exists encode_segment_header] in H; [|by injection H].
  all: destruct (dir_exists _ _); [injection H as <- _; exists (Writing (length (j_buffer j))); split; [done|];
    rewrite Hall, Eb; done|].
  all: cbn -[dir_append dir_insert encode_segment_header] in H; try done; injection H as <- _.
  - z_reflect. exists (Rolling n). split; [|cbn [crash]; by rewrite Eb]. cbn [reached]. rewrite Eb.
    by rewrite Eb in Hroll.
  - exists (Writing (length (j_buffer j))). split; [done|]. by rewrite Hall, Eb.
Qed.

(** A writer's life, with the records that are durable and those still pending:
    the first claim, appends, acknowledged flushes, and a crash with the claim
    that follows it, by a new process or by the same one started again. *)
Inductive life : Journal → list Frame → list Frame → Prop :=
| life_start now j d :
    u64_ok now → claim false IoOk [] now = (d, Ok j) → life j [claim_record [] now] []
| life_append kind now payload j j' seq durable pending :
    life j durable pending → u64_ok now → j_next_seq j < u64_max →
    append kind now payload j = (j', Ok seq) →
    life j' durable (pending ++
      [(mkFrameHeader seq (j_epoch j) now kind (Z.of_nat (length payload)), payload)])
| life_flush io j j' seq durable pending :
    life j durable pending → j_next_seq j < u64_max →
    flush io j = (j', Ok seq) → life j' (durable ++ pending) []
| life_crash c now j j' d durable pending :
    life j durable pending → reached j c → torn_header c = false → u64_ok now →
    1 + j_next_seq j < u64_max →
    claim false IoOk (crash j c) now = (d, Ok j') →
    let l := durable ++ survivors c pending in life j' (l ++ [claim_record l now]) [].

Lemma life_inv j durable pending :
  life j durable pending → ∃ gs, writer_inv j gs pending ∧ log gs = durable.
Proof.
  induction 1 as [now j d Hnow Hc|kind now payload j j' seq durable pending Hl (gs & Hi & Hg) Hnow Hmax Ha
                 |io j j' seq durable pending Hl (gs & Hi & Hg) Hmax Hf
                 |c now j j' d durable pending Hl (gs & Hi & Hg) Hr Ht Hnow Hmax Hc].
  - destruct (claim_fresh now Hnow) as (j' & gs' & E & Hi & Hlog).
    rewrite Hc in E. simplify_eq. eauto.
  - destruct (append_inv _ _ _ _ _ _ _ _ Hi Hnow Hmax Ha) as (-> & ? & _). eauto.
  - destruct (flush_inv _ _ _ _ _ _ Hi Hmax Hf) as (gs' & ? & Hg'). subst. eauto.
  - pose proof (wi_next _ _ _ Hi).
    destruct (crash_claim j gs pending c now Hi Hr Ht Hnow ltac:(lia)) as (j1 & gs' & E & Hi' & Hlog).
    rewrite Hc in E. simplify_eq. eauto.
Qed.

(** C5: nothing acknowledged is lost and nothing is invented, over any number of
    crashes and claims.  Stop a writer anywhere, in the middle of a flush, in
    the middle of the roll that may follow it, or by a flush that fails, and
    claim the directory again.  The claim succeeds: the log holds every record a
    flush acknowledged, in order, then exactly those pending records whose last
    byte had reached the file, then the claim's own record under the next epoch,
    and the writer it returns goes on from there.  The one exception is a crash
    that leaves a new segment without its whole header: the records are all in
    the segments before it, and no claim ever succeeds. *)
Theorem crash_recovery j durable pending c now :
  life j durable pending → reached j c → u64_ok now → 1 + j_next_seq j < u64_max →
  let l := durable ++ survivors c pending in
  (∃ lost, pending = survivors c pending ++ lost) ∧
  (if torn_header c then
     headless (crash j c) l ∧
     ∀ io now', claim false io (crash j c) now' = (crash j c, Err (JournalError.Io "read segment header"))
   else
     ∃ j', claim false IoOk (crash j c) now = (j_dir j', Ok j') ∧ life j' (l ++ [claim_record l now]) []) ∧
  (∀ io j' e, flush io j = (j', Err e) → ∃ c', reached j c' ∧ j_dir j' = crash j c').
Proof.
  intros Hlife Hr Hnow Hmax l. pose proof Hlife as (gs & Hi & Hg)%life_inv.
  pose proof (wi_next _ _ _ Hi). split_and!; [apply survivors_prefix| |].
  - unfold l. rewrite <-Hg. destruct (torn_header c) eqn:Ht; [apply crash_blocked; [done..|lia]|].
    destruct (crash_claim j gs pending c now Hi Hr Ht Hnow ltac:(lia)) as (j' & gs' & Hc & Hi' & Hl').
    exists j'. split; [done|]. rewrite Hg in *. by eapply life_crash.
  - intros io j' e. eapply failed_flush_is_crash; [done|lia].
Qed.

(** A writer that claimed an empty directory and appended one record. *)
Definition ex_claimed : Journal :=
  Eval vm_compute in
    unwrap_or (claim false IoOk [] 5).2
      (mkJournal [] 0 0 0 0 [] 0 None stats_default (mkClaimReport 0 0 0 0)).
Definition ex_appended : Journal :=
  Eval vm_compute in (append RecordKind.Decision 6 (str "hello") ex_claimed).1.
Definition ex_frame : Frame :=
  (mkFrameHeader 2 (j_epoch ex_claimed) 6 RecordKind.Decision 5, str "hello").

Lemma ex_appended_life : life ex_appended [claim_record [] 5] [ex_frame].
Proof.
  apply (life_append RecordKind.Decision 6 (str "hello") ex_claimed ex_appended 2 _ []).
  - apply (life_start 5 ex_claimed (j_dir ex_claimed)); [split; done | reflexivity].
  - split; done.
  - reflexivity.
  - reflexivity.
Qed.

Lemma crash_recovery_witness :
  survivors (Writing 36) [ex_frame] = [] ∧ survivors (Writing 100) [ex_frame] = [ex_frame] ∧
  ∃ j', let l := [claim_record [] 5] ++ survivors (Writing 36) [ex_frame] in
    claim false IoOk (crash ex_appended (Writing 36)) 9 = (j_dir j', Ok j') ∧
    life j' (l ++ [claim_record l 9]) [].
Proof.
  split; [vm_compute; reflexivity|]. split; [vm_compute; reflexivity|].
  apply (crash_recovery ex_appended [claim_record [] 5] [ex_frame] (Writing 36) 9).
  - exact ex_appended_life.
  - exact I.
  - split; done.
  - reflexivity.
Defined.

(** A flush the disk refused is the last thing the journal does: it
    reports the failure, and from then on every append and every flush is
    refused and changes nothing, whatever the disk would have answered. *)
Theorem poison_is_permanent j io :
  is_poisoned j = false → j_buffer j ≠ [] →
  match io with WriteFails _ | SyncFails => True | _ => False end →
  let j' := (flush io j).1 in
  (∃ doing, (flush io j).2 = Err (JournalError.Io doing)) ∧ is_poisoned j' = true ∧
  j_buffer j' = j_buffer j ∧ j_next_seq j' = j_next_seq j ∧
  (∀ kind now payload, ∃ doing, append kind now payload j' = (j', Err (JournalError.Poisoned doing))) ∧
  (∀ io', ∃ doing, flush io' j' = (j', Err (JournalError.Poisoned doing))).
Proof.
  intros Hp Hb Hio j'. unfold is_poisoned in Hp.
  destruct (j_poisoned j) eqn:E; [done|]. destruct (j_buffer j) eqn:Eb; [done|].
  unfold j', flush, append, poison, st_get, st_modify, st_fail, mbind, ST_bind, id.
  rewrite E, Eb.
  destruct io; try done; cbn [fst snd]; split_and!; eauto.
Qed.

Lemma poison_is_permanent_witness :
  let j' := (flush SyncFails ex_appended).1 in
  (∃ doing, (flush SyncFails ex_appended).2 = Err (JournalError.Io doing)) ∧
  is_poisoned j' = true ∧ j_buffer j' = j_buffer ex_appended ∧
  j_next_seq j' = j_next_seq ex_appended ∧
  (∀ kind now payload, ∃ doing,
     append kind now payload j' = (j', Err (JournalError.Poisoned doing))) ∧
  (∀ io', ∃ doing, flush io' j' = (j', Err (JournalError.Poisoned doing))).
Proof. apply (poison_is_permanent ex_appended SyncFails); [done | discriminate | exact I]. Defined.
