(* ===== verification/Tailer.v ===== *)
(** * The tailer (sentinel-journal/src/reader.rs)

    A cursor that follows the journal while another process writes it.  What the
    file system answers is a function of time: every access to it sees the
    directory of that moment.  The theorem: while each call sees one state of the
    directory, the calls deliver the log in order, without a gap or a repetition,
    whatever the writer appends or rolls between them. *)

From S2P Require Import Prelude Fixed Types Crc Format Segment Journal.

(** [dir], [index], [file] and [offset] of the cursor; a path is the base
    sequence that names it.  [t_clock] counts the accesses made so far. *)
Record Tailer := mkTailer {
  t_segments : list Seq;
  t_index : nat;
  t_file : option Seq;
  t_offset : nat;
  t_next_seq : Seq;
  t_clock : nat;
}.

(** What a call ends with when it does not answer: an error of the code, or
    loops that outran the fuel of the model. *)
Inductive TailFailure := Failed (e : JournalError.t) | OutOfFuel.

Abbreviation TM := (ST Tailer TailFailure).

Definition set_segments (l : list Seq) (t : Tailer) : Tailer :=
  mkTailer l (t_index t) (t_file t) (t_offset t) (t_next_seq t) (t_clock t).
Definition set_index (i : nat) (t : Tailer) : Tailer :=
  mkTailer (t_segments t) i (t_file t) (t_offset t) (t_next_seq t) (t_clock t).
Definition set_file (f : option Seq) (t : Tailer) : Tailer :=
  mkTailer (t_segments t) (t_index t) f (t_offset t) (t_next_seq t) (t_clock t).
Definition set_offset (o : nat) (t : Tailer) : Tailer :=
  mkTailer (t_segments t) (t_index t) (t_file t) o (t_next_seq t) (t_clock t).
Definition set_next (s : Seq) (t : Tailer) : Tailer :=
  mkTailer (t_segments t) (t_index t) (t_file t) (t_offset t) s (t_clock t).
Definition tick (t : Tailer) : Tailer :=
  mkTailer (t_segments t) (t_index t) (t_file t) (t_offset t) (t_next_seq t) (S (t_clock t)).

(** [list_segments]: the bases, in order. *)
Definition list_segments (dir : Dir) : list Seq := dir.*1.

(** The content of the segment named [base]. *)
Definition dir_file (base : Seq) (dir : Dir) : option File :=
  snd <$> find (λ s : Seq * File, s.1 =? base) dir.

(** [partition_point]: how many elements at the front satisfy the test. *)
Fixpoint partition_point {A} (p : A → bool) (l : list A) : nat :=
  match l with
  | [] => 0
  | x :: l' => if p x then S (partition_point p l') else 0
  end.

Section tailer.
Context (world : nat → Dir).

(** One access to the file system. *)
Definition observe : TM Dir := λ t, (tick t, Ok (world (t_clock t))).

Definition fails {A} (m : result JournalError.t A) : TM A := st_lift (map_err Failed m).

(** The open file's content, and its length at an earlier moment. *)
Definition stat (base : Seq) : TM nat :=
  dir ← observe;
  mret (length (default [] (dir_file base dir))).

(** One access for the header and one for the payload, which a call that stops
    at the header makes and does not look at. *)
Definition read_frame (base : Seq) (size : nat) : TM (option (FrameHeader * list byte)) :=
  now ← observe;
  later ← observe;
  offset ← st_get t_offset;
  fails (read_frame_at (default [] (dir_file base now)) (default [] (dir_file base later)) offset size).

Definition open_current : TM bool :=
  self ← st_get id;
  match t_segments self !! t_index self with
  | None => mret false
  | Some base =>
      dir ← observe;
      match dir_file base dir with
      | None => st_fail (Failed (JournalError.Io "open segment"))
      | Some _ =>
          _ ← (if Nat.eqb (t_offset self) 0 then st_modify (set_offset SEGMENT_HEADER_LEN)
               else mret tt);
          _ ← st_modify (set_file (Some base));
          mret true
      end
  end.

(** The move to the next segment of the listing. *)
Definition next_segment : TM unit :=
  st_modify (λ t, set_offset 0 (set_file None (set_index (S (t_index t)) t))).

Definition rescan : TM bool :=
  dir ← observe;
  self ← st_get id;
  let found := list_segments dir in
  let grew := (length (t_segments self) <? length found)%nat in
  _ ← st_modify (set_segments found);
  if grew && (S (t_index self) <? length found)%nat then
    _ ← next_segment;
    mret true
  else mret false.

Fixpoint next_record (fuel : nat) : TM (option Frame) :=
  match fuel with
  | O => st_fail OutOfFuel
  | S fuel' =>
      file ← st_get t_file;
      opened ← (match file with Some _ => mret true | None => open_current end);
      if negb (opened : bool) then
        again ← rescan;
        if (again : bool) then next_record fuel' else mret None
      else
        file ← st_get t_file;
        match file with
        | None => mret None
        | Some base =>
            size ← stat base;
            frame ← read_frame base size;
            self ← st_get id;
            match frame with
            | Some (header, payload) =>
                if negb (fh_seq header =? t_next_seq self) then
                  st_fail (Failed (JournalError.SequenceGap (t_next_seq self) (fh_seq header)))
                else
                  _ ← st_modify (λ t, set_offset (t_offset t + frame_len header) t);
                  _ ← st_modify (set_next (seq_next (fh_seq header)));
                  mret (Some (header, payload))
            | None =>
                if (S (t_index self) <? length (t_segments self))%nat then
                  _ ← next_segment;
                  next_record fuel'
                else
                  again ← rescan;
                  if (again : bool) then next_record fuel' else mret None
            end
        end
  end.

(** [while let Some(header) = read_frame_at(..)]: each turn moves past a frame. *)
Fixpoint seek_loop (fuel : nat) (base : Seq) (size : nat) : TM unit :=
  match fuel with
  | O => st_fail OutOfFuel
  | S fuel' =>
      frame ← read_frame base size;
      self ← st_get id;
      match frame with
      | None => mret tt
      | Some (header, _) =>
          if t_next_seq self <=? fh_seq header then st_modify (set_next (fh_seq header))
          else
            _ ← st_modify (λ t, set_offset (t_offset t + frame_len header) t);
            seek_loop fuel' base size
      end
  end.

Definition seek_to_start (fuel : nat) : TM unit :=
  self ← st_get id;
  match t_segments self with
  | [] => mret tt
  | _ =>
      let index := Nat.pred
        (partition_point (λ base, base <=? t_next_seq self) (t_segments self)) in
      _ ← st_modify (λ t, set_offset 0 (set_file None (set_index index t)));
      opened ← open_current;
      if negb (opened : bool) then mret tt
      else
        file ← st_get t_file;
        match file with
        | None => mret tt
        | Some base =>
            size ← stat base;
            seek_loop fuel base size
        end
  end.

(** [Tailer::open]. *)
Definition tailer_open (fuel : nat) (after : Seq) : Tailer * result TailFailure unit :=
  let segments := list_segments (world 0%nat) in
  seek_to_start fuel (mkTailer segments 0 None 0 (seq_next after) 1).

(** [drain_into]: everything available now. *)
Fixpoint drain (fuel calls : nat) : TM (list Frame) :=
  match calls with
  | O => st_fail OutOfFuel
  | S calls' =>
      record ← next_record fuel;
      match record with
      | None => mret []
      | Some r => rest ← drain fuel calls'; mret (r :: rest)
      end
  end.
End tailer.

(** ** Reading one segment *)

Lemma read_frame_whole file offset f rest :
  drop offset file = frame_bytes f ++ rest → (offset ≤ length file)%nat → frame_ok f →
  read_frame_at file file offset (length file) = Ok (Some f).
Proof.
  intros Hd Ho Hf. pose proof (length_of_drop _ _ _ _ _ Hd Ho (length_frame_bytes f)) as Hlen.
  destruct (decode_frame f rest Hf) as [Hdec Hpay]. pose proof Hf as [Hh Hp].
  unfold read_frame_at. rewrite (proj2 (Nat.ltb_ge _ _)) by lia.
  rewrite read_exact_there by lia. rewrite (slice_drop _ offset), Hd, claimed_frame by done.
  rewrite (proj2 (Z.ltb_ge MAX_PAYLOAD _)) by (destruct Hh; lia).
  rewrite (proj2 (Z.ltb_ge _ _)) by lia. rewrite read_exact_there by lia.
  assert (slice (Z.to_nat (fh_len f.1)) (offset + FRAME_HEADER_LEN) file = f.2) as ->.
  { rewrite <-Hpay, <-Hd. unfold slice. by rewrite drop_drop. }
  rewrite Hpay in Hdec. rewrite Hdec. by destruct f.
Qed.

Lemma read_frame_torn file offset tail :
  drop offset file = tail → (offset ≤ length file)%nat → torn_tail tail →
  read_frame_at file file offset (length file) = Ok None.
Proof.
  intros Hd Ho (f & k & [Hh Hp] & Hk & ->).
  assert (length file = (offset + k)%nat) as Hlen.
  { apply (f_equal length) in Hd. rewrite length_drop, length_take in Hd. lia. }
  unfold read_frame_at.
  destruct (Nat.ltb_spec (length file - offset) FRAME_HEADER_LEN); [done|].
  rewrite read_exact_there by lia.
  assert (claimed_len (slice FRAME_HEADER_LEN offset file) = fh_len f.1) as ->.
  { rewrite slice_drop, Hd, <-(claimed_frame f []) by done. rewrite app_nil_r.
    unfold claimed_len. f_equal. unfold slice at 2 4. rewrite !drop_0, take_take.
    by rewrite Nat.min_l by lia. }
  rewrite length_frame_bytes in Hk. destruct Hh.
  rewrite (proj2 (Z.ltb_ge MAX_PAYLOAD _)) by lia.
  by rewrite (proj2 (Z.ltb_lt (Z.of_nat (length file)) _)) by lia.
Qed.

(** Where the [r]-th frame of a segment starts. *)
Definition frame_offset (r : nat) (fs : list Frame) : nat :=
  SEGMENT_HEADER_LEN + length (frames_bytes (take r fs)).

Lemma frame_offset_S r fs f :
  fs !! r = Some f → frame_offset (S r) fs = (frame_offset r fs + length (frame_bytes f))%nat.
Proof.
  intros Hr. unfold frame_offset. rewrite (take_S_r _ _ _ Hr), frames_bytes_app, length_app.
  rewrite frames_bytes_cons, length_app. change (frames_bytes []) with (@nil byte). simpl. lia.
Qed.

Lemma drop_frame_offset base created fs tail r :
  drop (frame_offset r fs) (segment_bytes base created fs ++ tail) =
    frames_bytes (drop r fs) ++ tail ∧
  (frame_offset r fs ≤ length (segment_bytes base created fs ++ tail))%nat.
Proof.
  unfold frame_offset, segment_bytes. pose proof (length_encode_segment_header base created) as Hl.
  assert (frames_bytes fs = frames_bytes (take r fs) ++ frames_bytes (drop r fs)) as E
    by (by rewrite <-frames_bytes_app, take_drop).
  split.
  - rewrite <-app_assoc, <-drop_drop, drop_app_length' by done.
    by rewrite E, <-app_assoc, drop_app_length.
  - rewrite !length_app, E, length_app. lia.
Qed.

(** Reading at the [r]-th frame: that frame, or nothing when it is not all
    there yet. *)
Lemma read_segment base created fs tail r :
  Forall frame_ok fs → torn_tail tail → (r ≤ length fs)%nat →
  let file := segment_bytes base created fs ++ tail in
  read_frame_at file file (frame_offset r fs) (length file) = Ok (fs !! r).
Proof.
  intros Hok Ht Hr file. destruct (drop_frame_offset base created fs tail r) as [Hd Hle].
  destruct (fs !! r) as [f|] eqn:E.
  - eapply read_frame_whole; [|done|by eapply Forall_lookup_1].
    rewrite (drop_S _ _ _ E), frames_bytes_cons, <-app_assoc in Hd. exact Hd.
  - apply (read_frame_torn _ _ tail); [|done|done]. apply lookup_ge_None in E.
    rewrite (drop_ge fs) in Hd by done. exact Hd.
Qed.

(** ** A directory as a reader sees it *)

Definition names (gs : list Group) : list Seq := (λ g : Group, g.1.1) <$> gs.

(** Whole segments, the last possibly with a record half written. *)
Definition shown (gs : list Group) (tail : list byte) (dir : Dir) : Prop :=
  ∃ gs0 g, gs = gs0 ++ [g] ∧ dir = whole_dir gs0 ++ [(g.1.1, (group_file g).2 ++ tail)].

Lemma shown_names gs tail dir : shown gs tail dir → list_segments dir = names gs.
Proof.
  intros (gs0 & g & -> & ->). unfold list_segments, names, whole_dir.
  rewrite !fmap_app, <-list_fmap_compose. done.
Qed.

Lemma find_app_skip {A} (p : A → bool) l k :
  Forall (λ x, p x = false) l → find p (l ++ k) = find p k.
Proof. induction 1 as [|x l Hx _ IH]; [done|]. simpl. by rewrite Hx. Qed.

Lemma whole_dir_skip a b :
  Forall (λ h : Group, h.1.1 < b) a → Forall (λ s : Seq * File, (s.1 =? b) = false) (whole_dir a).
Proof.
  intros H. apply Forall_fmap. eapply Forall_impl; [exact H|]. intros h Hh. simpl in *.
  apply Z.eqb_neq. lia.
Qed.

(** The file of a segment of the directory. *)
Lemma shown_file a g b tail dir :
  groups_from 1 (a ++ g :: b) → shown (a ++ g :: b) tail dir →
  dir_file g.1.1 dir =
    Some (segment_bytes g.1.1 g.1.2 g.2 ++ match b with [] => tail | _ => [] end).
Proof.
  intros Hg (gs0 & l & E & ->).
  assert (Forall (λ h : Group, h.1.1 < g.1.1) a) as Ha.
  { rewrite cons_middle, app_assoc in Hg. apply groups_from_app in Hg as [Hg _].
    by apply groups_bases in Hg as [? _]. }
  unfold dir_file. destruct b as [|h b _] using rev_ind.
  - apply app_inj_tail in E as [<- <-].
    rewrite find_app_skip by (by apply whole_dir_skip). simpl. by rewrite Z.eqb_refl.
  - rewrite app_comm_cons, app_assoc in E. apply app_inj_tail in E as [<- <-].
    rewrite whole_dir_app, <-app_assoc, find_app_skip by (by apply whole_dir_skip).
    simpl. rewrite Z.eqb_refl. simpl. destruct (b ++ [h]) eqn:E; [by destruct b|]. by rewrite app_nil_r.
Qed.

(** ** The cursor *)

(** The cursor has delivered the first [p] records of the log: it is in the
    segment that holds the next one, or at the end of one before it.  Its listing
    may be older than the directory. *)
Definition at_pos (gs : list Group) (t : Tailer) (p : nat) : Prop :=
  ∃ a g b m, gs = a ++ g :: b ∧ t_index t = length a ∧
    t_segments t = take m (names gs) ∧ (length a < m ≤ length gs)%nat ∧
    t_next_seq t = 1 + Z.of_nat p ∧
    ((t_file t = None ∧ t_offset t = 0%nat ∧ p = length (log a)) ∨
     (t_file t = Some g.1.1 ∧ ∃ r, (r ≤ length g.2)%nat ∧ p = (length (log a) + r)%nat ∧
        t_offset t = frame_offset r g.2)).

Lemma names_lookup a g b m :
  (length a < m)%nat → take m (names (a ++ g :: b)) !! length a = Some g.1.1.
Proof.
  intros Hm. rewrite lookup_take, decide_True by done. unfold names. rewrite list_lookup_fmap.
  rewrite lookup_app_r, Nat.sub_diag by done. done.
Qed.

Lemma length_names gs : length (names gs) = length gs.
Proof. apply length_fmap. Qed.

Definition opened (base : Seq) (t : Tailer) : Tailer :=
  mkTailer (t_segments t) (t_index t) (Some base) SEGMENT_HEADER_LEN (t_next_seq t) (S (t_clock t)).

(** Opening the current segment first makes no difference. *)
Lemma next_record_opened dir n t base file :
  t_file t = None → t_offset t = 0%nat → t_segments t !! t_index t = Some base →
  dir_file base dir = Some file →
  next_record (λ _, dir) (S n) t = next_record (λ _, dir) (S n) (opened base t).
Proof.
  intros Hf Ho Hs Hd. cbn [next_record].
  unfold mbind, ST_bind, st_get. rewrite Hf.
  unfold open_current, observe, mbind, ST_bind, st_get, st_modify, id. rewrite Hs, Hd, Ho. done.
Qed.

Lemma lookup_log a g b r :
  (r < length g.2)%nat → log (a ++ g :: b) !! (length (log a) + r)%nat = g.2 !! r.
Proof.
  intros Hr. rewrite log_app, lookup_app_r by lia. rewrite Nat.add_comm, Nat.add_sub.
  change (log (g :: b)) with (g.2 ++ log b). by rewrite lookup_app_l.
Qed.

(** One access of an open segment: its next frame, or nothing. *)
Lemma next_record_open dir n t base file :
  t_file t = Some base → dir_file base dir = Some file →
  next_record (λ _, dir) (S n) t =
    let t' := tick (tick (tick t)) in
    match read_frame_at file file (t_offset t) (length file) with
    | Err e => (t', Err (Failed e))
    | Ok (Some (header, payload)) =>
        if negb (fh_seq header =? t_next_seq t) then
          (t', Err (Failed (JournalError.SequenceGap (t_next_seq t) (fh_seq header))))
        else (set_next (seq_next (fh_seq header))
                (set_offset (t_offset t + frame_len header) t'), Ok (Some (header, payload)))
    | Ok None =>
        if (S (t_index t) <? length (t_segments t))%nat then
          next_record (λ _, dir) n (set_offset 0 (set_file None (set_index (S (t_index t)) t')))
        else
          let found := list_segments dir in
          let t'' := set_segments found (tick t') in
          if (length (t_segments t) <? length found)%nat && (S (t_index t) <? length found)%nat
          then next_record (λ _, dir) n (set_offset 0 (set_file None (set_index (S (t_index t)) t'')))
          else (t'', Ok None)
    end.
Proof.
  intros Hf Hd. cbn [next_record].
  unfold stat, read_frame, rescan, next_segment, fails, observe.
  unfold st_lift, st_get, st_modify, st_fail, mbind, ST_bind, mret, ST_ret, id. rewrite Hf. cbn [negb].
  rewrite Hf, Hd. cbn [default t_offset tick].
  destruct (read_frame_at _ _ _ _) as [[[h p]|]|e]; cbn [map_err]; [| |done].
  - by destruct (negb _).
  - cbn [t_index t_segments tick]. destruct (_ <? _)%nat; [done|]. by destruct (_ && _).
Qed.

Lemma seq_from_lookup fs : ∀ s r f,
  seq_from s fs → fs !! r = Some f → fh_seq f.1 = s + Z.of_nat r ∧ frame_ok f.
Proof.
  induction fs as [|x fs IH]; intros s [|r] f; simpl; [done|done| |].
  - intros (? & ? & _) [= ->]. split; [lia|done].
  - intros (_ & _ & Hs) Hr. destruct (IH _ _ _ Hs Hr). split; [lia|done].
Qed.

Lemma frame_len_bytes f : frame_ok f → frame_len f.1 = length (frame_bytes f).
Proof. intros [_ Hp]. rewrite length_frame_bytes. unfold frame_len. lia. Qed.

(** In the segment [g], [r] frames in, with a listing of the first [m] names. *)
Record in_segment (a : list Group) (g : Group) (b : list Group) (m r : nat) (t : Tailer) : Prop := {
  is_index : t_index t = length a;
  is_names : t_segments t = take m (names (a ++ g :: b));
  is_listed : (length a < m ≤ length (a ++ g :: b))%nat;
  is_next : t_next_seq t = 1 + Z.of_nat (length (log a) + r);
  is_file : t_file t = Some g.1.1;
  is_frame : (r ≤ length g.2)%nat;
  is_offset : t_offset t = frame_offset r g.2;
}.

Lemma in_segment_at a g b m r t :
  in_segment a g b m r t → at_pos (a ++ g :: b) t (length (log a) + r).
Proof. intros []. exists a, g, b, m. split_and!; try done; [lia..|]. right. eauto. Qed.

(** Opening a segment at its start. *)
Lemma open_segment a g b m t tail dir n :
  groups_from 1 (a ++ g :: b) → shown (a ++ g :: b) tail dir →
  t_index t = length a → t_segments t = take m (names (a ++ g :: b)) →
  (length a < m ≤ length (a ++ g :: b))%nat →
  t_next_seq t = 1 + Z.of_nat (length (log a)) → t_file t = None → t_offset t = 0%nat →
  next_record (λ _, dir) (S n) t = next_record (λ _, dir) (S n) (opened g.1.1 t) ∧
  in_segment a g b m 0 (opened g.1.1 t).
Proof.
  intros Hg Hsh Hi Hs Hm Hn Hf Ho. split.
  - eapply next_record_opened; [done|done| |by eapply shown_file].
    rewrite Hs, Hi. apply names_lookup. lia.
  - split; try done; [|lia]. simpl. rewrite Hn. lia.
Qed.

Lemma names_length_take gs m : (m ≤ length gs)%nat → length (take m (names gs)) = m.
Proof. intros. rewrite length_take, length_names. lia. Qed.

Section one_segment.
Context (a : list Group) (g : Group) (b : list Group) (tail : list byte) (dir : Dir).
Context (Hg : groups_from 1 (a ++ g :: b)) (Ht : torn_tail tail)
  (Hsh : shown (a ++ g :: b) tail dir)
  (Hmax : 1 + Z.of_nat (length (log (a ++ g :: b))) < u64_max).

Lemma segment_seq : g.1.1 = 1 + Z.of_nat (length (log a)) ∧ seq_from g.1.1 g.2.
Proof using Hg.
  clear Hmax. pose proof Hg as (_ & _ & (Hb & _ & _ & Hseq & _))%groups_from_app. by rewrite Hb.
Qed.

(** The file of the segment, read at its [r]-th frame. *)
Lemma read_here r :
  (r ≤ length g.2)%nat →
  let file := segment_bytes g.1.1 g.1.2 g.2 ++ match b with [] => tail | _ => [] end in
  dir_file g.1.1 dir = Some file ∧
  read_frame_at file file (frame_offset r g.2) (length file) = Ok (g.2 !! r).
Proof using Hg Ht Hsh.
  clear Hmax. intros Hr file. split; [by eapply shown_file|]. destruct segment_seq as [_ Hseq].
  apply read_segment; [by eapply seq_from_ok| |done]. destruct b; [done|apply torn_nil].
Qed.

Lemma log_here r : (r < length g.2)%nat → log (a ++ g :: b) !! (length (log a) + r)%nat = g.2 !! r.
Proof. apply lookup_log. Qed.

Lemma length_log_here : length (log (a ++ g :: b)) = (length (log a) + (length g.2 + length (log b)))%nat.
Proof. rewrite log_app, length_app. change (log (g :: b)) with (g.2 ++ log b). by rewrite length_app. Qed.

Lemma next_delivers m r t n :
  in_segment a g b m r t → (r < length g.2)%nat →
  ∃ t', next_record (λ _, dir) (S n) t =
      (t', Ok (log (a ++ g :: b) !! (length (log a) + r)%nat)) ∧
    in_segment a g b m (S r) t'.
Proof.
  intros [Hi Hs Hm Hn Hf Hr Ho] Hlt. destruct (read_here r Hr) as [Hfile Hread].
  destruct segment_seq as [Hb Hseq].
  rewrite (next_record_open _ _ _ _ _ Hf Hfile), Ho, Hread, log_here by done. cbv zeta.
  destruct (lookup_lt_is_Some_2 g.2 r Hlt) as [f Hfr]. rewrite Hfr.
  destruct (seq_from_lookup _ _ _ _ Hseq Hfr) as [Hfs Hfok].
  assert (fh_seq f.1 = t_next_seq t) as E by (rewrite Hn, Hfs, Hb; lia).
  destruct f as [hd pl]. cbn [fst] in *. rewrite E, Z.eqb_refl. cbn [negb].
  eexists. split; [reflexivity|]. split; simpl; try done.
  - rewrite Hn. unfold seq_next. rewrite u64_saturate_in; [lia|].
    pose proof length_log_here. unfold_ranges. lia.
  - rewrite (frame_offset_S _ _ _ Hfr), <-frame_len_bytes by done. done.
Qed.

(** Past the last frame of a segment that is not the last. *)
Lemma next_moves m t n h b' :
  in_segment a g b m (length g.2) t → b = h :: b' →
  ∃ t1 m1, next_record (λ _, dir) (S n) t = next_record (λ _, dir) n t1 ∧
    t_index t1 = length (a ++ [g]) ∧ t_segments t1 = take m1 (names (a ++ g :: b)) ∧
    (length (a ++ [g]) < m1 ≤ length (a ++ g :: b))%nat ∧
    t_next_seq t1 = 1 + Z.of_nat (length (log (a ++ [g]))) ∧
    t_file t1 = None ∧ t_offset t1 = 0%nat.
Proof.
  intros [Hi Hs Hm Hn Hf Hr Ho] Eb. destruct (read_here (length g.2) Hr) as [Hfile Hread].
  rewrite (next_record_open _ _ _ _ _ Hf Hfile), Ho, Hread. cbv zeta.
  rewrite (lookup_ge_None_2 g.2) by lia.
  assert (length (a ++ g :: b) = (length a + S (length b))%nat) as El by (by rewrite length_app).
  assert (length (a ++ [g]) = S (length a)) as El1 by (rewrite length_app; simpl; lia).
  assert (length (log (a ++ [g])) = (length (log a) + length g.2)%nat) as Ell.
  { rewrite log_app, length_app. change (log [g]) with (g.2 ++ []). by rewrite app_nil_r. }
  assert (length b = S (length b')) as Elb by (by rewrite Eb).
  rewrite (shown_names _ _ _ Hsh), Hs, !names_length_take, length_names by lia.
  destruct (Nat.ltb_spec (S (t_index t)) m).
  - eexists _, m. split; [reflexivity|]. simpl. split_and!; try done; lia.
  - rewrite (proj2 (Nat.ltb_lt m _)), (proj2 (Nat.ltb_lt (S (t_index t)) _)) by lia. cbn [andb].
    eexists _, (length (a ++ g :: b)). split; [reflexivity|]. simpl.
    rewrite take_ge by (rewrite length_names; lia). split_and!; try done; lia.
Qed.

(** At the end of the log. *)
Lemma next_caught_up m t n :
  in_segment a g b m (length g.2) t → b = [] →
  ∃ t', next_record (λ _, dir) (S n) t = (t', Ok None) ∧
    in_segment a g b (length (a ++ g :: b)) (length g.2) t'.
Proof.
  intros [Hi Hs Hm Hn Hf Hr Ho] Eb. destruct (read_here (length g.2) Hr) as [Hfile Hread].
  rewrite (next_record_open _ _ _ _ _ Hf Hfile), Ho, Hread. cbv zeta.
  rewrite (lookup_ge_None_2 g.2) by lia.
  assert (length (a ++ g :: b) = S (length a)) as El by (rewrite length_app, Eb; simpl; lia).
  rewrite (shown_names _ _ _ Hsh), Hs, !names_length_take, length_names by lia.
  rewrite (proj2 (Nat.ltb_ge (S (t_index t)) m)), (proj2 (Nat.ltb_ge (S (t_index t)) (length _))) by lia.
  rewrite andb_false_r. eexists. split; [reflexivity|]. split; simpl; try done; [|lia].
  by rewrite take_ge by (rewrite length_names; lia).
Qed.
End one_segment.

(** The next record at a position, on one state of the directory: the record
    there, or nothing at the end of the log. *)
Lemma next_in_segment b : ∀ a g m r t tail dir fuel,
  groups_from 1 (a ++ g :: b) → torn_tail tail → shown (a ++ g :: b) tail dir →
  1 + Z.of_nat (length (log (a ++ g :: b))) < u64_max →
  in_segment a g b m r t → (length b < fuel)%nat →
  let gs := a ++ g :: b in let p := (length (log a) + r)%nat in
  ∃ t', next_record (λ _, dir) fuel t = (t', Ok (log gs !! p)) ∧
    at_pos gs t' (if (p <? length (log gs))%nat then S p else p).
Proof.
  induction b as [|h b IH]; intros a g m r t tail dir [|n] Hg Ht Hsh Hmax Hin Hfuel gs p; try lia.
  all: pose proof (length_log_here a g) as Hll.
  all: destruct (decide (r < length g.2)%nat) as [Hlt|Hge].
  1,3: destruct (next_delivers a g _ tail dir Hg Ht Hsh Hmax m r t n Hin Hlt) as (t' & E & Hin');
    exists t'; split; [exact E|]; rewrite (proj2 (Nat.ltb_lt _ _)) by (unfold gs, p; rewrite Hll; lia);
    unfold p; rewrite <-Nat.add_succ_r; by eapply in_segment_at.
  all: assert (r = length g.2) as -> by (pose proof (is_frame _ _ _ _ _ _ Hin); lia).
  - destruct (next_caught_up a g [] tail dir Hg Ht Hsh m t n Hin eq_refl) as (t' & E & Hin').
    exists t'. specialize (Hll []). cbn [log fmap list_fmap concat length] in Hll.
    rewrite E, lookup_ge_None_2 by (unfold gs, p; rewrite Hll; lia). split; [done|].
    rewrite (proj2 (Nat.ltb_ge _ _)) by (unfold gs, p; rewrite Hll; lia). by eapply in_segment_at.
  - destruct (next_moves a g (h :: b) tail dir Hg Ht Hsh m t n h b Hin eq_refl)
      as (t1 & m1 & E & Hi1 & Hs1 & Hm1 & Hn1 & Hf1 & Ho1).
    cbn [length] in Hfuel. destruct n as [|n]; [lia|].
    assert (a ++ g :: h :: b = (a ++ [g]) ++ h :: b) as Eg by (by rewrite <-app_assoc).
    unfold gs, p. rewrite Eg in *.
    destruct (open_segment (a ++ [g]) h b m1 t1 tail dir n Hg Hsh Hi1 Hs1 Hm1 Hn1 Hf1 Ho1) as [E1 Hin1].
    destruct (IH (a ++ [g]) h m1 0%nat (opened h.1.1 t1) tail dir (S n) Hg Ht Hsh Hmax Hin1 ltac:(lia))
      as (t' & E2 & Hat).
    exists t'. rewrite E, E1.
    assert (length (log (a ++ [g])) + 0 = length (log a) + length g.2)%nat as Ep.
    { rewrite log_app, length_app. change (log [g]) with (g.2 ++ []). rewrite app_nil_r. lia. }
    by rewrite Ep in E2, Hat.
Qed.

Lemma next_record_at gs tail dir p t fuel :
  groups_from 1 gs → torn_tail tail → shown gs tail dir →
  1 + Z.of_nat (length (log gs)) < u64_max → at_pos gs t p → (length gs ≤ fuel)%nat →
  ∃ t', next_record (λ _, dir) fuel t = (t', Ok (log gs !! p)) ∧
    at_pos gs t' (if (p <? length (log gs))%nat then S p else p).
Proof.
  intros Hg Ht Hsh Hmax (a & g & b & m & -> & Hi & Hs & Hm & Hn & Hpos) Hfuel.
  rewrite length_app in Hfuel. cbn [length] in Hfuel.
  destruct Hpos as [(Hf & Ho & ->)|(Hf & r & Hr & -> & Ho)].
  - destruct fuel as [|n]; [lia|].
    destruct (open_segment a g b m t tail dir n Hg Hsh Hi Hs Hm Hn Hf Ho) as [-> Hin].
    rewrite <-(Nat.add_0_r (length (log a))). eapply next_in_segment; eauto. lia.
  - eapply next_in_segment; eauto; [by split|lia].
Qed.

(** ** A growing journal *)

(** What a writer does to its directory between two looks: records at the end
    of the last segment, and new segments after it. *)
Definition grows (gs gs' : list Group) : Prop :=
  ∃ a g ps b, gs = a ++ [g] ∧ gs' = a ++ grow g ps :: b.

Lemma grows_log gs gs' : grows gs gs' → ∃ new, log gs' = log gs ++ new.
Proof.
  intros (a & g & ps & b & -> & ->). exists (ps ++ log b). rewrite !log_app.
  change (log (grow g ps :: b)) with ((g.2 ++ ps) ++ log b). change (log [g]) with (g.2 ++ []).
  by rewrite app_nil_r, !app_assoc.
Qed.

Lemma frame_offset_grow r fs ps : (r ≤ length fs)%nat → frame_offset r (fs ++ ps) = frame_offset r fs.
Proof. intros. unfold frame_offset. by rewrite take_app_le. Qed.

Lemma at_pos_grows gs gs' t p : grows gs gs' → at_pos gs t p → at_pos gs' t p.
Proof.
  intros (a & g & ps & b & -> & ->) (x & y & z & m & E & Hi & Hs & Hm & Hn & Hpos).
  rewrite length_app in Hm. cbn [length] in Hm.
  assert (take m (names (a ++ [g])) = take m (names (a ++ grow g ps :: b))) as En.
  { unfold names. rewrite !fmap_app, !fmap_cons. cbn [fmap list_fmap]. rewrite (cons_middle _ _ (list_fmap _ _ _ b)).
    rewrite app_assoc, (take_app_le _ (list_fmap _ _ _ b)); [done|].
    rewrite length_app, length_fmap. simpl. lia. }
  assert (length (a ++ grow g ps :: b) = (length a + S (length b))%nat) as El by (by rewrite length_app).
  rewrite En in Hs. destruct z as [|l z _] using rev_ind.
  - apply app_inj_tail in E as [<- <-]. exists a, (grow g ps), b, m.
    split_and!; try done; [lia..|]. destruct Hpos as [?|(Hf & r & Hr & Hp & Ho)]; [by left|right].
    split; [done|]. exists r. cbn [grow fst snd]. rewrite frame_offset_grow by done.
    rewrite length_app. split_and!; [lia|done|done].
  - rewrite app_comm_cons, app_assoc in E. apply app_inj_tail in E as [-> <-].
    assert ((x ++ y :: z) ++ grow g ps :: b = x ++ y :: z ++ grow g ps :: b) as Eg
      by (by rewrite <-app_assoc).
    exists x, y, (z ++ grow g ps :: b), m. rewrite Eg in *.
    split_and!; try done; rewrite !length_app in *; simpl in *; lia.
Qed.

(** ** Opening *)

Lemma partition_point_names gs : ∀ s q,
  groups_from s gs → gs ≠ [] → (q ≤ length (log gs))%nat →
  ∃ a g b, gs = a ++ g :: b ∧
    partition_point (λ base, base <=? s + Z.of_nat q) (names gs) = S (length a) ∧
    (length (log a) ≤ q ≤ length (log a) + length g.2)%nat.
Proof.
  induction gs as [|g gs IH]; intros s q Hg Hne Hq; [done|].
  destruct Hg as (Hb & _ & _ & _ & _ & Hg). cbn [names fmap list_fmap partition_point].
  rewrite (proj2 (Z.leb_le _ _)) by lia.
  change (log (g :: gs)) with (g.2 ++ log gs) in Hq. rewrite length_app in Hq.
  destruct (decide (gs ≠ [] ∧ (length g.2 ≤ q)%nat)) as [[Hne' Hle]|Hlt].
  - destruct (IH (s + Z.of_nat (length g.2)) (q - length g.2)%nat Hg Hne' ltac:(lia))
      as (a & h & b & -> & Hp & Hl).
    exists (g :: a), h, b. split; [done|]. split.
    + cbn [length]. f_equal. rewrite <-Hp. unfold names. 
      replace (s + Z.of_nat (length g.2) + Z.of_nat (q - length g.2)) with (s + Z.of_nat q) by lia.
      done.
    + change (log (g :: a)) with (g.2 ++ log a). rewrite length_app. lia.
  - exists [], g, gs. split; [done|]. split.
    + cbn [length]. f_equal. destruct gs as [|h gs]; [done|].
      destruct Hg as (Hb' & _). cbn. rewrite (proj2 (Z.leb_gt _ _)); [done|].
      assert (¬ (length g.2 ≤ q)%nat) by (intros ?; by apply Hlt). lia.
    + change (log []) with (@nil Frame). cbn [length].
      destruct (decide (gs = [])) as [->|]; [change (log []) with (@nil Frame) in Hq; simpl in Hq; lia|].
      assert (¬ (length g.2 ≤ q)%nat) by (intros ?; by apply Hlt). lia.
Qed.

(** One turn of the seek. *)
Lemma seek_loop_step dir n base size t file :
  dir_file base dir = Some file →
  seek_loop (λ _, dir) (S n) base size t =
    match read_frame_at file file (t_offset t) size with
    | Err e => (tick (tick t), Err (Failed e))
    | Ok None => (tick (tick t), Ok tt)
    | Ok (Some (header, _)) =>
        if t_next_seq t <=? fh_seq header then (set_next (fh_seq header) (tick (tick t)), Ok tt)
        else seek_loop (λ _, dir) n base size (set_offset (t_offset t + frame_len header) (tick (tick t)))
    end.
Proof.
  intros Hd. cbn [seek_loop]. unfold read_frame, fails, observe.
  unfold st_lift, st_get, st_modify, st_fail, mbind, ST_bind, mret, ST_ret, id.
  rewrite Hd. cbn [default t_offset tick].
  destruct (read_frame_at _ _ _ _) as [[[h p]|]|e]; cbn [map_err]; [|done|done].
  by destruct (_ <=? _).
Qed.

(** The seek stops [k] frames further, where the wanted sequence is. *)
Lemma seek_loop_at a g b m tail dir : ∀ k r t fuel,
  groups_from 1 (a ++ g :: b) → torn_tail tail → shown (a ++ g :: b) tail dir →
  (r + k ≤ length g.2)%nat → (k < fuel)%nat →
  t_next_seq t = 1 + Z.of_nat (length (log a) + (r + k)) → t_offset t = frame_offset r g.2 →
  t_index t = length a → t_segments t = take m (names (a ++ g :: b)) → t_file t = Some g.1.1 →
  (length a < m ≤ length (a ++ g :: b))%nat →
  let size := length (segment_bytes g.1.1 g.1.2 g.2 ++ match b with [] => tail | _ => [] end) in
  ∃ t', seek_loop (λ _, dir) fuel g.1.1 size t = (t', Ok tt) ∧ in_segment a g b m (r + k) t'.
Proof.
  induction k as [|k IH]; intros r t [|n] Hg Ht Hsh Hk Hfuel Hn Ho Hi Hs Hf Hm size; try lia.
  all: destruct (read_here a g b tail dir Hg Ht Hsh r ltac:(lia)) as [Hfile Hread].
  all: destruct (segment_seq a g b Hg) as [Hb Hseq].
  all: rewrite (seek_loop_step _ _ _ _ _ _ Hfile), Ho; unfold size; rewrite Hread.
  - rewrite Nat.add_0_r in *. destruct (g.2 !! r) as [[h p]|] eqn:Hfr.
    + destruct (seq_from_lookup _ _ _ _ Hseq Hfr) as [Hfs _]. cbn [fst] in Hfs.
      assert (fh_seq h = t_next_seq t) as E by lia. rewrite E, Z.leb_refl.
      eexists. split; [reflexivity|]. split; simpl; try done; lia.
    + eexists. split; [reflexivity|]. split; simpl; try done; lia.
  - destruct (lookup_lt_is_Some_2 g.2 r ltac:(lia)) as [[h p] Hfr]. rewrite Hfr.
    destruct (seq_from_lookup _ _ _ _ Hseq Hfr) as [Hfs Hok]. cbn [fst] in Hfs.
    rewrite (proj2 (Z.leb_gt _ _)) by lia.
    rewrite <-Nat.add_succ_comm. apply (IH (S r)); try done; try (simpl; lia).
    simpl. by rewrite (frame_offset_S _ _ _ Hfr), <-(frame_len_bytes (h, p)).
Qed.

(** Opening a cursor after the [p]-th record. *)
Lemma tailer_open_at gs tail dir p fuel :
  groups_from 1 gs → gs ≠ [] → torn_tail tail → shown gs tail dir →
  (p ≤ length (log gs))%nat → 1 + Z.of_nat (length (log gs)) < u64_max →
  (length (log gs) < fuel)%nat →
  ∃ t, tailer_open (λ _, dir) fuel (Z.of_nat p) = (t, Ok tt) ∧ at_pos gs t p.
Proof.
  intros Hg Hne Ht Hsh Hp Hmax Hfuel.
  destruct (partition_point_names gs 1 p Hg Hne Hp) as (a & g & b & -> & Hpp & Hl).
  destruct (read_here a g b tail dir Hg Ht Hsh 0%nat ltac:(lia)) as [Hfile _].
  pose proof (length_log_here a g b) as Hll.
  set (t0 := mkTailer (names (a ++ g :: b)) (length a) (Some g.1.1) SEGMENT_HEADER_LEN
               (1 + Z.of_nat p) 3).
  destruct (seek_loop_at a g b (length (a ++ g :: b)) tail dir (p - length (log a)) 0 t0 fuel)
    as (t & E & Hin); try done; try (unfold t0; simpl; lia).
  { unfold t0. simpl. rewrite take_ge; [done|]. by rewrite length_names. }
  { rewrite length_app. simpl. lia. }
  exists t. split; [|replace p with (length (log a) + (0 + (p - length (log a))))%nat at 1 by lia;
                    by eapply in_segment_at].
  unfold tailer_open, seek_to_start. rewrite (shown_names _ _ _ Hsh).
  unfold open_current, stat, observe, st_get, st_modify, mbind, ST_bind, mret, ST_ret, id.
  cbn [t_segments t_next_seq].
  assert (seq_next (Z.of_nat p) = 1 + Z.of_nat p) as Hs.
  { unfold seq_next. rewrite u64_saturate_in by (unfold_ranges; lia). lia. }
  rewrite Hs, Hpp. cbn [Nat.pred].
  destruct (names (a ++ g :: b)) as [|x l] eqn:En; [by destruct a|].
  cbn [t_segments t_index set_index set_file set_offset t_offset Nat.eqb].
  pose proof (names_lookup a g b (length (a ++ g :: b)) ltac:(rewrite length_app; simpl; lia)) as Hlook.
  rewrite take_ge in Hlook by (by rewrite length_names).
  rewrite En in Hlook. cbv iota. rewrite Hlook, Hfile. cbn [negb t_file]. cbv beta iota.
  unfold dir_file in *. cbn. rewrite Hfile. exact E.
Qed.

(** ** Following *)

(** One call of [next_record] per state of the directory. *)
Fixpoint follow (fuel : nat) (dirs : list Dir) : TM (list (option Frame)) :=
  match dirs with
  | [] => mret []
  | dir :: dirs' =>
      r ← next_record (λ _, dir) fuel;
      rest ← follow fuel dirs';
      mret (r :: rest)
  end.

(** The states a reader sees of a journal that grows from [gs] to [gs']. *)
Inductive seen : list Group → list Dir → list Group → Prop :=
| seen_nil gs : seen gs [] gs
| seen_cons gs gs1 tail dir dirs gs2 :
    grows gs gs1 → groups_from 1 gs1 → torn_tail tail → shown gs1 tail dir →
    seen gs1 dirs gs2 → seen gs (dir :: dirs) gs2.

Lemma seen_log gs dirs gs' : seen gs dirs gs' → ∃ new, log gs' = log gs ++ new.
Proof.
  induction 1 as [gs|gs gs1 tail dir dirs gs2 Hgr _ _ _ _ (new2 & E2)].
  - exists []. by rewrite app_nil_r.
  - apply grows_log in Hgr as (new1 & E1). exists (new1 ++ new2). by rewrite E2, E1, app_assoc.
Qed.

Lemma seen_length gs dirs gs' : seen gs dirs gs' → (length gs ≤ length gs')%nat.
Proof.
  induction 1 as [|gs gs1 tail dir dirs gs2 (a & g & ps & b & -> & ->) _ _ _ _ IH]; [lia|].
  rewrite length_app in *. simpl in *. lia.
Qed.

(** The frames among the answers. *)
Definition delivered (outs : list (option Frame)) : list Frame := flatten outs.

Lemma follow_at gs dirs gs' fuel : ∀ p t,
  seen gs dirs gs' → at_pos gs t p → (p ≤ length (log gs))%nat →
  1 + Z.of_nat (length (log gs')) < u64_max → (length gs' ≤ fuel)%nat →
  ∃ outs t' n, follow fuel dirs t = (t', Ok outs) ∧ length outs = length dirs ∧
    delivered outs = take n (drop p (log gs')) ∧
    (last outs = Some None → (length (log gs') ≤ p + n)%nat).
Proof.
  intros p t H. revert p t.
  induction H as [gs|gs gs1 tail dir dirs gs2 Hgr Hg Ht Hsh Hs IH]; intros p t Hat Hp Hmax Hfuel.
  { exists [], t, 0%nat. by split_and!. }
  pose proof (seen_length _ _ _ Hs). destruct (seen_log _ _ _ Hs) as (new2 & E2).
  destruct (grows_log _ _ Hgr) as (new1 & E1).
  assert (1 + Z.of_nat (length (log gs1)) < u64_max) by (rewrite E2, length_app in Hmax; lia).
  assert (p ≤ length (log gs1))%nat by (rewrite E1, length_app; lia).
  destruct (next_record_at gs1 tail dir p t fuel Hg Ht Hsh ltac:(done)
              (at_pos_grows _ _ _ _ Hgr Hat) ltac:(lia)) as (t1 & Hn & Hat1).
  set (q := if (p <? length (log gs1))%nat then S p else p) in *.
  assert (q ≤ length (log gs1))%nat by (unfold q; destruct (Nat.ltb_spec p (length (log gs1))); lia).
  destruct (IH q t1 Hat1 ltac:(done) Hmax Hfuel) as (outs & t' & n & Hf & Hlen & Hd & Hl).
  exists (log gs1 !! p :: outs), t'.
  assert (follow fuel (dir :: dirs) t = (t', Ok (log gs1 !! p :: outs))) as Hfol.
  { cbn [follow]. unfold mbind, ST_bind. by rewrite Hn, Hf. }
  unfold q in *. destruct (Nat.ltb_spec p (length (log gs1))) as [Hlt|Hge].
  - destruct (lookup_lt_is_Some_2 _ _ Hlt) as [f Hfr]. rewrite Hfr in *.
    assert (log gs2 !! p = Some f) as Hfr2 by (rewrite E2; by apply lookup_app_l_Some).
    exists (S n). split_and!; [done|by simpl; f_equal| |].
    + unfold delivered, flatten in *. cbn [omap list_omap]. rewrite (drop_S _ _ _ Hfr2). simpl.
      by f_equal.
    + destruct outs as [|o outs]; [done|]. rewrite last_cons_cons. intros Hx. apply Hl in Hx. lia.
  - rewrite (lookup_ge_None_2 _ _ Hge) in *. exists n.
    split_and!; [done|by simpl; f_equal|done|].
    destruct outs as [|o outs]; [|by rewrite last_cons_cons].
    intros _. destruct dirs; [|done]. inversion Hs; subst. lia.
Qed.

(** Everything available, when nothing moves. *)
Lemma drain_at gs tail dir fuel : ∀ k p t calls,
  groups_from 1 gs → torn_tail tail → shown gs tail dir →
  1 + Z.of_nat (length (log gs)) < u64_max → at_pos gs t p → (length gs ≤ fuel)%nat →
  (p + k = length (log gs))%nat → (k < calls)%nat →
  ∃ t', drain (λ _, dir) fuel calls t = (t', Ok (drop p (log gs))).
Proof.
  induction k as [|k IH]; intros p t [|calls] Hg Ht Hsh Hmax Hat Hfuel Hk Hc; try lia;
    destruct (next_record_at gs tail dir p t fuel Hg Ht Hsh Hmax Hat Hfuel) as (t1 & Hn & Hat1);
    cbn [drain]; unfold mbind, ST_bind; rewrite Hn.
  - rewrite lookup_ge_None_2, drop_ge by lia. by exists t1.
  - rewrite (proj2 (Nat.ltb_lt p (length (log gs)))) in Hat1 by lia.
    destruct (lookup_lt_is_Some_2 (log gs) p ltac:(lia)) as [f Hf]. rewrite Hf.
    destruct (IH (S p) t1 calls Hg Ht Hsh Hmax Hat1 Hfuel ltac:(lia) ltac:(lia)) as (t' & E).
    rewrite E. exists t'. by rewrite (drop_S _ _ _ Hf).
Qed.

(** ** Properties *)

(** C24: a consumer sees the log.  Open a cursor after any record of a journal,
    then call it again and again while the writer appends, rolls and crashes
    between the calls: the calls all answer, what they deliver is the log from
    that record on, in order, without a gap or a repetition, and a call that
    answers nothing has delivered everything there is. *)
Theorem tail_in_order gs tail dir dirs gs' p fuel :
  groups_from 1 gs → gs ≠ [] → torn_tail tail → shown gs tail dir → seen gs dirs gs' →
  (p ≤ length (log gs))%nat → 1 + Z.of_nat (length (log gs')) < u64_max →
  (length (log gs) < fuel)%nat → (length gs' ≤ fuel)%nat →
  ∃ t outs t' n,
    tailer_open (λ _, dir) fuel (Z.of_nat p) = (t, Ok tt) ∧
    follow fuel dirs t = (t', Ok outs) ∧ length outs = length dirs ∧
    delivered outs = take n (drop p (log gs')) ∧
    (last outs = Some None → delivered outs = drop p (log gs')).
Proof.
  intros Hg Hne Ht Hsh Hs Hp Hmax Hf1 Hf2.
  assert (1 + Z.of_nat (length (log gs)) < u64_max).
  { destruct (seen_log _ _ _ Hs) as (new & E). rewrite E, length_app in Hmax. lia. }
  destruct (tailer_open_at gs tail dir p fuel) as (t & Ho & Hat); try done.
  destruct (follow_at gs dirs gs' fuel p t Hs Hat Hp Hmax Hf2)
    as (outs & t' & n & Hfol & Hlen & Hd & Hl).
  exists t, outs, t', n. split_and!; try done. intros Hlast%Hl.
  rewrite Hd, take_ge; [done|]. rewrite length_drop. lia.
Qed.

(** A journal of one record, then a torn second one, then the second whole. *)
Definition ex_groups1 : list Group := [(1, 5, [claim_record [] 5])].
Definition ex_groups2 : list Group := [(1, 5, [claim_record [] 5; ex_frame])].
Definition ex_torn : list byte := take 40 (frame_bytes ex_frame).
Definition ex_dir_torn : Dir := [(1, (group_file (1, 5, [claim_record [] 5])).2 ++ ex_torn)].

Lemma ex_frames_ok : frame_ok (claim_record [] 5) ∧ frame_ok ex_frame.
Proof. repeat split; vm_compute; congruence. Qed.

Lemma ex_groups_ok : groups_from 1 ex_groups1 ∧ groups_from 1 ex_groups2.
Proof. destruct ex_frames_ok. split; repeat split; try done; vm_compute; congruence. Qed.

Lemma ex_torn_tail : torn_tail ex_torn.
Proof. exists ex_frame, 40%nat. split_and!; [apply ex_frames_ok|vm_compute; lia|done]. Qed.

Lemma tail_in_order_witness :
  ∃ t outs t' n,
    tailer_open (λ _, whole_dir ex_groups1) 9 (Z.of_nat 0) = (t, Ok tt) ∧
    follow 9 [ex_dir_torn; ex_dir_torn; whole_dir ex_groups2] t = (t', Ok outs) ∧
    length outs = 3%nat ∧ delivered outs = take n (drop 0 (log ex_groups2)) ∧
    (last outs = Some None → delivered outs = drop 0 (log ex_groups2)).
Proof.
  destruct ex_groups_ok as [H1 H2].
  apply (tail_in_order ex_groups1 [] (whole_dir ex_groups1)
           [ex_dir_torn; ex_dir_torn; whole_dir ex_groups2] ex_groups2 0 9).
  - exact H1.
  - discriminate.
  - apply torn_nil.
  - exists [], (1, 5, [claim_record [] 5]). by rewrite app_nil_r.
  - assert (∀ ps, grows ex_groups1 [grow (1, 5, [claim_record [] 5]) ps]) as Hgr
      by (intros ps; by exists [], (1, 5, [claim_record [] 5]), ps, []).
    assert (shown ex_groups1 ex_torn ex_dir_torn) as Hs
      by (by exists [], (1, 5, [claim_record [] 5])).
    eapply (seen_cons _ ex_groups1 ex_torn); [exact (Hgr [])|done|apply ex_torn_tail|done|].
    eapply (seen_cons _ ex_groups1 ex_torn); [exact (Hgr [])|done|apply ex_torn_tail|done|].
    eapply (seen_cons _ ex_groups2 []); [exact (Hgr [ex_frame])|done|apply torn_nil| |constructor].
    exists [], (1, 5, [claim_record [] 5; ex_frame]). by rewrite app_nil_r.
  - vm_compute. lia.
  - reflexivity.
  - vm_compute. lia.
  - vm_compute. lia.
Defined.

(** ** Where a call that sees the directory move goes wrong *)

(** The last record of a segment and the roll land between the read that finds
    nothing and the listing that follows it: the cursor steps over the record. *)
Definition ex_frame3 : Frame :=
  (mkFrameHeader 3 (j_epoch ex_claimed) 7 RecordKind.Decision 5, str "again").
Definition ex_rolled : list Group := ex_groups2 ++ [(3, 0, [ex_frame3])].
Definition ex_at_end : Tailer := mkTailer [1] 0 (Some 1) (frame_offset 1 [claim_record [] 5]) 2 0.

Lemma roll_race_reports_gap :
  (next_record (λ clock, if (clock <? 3)%nat then whole_dir ex_groups1 else whole_dir ex_rolled)
     9 ex_at_end).2 = Err (Failed (JournalError.SequenceGap 2 3)).
Proof. vm_compute. reflexivity. Qed.

(** A cursor opened on an empty directory, called when two segments are there. *)
Lemma empty_open_skips_segment :
  let t := (tailer_open (λ _, []) 9 SEQ_ZERO).1 in
  (next_record (λ _, whole_dir ex_rolled) 9 t).2 = Err (Failed (JournalError.SequenceGap 1 3)).
Proof. vm_compute. reflexivity. Qed.
