(* ===== verification/JournalSuite.v ===== *)
(** * The tests of the journal (sentinel-journal)

    The unit tests of crc32c.rs, format.rs, segment.rs, writer.rs and reader.rs,
    each with all its assertions. A scratch directory is the empty list of
    segments, a writer that is dropped leaves its directory behind, and a writer
    that still holds its lock is the first argument of the next claim. *)

From S2P Require Import Prelude Fixed Suite Text Types Names Crc Format Segment Journal Tailer.

(** [bytes[i] ^= mask]. *)
Definition xor_at (i : nat) (mask : Z) (bytes : list byte) : list byte :=
  alter (λ b, z2b (Z.lxor (b2z b) mask)) i bytes.

(** [bytes[at..].copy_from_slice(new)]. *)
Definition put_at (at_ : nat) (new bytes : list byte) : list byte :=
  take at_ bytes ++ new ++ drop (at_ + length new) bytes.

Definition bits : list Z := Z.of_nat <$> seq 0 8.

(** ** crc32c.rs *)

Module CrcTests.
Definition matches_the_published_check_value : Test :=
  assert_eq (checksum (str "123456789")) 0xE3069283.

Definition empty_input_is_zero : Test := assert_eq (checksum []) 0.

Definition continuing_a_checksum_equals_checksumming_the_whole : Test :=
  let all := str "SENTJRN" ++ [Byte.x01] ++ str "the quick brown fox" in
  for_each (seq 0 (length all)) (λ split,
    assert_eq (update (checksum (take split all)) (drop split all)) (checksum all)).

Definition a_single_flipped_bit_changes_the_checksum : Test :=
  let bytes := str "a record that matters" in
  let before := checksum bytes in
  for_each (seq 0 (length bytes)) (λ i, for_each bits (λ bit,
    assert_ne (checksum (xor_at i (Z.shiftl 1 bit) bytes)) before)).

Definition length_is_part_of_the_value : Test :=
  _ ← assert_ne (checksum [Byte.x00]) (checksum [Byte.x00; Byte.x00]);
  assert_ne (checksum []) (checksum [Byte.x00]).

Definition tests : list Test :=
  [matches_the_published_check_value; empty_input_is_zero;
   continuing_a_checksum_equals_checksumming_the_whole;
   a_single_flipped_bit_changes_the_checksum; length_is_part_of_the_value].
End CrcTests.

Example crc_tests_pass : suite CrcTests.tests = true.
Proof. vm_compute. reflexivity. Qed.

(** ** format.rs *)

Module FormatTests.
Definition header : FrameHeader := mkFrameHeader 5698 12 1787761830475726400 RecordKind.OrderEvent 11.
Definition hello : list byte := str "hello world".

Definition finished (h : FrameHeader) (payload : list byte) : list byte :=
  finish_frame_header (encode_frame_header h) payload.
Definition round_trip (h : FrameHeader) (payload : list byte) : result FormatError FrameHeader :=
  decode_frame_header (finished h payload) payload.

Definition refused {A} `{EqDecision A} (r : result FormatError A) (e : FormatError) : Test :=
  assert_is e (unwrap_err r).

Definition a_frame_header_round_trips : Test := assert_is header (unwrap (round_trip header hello)).

Definition a_segment_header_round_trips : Test :=
  decoded ← unwrap (decode_segment_header (encode_segment_header 104729 42));
  _ ← assert_eq (sh_base_seq decoded) 104729;
  assert_eq (sh_created decoded) 42.

Definition the_magic_and_version_are_pinned : Test :=
  _ ← assert_eq MAGIC (str "SENTJRN" ++ [Byte.x01]);
  _ ← assert_eq VERSION 2;
  _ ← assert_eq SEGMENT_HEADER_LEN 32%nat;
  assert_eq FRAME_HEADER_LEN 36%nat.

Definition a_foreign_file_is_refused : Test :=
  let bytes := put_at 3 (str "X") (encode_segment_header SEQ_ZERO 0) in
  refused (decode_segment_header bytes) NotAJournal.

Definition a_future_format_is_refused_rather_than_guessed_at : Test :=
  for_each [VERSION - 1; VERSION + 1] (λ other,
    let bytes := put_at 8 (le_bytes 4 other) (encode_segment_header SEQ_ZERO 0) in
    refused (decode_segment_header bytes) (UnsupportedVersion other)).

Definition any_flipped_bit_in_the_header_is_caught : Test :=
  let bytes := finished header hello in
  for_each (seq 4 (FRAME_HEADER_LEN - 4)) (λ i, for_each bits (λ bit,
    assert (is_err (decode_frame_header (xor_at i (Z.shiftl 1 bit) bytes) hello)))).

Definition any_flipped_bit_in_the_payload_is_caught : Test :=
  let bytes := finished header hello in
  for_each (seq 0 (length hello)) (λ i,
    err ← unwrap_err (decode_frame_header bytes (xor_at i 64 hello));
    match err with ChecksumMismatch _ _ => Some tt | _ => None end).

Definition with_kind_len (k : RecordKind.t) (len : Z) : FrameHeader :=
  mkFrameHeader (fh_seq header) (fh_epoch header) (fh_nanos header) k len.

Definition a_kind_byte_that_was_never_written_is_refused : Test :=
  let bytes := put_at 32 (le_bytes 2 0) (encode_frame_header (with_kind_len (fh_kind header) 0)) in
  refused (decode_frame_header (finish_frame_header bytes []) []) (UnknownKind 0).

Definition an_impossible_length_is_refused_before_anything_is_allocated : Test :=
  let bytes := put_at 0 (le_bytes 4 u32_max) (replicate FRAME_HEADER_LEN Byte.x00) in
  refused (decode_frame_header bytes []) (PayloadTooLarge u32_max).

Definition a_short_payload_is_reported_as_truncation : Test :=
  refused (decode_frame_header (finished header hello) (str "hello")) (Truncated 11 5).

Definition an_empty_payload_is_a_valid_frame : Test :=
  let h := with_kind_len RecordKind.Ticked 0 in
  assert_is h (unwrap (round_trip h [])).

Definition frame_length_accounts_for_the_header : Test :=
  assert_eq (frame_len header) (FRAME_HEADER_LEN + 11)%nat.

Definition tests : list Test :=
  [a_frame_header_round_trips; a_segment_header_round_trips; the_magic_and_version_are_pinned;
   a_foreign_file_is_refused; a_future_format_is_refused_rather_than_guessed_at;
   any_flipped_bit_in_the_header_is_caught; any_flipped_bit_in_the_payload_is_caught;
   a_kind_byte_that_was_never_written_is_refused;
   an_impossible_length_is_refused_before_anything_is_allocated;
   a_short_payload_is_reported_as_truncation; an_empty_payload_is_a_valid_frame;
   frame_length_accounts_for_the_header].
End FormatTests.

Example format_tests_pass : suite FormatTests.tests = true.
Proof. vm_compute. reflexivity. Qed.

(** ** segment.rs *)

Module SegmentTests.
(** [names.sort_unstable()]: strings are ordered by their bytes. *)
Definition name_le (a b : list byte) : Prop := bytes_leb a b = true.
#[local] Instance name_le_dec (a b : list byte) : Decision (name_le a b) := decide (bytes_leb a b = true).
Definition sort_names (names : list (list byte)) : list (list byte) := merge_sort name_le names.

Definition names_sort_lexically_in_sequence_order : Test :=
  assert_eq (sort_names (segment_name <$> [104729; 1; u64_max; 16]))
    [str "0000000000000001.jrnl"; str "0000000000000010.jrnl"; str "0000000000019919.jrnl";
     str "ffffffffffffffff.jrnl"].

Definition names_round_trip : Test :=
  for_each [1; 16; 104729; u64_max] (λ seq,
    assert_eq (parse_segment_name (segment_name seq)) (Some seq)).

Definition unrelated_files_are_not_segments : Test :=
  for_each ["LOCK"; "cursors"; "1.jrnl"; "0000000000000001.log"; "zzzzzzzzzzzzzzzz.jrnl"]%string
    (λ name, assert_eq (parse_segment_name (str name)) None).

Definition tests : list Test :=
  [names_sort_lexically_in_sequence_order; names_round_trip; unrelated_files_are_not_segments].
End SegmentTests.

Example segment_tests_pass : suite SegmentTests.tests = true.
Proof. vm_compute. reflexivity. Qed.

(** ** Directories and tailers *)

Definition claimed (dir : Dir) (now : Nanos) : option Journal := unwrap (claim false IoOk dir now).2.

(** A tailer over a directory that stays as it is; the fuel is more segments than
    any of these directories has, and more records. *)
Definition opened_at (dir : Dir) (after : Seq) : option Tailer :=
  match tailer_open (λ _, dir) 40 after with (t, Ok _) => Some t | (_, Err _) => None end.
Definition next (dir : Dir) (t : Tailer) : option (Tailer * option Frame) :=
  called (next_record (λ _, dir) 9) t.
Definition drained (dir : Dir) (t : Tailer) : option (Tailer * list Frame) :=
  called (drain (λ _, dir) 9 40) t.

(** [j.append(kind, now, payload)] for each of a list, and [Ticked] records. *)
Fixpoint appends (j : Journal) (l : list (Nanos * list byte)) : option Journal :=
  match l with
  | [] => Some j
  | (now, payload) :: l => '(j, _) ← called (append RecordKind.Ticked now payload) j; appends j l
  end.
Definition counted (n : nat) : list (Nanos * list byte) :=
  (λ i, (Z.of_nat i, le_bytes 8 (Z.of_nat i))) <$> seq 0 n.
Definition flushed (j : Journal) : option (Journal * Seq) := called (flush IoOk) j.

(** ** writer.rs *)

Module WriterTests.
Definition a_fresh_journal_starts_at_epoch_one_and_records_its_claim : Test :=
  j ← claimed [] 1;
  _ ← assert_eq (j_epoch j) 1;
  _ ← assert_eq (j_next_seq j) 2;
  assert_eq (durable_seq j) 1.

Definition a_second_writer_is_refused_while_the_first_holds_it : Test :=
  first ← claimed [] 1;
  err ← unwrap_err (claim true IoOk (j_dir first) 2).2;
  match err with JournalError.AlreadyClaimed => Some tt | _ => None end.

Definition the_claim_is_released_when_the_writer_is_dropped : Test :=
  first ← claimed [] 1;
  second ← claimed (j_dir first) 2;
  assert_eq (j_epoch second) 2.

Definition records_are_invisible_until_flushed : Test :=
  j ← claimed [] 1;
  '(j, _) ← called (append RecordKind.Ticked 2 (str "pending")) j;
  t ← opened_at (j_dir j) SEQ_ZERO;
  '(t, seen) ← drained (j_dir j) t;
  _ ← assert_eq (length seen) 1%nat;
  '(j, _) ← flushed j;
  '(_, record) ← next (j_dir j) t;
  match record with Some _ => Some tt | None => None end.

(** The ratio of records to flushes is a float in the source; here it is the
    comparison it is used for. *)
Definition one_flush_covers_the_whole_group : Test :=
  j ← claimed [] 1;
  j ← appends j (counted 32);
  _ ← assert_eq (j_buffered_records j) 32;
  '(j, _) ← flushed j;
  _ ← assert_eq (st_records (j_stats j)) 32;
  _ ← assert_eq (st_flushes (j_stats j)) 1;
  assert (32 * st_flushes (j_stats j) <=? st_records (j_stats j)).

Definition sequences_are_gap_free_across_a_restart : Test :=
  j ← claimed [] 1;
  j ← appends j (counted 5);
  '(j, last) ← flushed j;
  j ← claimed (j_dir j) 100;
  _ ← assert_eq (durable_seq j) (seq_next last);
  assert_eq (j_epoch j) 2.

(** Twenty bytes of nonsense at the end of the last segment. *)
Definition smear (dir : Dir) : option Dir :=
  '(base, _) ← last dir;
  Some (dir_append base (replicate 20 Byte.xab) dir).

Definition a_torn_tail_is_truncated_and_the_rest_survives : Test :=
  j ← claimed [] 1;
  j ← appends j ((λ i, (Z.of_nat i, str "payload")) <$> seq 0 4);
  '(j, _) ← flushed j;
  dir ← smear (j_dir j);
  j ← claimed dir 50;
  _ ← assert_eq (cr_truncated_bytes (j_claim_report j)) 20;
  _ ← assert_eq (cr_existing_records (j_claim_report j)) 5;
  _ ← assert_eq (cr_resumed_from (j_claim_report j)) 5;
  t ← opened_at (j_dir j) SEQ_ZERO;
  '(_, frames) ← drained (j_dir j) t;
  assert_eq ((λ f : Frame, fh_kind f.1) <$> frames)
    ([RecordKind.EpochClaimed] ++ replicate 4 RecordKind.Ticked ++ [RecordKind.EpochClaimed]).

(** Over a payload one byte too long, whatever its bytes. *)
Definition oversize (huge : list byte) : Test :=
  j ← claimed [] 1;
  '(j, err) ← called_err (append RecordKind.Decision 2 huge) j;
  _ ← match err with JournalError.PayloadTooLarge _ => Some tt | _ => None end;
  '(j, _) ← called (append RecordKind.Ticked 3 (str "fine")) j;
  '(_, _) ← flushed j;
  Some tt.
Definition a_payload_over_the_cap_is_refused_rather_than_written : Test :=
  oversize (replicate (Z.to_nat (MAX_PAYLOAD + 1)) Byte.x00).

Definition flushing_nothing_is_a_no_op : Test :=
  j ← claimed [] 1;
  let before := st_flushes (j_stats j) in
  '(j, _) ← flushed j;
  assert_eq (st_flushes (j_stats j)) before.

Definition an_empty_payload_is_a_valid_record : Test :=
  j ← claimed [] 1;
  '(_, seq) ← called (append_and_flush IoOk RecordKind.Ticked 2 []) j;
  assert_eq seq 2.

(** All of them but the one over a megabyte, which is proved instead of run. *)
Definition tests : list Test :=
  [a_fresh_journal_starts_at_epoch_one_and_records_its_claim;
   a_second_writer_is_refused_while_the_first_holds_it;
   the_claim_is_released_when_the_writer_is_dropped; records_are_invisible_until_flushed;
   one_flush_covers_the_whole_group; sequences_are_gap_free_across_a_restart;
   a_torn_tail_is_truncated_and_the_rest_survives; flushing_nothing_is_a_no_op;
   an_empty_payload_is_a_valid_record].
End WriterTests.

Example writer_tests_pass : suite WriterTests.tests = true.
Proof. vm_compute. reflexivity. Qed.

(** Refused by its length alone, and before anything is touched. *)
Lemma append_oversize kind now payload j :
  j_poisoned j = None → MAX_PAYLOAD < Z.of_nat (length payload) →
  append kind now payload j = (j, Err (JournalError.PayloadTooLarge (length payload))).
Proof.
  intros Hp Hl. unfold append. change ((st_get id ≫= ?k) j) with (k j j). cbv beta. rewrite Hp.
  by rewrite (proj2 (Z.ltb_lt _ _) Hl).
Qed.

Lemma oversize_passes huge :
  MAX_PAYLOAD < Z.of_nat (length huge) → passes (WriterTests.oversize huge) = true.
Proof.
  intros Hl. unfold WriterTests.oversize. destruct (claimed [] 1) as [j|] eqn:Hj; [|by vm_compute in Hj].
  assert (j_poisoned j = None) as Hp by (vm_compute in Hj; by injection Hj as <-).
  cbn [mbind option_bind]. unfold called_err. rewrite append_oversize by done. cbn.
  vm_compute in Hj. injection Hj as <-. by vm_compute.
Qed.

Example oversize_test_passes :
  passes WriterTests.a_payload_over_the_cap_is_refused_rather_than_written = true.
Proof. apply oversize_passes. rewrite length_replicate. unfold MAX_PAYLOAD. lia. Qed.

(** ** reader.rs *)

Module ReaderTests.
(** [write_n]: a claim, [n] ticks and a flush. *)
Definition write_n (n : nat) : option Journal :=
  j ← claimed [] 1;
  j ← appends j (counted n);
  fst <$> flushed j.

(** Everything a fresh tailer finds. *)
Definition everything (dir : Dir) : option (list Frame) :=
  t ← opened_at dir SEQ_ZERO; snd <$> drained dir t.

Definition a_tailer_reads_everything_in_order : Test :=
  j ← write_n 10;
  records ← everything (j_dir j);
  _ ← assert_eq (length records) 11%nat;
  assert_eq ((λ f : Frame, fh_seq f.1) <$> records) (Z.of_nat <$> seq 1 11).

Definition two_tailers_observe_identical_order : Test :=
  j ← write_n 20;
  a ← everything (j_dir j);
  b ← everything (j_dir j);
  assert_eq a b.

Definition a_tailer_follows_the_writer : Test :=
  j ← write_n 3;
  t ← opened_at (j_dir j) SEQ_ZERO;
  '(t, first) ← drained (j_dir j) t;
  _ ← assert_eq (length first) 4%nat;
  '(t, nothing) ← next (j_dir j) t;
  _ ← assert_eq nothing None;
  '(j, _) ← called (append_and_flush IoOk RecordKind.Mark 99 (str "later")) j;
  '(_, record) ← next (j_dir j) t;
  record ← record;
  _ ← assert_eq (fh_kind record.1) RecordKind.Mark;
  assert_eq record.2 (str "later").

Definition a_tailer_can_start_partway_through : Test :=
  j ← write_n 10;
  t ← opened_at (j_dir j) 6;
  '(_, record) ← next (j_dir j) t;
  record ← record;
  assert_eq (fh_seq record.1) 7.

Definition an_empty_journal_directory_yields_nothing_rather_than_failing : Test :=
  t ← opened_at [] SEQ_ZERO;
  '(_, nothing) ← next [] t;
  assert_eq nothing None.

(** [cursor.commit(seq).unwrap()], over the cursor directory's files. *)
Definition commit (seq : Seq) (fs : Files) (c : Cursor) : option (Files * Cursor) :=
  match cursor_commit CommitOk seq fs c with (fs, Ok c) => Some (fs, c) | (_, Err _) => None end.
Definition load (fs : Files) (name : string) : option Cursor := unwrap (cursor_load fs (str name)).

Definition a_cursor_survives_a_restart : Test :=
  j ← write_n 10;
  cursor ← load ∅ "projectord";
  _ ← assert_eq (cu_seq cursor) SEQ_ZERO;
  '(fs, _) ← commit 7 ∅ cursor;
  reloaded ← load fs "projectord";
  _ ← assert_eq (cu_seq reloaded) 7;
  t ← opened_at (j_dir j) (cu_seq reloaded);
  '(_, record) ← next (j_dir j) t;
  record ← record;
  assert_eq (fh_seq record.1) 8.

Definition a_cursor_never_moves_backwards : Test :=
  _ ← write_n 3;
  cursor ← load ∅ "gatewayd";
  '(fs, cursor) ← commit 3 ∅ cursor;
  '(fs, cursor) ← commit 1 fs cursor;
  assert_eq (cu_seq cursor) 3.

Definition consumers_keep_separate_cursors : Test :=
  _ ← write_n 5;
  a ← load ∅ "gatewayd";
  b ← load ∅ "projectord";
  '(fs, _) ← commit 5 ∅ a;
  '(fs, _) ← commit 2 fs b;
  a ← load fs "gatewayd";
  _ ← assert_eq (cu_seq a) 5;
  b ← load fs "projectord";
  assert_eq (cu_seq b) 2.

Definition tests : list Test :=
  [a_tailer_reads_everything_in_order; two_tailers_observe_identical_order;
   a_tailer_follows_the_writer; a_tailer_can_start_partway_through;
   an_empty_journal_directory_yields_nothing_rather_than_failing; a_cursor_survives_a_restart;
   a_cursor_never_moves_backwards; consumers_keep_separate_cursors].
End ReaderTests.

Example reader_tests_pass : suite ReaderTests.tests = true.
Proof. vm_compute. reflexivity. Qed.
