(* ===== verification/Golden.v ===== *)
(** * The format on disk, pinned (sentinel-record/tests/golden.rs, testdata/journal-golden)

    The journal the program's own test pins: the records of its fixture, the
    segment they are written to, and the bytes of that segment as the repository
    keeps them.  The writer of Journal.v produces those bytes, and the tailer of
    Tailer.v reads them back. *)

From S2P Require Import Prelude Fixed Text Types Domain Intent Format Codec Records Segment Journal Tailer.

(** ** The fixture *)

Module Fixture.
Definition coid : ClientOrderId := inline_or_default 36 (str "UI-4bb5ba826e2e1").
Definition btc : Instrument := inline_or_default 16 (str "BTCUSD").
Definition trace : TraceId := 0x6440ba96.
Definition value {d} (s : string) : e8 d := unwrap_or (parse (str s)) ZERO.

Definition event (from to : OrderState) (e : OrderEvent) : Rec.t :=
  Rec.OrderEvent coid trace from to true e.
Definition unapplied (state : OrderState) (e : OrderEvent) : Rec.t :=
  Rec.OrderEvent coid trace state state false e.
Definition fill (exec qty price : string) : OrderEvent :=
  FillReceived (inline_or_default 40 (str exec)) (value qty) (value price).

Definition intent : result IntentError Intent.t :=
  Intent.new coid btc Buy (value "0.003") Limit (Some (value "109432.5")) None Entry trace
    (Some (value "109430")).

(** [fixture_records]. *)
Definition records : list Rec.t :=
  [Rec.Ticked] ++
  match intent with Ok i => [Rec.IntentPersisted i] | Err _ => [] end ++
  [event Created Submitting SubmissionStarted;
   event Submitting Unknown SubmissionTimedOut;
   event Unknown Reconciling (ReconcileStarted SubmissionTimeout);
   event Reconciling Working (ReconcileResolved Working (Some (inline_or_default 32 (str "V-77"))) ZERO);
   event Working Partial (fill "E-9911" "0.002" "109432.5");
   event Partial CancelPending CancelRequested;
   event CancelPending Canceled CancelConfirmed;
   unapplied Canceled (fill "E-9912" "0.001" "109440");
   event Submitting Rejected (VenueRejected (reject_reason_new (-2019) (str "insufficient_margin")));
   event Submitting Working (VenueAcked (inline_or_default 32 (str "V-553664")));
   Rec.Decision btc Actor.Guards DecisionKind.EntryBlocked trace (value "-118.81")
     (inline_or_default 96 (str "instrument locked by UI-4bb5ba826e2e1"));
   event Reconciling Reconciling (fill "RCN-UI-4bb5ba826e2e1:3" "3" "109432.5");
   unapplied Filled (fill "E-late-9931" "1" "109432.5");
   Rec.Mark btc (value "109432.5");
   Rec.Balance (inline_or_default 8 (str "USD")) (value "5942.65")].

Definition CLOCK : Nanos := 1787761830000000000.

(** [write_fixture]: a tenth of a second between records. *)
Fixpoint append_all (clock : Nanos) (l : list Rec.t) : JM unit :=
  match l with
  | [] => mret tt
  | r :: l' =>
      _ ← append (rec_kind r) (clock + 100000000) (encode r);
      append_all (clock + 100000000) l'
  end.

Definition write : Dir * result JournalError.t Journal :=
  let '(dir, journal) := claim false IoOk [] CLOCK in
  match journal with
  | Ok j =>
      match (_ ← append_all CLOCK records; flush IoOk) j with
      | (j, Ok _) => (j_dir j, Ok j)
      | (j, Err e) => (j_dir j, Err e)
      end
  | Err e => (dir, Err e)
  end.
End Fixture.

(** ** The pinned segment *)

(** Pairs of hexadecimal digits as bytes. *)
Fixpoint unhex (s : list byte) : list byte :=
  match s with
  | a :: b :: rest => z2b (16 * default 0 (to_digit 16 a) + default 0 (to_digit 16 b)) :: unhex rest
  | _ => []
  end.

(** testdata/journal-golden/0000000000000001.jrnl *)
Definition golden : File :=
  unhex (
    str "53454e544a524e010200000000000000010000000000000000fc2694e967cf181000000025399ef00100000000000000" ++
    str "010000000000000000fc2694e967cf180100000001000000000000000000000000000000000000001c91f49e02000000" ++
    str "00000000010000000000000000dd1c9ae967cf18070000006a0000007cce1f9703000000000000000100000000000000" ++
    str "00be12a0e967cf180200000055492d346262356261383236653265310000000000000000000000000000000000000000" ++
    str "42544355534400000000000000000000010201e09304000000000001806887ecf30900000000000000000000000100b6" ++
    str "a0ddf309000096ba406400000000000000000000000038000000e385f96504000000000000000100000000000000009f" ++
    str "08a6e967cf180300000055492d34626235626138323665326531000000000000000000000000000000000000000096ba" ++
    str "4064000000000000000000000000010201013800000065b20327050000000000000001000000000000000080feabe967" ++
    str "cf180300000055492d34626235626138323665326531000000000000000000000000000000000000000096ba40640000" ++
    str "0000000000000000000002060104390000009e92062d060000000000000001000000000000000061f4b1e967cf180300" ++
    str "000055492d34626235626138323665326531000000000000000000000000000000000000000096ba4064000000000000" ++
    str "0000000000000607010801620000007394d8b3070000000000000001000000000000000042eab7e967cf180300000055" ++
    str "492d34626235626138323665326531000000000000000000000000000000000000000096ba4064000000000000000000" ++
    str "000000070301090301562d37370000000000000000000000000000000000000000000000000000000000000000000000" ++
    str "00700000004c2a5cc4080000000000000001000000000000000023e0bde967cf180300000055492d3462623562613832" ++
    str "3665326531000000000000000000000000000000000000000096ba406400000000000000000000000003040105452d39" ++
    str "39313100000000000000000000000000000000000000000000000000000000000000000000400d030000000000806887" ++
    str "ecf3090000380000006d160ad4090000000000000001000000000000000004d6c3e967cf180300000055492d34626235" ++
    str "626138323665326531000000000000000000000000000000000000000096ba4064000000000000000000000000040501" ++
    str "0638000000503d0c5b0a00000000000000010000000000000000e5cbc9e967cf180300000055492d3462623562613832" ++
    str "3665326531000000000000000000000000000000000000000096ba406400000000000000000000000005090107700000" ++
    str "0074bf414d0b00000000000000010000000000000000c6c1cfe967cf180300000055492d346262356261383236653265" ++
    str "31000000000000000000000000000000000000000096ba406400000000000000000000000009090005452d3939313200" ++
    str "000000000000000000000000000000000000000000000000000000000000000000a08601000000000000803b19f40900" ++
    str "007c000000316b24fb0c00000000000000010000000000000000a7b7d5e967cf180300000055492d3462623562613832" ++
    str "3665326531000000000000000000000000000000000000000096ba4064000000000000000000000000020a01031df8ff" ++
    str "ff696e73756666696369656e745f6d617267696e00000000000000000000000000000000000000000000000000000000" ++
    str "00000000000000000000000000000000005800000078ce21670d0000000000000001000000000000000088addbe967cf" ++
    str "180300000055492d34626235626138323665326531000000000000000000000000000000000000000096ba4064000000" ++
    str "00000000000000000002030102562d3535333636340000000000000000000000000000000000000000000000008a0000" ++
    str "003a5ca2d10e0000000000000001000000000000000069a3e1e967cf1804000000425443555344000000000000000000" ++
    str "00020296ba4064000000000000000000000000c053d63bfdffffff696e737472756d656e74206c6f636b656420627920" ++
    str "55492d346262356261383236653265310000000000000000000000000000000000000000000000000000000000000000" ++
    str "0000000000000000000000000000000000000000000000000000007000000006b1cd3a0f000000000000000100000000" ++
    str "000000004a99e7e967cf180300000055492d346262356261383236653265310000000000000000000000000000000000" ++
    str "00000096ba40640000000000000000000000000707010552434e2d55492d346262356261383236653265313a33000000" ++
    str "00000000000000000000000000000000a3e11100000000806887ecf30900007000000073110c1a100000000000000001" ++
    str "00000000000000002b8fede967cf180300000055492d3462623562613832366532653100000000000000000000000000" ++
    str "0000000000000096ba406400000000000000000000000008080005452d6c6174652d3939333100000000000000000000" ++
    str "0000000000000000000000000000000000000000e1f50500000000806887ecf30900001800000085deadec1100000000" ++
    str "0000000100000000000000000c85f3e967cf180500000042544355534400000000000000000000806887ecf309000010" ++
    str "000000488f103b1200000000000000010000000000000000ed7af9e967cf180600000055534400000000004048f45c8a" ++
    str "000000").

(** ** What the model makes of it *)

(** The writer writes the pinned segment, byte for byte. *)
Example the_on_disk_format_is_pinned : Fixture.write.1 = [(1, golden)].
Proof. vm_compute. reflexivity. Qed.

(** The tailer reads the claim and the fixture back, in order, each record
    decoded as what was written. *)
Example every_record_reads_back :
  let '(t, opened) := tailer_open (λ _, [(1, golden)]) 100 SEQ_ZERO in
  let '(_, read) := drain (λ _, [(1, golden)]) 100 100 t in
  opened = Ok tt ∧
  ((λ fs : list (FrameHeader * list byte), (λ f, (fh_seq f.1, fh_epoch f.1, decode (fh_kind f.1) f.2)) <$> fs) <$> read) =
    Ok (imap (λ i r, (Z.of_nat i + 1, 1, Ok r)) (Rec.EpochClaimed 1 0 :: Fixture.records)).
Proof. vm_compute. split; reflexivity. Qed.
