(* ===== verification/RecordSuite.v ===== *)
(** * The tests of the record format (sentinel-record)

    The unit tests of buf.rs and record.rs, over every shape a record has, and
    the tests of the pinned format, each with all its assertions. *)

From S2P Require Import Prelude Fixed Suite Types Domain Intent Format Codec Records Segment Journal Tailer Golden.

(** ** buf.rs *)

Module BufTests.
(** A reader's whole run over some bytes: its answer. *)
Definition over {A} (bytes : list byte) (m : RD A) : result CodecError.t A := (m (reader_new bytes)).2.
Definition refused {A} (r : result CodecError.t A) (e : CodecError.t) : Test := assert_is e (unwrap_err r).

Definition fields_round_trip_in_order : Test :=
  text ← unwrap (inline_new 16 (str "BTCUSD"));
  price ← px "109432.5";
  let bytes := W.u8 7 ++ W.flag true ++ W.i32 (-2019) ++ W.i64 i64_min ++ W.u64 u64_max ++
               W.trace 0xdeadbeef ++ W.text text ++ W.price price ++ W.opt_price None in
  unwrap (over bytes (
    v ← R.u8; _ ← st_lift (ok_or (assert_eq v 7) CodecError.BadText);
    v ← R.flag; _ ← st_lift (ok_or (assert v) CodecError.BadText);
    v ← R.i32; _ ← st_lift (ok_or (assert_eq v (-2019)) CodecError.BadText);
    v ← R.i64; _ ← st_lift (ok_or (assert_eq v i64_min) CodecError.BadText);
    v ← R.u64; _ ← st_lift (ok_or (assert_eq v u64_max) CodecError.BadText);
    v ← R.trace; _ ← st_lift (ok_or (assert_eq v 0xdeadbeef) CodecError.BadText);
    v ← R.text 16; _ ← st_lift (ok_or (assert_eq (inline_as_str v) (str "BTCUSD")) CodecError.BadText);
    v ← R.price; _ ← st_lift (ok_or (assert_eq v price) CodecError.BadText);
    v ← R.opt_price; _ ← st_lift (ok_or (assert_eq v None) CodecError.BadText);
    finish)).

Definition an_optional_field_keeps_a_fixed_width : Test :=
  let with_ := W.opt_price (Some (whole 5)) in
  let without := W.opt_price None in
  _ ← assert_eq (length with_) (length without);
  assert_eq (length with_) 9%nat.

Definition three : list byte := [Byte.x01; Byte.x02; Byte.x03].

Definition a_short_buffer_is_an_error_not_a_panic : Test :=
  refused (over three R.i64) (CodecError.Truncated 8 3).

Definition trailing_bytes_are_refused : Test :=
  refused (over three (_ ← R.u8; finish)) (CodecError.TrailingBytes 2).

Definition a_flag_that_is_not_a_flag_is_refused : Test :=
  refused (over [Byte.x02] R.flag) (CodecError.BadFlag 2).

Definition text_that_is_not_padding_is_refused : Test :=
  let bytes := [Byte.x41; Byte.x00; Byte.x00; Byte.x44] ++ replicate 12 Byte.x00 in
  refused (over bytes (R.text 16)) CodecError.BadText.

Definition every_value_of_every_field_survives_the_trip : Test :=
  for_each [0; 1; -1; i64_max; i64_min; 10943250000000] (λ n,
    let bytes := W.qty (from_raw n) ++ W.money (from_raw n) in
    '(q, m) ← unwrap (over bytes (q ← R.qty; m ← R.money; _ ← finish; mret (raw q, raw m)));
    _ ← assert_eq q n;
    assert_eq m n).

Definition tests : list Test :=
  [fields_round_trip_in_order; an_optional_field_keeps_a_fixed_width;
   a_short_buffer_is_an_error_not_a_panic; trailing_bytes_are_refused;
   a_flag_that_is_not_a_flag_is_refused; text_that_is_not_padding_is_refused;
   every_value_of_every_field_survives_the_trip].
End BufTests.

Example buf_tests_pass : suite BufTests.tests = true.
Proof. vm_compute. reflexivity. Qed.

(** ** record.rs *)

Module RecordTests.
Definition coid : option ClientOrderId := unwrap (inline_new 36 (str "UI-4bb5ba826e2e1")).
Definition btc : option Instrument := unwrap (inline_new 16 (str "BTCUSD")).

Definition intent : option Intent.t :=
  c ← coid;
  i ← btc;
  limit ← px "109432.5";
  quote ← px "109430";
  unwrap (Intent.new c i Buy (whole 3) Limit (Some limit) None Entry 0x6440ba96 (Some quote)).

Definition every_event : option (list OrderEvent) :=
  v ← unwrap (inline_new 32 (str "V-77"));
  e ← unwrap (inline_new 40 (str "E-6440ba96"));
  price ← px "109432.5";
  Some [SubmissionStarted; VenueAcked v;
        VenueRejected (reject_reason_new (-2019) (str "insufficient margin")); SubmissionTimedOut;
        FillReceived e (whole 2) price; CancelRequested; CancelConfirmed;
        ReconcileStarted SubmissionTimeout; ReconcileResolved Filled (Some v) (whole 3);
        ReconcileResolved Canceled None ZERO].

Definition every_record : option (list Rec.t) :=
  c ← coid;
  i ← btc;
  x ← intent;
  value ← money "-118.81";
  note ← unwrap (inline_new 96 (str "instrument locked by UI-4bb5ba826e2e1"));
  mark ← px "109432.5";
  asset ← unwrap (inline_new 8 (str "USD"));
  amount ← money "5942.65";
  events ← every_event;
  Some ([Rec.EpochClaimed 12 5698; Rec.IntentPersisted x;
         Rec.Decision i Actor.Guards DecisionKind.EntryBlocked 7 value note; Rec.Mark i mark;
         Rec.Balance asset amount; Rec.Ticked] ++
        ((λ event, Rec.OrderEvent c 0x8f82b303 Working Partial true event) <$> events)).

(** [for record in every_record()]. *)
Definition for_records (body : Rec.t → Test) : Test := records ← every_record; for_each records body.

Definition every_record_round_trips : Test :=
  for_records (λ record, assert_is record (unwrap (decode (rec_kind record) (encode record)))).

Definition encoding_is_deterministic : Test :=
  for_records (λ record, assert_eq (encode record) (encode record)).

Definition every_reconcile_cause_survives_the_byte_boundary : Test :=
  _ ← for_each [SubmissionTimeout; CancelTimeout; ReplayedMidSubmission; LateFill; LateCancelConfirm;
                StaleSweep; PositionDisagreement] (λ cause,
        assert_is cause (unwrap (cause_from_u8 (cause_to_u8 cause))));
  _ ← assert (is_err (cause_from_u8 0));
  assert (is_err (cause_from_u8 8)).

Definition a_truncated_payload_is_refused : Test :=
  for_records (λ record,
    let bytes := encode record in
    for_each (seq 0 (length bytes)) (λ cut,
      assert (is_err (decode (rec_kind record) (take cut bytes))))).

Definition extra_bytes_are_refused : Test :=
  for_records (λ record,
    err ← unwrap_err (decode (rec_kind record) (encode record ++ [Byte.x00]));
    match err with CodecError.TrailingBytes _ => Some tt | _ => None end).

Definition an_intent_that_would_not_be_authorised_is_refused_on_the_way_in : Test :=
  x ← intent;
  let bytes := encode (Rec.IntentPersisted x) in
  let bytes := take 55 bytes ++ le_bytes 8 0 ++ drop 63 bytes in
  assert (is_err (decode RecordKind.IntentPersisted bytes)).

Definition a_timeout_record_carries_nothing : Test :=
  c ← coid;
  assert_eq (length (encode (Rec.OrderEvent c TRACE_NONE Submitting Unknown true SubmissionTimedOut)))
    56%nat.

Definition record_kinds_match_the_journal_kinds : Test :=
  for_records (λ record,
    let bytes := encode record in
    for_each ALL (λ kind,
      if bool_decide (kind = rec_kind record) then Some tt
      else if_ok (decode kind bytes) (λ other, assert_ne other record))).

Definition tests : list Test :=
  [every_record_round_trips; encoding_is_deterministic;
   every_reconcile_cause_survives_the_byte_boundary; a_truncated_payload_is_refused;
   extra_bytes_are_refused; an_intent_that_would_not_be_authorised_is_refused_on_the_way_in;
   a_timeout_record_carries_nothing; record_kinds_match_the_journal_kinds].
End RecordTests.

Example record_tests_pass : suite RecordTests.tests = true.
Proof. vm_compute. reflexivity. Qed.

(** ** tests/golden.rs *)

Module GoldenTests.
Definition the_on_disk_format_is_pinned : Test :=
  '(_, fresh) ← Fixture.write.1 !! 0%nat;
  _ ← assert_eq (length fresh) (length golden);
  assert_eq fresh golden.

(** The index runs along the records after the claim. *)
Fixpoint reads_back (i : Z) (expected : list Rec.t) (read : list Frame) : Test :=
  match expected, read with
  | want :: expected, got :: read =>
      decoded ← unwrap (decode (fh_kind got.1) got.2);
      _ ← assert_eq decoded want;
      _ ← assert_eq (fh_seq got.1) (i + 2);
      _ ← assert_eq (fh_epoch got.1) 1;
      reads_back (i + 1) expected read
  | _, _ => Some tt
  end.

Definition every_record_reads_back_as_what_wrote_it : Test :=
  let world := λ _, [(1, golden)] in
  t ← (match tailer_open world 100 SEQ_ZERO with (t, Ok _) => Some t | (_, Err _) => None end);
  '(_, read) ← called (drain world 100 100) t;
  _ ← assert_eq (length read) (length Fixture.records + 1)%nat;
  first ← read !! 0%nat;
  _ ← assert_eq (fh_kind first.1) RecordKind.EpochClaimed;
  reads_back 0 Fixture.records (drop 1 read).

Definition the_fixture_covers_every_record_kind : Test :=
  for_each ALL (λ kind,
    if bool_decide (kind = RecordKind.EpochClaimed) then Some tt
    else assert (bool_decide (kind ∈ rec_kind <$> Fixture.records))).

Definition the_fixture_covers_every_event_kind : Test :=
  let kinds := omap (λ r, match r with Rec.OrderEvent _ _ _ _ _ event => Some (event_kind event) | _ => None end)
                 Fixture.records in
  for_each ALL (λ kind, assert (bool_decide (kind ∈ kinds))).

Definition tests : list Test :=
  [the_on_disk_format_is_pinned; every_record_reads_back_as_what_wrote_it;
   the_fixture_covers_every_record_kind; the_fixture_covers_every_event_kind].
End GoldenTests.

Example golden_tests_pass : suite GoldenTests.tests = true.
Proof. vm_compute. reflexivity. Qed.
