(* ===== verification/Terminates.v ===== *)
(** * The tailer's loops end (sentinel-journal/src/reader.rs)

    Whatever bytes the journal directory holds, and whatever the writer does to
    it between two accesses, no call of the tailer loops: the fuel its model
    is given is a bound on the segments and on the bytes of the directory. *)

From S2P Require Import Prelude Fixed Types Crc Format Segment Journal Tailer.

(** The model did not run out of fuel: it answers, or fails as the code fails. *)
Definition answers {A} (r : Tailer * result TailFailure A) : Prop := r.2 ≠ Err OutOfFuel.

(** [m] answers and, when it returns, leaves [Q]. *)
Definition ends {A} (m : TM A) (t : Tailer) (Q : A → Tailer → Prop) : Prop :=
  answers (m t) ∧ ∀ t' a, m t = (t', Ok a) → Q a t'.

Lemma ends_bind {A B} (m : TM A) (f : A → TM B) t Q R :
  ends m t Q → (∀ a t', Q a t' → ends (f a) t' R) → ends (m ≫= f) t R.
Proof.
  intros [Hm HQ] Hf. unfold ends, answers, mbind, ST_bind in *.
  destruct (m t) as [t1 [a|e]]; cbn [snd] in *; [by apply Hf, HQ|].
  split; [congruence|intros t' a; discriminate].
Qed.

Lemma ends_ret {A} (a : A) t (Q : A → Tailer → Prop) : Q a t → ends (mret a) t Q.
Proof. intros H. split; [done|]. intros t' b [= <- <-]. done. Qed.

Lemma ends_modify f t (Q : unit → Tailer → Prop) : Q tt (f t) → ends (st_modify f) t Q.
Proof. intros H. split; [done|]. intros t' [] [= <-]. done. Qed.

Lemma ends_fail {A} e t (Q : A → Tailer → Prop) : ends (st_fail (Failed e)) t Q.
Proof. split; [done|]. intros t' a; discriminate. Qed.

Lemma ends_fails {A} (m : result JournalError.t A) t (Q : A → Tailer → Prop) :
  (∀ a, m = Ok a → Q a t) → ends (fails m) t Q.
Proof.
  intros H. unfold fails, st_lift. destruct m as [a|e]; split; try done; intros t' b E.
  injection E as <- <-. by apply H.
Qed.

Lemma ends_weaken {A} (m : TM A) t (Q R : A → Tailer → Prop) :
  ends m t Q → (∀ a t', Q a t' → R a t') → ends m t R.
Proof. intros [H HQ] HR. split; [done|]. auto. Qed.

(** Reads and the moves of the cursor, run. *)
Lemma ends_get {A B} (g : Tailer → A) (f : A → TM B) t R :
  ends (f (g t)) t R → ends (st_get g ≫= f) t R.
Proof. done. Qed.

Lemma ends_modified {B} g (f : unit → TM B) t R :
  ends (f tt) (g t) R → ends (st_modify g ≫= f) t R.
Proof. done. Qed.

Lemma ends_returned {A B} (a : A) (f : A → TM B) t R :
  ends (f a) t R → ends (mret a ≫= f) t R.
Proof. done. Qed.

Lemma ends_observe {B} world (f : Dir → TM B) t R :
  ends (f (world (t_clock t))) (tick t) R → ends (observe world ≫= f) t R.
Proof. done. Qed.

(** A frame that is read lies inside the file as it was measured. *)
Lemma read_frame_inside now later offset size h p :
  read_frame_at now later offset size = Ok (Some (h, p)) →
  (offset + frame_len h ≤ size)%nat ∧ (0 < frame_len h)%nat.
Proof.
  unfold read_frame_at. case_bool; [done|]. destruct (read_exact _ _ now) as [hd|]; [|done].
  case_bool; [done|]. case_bool; [done|]. destruct (read_exact _ _ later) as [payload|]; [|done].
  destruct (decode_frame_header hd _) as [h'|] eqn:E; [|done]. cbn. intros [= -> <-].
  assert (fh_len h = claimed_len hd) as Hl.
  { unfold decode_frame_header in E. repeat (case_bool_in E; [done|]).
    destruct (ok_or _ _) as [k|]; [|done]. cbn in E. by injection E as <-. }
  unfold frame_len. rewrite Hl. pose proof (from_le_range (slice 4 0 hd)) as [H0 _].
  fold (claimed_len hd) in H0. unfold FRAME_HEADER_LEN in *. z_reflect. lia.
Qed.

(** ** One call *)

Section loops.
Context (world : nat → Dir) (N : nat).
Hypothesis few_segments : ∀ n, (length (world n) ≤ N)%nat.

Definition bounded (t : Tailer) : Prop := (length (t_segments t) ≤ N)%nat.
Definition placed_as (t t' : Tailer) : Prop :=
  t_segments t' = t_segments t ∧ t_index t' = t_index t.

Lemma open_current_ends t : ends (open_current world) t (λ _, placed_as t).
Proof.
  unfold open_current. apply ends_get. unfold id.
  destruct (t_segments t !! t_index t) as [base|]; [|by apply ends_ret].
  apply ends_observe. destruct (dir_file base _); [|apply ends_fail].
  case_match; [apply ends_modified|]; by repeat first [apply ends_modified | apply ends_ret].
Qed.

(** Another look moves on only to a segment there is. *)
Lemma rescan_ends t :
  ends (rescan world) t (λ again t', bounded t' ∧
    (again = true → t_index t' = S (t_index t) ∧ (S (t_index t) < N)%nat)).
Proof.
  unfold rescan, next_segment. apply ends_observe, ends_get, ends_modified. cbn -[Nat.ltb].
  pose proof (few_segments (t_clock t)) as HN.
  assert (length (list_segments (world (t_clock t))) ≤ N)%nat as Hl by
    (unfold list_segments; by rewrite length_fmap).
  case_match eqn:Hg; [|by apply ends_ret]. apply ends_modified, ends_ret. cbn.
  apply andb_true_iff in Hg as [_ Hg]. apply Nat.ltb_lt in Hg. split; [done|]. intros _. split; [done|lia].
Qed.

(** A call goes round once for each segment it has not passed. *)
Lemma next_record_ends fuel : ∀ t,
  bounded t → (N - t_index t < fuel)%nat →
  ends (next_record world fuel) t (λ _, bounded).
Proof.
  induction fuel as [|fuel IH]; intros t Hb Hf; [lia|]. cbn [next_record]. unfold next_segment.
  apply ends_get.
  apply (ends_bind _ _ _ (λ _ t1, placed_as t t1)).
  { destruct (t_file t); [by apply ends_ret|apply open_current_ends]. }
  intros opened t1 [E1 E2].
  assert (bounded t1) as Hb1 by (unfold bounded; by rewrite E1).
  assert (∀ t2 : Tailer, t_index t2 = t_index t → ends (again ← rescan world;
    if (again : bool) then next_record world fuel else mret None) t2 (λ _, bounded)) as Hagain.
  { intros t2 Hi. eapply ends_bind; [apply rescan_ends|]. intros [] t3 [Hb3 H3]; [|by apply ends_ret].
    destruct (H3 eq_refl) as [Hi3 HN3]. apply IH; [done|]. rewrite Hi3. lia. }
  destruct opened; cbn [negb]; [|by apply Hagain].
  apply ends_get. destruct (t_file t1) as [base|]; [|by apply ends_ret].
  unfold stat, read_frame.
  apply (ends_bind _ _ _ (λ _ t2, placed_as t t2)); [by apply ends_observe, ends_ret|].
  intros size t2 [E3 E4].
  apply (ends_bind _ _ _ (λ _ t3, placed_as t t3)); [by apply ends_observe, ends_observe, ends_get, ends_fails|].
  intros frame t3 [E5 E6]. apply ends_get. unfold id.
  destruct frame as [[h p]|].
  - case_bool; [apply ends_fail|].
    apply ends_modified, ends_modified, ends_ret. unfold bounded. cbn. by rewrite E5.
  - case_match eqn:Hi; [|by apply Hagain].
    apply Nat.ltb_lt in Hi. rewrite E5, E6 in Hi. unfold bounded in *. apply ends_modified, IH; cbn.
    + by rewrite E5.
    + rewrite E6. lia.
Qed.
End loops.

(** ** Opening *)

Section opening.
Context (world : nat → Dir) (B : nat).
Hypothesis small_segments : ∀ n base, (length (default [] (dir_file base (world n))) ≤ B)%nat.

Lemma seek_loop_ends base size fuel : ∀ t,
  (size - t_offset t < fuel)%nat → ends (seek_loop world fuel base size) t (λ _ _, True).
Proof.
  induction fuel as [|fuel IH]; intros t Hf; [lia|]. cbn [seek_loop].
  apply (ends_bind _ _ _ (λ r t1, t_offset t1 = t_offset t ∧
    ∀ h p, r = Some (h, p) → (t_offset t + frame_len h ≤ size)%nat ∧ (0 < frame_len h)%nat)).
  { apply ends_observe, ends_observe, ends_get, ends_fails. intros r Hr. split; [done|]. intros h p ->.
    by apply read_frame_inside in Hr. }
  intros [[h p]|] t1 [E Hin]; apply ends_get; [|by apply ends_ret].
  destruct (Hin h p eq_refl). case_match; [by apply ends_modify|].
  apply ends_modified, IH. cbn. lia.
Qed.

Lemma tailer_open_ends fuel after : (B < fuel)%nat → answers (tailer_open world fuel after).
Proof.
  intros Hf. unfold tailer_open. generalize (mkTailer (list_segments (world 0%nat)) 0 None 0 (seq_next after) 1).
  intros t. enough (ends (seek_to_start world fuel) t (λ _ _, True)) as [H _] by done.
  unfold seek_to_start. apply ends_get. unfold id. destruct (t_segments t) eqn:E; [by apply ends_ret|].
  cbv zeta. apply ends_modified. eapply ends_bind; [apply open_current_ends|].
  intros [] t1 _; cbn [negb]; [|by apply ends_ret]. apply ends_get.
  destruct (t_file t1) as [base|]; [|by apply ends_ret].
  apply (ends_bind _ _ _ (λ size t2, (size ≤ B)%nat)).
  { apply ends_observe, ends_ret, small_segments. }
  intros size t2 Hs. apply seek_loop_ends. lia.
Qed.
End opening.

(** ** Everything there is, when nothing moves *)

Section still.
Context (dir : Dir).

Definition size_of (base : Seq) : nat := length (default [] (dir_file base dir)).
Definition dir_bytes : nat := sum_list_with size_of (list_segments dir).

(** A cursor whose listing is the directory, open if at all on the segment at its index. *)
Definition positioned (t : Tailer) : Prop :=
  t_segments t = list_segments dir ∧
  ∀ base, t_file t = Some base → t_segments t !! t_index t = Some base.

(** The bytes it has not gone past. *)
Definition ahead (t : Tailer) : nat :=
  match drop (t_index t) (t_segments t) with
  | [] => 0
  | base :: rest => (size_of base - t_offset t) + sum_list_with size_of rest
  end.

Lemma ahead_at t base :
  t_segments t !! t_index t = Some base →
  ahead t = (size_of base - t_offset t + sum_list_with size_of (drop (S (t_index t)) (t_segments t)))%nat.
Proof. intros H. unfold ahead. by rewrite (drop_S _ _ _ H). Qed.

Lemma ahead_total t : positioned t → (ahead t ≤ dir_bytes)%nat.
Proof.
  intros [E _]. unfold ahead, dir_bytes. rewrite <-E.
  rewrite <-(take_drop (t_index t) (t_segments t)) at 2. rewrite sum_list_with_app.
  destruct (drop _ _); simpl; lia.
Qed.

#[local] Abbreviation still := (λ _ : nat, dir).

Lemma positioned_clock t : positioned t → positioned (tick t).
Proof. done. Qed.

Lemma stay t : positioned t → positioned t ∧ (ahead t ≤ ahead t)%nat ∧ t_index t = t_index t.
Proof. done. Qed.

Lemma open_current_still t :
  positioned t → ends (open_current still) t (λ opened t', positioned t' ∧ (ahead t' ≤ ahead t)%nat ∧
    t_index t' = t_index t).
Proof.
  intros Hp. pose proof Hp as [E Hf]. unfold open_current. apply ends_get. unfold id.
  destruct (t_segments t !! t_index t) as [base|] eqn:Hb; [|by apply ends_ret, stay].
  apply ends_observe. destruct (dir_file base _); [|apply ends_fail].
  destruct (Nat.eqb_spec (t_offset t) 0) as [H0|H0];
    repeat first [apply ends_modified | apply ends_returned]; apply ends_ret; unfold positioned; cbn.
  all: split_and!; [done|intros b [= <-]; done| |done].
  all: rewrite !(ahead_at _ base) by done; cbn; lia.
Qed.

Lemma rescan_still t :
  positioned t → ends (rescan still) t (λ again t', again = false ∧ positioned t' ∧ ahead t' = ahead t).
Proof.
  intros [E Hf]. unfold rescan. apply ends_observe, ends_get, ends_modified. cbn -[Nat.ltb].
  rewrite <-E, Nat.ltb_irrefl. cbn [andb]. apply ends_ret. by unfold positioned.
Qed.

Definition moved_on (t : Tailer) (r : option Frame) (t' : Tailer) : Prop :=
  positioned t' ∧ (ahead t' ≤ ahead t)%nat ∧ (is_Some r → (ahead t' < ahead t)%nat).

Lemma next_record_still fuel : ∀ t,
  positioned t → (length (list_segments dir) - t_index t < fuel)%nat →
  ends (next_record still fuel) t (moved_on t).
Proof.
  induction fuel as [|fuel IH]; intros t Hp Hf; [lia|]. cbn [next_record]. unfold next_segment.
  apply ends_get.
  apply (ends_bind _ _ _ (λ _ t1, positioned t1 ∧ (ahead t1 ≤ ahead t)%nat ∧ t_index t1 = t_index t)).
  { destruct (t_file t); [by apply ends_ret, stay|by apply open_current_still]. }
  intros opened t1 (Hp1 & Ha1 & Hi1).
  assert (∀ t2 : Tailer, positioned t2 → (ahead t2 ≤ ahead t)%nat → ends (again ← rescan still;
    if (again : bool) then next_record still fuel else mret None) t2 (moved_on t)) as Hagain.
  { intros t2 Hp2 Ha2. eapply ends_bind; [by apply rescan_still|]. intros again t3 (-> & Hp3 & Ha3).
    apply ends_ret. split_and!; [done|lia|by intros []]. }
  destruct opened; cbn [negb]; [|by apply Hagain].
  apply ends_get. destruct (t_file t1) as [base|] eqn:Hbase.
  2: { apply ends_ret. split_and!; [done|lia|by intros []]. }
  pose proof (proj2 Hp1 _ Hbase) as Hat1. pose proof (proj1 Hp1) as E1. unfold stat, read_frame.
  apply (ends_bind _ _ _ (λ size t2, size = size_of base ∧ t2 = tick t1));
    [by apply ends_observe, ends_ret|]. intros size t2 [-> ->].
  apply (ends_bind _ _ _ (λ r t3, t3 = tick (tick (tick t1)) ∧
    ∀ h p, r = Some (h, p) → (t_offset t1 + frame_len h ≤ size_of base)%nat ∧ (0 < frame_len h)%nat)).
  { apply ends_observe, ends_observe, ends_get, ends_fails. intros r Hr. split; [done|]. intros h p ->.
    by apply read_frame_inside in Hr. }
  intros [[h p]|] t3 [-> Hin]; apply ends_get; unfold id.
  - destruct (Hin h p eq_refl). case_match; [apply ends_fail|].
    apply ends_modified, ends_modified, ends_ret. unfold moved_on, positioned. cbn.
    rewrite !(ahead_at _ base) in * by done. cbn.
    split_and!; [done|congruence|lia|lia].
  - destruct (Nat.ltb_spec (S (t_index (tick (tick (tick t1))))) (length (t_segments (tick (tick (tick t1)))))) as [Hlt|Hge];
      [|by apply Hagain]. cbn in Hlt.
    apply ends_modified. eapply ends_weaken; [apply IH; [done|cbn; rewrite <-E1 in *; lia]|].
    intros r t4 (Hp4 & Ha4 & Hr4).
    destruct (lookup_lt_is_Some_2 (t_segments t1) (S (t_index t1)) Hlt) as [b' Hb'].
    rewrite (ahead_at (set_offset _ _) b') in Ha4, Hr4 by done. cbn in Ha4, Hr4.
    rewrite (ahead_at t1 base), (drop_S _ _ _ Hb') in Ha1 by done. cbn in Ha1.
    split_and!; [done|lia|]. intros Hs. specialize (Hr4 Hs). lia.
Qed.

Lemma drain_still fuel calls : ∀ t,
  positioned t → (length (list_segments dir) < fuel)%nat → (ahead t < calls)%nat →
  answers (drain still fuel calls t).
Proof.
  induction calls as [|calls IH]; intros t Hp Hf Hc; [lia|].
  enough (ends (drain still fuel (S calls)) t (λ _ _, True)) as [H _] by done. cbn [drain].
  eapply ends_bind; [apply next_record_still; [done|lia]|]. intros [r|] t1 (Hp1 & _ & Hr); [|by apply ends_ret].
  eapply (ends_bind _ _ _ (λ _ _, True)); [|by intros; apply ends_ret].
  split; [|done]. apply IH; [done|done|]. specialize (Hr ltac:(eauto)). lia.
Qed.

(** Opening leaves a cursor in position. *)
Lemma seek_loop_still base size fuel : ∀ t,
  positioned t → (size - t_offset t < fuel)%nat →
  ends (seek_loop still fuel base size) t (λ _, positioned).
Proof.
  induction fuel as [|fuel IH]; intros t Hp Hf; [lia|]. cbn [seek_loop].
  apply (ends_bind _ _ _ (λ r t1, t1 = tick (tick t) ∧
    ∀ h p, r = Some (h, p) → (t_offset t + frame_len h ≤ size)%nat ∧ (0 < frame_len h)%nat)).
  { apply ends_observe, ends_observe, ends_get, ends_fails. intros r Hr. split; [done|]. intros h p ->.
    by apply read_frame_inside in Hr. }
  intros [[h p]|] t1 [-> Hin]; apply ends_get; [|by apply ends_ret].
  destruct (Hin h p eq_refl). case_match; [by apply ends_modify|].
  apply ends_modified, IH; [done|cbn; lia].
Qed.

Lemma size_of_le base : (size_of base ≤ dir_bytes)%nat.
Proof.
  destruct (dir_file base dir) as [file|] eqn:E; [|unfold size_of; rewrite E; simpl; lia].
  unfold dir_bytes. apply sum_list_with_in. unfold dir_file in E. destruct (find _ dir) as [[b f]|] eqn:Hfind; [|done].
  apply find_Some in Hfind as [Hin Hb]. simpl in Hb. z_reflect.
  apply list_elem_of_fmap. exists (b, f). by split.
Qed.

Lemma tailer_open_still fuel after :
  (dir_bytes < fuel)%nat →
  answers (tailer_open still fuel after) ∧
  ∀ t, tailer_open still fuel after = (t, Ok tt) → positioned t.
Proof.
  intros Hf. unfold tailer_open. set (t0 := mkTailer _ _ _ _ _ _).
  assert (positioned t0) as Hp by done.
  enough (ends (seek_to_start still fuel) t0 (λ _, positioned)) as [H1 H2] by (split; [done|eauto]).
  unfold seek_to_start. apply ends_get. unfold id. destruct (t_segments t0) eqn:E; [by apply ends_ret|].
  cbv zeta. apply ends_modified.
  eapply ends_bind; [apply open_current_still; split; [done|by intros ? [=]]|].
  intros [] t1 (Hp1 & _); cbn [negb]; [|by apply ends_ret]. apply ends_get.
  destruct (t_file t1) as [base|]; [|by apply ends_ret].
  apply (ends_bind _ _ _ (λ size t2, size = size_of base ∧ positioned t2)); [by apply ends_observe, ends_ret|].
  intros size t2 [-> Hp2]. apply seek_loop_still; [done|]. pose proof (size_of_le base). lia.
Qed.
End still.

(** ** Property *)

(** C28: the tailer never loops. Let every state of the journal directory hold at most [N] files
    of at most [B] bytes, with any content, and let the writer change it between
    any two accesses: opening a cursor goes round its loop at most [B] times, and
    a call for the next record at most [N] times. And over a directory that
    stands still, reading everything there is ends within as many calls as
    there are bytes. *)
Theorem tailer_terminates (world : nat → Dir) (N B fuel : nat) :
  (∀ n, (length (world n) ≤ N)%nat) →
  (∀ n base, (length (default [] (dir_file base (world n))) ≤ B)%nat) →
  (N < fuel)%nat → (B < fuel)%nat →
  (∀ after, answers (tailer_open world fuel after)) ∧
  (∀ t, bounded N t → answers (next_record world fuel t)) ∧
  (∀ dir after t calls, (length dir ≤ N)%nat → (dir_bytes dir < fuel)%nat →
     tailer_open (λ _, dir) fuel after = (t, Ok tt) → (dir_bytes dir < calls)%nat →
     answers (drain (λ _, dir) fuel calls t)).
Proof.
  intros HN HB Hf1 Hf2. split_and!.
  - intros after. by eapply tailer_open_ends.
  - intros t Ht. apply (next_record_ends world N HN); [done|lia].
  - intros dir after t calls Hl Hd Ho Hc.
    pose proof (proj2 (tailer_open_still dir fuel after Hd) t Ho) as Hp.
    apply drain_still; [done| |].
    + unfold list_segments. rewrite length_fmap. lia.
    + pose proof (ahead_total dir t Hp). lia.
Qed.

(** A directory whose second segment is rubbish: the first is delivered, the
    second is an error, and nothing loops. *)
Definition ex_rubbish : Dir :=
  Eval vm_compute in
  [(1, (group_file (1, 5, [claim_record [] 5])).2); (2, replicate 150 Byte.x7f)].

Lemma tailer_terminates_witness :
  let world := λ n : nat, if Nat.even n then ex_rubbish else take 1 ex_rubbish in
  (∀ after, answers (tailer_open world 400 after)) ∧
  (∀ t, bounded 2 t → answers (next_record world 400 t)) ∧
  (∀ dir after t calls, (length dir ≤ 2)%nat → (dir_bytes dir < 400)%nat →
     tailer_open (λ _, dir) 400 after = (t, Ok tt) → (dir_bytes dir < calls)%nat →
     answers (drain (λ _, dir) 400 calls t)).
Proof.
  intros world. apply (tailer_terminates world 2 200 400); [| |lia|lia].
  - intros n. unfold world. destruct (Nat.even n); vm_compute; lia.
  - intros n base. unfold world, dir_file.
    destruct (Nat.even n); cbn [ex_rubbish take find fst]; repeat case_match; vm_compute; lia.
Defined.
