(* ===== verification/Book.v ===== *)
(** * The book (sentinel-ledger/src/book.rs, error.rs)

    Every projection the engine reads, and [apply], the fold step over journal
    records.  Applying is a method on [&mut self] that can fail after it has
    changed fields, so it is a state-monad action here too.  The theorems: what
    each record does on every branch, that a duplicate execution or intent is a
    no-op, and that positions are the signed sum of the fills. *)

From S2P Require Import Prelude Fixed Types Domain Intent Position Format Codec Records Segment.

Module LedgerError.
Inductive t :=
| Journal (e : JournalError.t)
| Codec (seq : Seq) (source : CodecError.t)
| UnknownOrder (client_order_id : ClientOrderId)
| Transition (client_order_id : ClientOrderId) (source : TransitionError)
| PositionOverflow (instrument : Instrument)
| StateDisagrees (client_order_id : ClientOrderId) (recorded held : OrderState).

Definition is_integrity_violation (e : t) : bool :=
  match e with
  | PositionOverflow _ | UnknownOrder _ | StateDisagrees _ _ _ => true
  | Transition _ source => transition_integrity_violation source
  | _ => false
  end.
End LedgerError.

#[export] Instance LedgerError_eq_dec : EqDecision LedgerError.t.
Proof. solve_decision. Defined.

Record Order := mkOrder {
  core : OrderCore;
  o_authority : Authority;
  o_kind : OrderKind;
  o_limit_price : option Price;
  o_stop_price : option Price;
  o_quote_at_decision : option Price;
  o_trace_id : TraceId;
  created_at : Nanos;
  last_venue_evidence : Nanos;
}.

#[export] Instance Order_eq_dec : EqDecision Order.
Proof. solve_decision. Defined.

Definition remaining_qty (o : Order) : Qty := core_remaining_qty (core o).

Definition is_exit (o : Order) : bool :=
  match o_authority o with ProtectiveExit => true | Entry => false end.

Record Fill := mkFill {
  f_client_order_id : ClientOrderId;
  f_instrument : Instrument;
  f_side : Side;
  f_qty : Qty;
  f_price : Price;
  f_at : Nanos;
}.

#[export] Instance Fill_eq_dec : EqDecision Fill.
Proof. solve_decision. Defined.

Inductive Applied :=
| Changed
| Duplicate
| NeedsReconciliation (client_order_id : ClientOrderId).

#[export] Instance Applied_eq_dec : EqDecision Applied.
Proof. solve_decision. Defined.

Record Book := mkBook {
  b_orders : gmap ClientOrderId Order;
  b_fills : gmap ExecId Fill;
  b_positions : gmap Instrument Position;
  b_balances : gmap Asset Money;
  b_marks : gmap Instrument Price;
  order_sequence : list ClientOrderId;
  epoch : Epoch;
  b_last_seq : Seq;
  now : Nanos;
  halted : bool;
}.

#[export] Instance Book_eq_dec : EqDecision Book.
Proof. solve_decision. Defined.

(** [Book::new()]. *)
Definition book_new : Book := mkBook ∅ ∅ ∅ ∅ ∅ [] GENESIS SEQ_ZERO 0 false.

(** Field updates. *)
Definition set_orders (m : gmap ClientOrderId Order) (b : Book) : Book :=
  mkBook m (b_fills b) (b_positions b) (b_balances b) (b_marks b) (order_sequence b)
    (epoch b) (b_last_seq b) (now b) (halted b).
Definition set_fills (m : gmap ExecId Fill) (b : Book) : Book :=
  mkBook (b_orders b) m (b_positions b) (b_balances b) (b_marks b) (order_sequence b)
    (epoch b) (b_last_seq b) (now b) (halted b).
Definition set_positions (m : gmap Instrument Position) (b : Book) : Book :=
  mkBook (b_orders b) (b_fills b) m (b_balances b) (b_marks b) (order_sequence b)
    (epoch b) (b_last_seq b) (now b) (halted b).
Definition set_balances (m : gmap Asset Money) (b : Book) : Book :=
  mkBook (b_orders b) (b_fills b) (b_positions b) m (b_marks b) (order_sequence b)
    (epoch b) (b_last_seq b) (now b) (halted b).
Definition set_marks (m : gmap Instrument Price) (b : Book) : Book :=
  mkBook (b_orders b) (b_fills b) (b_positions b) (b_balances b) m (order_sequence b)
    (epoch b) (b_last_seq b) (now b) (halted b).
Definition push_sequence (c : ClientOrderId) (b : Book) : Book :=
  mkBook (b_orders b) (b_fills b) (b_positions b) (b_balances b) (b_marks b)
    (order_sequence b ++ [c]) (epoch b) (b_last_seq b) (now b) (halted b).
Definition set_epoch (e : Epoch) (b : Book) : Book :=
  mkBook (b_orders b) (b_fills b) (b_positions b) (b_balances b) (b_marks b)
    (order_sequence b) e (b_last_seq b) (now b) (halted b).
Definition set_halted (h : bool) (b : Book) : Book :=
  mkBook (b_orders b) (b_fills b) (b_positions b) (b_balances b) (b_marks b)
    (order_sequence b) (epoch b) (b_last_seq b) (now b) h.

(** The three assignments every [apply] opens with. *)
Definition stamp (h : FrameHeader) (b : Book) : Book :=
  mkBook (b_orders b) (b_fills b) (b_positions b) (b_balances b) (b_marks b)
    (order_sequence b) (fh_epoch h) (fh_seq h) (Z.max (now b) (fh_nanos h)) (halted b).

Abbreviation BM := (ST Book LedgerError.t).

(** Runs a method of a field in place, whatever it returns. *)
Definition position_entry (i : Instrument) (m : ST Position PositionOverflow unit) : BM unit :=
  λ b,
    let '(p, r) := m (default position_default (b_positions b !! i)) in
    (set_positions (<[i := p]> (b_positions b)) b,
     map_err (λ _, LedgerError.PositionOverflow i) r).

(** [*order.core = next], and the evidence stamp. *)
Definition set_core (next : OrderCore) (evidence : option Nanos) (o : Order) : Order :=
  mkOrder next (o_authority o) (o_kind o) (o_limit_price o) (o_stop_price o)
    (o_quote_at_decision o) (o_trace_id o) (created_at o)
    (default (last_venue_evidence o) evidence).

Definition apply_order_event (header : FrameHeader) (c : ClientOrderId)
    (from_state to_state : OrderState) (event : OrderEvent) : BM Applied :=
  self ← st_get id;
  order ← st_lift (ok_or (b_orders self !! c) (LedgerError.UnknownOrder c));
  let duplicate :=
    match event with
    | FillReceived exec_id _ _ => bool_decide (is_Some (b_fills self !! exec_id))
    | _ => false
    end in
  if duplicate then mret Duplicate
  else if negb (bool_decide (state (core order) = from_state)) then
    st_fail (LedgerError.StateDisagrees c from_state (state (core order)))
  else
    match transition (core order) event with
    | Err e =>
        if needs_reconciliation e then
          if negb (bool_decide (to_state = from_state)) then
            st_fail (LedgerError.StateDisagrees c to_state from_state)
          else mret (NeedsReconciliation c)
        else st_fail (LedgerError.Transition c e)
    | Ok next =>
        if negb (bool_decide (state next = to_state)) then
          st_fail (LedgerError.StateDisagrees c to_state (state next))
        else
          _ ← match event with
              | FillReceived exec_id qty price =>
                  _ ← st_modify (λ b, set_fills (<[exec_id :=
                        mkFill c (instrument (core order)) (side (core order)) qty price
                          (fh_nanos header)]> (b_fills b)) b);
                  position_entry (instrument (core order))
                    (position_apply_fill (side (core order)) qty price)
              | _ => mret tt
              end;
          _ ← st_modify (λ b, set_orders (<[c := set_core next
                (if is_venue_evidence event then Some (fh_nanos header) else None) order]>
                (b_orders b)) b);
          mret Changed
    end.

Definition order_of_intent (i : Intent.t) (at_ : Nanos) : Order :=
  mkOrder
    (created (Intent.client_order_id i) (Intent.instrument i) (Intent.side i) (Intent.qty i))
    (Intent.authority i) (Intent.kind i) (Intent.limit_price i) (Intent.stop_price i)
    (Intent.quote_at_decision i) (Intent.trace_id i) at_ at_.

Definition apply (header : FrameHeader) (record : Rec.t) : BM Applied :=
  _ ← st_modify (stamp header);
  match record with
  | Rec.EpochClaimed e _ =>
      _ ← st_modify (set_epoch e);
      mret Changed
  | Rec.IntentPersisted intent =>
      let c := Intent.client_order_id intent in
      known ← st_get (λ b, bool_decide (is_Some (b_orders b !! c)));
      if (known : bool) then mret Duplicate
      else
        let order := order_of_intent intent (fh_nanos header) in
        _ ← st_modify (push_sequence c);
        _ ← st_modify (λ b, set_orders (<[c := order]> (b_orders b)) b);
        mret Changed
  | Rec.OrderEvent c _ from_state to_state _ event =>
      apply_order_event header c from_state to_state event
  | Rec.Decision _ _ kind _ _ _ =>
      _ ← match kind with
          | DecisionKind.Halted => st_modify (set_halted true)
          | DecisionKind.Resumed => st_modify (set_halted false)
          | _ => mret tt
          end;
      mret Changed
  | Rec.Mark i price =>
      _ ← st_modify (λ b, set_marks (<[i := price]> (b_marks b)) b);
      mret Changed
  | Rec.Balance a amount =>
      _ ← st_modify (λ b, set_balances (<[a := amount]> (b_balances b)) b);
      mret Changed
  | Rec.Ticked => mret Changed
  end.

(** [Book::rebuild], over the records the tailer delivers: decode, apply, stop
    at the first that fails. *)
Definition rebuild_step (f : Frame) : BM unit :=
  decoded ← st_lift (map_err (LedgerError.Codec (fh_seq f.1)) (decode (fh_kind f.1) f.2));
  _ ← apply f.1 decoded;
  mret tt.

Fixpoint rebuild_loop (fs : list Frame) : BM unit :=
  match fs with
  | [] => mret tt
  | f :: fs' => _ ← rebuild_step f; rebuild_loop fs'
  end.

Definition rebuild (fs : list Frame) : result LedgerError.t Book :=
  match rebuild_loop fs book_new with
  | (b, Ok _) => Ok b
  | (_, Err e) => Err e
  end.

(** ** Reading *)

Definition order (b : Book) (c : ClientOrderId) : option Order := b_orders b !! c.

Definition orders (b : Book) : list Order :=
  omap (λ id, b_orders b !! id) (order_sequence b).

Definition live_orders (b : Book) : list Order :=
  filter (λ o, is_terminal (state (core o)) = false) (orders b).

Definition live_orders_on (b : Book) (i : Instrument) : list Order :=
  filter (λ o, instrument (core o) = i) (live_orders b).

Definition instrument_locked (b : Book) (i : Instrument) : bool :=
  existsb (λ o, locks_instrument (state (core o))) (live_orders_on b i).

Definition locking_order (b : Book) (i : Instrument) : option Order :=
  find (λ o, locks_instrument (state (core o))) (live_orders_on b i).

Definition position (b : Book) (i : Instrument) : Position :=
  default position_default (b_positions b !! i).

Definition all_positions (b : Book) : list (Instrument * Position) :=
  sort_by_id (map_to_list (b_positions b)).

Definition open_positions (b : Book) : list (Instrument * Position) :=
  sort_by_id (filter (λ ip, is_flat ip.2 = false) (map_to_list (b_positions b))).

Definition committed_to_exits (b : Book) (i : Instrument) : Qty :=
  foldl (λ sum o, unwrap_or (checked_add sum (remaining_qty o)) MAX) ZERO
    (filter (λ o, is_exit o = true) (live_orders_on b i)).

Definition fill (b : Book) (e : ExecId) : option Fill := b_fills b !! e.
Definition fill_count (b : Book) : nat := size (b_fills b).

Definition all_fills (b : Book) : list Fill :=
  omap (λ id, b_fills b !! id) (sort_ids (map_to_list (b_fills b)).*1).

Definition fills_for (b : Book) (c : ClientOrderId) : list Fill :=
  filter (λ f, f_client_order_id f = c) (all_fills b).

Definition mark (b : Book) (i : Instrument) : option Price := b_marks b !! i.

Definition balance (b : Book) (a : Asset) : Money := default ZERO (b_balances b !! a).

Definition balances (b : Book) : list (Asset * Money) :=
  sort_by_id (map_to_list (b_balances b)).

Definition realized_total (b : Book) : Money :=
  foldl (λ sum ip, unwrap_or (checked_add sum (realized ip.2)) sum) ZERO (all_positions b).

Definition unrealized_total (b : Book) : Money :=
  foldl (λ sum v, unwrap_or (checked_add sum v) sum) ZERO
    (omap (λ ip, unrealized ip.2 <$> mark b ip.1) (open_positions b)).

Definition stale_orders (b : Book) (max_age_nanos : Z) : list ClientOrderId :=
  sort_ids ((client_order_id ∘ core) <$>
    filter (λ o, max_age_nanos < saturating_since (now b) (last_venue_evidence o))
      (filter (λ o, state (core o) ≠ Reconciling) (live_orders b))).

Definition affects_book (k : RecordKind.t) : bool :=
  match k with RecordKind.Ticked => false | _ => true end.

(** ** The invariant of a book *)

(** What one execution adds to the position of [i]. *)
Definition fill_on (i : Instrument) (f : Fill) : Z :=
  if bool_decide (f_instrument f = i) then sign (f_side f) * raw (f_qty f) else 0.

(** The signed sum of the executions on [i]. *)
Definition filled_on (b : Book) (i : Instrument) : Z := map_zsum (fill_on i) (b_fills b).

(** An execution belongs to an order of the book, on its instrument and side. *)
Definition fill_ok (b : Book) (f : Fill) : Prop :=
  ∃ o, b_orders b !! f_client_order_id f = Some o ∧
    f_instrument f = instrument (core o) ∧ f_side f = side (core o) ∧ 0 < raw (f_qty f).

Record book_ok (b : Book) : Prop := {
  bo_orders c o : b_orders b !! c = Some o → client_order_id (core o) = c ∧ order_ok (core o);
  bo_sequence : NoDup (order_sequence b);
  bo_listed c : c ∈ order_sequence b ↔ is_Some (b_orders b !! c);
  bo_fills e f : b_fills b !! e = Some f → fill_ok b f;
  bo_positions i p : b_positions b !! i = Some p → position_ok p;
  bo_sum i : raw (pos_qty (position b i)) = filled_on b i;
}.

(** What the invariant asks of a record.  That integers fit their machine width
    and that an intent is one the validating constructor returned comes with
    decoding; that the price of an execution is not negative does not: neither
    the codec nor the fold looks at it. *)
Definition applicable (r : Rec.t) : Prop :=
  match r with
  | Rec.IntentPersisted i => e8_ok (Intent.qty i) ∧ 0 < raw (Intent.qty i)
  | Rec.OrderEvent _ _ _ _ _ (FillReceived _ q p) => e8_ok q ∧ 0 ≤ raw p
  | _ => True
  end.

Lemma book_new_ok : book_ok book_new.
Proof.
  split; simpl.
  - intros c o. by rewrite lookup_empty.
  - constructor.
  - intros c. rewrite lookup_empty. split; [by intros ?%elem_of_nil | by intros []].
  - intros e f. by rewrite lookup_empty.
  - intros i p. by rewrite lookup_empty.
  - intros i. unfold position. simpl. rewrite lookup_empty.
    unfold filled_on. simpl. by rewrite map_zsum_empty.
Qed.

(** ** What a record does *)

Lemma ok_or_Ok {E A} (m : option A) (e : E) a : ok_or m e = Ok a ↔ m = Some a.
Proof. destruct m; naive_solver. Qed.

(** A refusal and a duplicate leave the stamp and nothing else. *)
Lemma apply_order_event_quiet h c fs ts e b b' r :
  apply_order_event h c fs ts e b = (b', r) →
  match r with Ok Changed => False | Err (LedgerError.PositionOverflow _) => False | _ => True end →
  b' = b.
Proof.
  unfold apply_order_event, position_entry, st_get, st_modify, st_lift, st_fail, mbind, ST_bind,
    mret, ST_ret, id.
  intros H Hr. repeat (case_match; simplify_eq/=; try done).
  all: match goal with E : map_err _ ?r = _ |- _ => destruct r; discriminate end.
Qed.

Lemma apply_order_event_Changed h c fs ts e b b' :
  apply_order_event h c fs ts e b = (b', Ok Changed) →
  ∃ o next,
    b_orders b !! c = Some o ∧ state (core o) = fs ∧
    transition (core o) e = Ok next ∧ state next = ts ∧
    let o' := set_core next (if is_venue_evidence e then Some (fh_nanos h) else None) o in
    match e with
    | FillReceived x q p =>
        b_fills b !! x = None ∧
        ∃ pos', position_apply_fill (side (core o)) q p (position b (instrument (core o)))
                  = (pos', Ok tt) ∧
          b' = set_orders (<[c := o']> (b_orders b))
                 (set_positions (<[instrument (core o) := pos']> (b_positions b))
                   (set_fills (<[x := mkFill c (instrument (core o)) (side (core o)) q p
                                        (fh_nanos h)]> (b_fills b)) b))
    | _ => b' = set_orders (<[c := o']> (b_orders b)) b
    end.
Proof.
  intros H. unfold apply_order_event in H. st_steps H. unfold id in *.
  match goal with E : ok_or _ _ = Ok ?o |- _ =>
    apply ok_or_Ok in E; rename E into Ho, o into ord end.
  exists ord.
  case_bool_in H; [by st_prim H|]. rename Heqb0 into Hdup.
  case_bool_in H; [discriminate|]. z_reflect.
  destruct (transition (core ord) e) as [next|err] eqn:Ht.
  2: { repeat (case_bool_in H; [try discriminate|]); try discriminate. }
  case_bool_in H; [discriminate|]. z_reflect. exists next. st_steps H.
  split_and!; try done.
  match goal with E : _ = (_, Ok _) |- _ => rename E into Hf end.
  destruct e; try (st_prim Hf; by subst).
  st_steps Hf. unfold position_entry in Hf. cbn [b_positions set_fills] in Hf.
  destruct (position_apply_fill _ _ _ _) as [pos' [[]|]] eqn:Hpos; simpl in Hf; [|discriminate].
  z_reflect. split; [by apply eq_None_not_Some|]. exists pos'. split; [done|].
  by simplify_eq.
Qed.

(** The invariant looks at orders, fills, positions and the listing only. *)
Lemma book_ok_ext b b' :
  book_ok b → b_orders b' = b_orders b → b_fills b' = b_fills b →
  b_positions b' = b_positions b → order_sequence b' = order_sequence b → book_ok b'.
Proof.
  intros [H1 H2 H3 H4 H5 H6] E1 E2 E3 E4.
  unfold fill_ok, position, filled_on in *.
  split; unfold fill_ok, position, filled_on; rewrite ?E1, ?E2, ?E3, ?E4; done.
Qed.

(** Moving an order along its lifecycle. *)
Lemma book_ok_update b c o e next ev :
  book_ok b → b_orders b !! c = Some o → transition (core o) e = Ok next →
  book_ok (set_orders (<[c := set_core next ev o]> (b_orders b)) b).
Proof.
  intros [H1 H2 H3 H4 H5 H6] Ho Ht.
  pose proof (transition_identity _ _ _ Ht) as (Hid & Hin & Hsd & _).
  split; simpl; try done.
  - intros c' o'. destruct (decide (c' = c)) as [->|Hne].
    + rewrite lookup_insert_eq. intros [= <-]. simpl. destruct (H1 _ _ Ho) as [<- ?].
      split; [congruence|]. by eapply transition_order_ok.
    + rewrite lookup_insert_ne by done. apply H1.
  - intros c'. rewrite H3, lookup_insert_is_Some'. naive_solver.
  - intros x f Hf. destruct (H4 x f Hf) as (o1 & Ho1 & Hi1 & Hs1 & Hq1).
    destruct (decide (f_client_order_id f = c)) as [Ec|Hne].
    + exists (set_core next ev o). simpl. rewrite Ec, lookup_insert_eq.
      rewrite Ec, Ho in Ho1. simplify_eq. split_and!; try done; congruence.
    + exists o1. simpl. by rewrite lookup_insert_ne.
Qed.

(** Booking an execution of a known order at an id not seen before. *)
Lemma book_ok_fill b c o x q p at_ pos' :
  book_ok b → b_orders b !! c = Some o → b_fills b !! x = None →
  e8_ok q → 0 < raw q → 0 ≤ raw p →
  position_apply_fill (side (core o)) q p (position b (instrument (core o))) = (pos', Ok tt) →
  book_ok (set_positions (<[instrument (core o) := pos']> (b_positions b))
            (set_fills (<[x := mkFill c (instrument (core o)) (side (core o)) q p at_]> (b_fills b)) b)).
Proof.
  intros [H1 H2 H3 H4 H5 H6] Ho Hx Hq Hq0 Hp Hpos.
  set (i := instrument (core o)) in *.
  assert (position_ok (position b i)) as Hold.
  { unfold position. destruct (b_positions b !! i) eqn:E; simpl; eauto with sentinel. }
  destruct (position_fill_accounted _ _ _ _ _ Hpos Hold Hq Hq0 Hp)
    as (? & ? & _ & _ & _ & [Hqty Hok _]).
  split; simpl; try done.
  - intros x' f. destruct (decide (x' = x)) as [->|Hne].
    + rewrite lookup_insert_eq. intros [= <-]. by exists o.
    + rewrite lookup_insert_ne by done. apply H4.
  - intros i' p'. destruct (decide (i' = i)) as [->|Hne].
    + rewrite lookup_insert_eq. by intros [= <-].
    + rewrite lookup_insert_ne by done. apply H5.
  - intros i'. unfold filled_on. cbn [b_fills set_positions set_fills].
    rewrite map_zsum_insert by done. fold (filled_on b i'). rewrite <-H6.
    unfold position at 1. cbn [b_positions set_positions].
    unfold fill_on. cbn [f_instrument f_side f_qty].
    destruct (decide (i' = i)) as [->|Hne].
    + rewrite lookup_insert_eq, bool_decide_eq_true_2 by done. simpl. rewrite Hqty. lia.
    + rewrite lookup_insert_ne, bool_decide_eq_false_2 by done. done.
Qed.

Lemma book_ok_intent b i at_ :
  book_ok b → e8_ok (Intent.qty i) → 0 < raw (Intent.qty i) →
  b_orders b !! Intent.client_order_id i = None →
  book_ok (set_orders (<[Intent.client_order_id i := order_of_intent i at_]> (b_orders b))
             (push_sequence (Intent.client_order_id i) b)).
Proof.
  intros [H1 H2 H3 H4 H5 H6] Hq Hq0 Hnone. set (c := Intent.client_order_id i) in *.
  split; simpl; try done.
  - intros c' o'. destruct (decide (c' = c)) as [->|Hne].
    + rewrite lookup_insert_eq. intros [= <-]. simpl. split; [done|]. by apply created_ok.
    + rewrite lookup_insert_ne by done. apply H1.
  - apply NoDup_app. split_and!; [done| |apply NoDup_singleton].
    intros c' Hc' ->%list_elem_of_singleton. apply H3 in Hc'. rewrite Hnone in Hc'.
    by destruct Hc'.
  - intros c'. rewrite elem_of_app, list_elem_of_singleton, H3, lookup_insert_is_Some'.
    naive_solver.
  - intros x f Hf. destruct (H4 x f Hf) as (o1 & Ho1 & ?).
    exists o1. simpl. rewrite lookup_insert_ne; [done|]. congruence.
Qed.

Definition overflowed {A} (r : result LedgerError.t A) : Prop :=
  match r with Err (LedgerError.PositionOverflow _) => True | _ => False end.

Lemma event_preserves_ok h c fs ts e b b' r :
  book_ok b → (∀ x q p, e = FillReceived x q p → e8_ok q ∧ 0 ≤ raw p) →
  apply_order_event h c fs ts e b = (b', r) → ¬ overflowed r → book_ok b'.
Proof.
  intros Hb He H Hr.
  destruct (decide (r = Ok Changed)) as [->|Hne].
  2: { rewrite (apply_order_event_quiet _ _ _ _ _ _ _ _ H); [done|].
       destruct r as [[]|[]]; naive_solver. }
  apply apply_order_event_Changed in H as (o & next & Ho & _ & Ht & _ & H).
  destruct e; simpl in H; try (rewrite H; by eapply book_ok_update).
  destruct H as (Hx & pos' & Hpos & ->). destruct (He _ _ _ eq_refl) as [Hq Hp].
  assert (apply_fill (core o) qty EventKind.FillReceived = Ok next) as Hap by exact Ht.
  apply apply_fill_Ok in Hap as (_ & Hq0 & _).
  pose proof (book_ok_fill _ _ _ _ _ _ (fh_nanos h) _ Hb Ho Hx Hq Hq0 Hp Hpos) as Hb2.
  eapply book_ok_ext; [eapply (book_ok_update _ c o _ next); [exact Hb2|exact Ho|exact Ht]|done..].
Qed.

Lemma apply_preserves_ok h r b b' res :
  book_ok b → applicable r → apply h r b = (b', res) → ¬ overflowed res → book_ok b'.
Proof.
  intros Hb Hr H Hres. set (b0 := stamp h b).
  assert (book_ok b0) as Hb0 by (by eapply book_ok_ext).
  unfold apply in H.
  change ((st_modify (stamp h) ≫= ?k) b) with (k tt b0) in H. cbv beta in H.
  destruct r as [e s|i|c tr fs ts ap ev|i a k tr v n|i p|a m|].
  - unfold st_modify, mbind, ST_bind, mret, ST_ret in H. simplify_eq. by eapply book_ok_ext.
  - unfold st_get, st_modify, mbind, ST_bind, mret, ST_ret in H.
    case_bool_in H; simplify_eq; [done|]. destruct Hr as [Hq Hq0].
    apply bool_decide_eq_false in Heqb1. apply eq_None_not_Some in Heqb1.
    exact (book_ok_intent b0 i (fh_nanos h) Hb0 Hq Hq0 Heqb1).
  - eapply event_preserves_ok; eauto. intros x q p ->. exact Hr.
  - unfold st_modify, mbind, ST_bind, mret, ST_ret in H.
    destruct k; simplify_eq; try done; by eapply book_ok_ext.
  - unfold st_modify, mbind, ST_bind, mret, ST_ret in H. simplify_eq. by eapply book_ok_ext.
  - unfold st_modify, mbind, ST_bind, mret, ST_ret in H. simplify_eq. by eapply book_ok_ext.
  - unfold mret, ST_ret in H. simplify_eq. done.
Qed.

(** ** Folding a log *)

(** Every record of the log is one a book can apply. *)
Definition log_applicable (fs : list Frame) : Prop :=
  Forall (λ f : Frame, ∀ r, decode (fh_kind f.1) f.2 = Ok r → applicable r) fs.

Lemma rebuild_loop_ok fs : ∀ b b',
  book_ok b → log_applicable fs → rebuild_loop fs b = (b', Ok tt) → book_ok b'.
Proof.
  induction fs as [|f fs IH]; intros b b' Hb Hl H; simpl in H; [by st_prim H; subst|].
  apply Forall_cons in Hl as [Hf Hl].
  apply st_bind_Ok in H as (b1 & [] & H1 & H). eapply IH; [|done|exact H].
  unfold rebuild_step in H1. st_steps H1. 
  match goal with E : map_err _ (decode _ _) = Ok _ |- _ => rename E into Hd end.
  match goal with E : apply _ _ _ = _ |- _ => rename E into Ha end.
  destruct (decode _ _) as [r|] eqn:Hdec; simpl in Hd; [|done]. simplify_eq.
  eapply apply_preserves_ok; eauto.
Qed.

(** No execution of the log has a negative price. *)
Definition priced (r : Rec.t) : Prop :=
  match r with
  | Rec.OrderEvent _ _ _ _ _ (FillReceived _ _ p) => 0 ≤ raw p
  | _ => True
  end.

Definition log_priced (fs : list Frame) : Prop :=
  Forall (λ f : Frame, ∀ r, decode (fh_kind f.1) f.2 = Ok r → priced r) fs.

(** The rest comes with decoding. *)
Lemma log_priced_applicable fs : log_priced fs → log_applicable fs.
Proof.
  intros Hl. eapply Forall_impl; [exact Hl|]. intros f Hf r Hd. pose proof (Hf r Hd) as Hp. apply decode_ok in Hd as [_ Hr].
  destruct r as [| i |c tr from to ap e| | | |]; try done.
  - destruct Hr as [Hv _ _ Hq _ _ _ _]. cbn [record_ok applicable] in *. split; [exact Hq|].
    destruct i. by apply intent_new_exact in Hv as [].
  - destruct e; try done. destruct Hr as (_ & _ & _ & Hq & _). by split.
Qed.

Lemma rebuild_loop_app fs gs b :
  rebuild_loop (fs ++ gs) b =
    (_ ← rebuild_loop fs; rebuild_loop gs) b.
Proof.
  revert b. induction fs as [|f fs IH]; intros b; [done|].
  cbn [app rebuild_loop]. unfold mbind, ST_bind in *.
  destruct (rebuild_step f b) as [b1 [[]|]]; [|done]. by rewrite IH.
Qed.

Lemma rebuild_ok fs b : rebuild fs = Ok b → log_applicable fs → book_ok b.
Proof.
  unfold rebuild. destruct (rebuild_loop fs book_new) as [b' [[]|]] eqn:E; [|done].
  intros [= ->] Hl. exact (rebuild_loop_ok _ _ _ book_new_ok Hl E).
Qed.

(** ** Properties *)

(** C32: a book folded from a log in which no execution has a negative price is accounted for:
    in every instrument the position is exactly the signed sum of the distinct
    executions, every position is well-formed (no basis on a flat one, basis and
    size on the same side), every execution belongs to an order on its
    instrument and side, and every order's recorded fill is within its size. *)
Theorem rebuild_sound fs b :
  rebuild fs = Ok b → log_priced fs →
  (∀ i, raw (pos_qty (position b i)) = filled_on b i) ∧
  (∀ i, position_ok (position b i)) ∧
  (∀ e f, fill b e = Some f → fill_ok b f) ∧
  (∀ c o, order b c = Some o →
     client_order_id (core o) = c ∧ 0 ≤ raw (filled_qty (core o)) ≤ raw (qty (core o))).
Proof.
  intros Hr Hl%log_priced_applicable. pose proof (rebuild_ok fs b Hr Hl) as [H1 _ _ H4 H5 H6].
  split_and!; [done| |done|].
  - intros i. unfold position. destruct (b_positions b !! i) eqn:Ei; simpl; eauto with sentinel.
  - intros c o Ho. destruct (H1 c o Ho) as [? (_ & _ & ?)]. done.
Qed.

(** A log of one order bought in two fills, as frames. *)
Definition ex_frames (rs : list Rec.t) : list Frame :=
  imap (λ n r, (mkFrameHeader (Z.of_nat n + 1) 1 (Z.of_nat n * 10) (rec_kind r)
                  (Z.of_nat (length (encode r))), encode r)) rs.

Definition ex_coid : ClientOrderId := ex_text 36 "c-1".
Definition ex_btc : Instrument := ex_text 16 "BTCUSD".
Definition ex_intent : Intent.t :=
  Intent.mk ex_coid ex_btc Buy (whole 5) Market None None Entry 77 None.
Definition ex_event (fs ts : OrderState) (e : OrderEvent) : Rec.t :=
  Rec.OrderEvent ex_coid 77 fs ts true e.
Definition ex_fill (x : string) (q : Z) : OrderEvent :=
  FillReceived (ex_text 40 x) (whole q) (whole 100).

Definition ex_log : list Rec.t := [
  Rec.IntentPersisted ex_intent;
  ex_event Created Submitting SubmissionStarted;
  ex_event Submitting Working (VenueAcked (ex_text 32 "V-1"));
  ex_event Working Partial (ex_fill "E-1" 2);
  ex_event Partial Partial (ex_fill "E-1" 2);
  ex_event Partial Filled (ex_fill "E-2" 3)].

Definition ex_book : Book := unwrap_or (rebuild (ex_frames ex_log)) book_new.

Lemma ex_log_priced : log_priced (ex_frames ex_log).
Proof.
  unfold log_priced, ex_frames, ex_log. cbn [imap].
  repeat constructor; intros r Hr; vm_compute in Hr; injection Hr as <-; vm_compute;
    first [exact I|discriminate].
Qed.

(** Nothing refuses a negative price: the log folds, and the basis it leaves is on
    the other side of the position. *)
Example negative_price_folds :
  let log := [Rec.IntentPersisted ex_intent;
              ex_event Created Submitting SubmissionStarted;
              ex_event Submitting Working (VenueAcked (ex_text 32 "V-1"));
              ex_event Working Partial (FillReceived (ex_text 40 "E-1") (whole 2) (whole (-100)))] in
  (λ b, position b ex_btc) <$> rebuild (ex_frames log) = Ok (mkPosition (whole 2) (whole (-200)) ZERO).
Proof. vm_compute. reflexivity. Qed.

Lemma rebuild_sound_witness :
  (∀ i, raw (pos_qty (position ex_book i)) = filled_on ex_book i) ∧
  (∀ i, position_ok (position ex_book i)) ∧
  (∀ e f, fill ex_book e = Some f → fill_ok ex_book f) ∧
  (∀ c o, order ex_book c = Some o →
     client_order_id (core o) = c ∧ 0 ≤ raw (filled_qty (core o)) ≤ raw (qty (core o))).
Proof.
  apply (rebuild_sound (ex_frames ex_log)); [vm_compute; reflexivity|exact ex_log_priced].
Defined.

(** An execution the book has seen is a complete no-op for every order,
    position and P&L figure, and so is an intent it has seen: only the stamp of
    the record itself moves. *)
Theorem apply_duplicate h b :
  (∀ c tr fs ts ap x q p, is_Some (b_orders b !! c) → is_Some (b_fills b !! x) →
     apply h (Rec.OrderEvent c tr fs ts ap (FillReceived x q p)) b = (stamp h b, Ok Duplicate)) ∧
  (∀ i, is_Some (b_orders b !! Intent.client_order_id i) →
     apply h (Rec.IntentPersisted i) b = (stamp h b, Ok Duplicate)).
Proof.
  split.
  - intros c tr fs ts ap x q p [o Ho] Hx. unfold apply, apply_order_event.
    unfold st_get, st_modify, st_lift, mbind, ST_bind, id. simpl. rewrite Ho. simpl.
    by rewrite bool_decide_eq_true_2.
  - intros i Hi. unfold apply, st_get, st_modify, mbind, ST_bind. simpl.
    by rewrite bool_decide_eq_true_2.
Qed.

(** A record the book refuses, or can only take as evidence, moves nothing
    but the stamp; the one exception is the overflow of position arithmetic,
    which is an integrity violation. *)
Theorem apply_refusal_inert h r b b' res :
  apply h r b = (b', res) →
  match res with Ok Changed => False | _ => True end → ¬ overflowed res →
  b' = stamp h b.
Proof.
  intros H Hres Hov. unfold apply in H.
  change ((st_modify (stamp h) ≫= ?k) b) with (k tt (stamp h b)) in H. cbv beta in H.
  destruct r as [e s|i|c tr fs ts ap ev|i a k tr v n|i p|a m|].
  3: { eapply apply_order_event_quiet; [exact H|]. destruct res as [[]|[]]; naive_solver. }
  all: unfold st_get, st_modify, mbind, ST_bind, mret, ST_ret in H;
    repeat case_match; simplify_eq; try done.
Qed.

Lemma apply_refusal_inert_witness :
  let h := mkFrameHeader 7 1 70 RecordKind.OrderEvent 0 in
  let r := ex_event Working Canceled CancelConfirmed in
  (apply h r ex_book).1 = stamp h ex_book.
Proof.
  intros h r. apply (apply_refusal_inert h r ex_book _ (apply h r ex_book).2).
  - vm_compute. reflexivity.
  - vm_compute. exact I.
  - vm_compute. exact id.
Defined.
