(* ===== verification/Invariants.v ===== *)
(** * The invariants as runnable checks (sentinel-ledger/src/invariants.rs)

    [check] and its five parts, as the code folds them.  The theorem: each part
    reports exactly what is wrong with the book, in exact arithmetic; and of a
    book that was folded from a log three of the five have nothing to report. *)

From S2P Require Import Prelude Fixed Types Domain Position Records Book.

Inductive Violation :=
| PositionDisagreesWithFills (i : Instrument) (position fills : Qty)
| OrderOverfilled (c : ClientOrderId) (ordered filled : Qty)
| ExitsExceedPosition (i : Instrument) (exits position : Qty)
| UntracedOrder (c : ClientOrderId)
| BasisWithoutPosition (i : Instrument) (basis : Money).

#[export] Instance Violation_eq_dec : EqDecision Violation.
Proof. solve_decision. Defined.

Record Report := mkReport { violations : list Violation }.

Definition holds (r : Report) : bool :=
  match violations r with [] => true | _ :: _ => false end.

(** A side's sign applied to a quantity: [signed]. *)
Definition signed (s : Side) (q : Qty) : Qty := from_raw (i64_saturate (raw q * sign s)).

(** The two loops that build [sums]. *)
Definition sums_init (b : Book) : gmap Instrument Qty :=
  foldl (λ m ip, match m !! ip.1 with Some _ => m | None => <[ip.1 := ZERO]> m end) ∅
    (all_positions b).

Definition sums_add (m : gmap Instrument Qty) (f : Fill) : gmap Instrument Qty :=
  let entry := default ZERO (m !! f_instrument f) in
  <[f_instrument f := unwrap_or (checked_add entry (signed (f_side f) (f_qty f))) entry]> m.

Definition sums (b : Book) : gmap Instrument Qty :=
  foldl sums_add (sums_init b) (all_fills b).

Definition check_positions_equal_fills (b : Book) : list Violation :=
  omap (λ iq : Instrument * Qty,
      let p := pos_qty (position b iq.1) in
      if bool_decide (p = iq.2) then None
      else Some (PositionDisagreesWithFills iq.1 p iq.2))
    (sort_by_id (map_to_list (sums b))).

Definition check_no_overfill (b : Book) : list Violation :=
  omap (λ o,
      if ltb (qty (core o)) (filled_qty (core o)) then
        Some (OrderOverfilled (client_order_id (core o)) (qty (core o)) (filled_qty (core o)))
      else None)
    (orders b).

(** The instruments with a live exit, as the [BTreeSet] iterates them. *)
Definition exit_instruments (b : Book) : list Instrument :=
  sort_ids (remove_dups ((instrument ∘ core) <$>
    filter (λ o, is_exit o = true) (live_orders b))).

Definition check_exits_bounded (b : Book) : list Violation :=
  omap (λ i,
      let exits := committed_to_exits b i in
      let p := position b i in
      if ltb (abs_qty p) exits then Some (ExitsExceedPosition i exits (pos_qty p)) else None)
    (exit_instruments b).

Definition check_orders_are_traced (b : Book) : list Violation :=
  omap (λ o,
      if o_trace_id o =? TRACE_NONE then Some (UntracedOrder (client_order_id (core o)))
      else None)
    (orders b).

Definition check_flat_means_flat (b : Book) : list Violation :=
  omap (λ ip : Instrument * Position,
      if is_flat ip.2 && negb (is_zero (cost_basis ip.2)) then
        Some (BasisWithoutPosition ip.1 (cost_basis ip.2))
      else None)
    (all_positions b).

Definition check (b : Book) : Report :=
  mkReport (check_positions_equal_fills b ++ check_no_overfill b ++ check_exits_bounded b ++
    check_orders_are_traced b ++ check_flat_means_flat b).

(** ** The sums of the fills *)

Lemma omap_nil_iff {A B} (f : A → option B) l :
  (∀ x, x ∈ l → f x = None) → omap f l = [].
Proof.
  induction l as [|x l IH]; intros H; [done|]. simpl.
  rewrite H by (by left). apply IH. intros y Hy. apply H. by right.
Qed.

Definition abs_of (f : Fill) : Z := Z.abs (raw (f_qty f)).

Lemma fill_on_abs i f : Z.abs (fill_on i f) ≤ abs_of f.
Proof.
  unfold fill_on, abs_of. case_bool_decide; [|lia]. destruct (f_side f); simpl; lia.
Qed.

(** Within the representable range the incremental sum is the exact one. *)
Lemma sums_fold l : ∀ m i,
  (∀ j, Z.abs (raw (default ZERO (m !! j))) + zsum (abs_of <$> l) ≤ i64_max) →
  raw (default ZERO (foldl sums_add m l !! i)) =
    raw (default ZERO (m !! i)) + zsum (fill_on i <$> l).
Proof.
  induction l as [|f l IH]; intros m i Hb; [simpl; lia|].
  rewrite zsum_fmap_cons. cbn [foldl].
  assert (∀ j, Z.abs (raw (default ZERO (m !! j))) + (abs_of f + zsum (abs_of <$> l)) ≤ i64_max)
    as Hb' by exact Hb. clear Hb. rename Hb' into Hb.
  assert (0 ≤ zsum (abs_of <$> l)) as Hpos.
  { apply zsum_nonneg, Forall_fmap, Forall_true. intros x. unfold compose, abs_of. lia. }
  set (j := f_instrument f) in *. set (e := default ZERO (m !! j)).
  assert (∃ v, unwrap_or (checked_add e (signed (f_side f) (f_qty f))) e = v ∧
             raw v = raw e + fill_on j f) as (v & Hv & Hraw).
  { pose proof (Hb j) as Hj. fold e in Hj. unfold abs_of at 1 in Hj.
    assert (raw (signed (f_side f) (f_qty f)) = fill_on j f) as Hs.
    { unfold signed, fill_on. rewrite bool_decide_eq_true_2 by done. simpl.
      unfold_ranges. destruct (f_side f); cbn [sign]; lia. }
    assert (in_i64 (raw e + fill_on j f)) as Hin.
    { pose proof (fill_on_abs j f) as Ha. unfold abs_of at 1 in Ha. unfold_ranges. lia. }
    exists (from_raw (raw e + fill_on j f)). split; [|done].
    assert (checked_add e (signed (f_side f) (f_qty f)) = Ok (from_raw (raw e + fill_on j f))) as ->; [|done].
    apply checked_add_Ok. rewrite Hs. done. }
  rewrite IH.
  - unfold sums_add. fold j e. rewrite Hv. destruct (decide (i = j)) as [->|Hne].
    + rewrite lookup_insert_eq. simpl. fold e. lia.
    + rewrite lookup_insert_ne by done.
      assert (fill_on i f = 0) as ->; [|lia].
      unfold fill_on. by rewrite bool_decide_eq_false_2 by (fold j; congruence).
  - intros k. unfold sums_add. fold j e. rewrite Hv. pose proof (Hb k) as Hk.
    destruct (decide (k = j)) as [->|Hne].
    + rewrite lookup_insert_eq. simpl. fold e in Hk. pose proof (fill_on_abs j f). lia.
    + rewrite lookup_insert_ne by done. assert (0 ≤ abs_of f) by (unfold abs_of; lia). lia.
Qed.

Lemma all_fills_perm b : all_fills b ≡ₚ (map_to_list (b_fills b)).*2.
Proof.
  unfold all_fills. rewrite sort_ids_Permutation.
  assert (∀ l : list (ExecId * Fill), (∀ x f, (x, f) ∈ l → b_fills b !! x = Some f) →
    omap (λ id, b_fills b !! id) l.*1 = l.*2) as H.
  { induction l as [|[x f] l IH]; intros Hl; [done|]. simpl.
    rewrite (Hl x f) by (by left). f_equal. apply IH. intros y g Hy. apply Hl. by right. }
  rewrite H; [done|]. intros x f. apply elem_of_map_to_list.
Qed.

Lemma filled_on_all_fills b i : zsum (fill_on i <$> all_fills b) = filled_on b i.
Proof.
  unfold filled_on, map_zsum. apply zsum_perm. rewrite all_fills_perm.
  by rewrite <-list_fmap_compose.
Qed.

Lemma sums_init_zero b i : raw (default ZERO (sums_init b !! i)) = 0.
Proof.
  unfold sums_init.
  assert (∀ (l : list (Instrument * Position)) (m : gmap Instrument Qty),
    raw (default ZERO (m !! i)) = 0 →
    raw (default ZERO (foldl (λ m ip, match m !! ip.1 with
       Some _ => m | None => <[ip.1 := ZERO]> m end) m l !! i)) = 0) as H.
  { induction l as [|[j p] l IH]; intros m Hm; [done|]. simpl. apply IH.
    destruct (m !! j) eqn:Ej; [done|]. destruct (decide (i = j)) as [->|Hne].
    - by rewrite lookup_insert_eq.
    - by rewrite lookup_insert_ne. }
  apply H. by rewrite lookup_empty.
Qed.

(** The total traded, in either direction, fits the machine integer. *)
Definition traded_fits (b : Book) : Prop := zsum (abs_of <$> all_fills b) ≤ i64_max.

Lemma positions_check_silent b :
  book_ok b → traded_fits b → check_positions_equal_fills b = [].
Proof.
  intros Hb Hfit. apply omap_nil_iff. intros [i q] Hiq. simpl.
  rewrite sort_by_id_Permutation in Hiq.
  apply elem_of_map_to_list in Hiq.
  rewrite bool_decide_eq_true_2; [done|]. apply raw_inj.
  rewrite (bo_sum _ Hb i), <-filled_on_all_fills.
  pose proof (sums_fold (all_fills b) (sums_init b) i) as Hs.
  unfold sums in Hiq. rewrite Hiq, sums_init_zero in Hs. simpl in Hs. rewrite Hs; [done|].
  intros j. rewrite sums_init_zero. exact Hfit.
Qed.

Lemma overfill_check_silent b : book_ok b → check_no_overfill b = [].
Proof.
  intros Hb. apply omap_nil_iff. intros o Ho.
  apply list_elem_of_omap in Ho as (c & _ & Hc).
  destruct (bo_orders _ Hb c o Hc) as [_ (_ & _ & Hf)].
  unfold ltb. destruct (Z.ltb_spec (raw (qty (core o))) (raw (filled_qty (core o)))); [lia|done].
Qed.

Lemma flat_check_silent b : book_ok b → check_flat_means_flat b = [].
Proof.
  intros Hb. apply omap_nil_iff. intros [i p] Hip. simpl.
  unfold all_positions in Hip. rewrite sort_by_id_Permutation in Hip.
  apply elem_of_map_to_list in Hip. destruct (bo_positions _ Hb _ _ Hip).
  unfold is_flat, is_zero. destruct (Z.eqb_spec (raw (pos_qty p)) 0); [|done].
  by rewrite po_flat.
Qed.

(** ** What each check is for *)

(** Left to execute of the live exits on an instrument, in exact arithmetic. *)
Definition left_to_exit (i : Instrument) (o : Order) : Z :=
  if bool_decide (instrument (core o) = i ∧ is_terminal (state (core o)) = false ∧ o_authority o = ProtectiveExit)
  then Z.max (raw (qty (core o)) - raw (filled_qty (core o))) 0 else 0.
Definition exits_left (b : Book) (i : Instrument) : Z := zsum (left_to_exit i <$> orders b).

(** What is wrong with a book, said of its contents and not of the checks: sums are
    exact, except that the exits are never said to be more than the machine holds. *)
Definition faulty (b : Book) (v : Violation) : Prop :=
  match v with
  | PositionDisagreesWithFills i p f =>
      p = pos_qty (position b i) ∧ raw f = filled_on b i ∧ raw p ≠ raw f
  | OrderOverfilled c q f => ∃ o, o ∈ orders b ∧ client_order_id (core o) = c ∧
      qty (core o) = q ∧ filled_qty (core o) = f ∧ raw q < raw f
  | ExitsExceedPosition i e p =>
      p = pos_qty (position b i) ∧ raw e = Z.min (exits_left b i) i64_max ∧ Z.abs (raw p) < raw e
  | UntracedOrder c => ∃ o, o ∈ orders b ∧ client_order_id (core o) = c ∧ o_trace_id o = 0
  | BasisWithoutPosition i m => ∃ p, b_positions b !! i = Some p ∧
      raw (pos_qty p) = 0 ∧ cost_basis p = m ∧ raw m ≠ 0
  end.

(** What is left of each order is a machine integer. *)
Definition orders_fit (b : Book) : Prop :=
  Forall (λ o, in_i64 (raw (qty (core o)) - raw (filled_qty (core o)))) (orders b).

Lemma sums_has b i : is_Some (b_positions b !! i) → is_Some (sums b !! i).
Proof.
  intros [p Hp]. unfold sums.
  assert (is_Some (sums_init b !! i)) as Hinit.
  { assert ((i, p) ∈ all_positions b) as Hin.
    { unfold all_positions. rewrite sort_by_id_Permutation. by apply elem_of_map_to_list. }
    unfold sums_init. generalize (∅ : gmap Instrument Qty). revert Hin. generalize (all_positions b).
    assert (∀ (l : list (Instrument * Position)) (m : gmap Instrument Qty), is_Some (m !! i) → is_Some (foldl (λ m ip,
      match m !! ip.1 with Some _ => m | None => <[ip.1 := ZERO]> m end) m l !! i)) as Hkeep.
    { induction l as [|[j q] l IH]; intros m Hm; [done|]. cbn [foldl fst]. apply IH.
      destruct (m !! j) eqn:E; [done|]. apply lookup_insert_is_Some'. by right. }
    intros l. induction l as [|[j q] l IH]; [by intros ?%elem_of_nil|].
    intros [[= <- <-]|Hin]%elem_of_cons m; cbn [foldl fst]; [|by apply IH].
    apply Hkeep. destruct (m !! i) eqn:E; [by eexists|]. by rewrite lookup_insert_eq. }
  revert Hinit. generalize (sums_init b). induction (all_fills b) as [|f l IH]; intros m Hm; [done|].
  cbn [foldl]. apply IH. unfold sums_add. apply lookup_insert_is_Some'. by right.
Qed.

Lemma positions_check_exact b v : traded_fits b →
  v ∈ check_positions_equal_fills b ↔
    ∃ i p f, v = PositionDisagreesWithFills i p f ∧ faulty b v.
Proof.
  intros Hfit.
  assert (∀ i, raw (default ZERO (sums b !! i)) = filled_on b i) as Hsum.
  { intros i. unfold sums. rewrite sums_fold; [by rewrite sums_init_zero, filled_on_all_fills|].
    intros j. rewrite sums_init_zero. exact Hfit. }
  unfold check_positions_equal_fills. rewrite list_elem_of_omap. split.
  - intros ([i q] & Hin & Hv). rewrite sort_by_id_Permutation in Hin. apply elem_of_map_to_list in Hin.
    cbn [fst snd] in *. case_bool_decide; [done|]. injection Hv as <-. eexists _, _, _. split; [done|].
    specialize (Hsum i). rewrite Hin in Hsum. split_and!; [done..|]. by intros ?%raw_inj.
  - intros (i & p & f & -> & -> & Hf & Hne). exists (i, f). rewrite sort_by_id_Permutation, elem_of_map_to_list.
    cbn [fst snd]. rewrite bool_decide_eq_false_2 by naive_solver. split; [|done]. specialize (Hsum i).
    destruct (sums b !! i) as [q|] eqn:E; [f_equal; apply raw_inj; by rewrite Hf|].
    destruct Hne. rewrite Hf, <-Hsum. unfold position. destruct (b_positions b !! i) as [p|] eqn:Ep; [|done].
    destruct (sums_has b i) as [q Hq]; [by eexists|congruence].
Qed.

Lemma overfill_check_exact b v :
  v ∈ check_no_overfill b ↔ ∃ c q f, v = OrderOverfilled c q f ∧ faulty b v.
Proof.
  unfold check_no_overfill, ltb. rewrite list_elem_of_omap. split.
  - intros (o & Ho & Hv). case_bool; [|done]. injection Hv as <-. z_reflect.
    eexists _, _, _. split; [done|]. by exists o.
  - intros (c & q & f & -> & o & Ho & <- & <- & <- & Hlt). exists o. split; [done|].
    by rewrite (proj2 (Z.ltb_lt _ _)).
Qed.

Lemma traced_check_exact b v :
  v ∈ check_orders_are_traced b ↔ ∃ c, v = UntracedOrder c ∧ faulty b v.
Proof.
  unfold check_orders_are_traced. rewrite list_elem_of_omap. split.
  - intros (o & Ho & Hv). case_bool; [|done]. injection Hv as <-. z_reflect.
    eexists. split; [done|]. by exists o.
  - intros (c & -> & o & Ho & <- & Ht). exists o. split; [done|]. by rewrite Ht.
Qed.

Lemma flat_check_exact b v :
  v ∈ check_flat_means_flat b ↔ ∃ i m, v = BasisWithoutPosition i m ∧ faulty b v.
Proof.
  unfold check_flat_means_flat, is_flat, is_zero. rewrite list_elem_of_omap. split.
  - intros ([i p] & Hin & Hv). unfold all_positions in Hin. rewrite sort_by_id_Permutation in Hin.
    apply elem_of_map_to_list in Hin. cbn [fst snd] in *.
    case_bool; [|done]. injection Hv as <-. apply andb_true_iff in Heqb0 as [H1 H2%negb_true_iff]. z_reflect.
    eexists _, _. split; [done|]. by exists p.
  - intros (i & m & -> & p & Hp & Hz & <- & Hm). exists (i, p). unfold all_positions.
    rewrite sort_by_id_Permutation, elem_of_map_to_list. split; [done|]. cbn [fst snd].
    rewrite (proj2 (Z.eqb_eq _ _) Hz), (proj2 (Z.eqb_neq _ _) Hm). done.
Qed.

(** The saturating sum is the exact one, cut at the greatest integer. *)
Lemma saturating_sum (l : list Order) : ∀ acc : Qty,
  Forall (λ o, 0 ≤ raw (remaining_qty o)) l → 0 ≤ raw acc ≤ i64_max →
  raw (foldl (λ sum o, unwrap_or (checked_add sum (remaining_qty o)) MAX) acc l) =
    Z.min (raw acc + zsum ((raw ∘ remaining_qty) <$> l)) i64_max.
Proof.
  induction l as [|o l IH]; intros acc Hl Hacc; [simpl; lia|]. apply Forall_cons in Hl as [Ho Hl].
  rewrite zsum_fmap_cons. cbn [foldl]. unfold compose at 1.
  assert (0 ≤ zsum ((raw ∘ remaining_qty) <$> l)) as Hpos by by apply zsum_nonneg, Forall_fmap.
  destruct (checked_add acc (remaining_qty o)) as [x|] eqn:E; cbn [unwrap_or].
  - apply checked_add_Ok in E as [Hx Hin]. unfold_ranges. rewrite IH by (try done; lia). lia.
  - rewrite IH by (try done; change (raw (MAX : Qty)) with i64_max; unfold_ranges; lia).
    change (raw (MAX : Qty)) with i64_max.
    assert (¬ in_i64 (raw acc + raw (remaining_qty o))) as Hout.
    { intros Hin. assert (checked_add acc (remaining_qty o) = Ok (from_raw (raw acc + raw (remaining_qty o))))
        as E2 by by apply checked_add_Ok. congruence. }
    unfold_ranges. lia.
Qed.

Lemma remaining_exact o :
  in_i64 (raw (qty (core o)) - raw (filled_qty (core o))) →
  raw (remaining_qty o) = Z.max (raw (qty (core o)) - raw (filled_qty (core o))) 0.
Proof.
  intros Hin. unfold remaining_qty, core_remaining_qty. rewrite raw_max.
  unfold checked_sub. by rewrite (i64_checked_in _ Hin).
Qed.

Lemma zsum_filter {A} (P : A → Prop) `{!∀ x, Decision (P x)} (g : A → Z) l :
  zsum (g <$> filter P l) = zsum ((λ x, if decide (P x) then g x else 0) <$> l).
Proof.
  induction l as [|x l IH]; [done|]. rewrite filter_cons, (zsum_fmap_cons _ x l). case_decide; [|done].
  rewrite zsum_fmap_cons. lia.
Qed.

Lemma committed_exact b i : orders_fit b →
  raw (committed_to_exits b i) = Z.min (exits_left b i) i64_max.
Proof.
  intros Hfit. unfold committed_to_exits, exits_left, live_orders_on, live_orders.
  rewrite saturating_sum; [|apply Forall_true; intros; unfold remaining_qty, core_remaining_qty; rewrite raw_max;
                             change (raw (ZERO : Qty)) with 0; lia|change (raw (ZERO : Qty)) with 0; unfold_ranges; lia].
  f_equal. change (raw (ZERO : Qty)) with 0. rewrite Z.add_0_l, !zsum_filter. f_equal.
  apply list_fmap_ext. intros k o Ho. unfold orders_fit in Hfit. rewrite Forall_lookup in Hfit.
  unfold compose. rewrite (remaining_exact o (Hfit k o Ho)). unfold left_to_exit, is_exit.
  destruct (o_authority o); repeat case_decide; case_bool_decide; naive_solver.
Qed.

Lemma abs_lt (p : Qty) e : e ≤ i64_max → raw (abs p) < e ↔ Z.abs (raw p) < e.
Proof. intros He. unfold abs. cbn [raw]. unfold i64_saturate. unfold_ranges. lia. Qed.

Lemma exits_check_exact b v : orders_fit b →
  v ∈ check_exits_bounded b ↔ ∃ i e p, v = ExitsExceedPosition i e p ∧ faulty b v.
Proof.
  intros Hfit. unfold check_exits_bounded, abs_qty, ltb. rewrite list_elem_of_omap. split.
  - intros (i & _ & Hv). case_bool; [|done]. injection Hv as <-. z_reflect.
    pose proof (committed_exact b i Hfit) as Hc. eexists _, _, _. split; [done|]. split_and!; [done..|].
    apply abs_lt; [lia|done].
  - intros (i & e & p & -> & -> & He & Hlt). exists i.
    assert (e = committed_to_exits b i) as -> by (apply raw_inj; by rewrite He, committed_exact).
    rewrite (proj2 (Z.ltb_lt _ _)) by (apply abs_lt; [rewrite He; lia|done]). split; [|done].
    unfold exit_instruments. rewrite elem_of_sort_ids, elem_of_remove_dups, list_elem_of_fmap.
    destruct (decide (Exists (λ o, left_to_exit i o ≠ 0) (orders b))) as [Hex|Hno].
    + apply Exists_exists in Hex as (o & Ho & Hl). unfold left_to_exit in Hl. case_bool_decide as Hd; [|done].
      destruct Hd as (<- & Ht & Ha). exists o. split; [done|]. unfold live_orders.
      rewrite !list_elem_of_filter. unfold is_exit. by rewrite Ha.
    + exfalso. assert (exits_left b i = 0) as Hz; [|rewrite He, Hz in Hlt; unfold_ranges; lia].
      unfold exits_left. apply not_Exists_Forall in Hno; [|apply _].
      induction Hno as [|o l Ho _ IH]; [done|]. rewrite zsum_fmap_cons, IH. apply dec_stable in Ho. lia.
Qed.

(** ** Once each *)

Lemma NoDup_omap {A B} (f : A → option B) l :
  NoDup l → (∀ x y z, x ∈ l → y ∈ l → f x = Some z → f y = Some z → x = y) → NoDup (omap f l).
Proof.
  induction 1 as [|x l Hx Hl IH]; intros Hinj; [constructor|]. cbn [omap list_omap].
  assert (NoDup (omap f l)) by (apply IH; intros a b z Ha Hb; apply Hinj; by right).
  destruct (f x) as [z|] eqn:E; [|done]. constructor; [|done].
  intros (y & Hy & Ey)%list_elem_of_omap. destruct Hx. by rewrite (Hinj x y z) by (done || by left || by right).
Qed.

Lemma orders_known b o : o ∈ orders b → ∃ c, b_orders b !! c = Some o.
Proof. intros (c & _ & Hc)%list_elem_of_omap. by exists c. Qed.

Lemma orders_once b o1 o2 : book_ok b → o1 ∈ orders b → o2 ∈ orders b →
  client_order_id (core o1) = client_order_id (core o2) → o1 = o2.
Proof.
  intros Hb (c1 & H1)%orders_known (c2 & H2)%orders_known E.
  destruct (bo_orders _ Hb _ _ H1) as [E1 _], (bo_orders _ Hb _ _ H2) as [E2 _]. congruence.
Qed.

Lemma NoDup_orders b : book_ok b → NoDup (orders b).
Proof.
  intros Hb. apply NoDup_omap; [apply Hb|]. intros c1 c2 o _ _ H1 H2.
  destruct (bo_orders _ Hb _ _ H1) as [<- _], (bo_orders _ Hb _ _ H2) as [<- _]. done.
Qed.

Lemma check_once b : book_ok b → NoDup (check_exits_bounded b ++ check_orders_are_traced b).
Proof.
  intros Hb. apply NoDup_app. split_and!.
  - unfold check_exits_bounded. apply NoDup_omap.
    + unfold exit_instruments. rewrite sort_ids_Permutation. apply NoDup_remove_dups.
    + intros i j z _ _ H1 H2. cbn zeta in *. repeat case_bool; congruence.
  - intros v (i & _ & Hi)%list_elem_of_omap (o & _ & Ho)%list_elem_of_omap. cbn zeta in *.
    repeat case_bool; congruence.
  - unfold check_orders_are_traced. apply NoDup_omap; [by apply NoDup_orders|].
    intros o1 o2 z H1 H2 E1 E2. apply (orders_once b); [done..|]. repeat case_bool; congruence.
Qed.

(** ** Properties *)

(** C35: [check] reports what is wrong with a book and nothing else. On any book whose traded total
    and orders fit the machine integer, a violation is reported exactly if the
    book has it: a position that is not the exact sum of the executions on its
    instrument, an order filled past its quantity, live exits that add up to
    more than the position they close, an order without a trace id, a cost basis
    on a flat position. On a book folded from a log in which no execution has a
    negative price only the exits and the missing trace ids can occur, and each
    is reported once. *)
Theorem check_exact b :
  traded_fits b → orders_fit b →
  (∀ v, v ∈ violations (check b) ↔ faulty b v) ∧
  (∀ fs, rebuild fs = Ok b → log_priced fs →
    NoDup (violations (check b)) ∧
    ∀ v, faulty b v → match v with ExitsExceedPosition _ _ _ | UntracedOrder _ => True | _ => False end).
Proof.
  intros Hfit Hord.
  assert (∀ v, v ∈ violations (check b) ↔ faulty b v) as Hall.
  { intros v. unfold check. cbn [violations]. rewrite !elem_of_app, positions_check_exact, overfill_check_exact,
      exits_check_exact, traced_check_exact, flat_check_exact by done.
    split; [naive_solver|]. destruct v; naive_solver. }
  split; [done|]. intros fs Hr Hl. pose proof (rebuild_ok fs b Hr (log_priced_applicable fs Hl)) as Hb.
  assert (violations (check b) = check_exits_bounded b ++ check_orders_are_traced b) as E.
  { unfold check. cbn [violations].
    by rewrite positions_check_silent, overfill_check_silent, flat_check_silent, app_nil_r. }
  rewrite E. split; [by apply check_once|]. intros v Hv%Hall. rewrite E, elem_of_app in Hv.
  rewrite exits_check_exact, traced_check_exact in Hv by done. naive_solver.
Qed.

(** [orders_fit], as a test. *)
Lemma orders_fit_test b :
  forallb (λ o, let d := raw (qty (core o)) - raw (filled_qty (core o)) in (i64_min <=? d) && (d <=? i64_max))
    (orders b) = true → orders_fit b.
Proof.
  intros Ht. apply Forall_forall. intros o Ho%list_elem_of_In. rewrite forallb_forall in Ht.
  specialize (Ht o Ho). cbv beta zeta in Ht. apply andb_true_iff in Ht as [??]. z_reflect. by split.
Qed.

(** The folded book of Book.v, and the same with a position that nothing accounts for. *)
Definition ex_corrupt : Book := set_positions (<[ex_btc := mkPosition (whole 4) ZERO ZERO]> (b_positions ex_book)) ex_book.

Lemma check_exact_witness :
  violations (check ex_corrupt) = [PositionDisagreesWithFills ex_btc (whole 4) (whole 5)] ∧
  faulty ex_corrupt (PositionDisagreesWithFills ex_btc (whole 4) (whole 5)) ∧
  NoDup (violations (check ex_book)).
Proof.
  assert (violations (check ex_corrupt) = [PositionDisagreesWithFills ex_btc (whole 4) (whole 5)]) as E
    by (vm_compute; reflexivity).
  split; [exact E|]. split.
  - apply (check_exact ex_corrupt).
    + vm_compute. discriminate.
    + apply orders_fit_test. vm_compute. reflexivity.
    + rewrite E. by left.
  - apply (check_exact ex_book) with (fs := ex_frames ex_log).
    + vm_compute. discriminate.
    + apply orders_fit_test. vm_compute. reflexivity.
    + vm_compute. reflexivity.
    + exact ex_log_priced.
Defined.
