(* ===== verification/Venue.v ===== *)
(** * The venue contract (sentinel-venue/src/lib.rs)

    What the engine can ask a venue and what a venue can answer: the data of the
    [Venue] trait.  A venue itself is code the engine never calls. *)

From S2P Require Import Prelude Fixed Types Domain Intent Records.

Record OrderSnapshot := mkOrderSnapshot {
  sn_state : OrderState;
  sn_venue_order_id : option VenueOrderId;
  sn_filled_qty : Qty;
  sn_avg_price : option Price;
}.

#[export] Instance OrderSnapshot_eq_dec : EqDecision OrderSnapshot.
Proof. solve_decision. Defined.

Module SubmitOutcome.
Inductive t := Acked (v : VenueOrderId) | Rejected (r : RejectReason) | TimedOut.
End SubmitOutcome.
#[export] Instance SubmitOutcome_eq_dec : EqDecision SubmitOutcome.t.
Proof. solve_decision. Defined.

Module CancelOutcome.
Inductive t := Requested | TimedOut | Absent.
End CancelOutcome.
#[export] Instance CancelOutcome_eq_dec : EqDecision CancelOutcome.t.
Proof. solve_decision. Defined.

Module LookupOutcome.
Inductive t := Found (s : OrderSnapshot) | Absent | TimedOut.
End LookupOutcome.
#[export] Instance LookupOutcome_eq_dec : EqDecision LookupOutcome.t.
Proof. solve_decision. Defined.

Module VenueEvent.
Inductive t :=
| Fill (c : ClientOrderId) (x : ExecId) (q : Qty) (p : Price)
| CancelConfirmed (c : ClientOrderId)
| Mark (i : Instrument) (p : Price)
| Balance (a : Asset) (m : Money).
End VenueEvent.
#[export] Instance VenueEvent_eq_dec : EqDecision VenueEvent.t.
Proof. solve_decision. Defined.

Module VenueRequest.
Inductive t :=
| Submit (intent : Intent.t)
| Cancel (c : ClientOrderId) (v : option VenueOrderId)
| Lookup (c : ClientOrderId)
| Positions.
End VenueRequest.

#[export] Instance VenueRequest_eq_dec : EqDecision VenueRequest.t.
Proof. solve_decision. Defined.

Record VenuePosition := mkVenuePosition {
  vp_instrument : Instrument;
  vp_qty : Qty;
  vp_entry_price : option Price;
}.

#[export] Instance VenuePosition_eq_dec : EqDecision VenuePosition.
Proof. solve_decision. Defined.

Module VenueError.
Inductive t :=
| Transport (m : list byte)
| Malformed (m : list byte)
| Unauthorized
| RateLimited (retry_after : option Nanos).

Definition is_retryable (e : t) : bool :=
  match e with Transport _ | RateLimited _ => true | _ => false end.
End VenueError.

(** ** The trait *)

(** What a call of an adapter can end in besides its answer: an error it
    returns, or a panic, which takes the process down. *)
Inductive VenueFailure := VenueErr (e : VenueError.t) | VenuePanic.

(** [trait Venue]: the calls the venue worker makes, on the adapter's own
    state.  [venue_drain] returns what [drain_events] appends. *)
Class Venue (V : Type) := {
  venue_submit : Intent.t → ST V VenueFailure SubmitOutcome.t;
  venue_cancel : ClientOrderId → option VenueOrderId → ST V VenueFailure CancelOutcome.t;
  venue_lookup : ClientOrderId → ST V VenueFailure LookupOutcome.t;
  venue_positions : ST V VenueFailure (list VenuePosition);
  venue_drain : V → V * list VenueEvent.t;
}.
