(* ===== verification/VenueParse.v ===== *)
(** * What the venue says (sentinel-binance/src/parse.rs, stream.rs)

    Rows and frames of the venue's JSON, as the values of the adapter.  A price
    or a quantity is read exactly or not at all; a figure the venue derives is
    cut to eight decimals; a status nobody knows is a question to ask. *)

From S2P Require Import Prelude Fixed Text Types Json Domain Records Venue Symbol.

Definition ORDER_DOES_NOT_EXIST : Z := -2013.
Definition UNKNOWN_ORDER : Z := -2011.
Definition TIMESTAMP_SKEW : Z := -1021.
Definition TOO_MANY_REQUESTS : Z := -1003.

Definition order_state (status : list byte) : OrderState :=
  if bool_decide (status = str "NEW") then Working
  else if bool_decide (status = str "PARTIALLY_FILLED") then Partial
  else if bool_decide (status = str "FILLED") then Filled
  else if bool_decide (status ∈ [str "CANCELED"; str "EXPIRED"; str "EXPIRED_IN_MATCH"]) then Canceled
  else if bool_decide (status = str "REJECTED") then Rejected
  else Reconciling.

Definition code_is_retryable (code : Z) : bool :=
  (code =? TIMESTAMP_SKEW) || (code =? TOO_MANY_REQUESTS).

Record VenueOrder := mkVenueOrder {
  vo_order_id : Z;
  vo_symbol : Instrument;
  vo_state : OrderState;
  vo_qty : Qty;
  vo_filled_qty : Qty;
  vo_avg_price : option Price;
}.

Record VenuePositionRow := mkVenuePositionRow {
  vr_symbol : Instrument;
  vr_qty : Qty;
  vr_entry_price : Price;
}.

(** A slice of a string outside its characters is a panic. *)
Definition panics {A} (m : option A) : result VenueFailure A := ok_or m VenuePanic.
Definition malformed {A} (m : option A) (message : list byte) : result VenueFailure A :=
  ok_or m (VenueErr (VenueError.Malformed message)).

Section parse.
Context {J : Type} `{Json J}.

(** [row.get(name).unwrap_or(&null)], and the text of a field. *)
Definition field (row : J) (name : string) : J := default json_null (json_get (str name) row).
Definition field_str (row : J) (name : string) : option (list byte) := json_get (str name) row ≫= json_str.
Definition field_id (N : nat) (row : J) (name : string) : option (InlineStr N) :=
  field_str row name ≫= λ s, ok (inline_new N s).

(** The text of a [Value::String] or a [Value::Number]. *)
Definition figure (v : J) : option (list byte) :=
  match json_str v with Some s => Some s | None => json_number v end.

Definition decimal_of (v : J) : option Price := figure v ≫= λ s, ok (parse s).

(** The text cut after the eighth decimal; [None] when the cut falls inside a
    character. *)
Definition derived_text (text : list byte) : option (option Price) :=
  match parse text with
  | Ok exact => Some (Some exact)
  | Err _ =>
      match split_once (z2b 46) text with
      | None => Some None
      | Some (whole, fraction) =>
          let n := Nat.min (length fraction) SCALE_DIGITS in
          if is_char_boundary fraction n then
            Some (ok (parse (whole ++ [z2b 46] ++ take n fraction)))
          else None
      end
  end.

Definition derived_decimal (v : J) : option (option Price) :=
  match figure v with Some text => derived_text text | None => Some None end.

Definition derived_amount (v : J) : option (option Money) :=
  (λ p : option Price, (λ p, from_raw (raw p)) <$> p) <$> derived_decimal v.

Definition quantity (v : J) : option Qty := (λ p, from_raw (raw p)) <$> decimal_of v.
Definition amount (v : J) : option Money := (λ p, from_raw (raw p)) <$> decimal_of v.

Definition integer (v : J) : option Z :=
  match json_str v with
  | Some s => parse_i64 s
  | None => match json_number v with Some _ => json_i64 v | None => None end
  end.

Definition i32_try_from (n : Z) : option Z :=
  if (- 2 ^ 31 <=? n) && (n <? 2 ^ 31) then Some n else None.

Definition error_code (body : J) : option (Z * list byte) :=
  code ← json_get (str "code") body ≫= json_i64;
  code ← i32_try_from code;
  Some (code, default [] (field_str body "msg")).

Definition reject_reason (body : J) : RejectReason :=
  match error_code body with
  | Some (code, message) => reject_reason_new code message
  | None => reject_reason_new 0 (str "rejected without a code")
  end.

Definition missing_field {A} (m : option A) (name : string) : result VenueFailure A :=
  malformed m (str "order row has no " ++ str name).

Definition venue_order (row : J) : result VenueFailure VenueOrder :=
  status ← missing_field (field_str row "status") "status";
  executed ← missing_field (quantity (field row "executedQty")) "executedQty";
  avg ← panics (derived_decimal (field row "avgPrice"));
  let avg := p ← avg; if is_positive p then Some p else None in
  order_id ← missing_field (integer (field row "orderId")) "orderId";
  symbol ← missing_field (field_id 16 row "symbol") "symbol";
  Ok (mkVenueOrder order_id symbol (order_state status)
        (default ZERO (quantity (field row "origQty"))) executed avg).

Definition venue_position (row : J) : result VenueFailure VenuePositionRow :=
  symbol ← malformed (field_id 16 row "symbol") (str "position row has no symbol");
  qty ← malformed (quantity (field row "positionAmt")) (str "position row has no positionAmt");
  entry ← panics (derived_decimal (field row "entryPrice"));
  Ok (mkVenuePositionRow symbol qty (default ZERO entry)).

(** The filter of a kind, among the filters of a symbol. *)
Definition find_filter (row : J) (kind : string) : option J :=
  find (λ f, bool_decide (field_str f "filterType" = Some (str kind)))
    (default [] (json_get (str "filters") row ≫= json_array)).

Definition u32_try_from (n : Z) : option Z := if (0 <=? n) && (n <=? u32_max) then Some n else None.

Definition symbol_rules (row : J) : result VenueFailure SymbolRules :=
  symbol ← malformed (field_id 16 row "symbol") (str "exchangeInfo row has no symbol");
  lot ← malformed (find_filter row "LOT_SIZE") (inline_as_str symbol ++ str " has no LOT_SIZE filter");
  step ← malformed (quantity (field lot "stepSize")) (inline_as_str symbol ++ str " has no stepSize");
  Ok (mkSymbolRules symbol step
        (default step (quantity (field lot "minQty")))
        (default (from_raw 1) (find_filter row "PRICE_FILTER" ≫= λ f, decimal_of (field f "tickSize")))
        (default ZERO (find_filter row "MIN_NOTIONAL" ≫= λ f,
           match amount (field f "notional") with
           | Some m => Some m
           | None => amount (field f "minNotional")
           end))
        (default 8 (u32_try_from (default 8 (integer (field row "quantityPrecision")))))).

(** ** Frames of the stream *)

(** [row.get(name).and_then(f)]. *)
Definition get_as {A} (f : J → option A) (row : J) (name : string) : option A :=
  json_get (str name) row ≫= f.

Definition decode_order_update (frame : J) : list VenueEvent.t :=
  match json_get (str "o") frame with
  | None => []
  | Some order =>
      match field_id 36 order "c" with
      | None => []
      | Some client_order_id =>
          let execution := field_str order "x" in
          if bool_decide (execution = Some (str "TRADE")) then
            match get_as integer order "t" ≫= λ id, ok (inline_new 40 (dec_signed id)) with
            | None => []
            | Some exec_id =>
                match get_as quantity order "l", get_as decimal_of order "L" with
                | Some qty, Some price => [VenueEvent.Fill client_order_id exec_id qty price]
                | _, _ => []
                end
            end
          else if bool_decide (execution ∈ [Some (str "CANCELED"); Some (str "EXPIRED")]) then
            [VenueEvent.CancelConfirmed client_order_id]
          else []
      end
  end.

Definition decode_account_update (frame : J) : list VenueEvent.t :=
  match get_as (json_get (str "B")) frame "a" ≫= json_array with
  | None => []
  | Some balances =>
      omap (λ entry : J,
        asset ← field_id 8 entry "a";
        m ← get_as amount entry "wb";
        Some (VenueEvent.Balance asset m)) balances
  end.

Definition decode_mark (frame : J) : option VenueEvent.t :=
  instrument ← field_id 16 frame "s";
  price ← get_as decimal_of frame "p";
  Some (VenueEvent.Mark instrument price).

Definition decode_frame (frame : J) : list VenueEvent.t :=
  let e := field_str frame "e" in
  if bool_decide (e = Some (str "ORDER_TRADE_UPDATE")) then decode_order_update frame
  else if bool_decide (e = Some (str "ACCOUNT_UPDATE")) then decode_account_update frame
  else if bool_decide (e = Some (str "markPriceUpdate")) then option_list (decode_mark frame)
  else [].

(** What a text message of the socket does to the reader of [read_once]. *)
Inductive Received := Skip | Expired | Events (l : list VenueEvent.t).

Definition receive_text (text : list byte) : Received :=
  match json_parse text with
  | Err _ => Skip
  | Ok frame =>
      let payload := default frame (json_get (str "data") frame) in
      if bool_decide (field_str payload "e" = Some (str "listenKeyExpired")) then Expired
      else Events (decode_frame payload)
  end.
End parse.
