(* ===== verification/Binance.v ===== *)
(** * The Binance adapter (sentinel-binance/src/lib.rs)

    The venue behind the [Venue] trait when the money is real: signed requests
    over an HTTP client, with what the answers mean.  The client, the network
    and the clock of the machine are parameters: a request changes the network's
    state and comes back with a body, a status, or nothing at all. *)

From S2P Require Import Prelude Fixed Text Types Json Domain Intent Records Venue Symbol Signing VenueParse.

Definition PROD_REST : list byte := str "https://fapi.binance.com".
Definition PROD_WS : list byte := str "wss://fstream.binance.com".
Definition DEMO_REST : list byte := str "https://demo-fapi.binance.com".
Definition DEMO_WS : list byte := str "wss://demo-fstream.binance.com".

Record Credentials := mkCredentials {
  api_key : list byte;
  secret : list byte;
  rest_base : list byte;
  ws_base : list byte;
}.

Definition credentials_demo (api_key secret : list byte) : Credentials :=
  mkCredentials api_key secret DEMO_REST DEMO_WS.
Definition credentials_production (api_key secret : list byte) : Credentials :=
  mkCredentials api_key secret PROD_REST PROD_WS.
(** [Debug] and [Display]: where the keys are used, never the keys. *)
Definition credentials_debug (c : Credentials) : list byte := str "Credentials(" ++ rest_base c ++ str ")".
Definition credentials_to_string (c : Credentials) : list byte := str "binance(" ++ rest_base c ++ str ")".

(** ** The HTTP client *)

Record HttpRequest := mkHttpRequest {
  rq_method : string;
  rq_url : list byte;
  rq_key : option (list byte);
}.

(** What a run of a request comes back with: a response whose body is read, one
    whose body cannot be, a status reported as an error, or no response. *)
Inductive HttpAnswer :=
| Body (text : list byte)
| Unreadable (error : list byte)
| Status (code : Z)
| NoAnswer.

(** [http true] is the agent that reports a status of 400 and above as an error,
    [http false] the one that does not; [build] is the error of a request that
    cannot be made. *)
Class Client (N : Type) := {
  http : bool → HttpRequest → N → N * HttpAnswer;
  local_ms : N → N * Z;
  build : HttpRequest → option (list byte);
  hmac_sha256 : list byte → list byte → list byte;
}.

(** The adapter: what it was opened with, the clock offset, the symbols loaded,
    the events the stream has delivered when it runs, and the network. *)
Record BinanceVenue (N : Type) := mkBinanceVenue {
  bn_credentials : Credentials;
  bn_instruments : list Instrument;
  bn_offset : Z;
  bn_symbols : Symbols;
  bn_events : option (list VenueEvent.t);
  bn_net : N;
}.
Arguments mkBinanceVenue {N}.
Arguments bn_credentials {N}.
Arguments bn_instruments {N}.
Arguments bn_offset {N}.
Arguments bn_symbols {N}.
Arguments bn_events {N}.
Arguments bn_net {N}.

(** ** For an operator *)

Record OpenPosition := mkOpenPosition {
  op_instrument : Instrument;
  op_qty : Qty;
  op_entry_price : Price;
  op_break_even_price : Price;
  op_mark_price : Price;
  op_liquidation_price : option Price;
  op_notional : Money;
  op_unrealized : Money;
}.

(** The first characters of a text. *)
Fixpoint take_chars (n : nat) (s : list byte) : list byte :=
  match s with
  | [] => []
  | c :: s' =>
      if is_cont c then c :: take_chars n s'
      else match n with O => [] | S n' => c :: take_chars n' s' end
  end.

Definition bracketed (code : Z) (message : list byte) : list byte :=
  str "[" ++ dec_signed code ++ str "] " ++ message.

(** [collect] of results: the first error, or every value. *)
Fixpoint result_mapM {E A B} (f : A → result E B) (l : list A) : result E (list B) :=
  match l with
  | [] => Ok []
  | x :: l' => y ← f x; ys ← result_mapM f l'; Ok (y :: ys)
  end.

Section binance.
Context {J N : Type} `{Json J} `{Client N}.

Abbreviation BN := (ST (BinanceVenue N) VenueFailure).
Abbreviation V := (BinanceVenue N).

Definition bn_set_net (n : N) (v : V) : V :=
  mkBinanceVenue (bn_credentials v) (bn_instruments v) (bn_offset v) (bn_symbols v) (bn_events v) n.
Definition bn_set_offset (o : Z) (v : V) : V :=
  mkBinanceVenue (bn_credentials v) (bn_instruments v) o (bn_symbols v) (bn_events v) (bn_net v).
Definition bn_set_symbols (s : Symbols) (v : V) : V :=
  mkBinanceVenue (bn_credentials v) (bn_instruments v) (bn_offset v) s (bn_events v) (bn_net v).
Definition bn_set_events (l : option (list VenueEvent.t)) (v : V) : V :=
  mkBinanceVenue (bn_credentials v) (bn_instruments v) (bn_offset v) (bn_symbols v) l (bn_net v).

Definition run (status_as_error : bool) (rq : HttpRequest) : BN HttpAnswer := λ v,
  let '(n, a) := http status_as_error rq (bn_net v) in (bn_set_net n v, Ok a).

Definition now_ms : BN Z := λ v, let '(n, t) := local_ms (bn_net v) in (bn_set_net n v, Ok t).

Definition transport {A} (message : list byte) : BN A := st_fail (VenueErr (VenueError.Transport message)).
Definition bad {A} (message : list byte) : BN A := st_fail (VenueErr (VenueError.Malformed message)).

(** A call whose outcome is looked at: an error is a value, a panic is not. *)
Definition attempt {A} (m : BN A) : BN (result VenueError.t A) := λ v,
  match m v with
  | (v', Ok a) => (v', Ok (Ok a))
  | (v', Err (VenueErr e)) => (v', Ok (Err e))
  | (v', Err VenuePanic) => (v', Err VenuePanic)
  end.

(** ** Transport *)

Definition read_json (answer : list byte) : result VenueFailure J :=
  map_err (λ e, VenueErr (VenueError.Malformed (e ++ str ": " ++ take_chars 200 answer))) (json_parse answer).

Definition read_error_body (rq : HttpRequest) : BN (option J) :=
  answer ← run false rq;
  match answer with
  | Body text => body ← st_lift (read_json text); mret (Some body)
  | Unreadable e => transport e
  | Status _ | NoAnswer => mret None
  end.

Definition send (method : string) (path query : list byte) (keyed : bool) : BN (option J) :=
  c ← st_get bn_credentials;
  let url := if bool_decide (query = []) then rest_base c ++ path
             else rest_base c ++ path ++ str "?" ++ query in
  let rq := mkHttpRequest method url (if keyed then Some (api_key c) else None) in
  match build rq with
  | Some e => bad e
  | None =>
      answer ← run true rq;
      match answer with
      | Body text => body ← st_lift (read_json text); mret (Some body)
      | Unreadable e => transport e
      | Status code =>
          if (code =? 429) || (code =? 418) then st_fail (VenueErr (VenueError.RateLimited None))
          else if code =? 401 then st_fail (VenueErr VenueError.Unauthorized)
          else if 500 <=? code then mret None
          else read_error_body rq
      | NoAnswer => mret None
      end
  end.

Definition public (path query : list byte) : BN (option J) := send "GET" path query false.

Definition timestamp : BN Z :=
  local ← now_ms;
  offset ← st_get bn_offset;
  mret (venue_time_ms offset local).

Definition signed (method : string) (path : list byte) (query : Query) : BN (option J) :=
  t ← timestamp;
  c ← st_get bn_credentials;
  send method path (query_sign hmac_sha256 (secret c) t query) true.

(** ** The clock *)

Abbreviation Sample := (Z * Z * Z * Z)%type.

(** One sample, or why there is none. *)
Definition clock_sample : BN (result VenueError.t Sample) :=
  sent ← now_ms;
  body ← attempt (public (str "/fapi/v1/time") []);
  match body with
  | Ok (Some body) =>
      received ← now_ms;
      match integer (field body "serverTime") with
      | Some server => mret (Ok (Z.max 0 (received - sent), Z.max server 0, sent, received))
      | None => mret (Err (VenueError.Malformed (str "serverTime missing")))
      end
  | Ok None => mret (Err (VenueError.Transport (str "no answer from /fapi/v1/time")))
  | Err e => mret (Err e)
  end.

Definition trip_of (s : Sample) : Z := s.1.1.1.

Fixpoint sample_loop (n : nat) (best : option Sample) (last_error : option VenueError.t) :
    BN (option Sample * option VenueError.t) :=
  match n with
  | O => mret (best, last_error)
  | S n' =>
      sample ← clock_sample;
      match sample with
      | Ok s =>
          sample_loop n' (match best with
                          | Some b => if trip_of s <? trip_of b then Some s else Some b
                          | None => Some s
                          end) last_error
      | Err e => sample_loop n' best (Some e)
      end
  end.

Definition SAMPLES : nat := 5.

Definition sync_clock : BN unit :=
  '(best, last_error) ← sample_loop SAMPLES None None;
  match best with
  | Some (_, server_ms, sent, received) =>
      offset ← st_lift (panics (sync_round_trip server_ms sent received));
      st_modify (bn_set_offset offset)
  | None =>
      st_fail (VenueErr (default (VenueError.Transport (str "no answer from /fapi/v1/time")) last_error))
  end.

(** ** Boot *)

Definition rules_for (i : Instrument) : BN SymbolRules :=
  symbols ← st_get bn_symbols;
  match symbols_get symbols i with
  | Some r => mret r
  | None => bad (inline_as_str i ++ str " is not loaded")
  end.

Definition load_symbol (i : Instrument) : BN SymbolRules :=
  body ← public (str "/fapi/v1/exchangeInfo") (str "symbol=" ++ inline_as_str i);
  match body with
  | None => transport (str "no answer loading " ++ inline_as_str i)
  | Some body =>
      let symbols := default [] (json_get (str "symbols") body ≫= json_array) in
      match find (λ row, bool_decide (field_str row "symbol" = Some (inline_as_str i))) symbols with
      | None => bad (inline_as_str i ++ str " is not listed")
      | Some row => st_lift (symbol_rules row)
      end
  end.

Definition set_one_way_mode : BN unit :=
  _ ← attempt (signed "POST" (str "/fapi/v1/positionSide/dual")
                 (query_push (str "dualSidePosition") (str "false") []));
  mret tt.

Fixpoint leverage_loop (leverage : Z) (l : list Instrument) : BN unit :=
  match l with
  | [] => mret tt
  | i :: l' =>
      _ ← attempt (signed "POST" (str "/fapi/v1/leverage")
                     (query_push (str "leverage") (dec leverage)
                       (query_push (str "symbol") (inline_as_str i) [])));
      leverage_loop leverage l'
  end.

Definition set_leverage (leverage : Z) : BN unit :=
  l ← st_get bn_instruments;
  leverage_loop leverage l.

Fixpoint load_loop (l : list Instrument) : BN unit :=
  match l with
  | [] => mret tt
  | i :: l' =>
      rules ← load_symbol i;
      _ ← st_modify (λ v, bn_set_symbols (symbols_insert rules (bn_symbols v)) v);
      load_loop l'
  end.

Definition bn_new (c : Credentials) (l : list Instrument) (n : N) : V := mkBinanceVenue c l 0 ∅ None n.

(** [connect] and [connect_read_only], on a fresh adapter. *)
Definition connect_read_only (c : Credentials) (l : list Instrument) (n : N) : V * result VenueFailure unit :=
  (_ ← sync_clock; load_loop l) (bn_new c l n).

Definition connect (c : Credentials) (l : list Instrument) (leverage : option Z) (n : N) :
    V * result VenueFailure unit :=
  (_ ← sync_clock;
   _ ← load_loop l;
   _ ← set_one_way_mode;
   match leverage with Some x => set_leverage x | None => mret tt end) (bn_new c l n).

(** [start_stream]: the channel is open and empty; the stream's thread fills it. *)
Definition start_stream (v : V) : V := bn_set_events (Some []) v.
Definition stream_delivers (l : list VenueEvent.t) (v : V) : V :=
  bn_set_events ((λ events, events ++ l) <$> bn_events v) v.

(** [ListenKeys] of the transport. *)
Definition listen_open : BN (list byte) :=
  body ← send "POST" (str "/fapi/v1/listenKey") [] true;
  match body with
  | None => transport (str "no answer opening a listen key")
  | Some body =>
      match field_str body "listenKey" with
      | Some key => mret key
      | None => bad (str "no listenKey in the response")
      end
  end.

Definition listen_keepalive : BN unit :=
  body ← send "PUT" (str "/fapi/v1/listenKey") [] true;
  match body with None => transport (str "no answer keeping the key alive") | Some _ => mret tt end.

(** ** One order *)

(** [None] only for the code that says the order does not exist. *)
Definition query_order (symbol : Instrument) (c : ClientOrderId) : BN (option VenueOrder) :=
  let query := query_push (str "origClientOrderId") (inline_as_str c)
                 (query_push (str "symbol") (inline_as_str symbol) []) in
  body ← signed "GET" (str "/fapi/v1/order") query;
  match body with
  | None => transport (str "no answer from order query")
  | Some body =>
      match error_code body with
      | Some (code, message) =>
          if code =? ORDER_DOES_NOT_EXIST then mret None
          else if code_is_retryable code then
            _ ← (if code =? TIMESTAMP_SKEW then _ ← attempt sync_clock; mret tt else mret tt);
            transport (bracketed code message)
          else bad (bracketed code message)
      | None => order ← st_lift (venue_order body); mret (Some order)
      end
  end.

Fixpoint find_loop (c : ClientOrderId) (l : list Instrument) (last_error : option VenueError.t) :
    BN (option (Instrument * VenueOrder)) :=
  match l with
  | [] => match last_error with Some e => st_fail (VenueErr e) | None => mret None end
  | symbol :: l' =>
      answer ← attempt (query_order symbol c);
      match answer with
      | Ok (Some order) => mret (Some (symbol, order))
      | Ok None => find_loop c l' last_error
      | Err e => find_loop c l' (Some e)
      end
  end.

Definition find_order (c : ClientOrderId) : BN (option (Instrument * VenueOrder)) :=
  symbols ← st_get bn_symbols;
  find_loop c (symbols_all symbols) None.

(** ** The calls of the trait *)

(** The price an order is worth at, for the check. *)
Definition reference_price (i : Intent.t) : Price :=
  default ZERO (match Intent.limit_price i with
                | Some p => Some p
                | None => match Intent.stop_price i with
                          | Some p => Some p
                          | None => Intent.quote_at_decision i
                          end
                end).

Definition order_query (rules : SymbolRules) (i : Intent.t) : result VenueFailure Query :=
  let query :=
    query_push (str "newClientOrderId") (inline_as_str (Intent.client_order_id i))
      (query_push (str "quantity") (to_string (Intent.qty i))
        (query_push (str "side") (if bool_decide (Intent.side i = Buy) then str "BUY" else str "SELL")
          (query_push (str "symbol") (inline_as_str (Intent.instrument i)) []))) in
  match Intent.kind i with
  | StopMarket =>
      trigger ← malformed (Intent.stop_price i) (str "stop order has no trigger");
      Ok (query_push (str "reduceOnly") (str "true")
           (query_push (str "stopPrice") (to_string (round_price_down rules trigger))
             (query_push (str "type") (str "STOP_MARKET") query)))
  | Limit =>
      limit ← malformed (Intent.limit_price i) (str "limit order has no price");
      Ok (query_push (str "price") (to_string (round_price_down rules limit))
           (query_push (str "timeInForce") (str "GTC") (query_push (str "type") (str "LIMIT") query)))
  | Market => Ok (query_push (str "type") (str "MARKET") query)
  end.

Definition bn_submit (i : Intent.t) : BN SubmitOutcome.t :=
  rules ← rules_for (Intent.instrument i);
  _ ← st_lift (map_err (λ e, VenueErr (VenueError.Malformed (unplaceable_to_string e)))
                 (rules_check rules (Intent.qty i) (reference_price i)));
  query ← st_lift (order_query rules i);
  body ← signed "POST" (str "/fapi/v1/order") query;
  match body with
  | None => mret SubmitOutcome.TimedOut
  | Some body =>
      match error_code body with
      | Some (code, message) =>
          if code_is_retryable code then
            _ ← (if code =? TIMESTAMP_SKEW then _ ← attempt sync_clock; mret tt else mret tt);
            transport (bracketed code message)
          else mret (SubmitOutcome.Rejected (reject_reason body))
      | None =>
          let order_id := default [] (dec_signed <$> integer (field body "orderId")) in
          mret (SubmitOutcome.Acked (inline_or_default 32 order_id))
      end
  end.

Definition bn_cancel (c : ClientOrderId) (_ : option VenueOrderId) : BN CancelOutcome.t :=
  found ← find_order c;
  match found with
  | None => mret CancelOutcome.Absent
  | Some (symbol, _) =>
      let query := query_push (str "origClientOrderId") (inline_as_str c)
                     (query_push (str "symbol") (inline_as_str symbol) []) in
      body ← signed "DELETE" (str "/fapi/v1/order") query;
      match body with
      | None => mret CancelOutcome.TimedOut
      | Some body =>
          match error_code body with
          | None => mret CancelOutcome.Requested
          | Some (code, message) =>
              if code =? UNKNOWN_ORDER then mret CancelOutcome.TimedOut
              else if code_is_retryable code then transport (bracketed code message)
              else bad (str "cancel refused " ++ bracketed code message)
          end
      end
  end.

Definition snapshot_of (order : VenueOrder) : OrderSnapshot :=
  mkOrderSnapshot (vo_state order) (ok (inline_new 32 (dec_signed (vo_order_id order))))
    (vo_filled_qty order) (vo_avg_price order).

Definition bn_lookup (c : ClientOrderId) : BN LookupOutcome.t :=
  found ← attempt (find_order c);
  match found with
  | Ok (Some (_, order)) => mret (LookupOutcome.Found (snapshot_of order))
  | Ok None => mret LookupOutcome.Absent
  | Err e =>
      if VenueError.is_retryable e then mret LookupOutcome.TimedOut else st_fail (VenueErr e)
  end.

(** An answer that is a list of rows, or the reason there is none. *)
Definition rows_of (path : list byte) (name : string) : BN (list J) :=
  body ← signed "GET" path [];
  match body with
  | None => transport (str "no answer from " ++ str name)
  | Some body =>
      match error_code body with
      | Some (code, message) => transport (bracketed code message)
      | None => mret (default [] (json_array body))
      end
  end.

Definition position_of_row (symbols : Symbols) (row : J) : result VenueFailure (option VenuePosition) :=
  let flat := match quantity (field row "positionAmt") with Some q => is_zero q | None => false end in
  if flat then Ok None
  else
    parsed ← venue_position row;
    if is_zero (vr_qty parsed) then Ok None
    else if negb (Intent.is_some (symbols_get symbols (vr_symbol parsed))) then Ok None
    else Ok (Some (mkVenuePosition (vr_symbol parsed) (vr_qty parsed)
                     (if is_positive (vr_entry_price parsed) then Some (vr_entry_price parsed) else None))).

Definition position_le (a b : VenuePosition) : Prop := id_le (vp_instrument a) (vp_instrument b).
#[export] Instance position_le_dec a b : Decision (position_le a b) :=
  id_le_dec 16 (vp_instrument a) (vp_instrument b).

(** The rows of a report name each symbol once, so stability does not matter. *)
Definition bn_positions : BN (list VenuePosition) :=
  rows ← rows_of (str "/fapi/v3/positionRisk") "positionRisk";
  symbols ← st_get bn_symbols;
  out ← st_lift (result_mapM (position_of_row symbols) rows);
  mret (merge_sort position_le (omap id out)).

(** *** For an operator *)

Definition open_orders : BN (list VenueOrder) :=
  rows ← rows_of (str "/fapi/v1/openOrders") "openOrders";
  st_lift (result_mapM venue_order rows).

Definition open_position_of_row (row : J) : result VenueFailure (option OpenPosition) :=
  match quantity (field row "positionAmt") with
  | None => Ok None
  | Some qty =>
      if is_zero qty then Ok None
      else
        match field_id 16 row "symbol" with
        | None => Ok None
        | Some i =>
            entry ← panics (derived_decimal (field row "entryPrice"));
            break_even ← panics (derived_decimal (field row "breakEvenPrice"));
            mark ← panics (derived_decimal (field row "markPrice"));
            liquidation ← panics (derived_decimal (field row "liquidationPrice"));
            n ← panics (derived_amount (field row "notional"));
            u ← panics (derived_amount (field row "unRealizedProfit"));
            Ok (Some (mkOpenPosition i qty (default ZERO entry) (default ZERO break_even)
                  (default ZERO mark) (p ← liquidation; if is_positive p then Some p else None)
                  (default ZERO n) (default ZERO u)))
        end
  end.

Definition open_position_le (a b : OpenPosition) : Prop := id_le (op_instrument a) (op_instrument b).
#[export] Instance open_position_le_dec a b : Decision (open_position_le a b) :=
  id_le_dec 16 (op_instrument a) (op_instrument b).

Definition open_positions : BN (list OpenPosition) :=
  rows ← rows_of (str "/fapi/v3/positionRisk") "positionRisk";
  out ← st_lift (result_mapM open_position_of_row rows);
  mret (merge_sort open_position_le (omap id out)).

Definition balance_of_row (row : J) : option (Asset * Money) :=
  asset ← field_id 8 row "asset";
  m ← get_as amount row "balance";
  if is_zero m then None else Some (asset, m).

Definition bn_balances : BN (list (Asset * Money)) :=
  rows ← rows_of (str "/fapi/v2/balance") "balance";
  mret (sort_by_id (omap balance_of_row rows)).

Definition bn_drain (v : V) : V * list VenueEvent.t :=
  match bn_events v with
  | None => (v, [])
  | Some events => (bn_set_events (Some []) v, events)
  end.

#[export] Instance BinanceVenue_venue : Venue V := {
  venue_submit := bn_submit;
  venue_cancel := bn_cancel;
  venue_lookup := bn_lookup;
  venue_positions := bn_positions;
  venue_drain := bn_drain;
}.
End binance.
