(* ===== verification/Adapter.v ===== *)
(** * What the adapter can be believed about (sentinel-binance/src/lib.rs)

    Absence has one proof, silence is not an answer, and what is sent is the
    order that was asked for: the theorems about the calls of Binance.v, over
    any network. *)

From S2P Require Import Prelude Fixed Text Types Json Domain Intent Records Venue Symbol Signing VenueParse Binance.

Create HintDb framed.

Section adapter.
Context {J N : Type} `{Json J} `{Client N}.
Abbreviation BN := (ST (BinanceVenue N) VenueFailure).

(** ** What the calls keep *)

(** A path below the base of the venue, and an address there. *)
Definition rooted (path : list byte) : Prop := ∃ rest, path = str "/" ++ rest.
Definition at_base (base url : list byte) : Prop := ∃ rest, url = base ++ str "/" ++ rest.

(** A relation between the adapter before and after that a request to its own
    venue, the clock of the machine and the clock offset cannot break. *)
Class Frame (P : relation (BinanceVenue N)) := {
  frame_preorder :: PreOrder P;
  frame_http b rq v : at_base (rest_base (bn_credentials v)) (rq_url rq) →
    P v (bn_set_net (http b rq (bn_net v)).1 v);
  frame_local v : P v (bn_set_net (local_ms (bn_net v)).1 v);
  frame_offset o v : P v (bn_set_offset o v);
}.

Section framed.
Context (P : relation (BinanceVenue N)) `{!Frame P}.

Definition framed {A} (m : BN A) : Prop := ∀ v, P v (m v).1.

Lemma framed_bind {A B} (m : BN A) (f : A → BN B) : framed m → (∀ a, framed (f a)) → framed (m ≫= f).
Proof.
  intros Hm Hf v. specialize (Hm v). unfold mbind, ST_bind.
  destruct (m v) as [v1 [a|e]]; cbn [fst] in *; [|done].
  etransitivity; [exact Hm|apply Hf].
Qed.
Lemma framed_ret {A} (a : A) : framed (mret a). Proof. intros v. reflexivity. Qed.
Lemma framed_fail {A} e : framed (st_fail (A := A) e). Proof. intros v. reflexivity. Qed.
Lemma framed_lift {A} (m : result VenueFailure A) : framed (st_lift m). Proof. intros v. reflexivity. Qed.
Lemma framed_get {A} (f : BinanceVenue N → A) : framed (st_get f). Proof. intros v. reflexivity. Qed.
Lemma framed_offset o : framed (st_modify (bn_set_offset o)). Proof. intros v. apply frame_offset. Qed.
Lemma framed_json text : framed (body ← st_lift (read_json text); mret (Some body)).
Proof. apply framed_bind; [apply framed_lift|intros; apply framed_ret]. Qed.
Lemma framed_now : framed now_ms.
Proof. intros v. pose proof (frame_local v). unfold now_ms. by destruct (local_ms (bn_net v)). Qed.
Lemma framed_attempt {A} (m : BN A) : framed m → framed (attempt m).
Proof. intros Hm v. specialize (Hm v). unfold attempt. by destruct (m v) as [v' [a|[e|]]]. Qed.

#[local] Hint Resolve framed_ret framed_fail framed_lift framed_get framed_offset framed_now : framed.
#[local] Hint Extern 1 (rooted _) => eexists; reflexivity : framed.

Ltac framed :=
  repeat first
    [ solve [eauto 3 with framed] | apply framed_bind; [|intros] | apply framed_attempt | case_match ].

Lemma framed_run_then {A} b rq (k : HttpAnswer → BN A) v :
  at_base (rest_base (bn_credentials v)) (rq_url rq) →
  (∀ a v1, bn_credentials v1 = bn_credentials v → P v1 (k a v1).1) → P v ((run b rq ≫= k) v).1.
Proof.
  intros Hu Hk. pose proof (frame_http b rq v Hu) as Hp. unfold run, mbind, ST_bind.
  destruct (http b rq (bn_net v)) as [n a]. etransitivity; [exact Hp|]. by apply Hk.
Qed.

Lemma framed_read_error_body rq v :
  at_base (rest_base (bn_credentials v)) (rq_url rq) → P v (read_error_body rq v).1.
Proof.
  intros Hu. unfold read_error_body, transport. apply framed_run_then; [done|]. intros a v1 _.
  destruct a; [apply framed_json|apply framed_fail|apply framed_ret..].
Qed.

Lemma framed_send m p q k : rooted p → framed (send m p q k).
Proof.
  intros [rest ->] v. unfold send, transport, bad.
  change ((st_get bn_credentials ≫= ?k) v) with (k (bn_credentials v) v). cbv beta zeta.
  match goal with |- context [mkHttpRequest m ?u _] => set (url := u) end.
  assert (at_base (rest_base (bn_credentials v)) url) as Hu.
  { unfold url. case_bool_decide; eexists; by rewrite <-?app_assoc. }
  destruct (build _); [apply framed_fail|]. apply framed_run_then; [done|]. intros a v1 E.
  destruct a; [apply framed_json|apply framed_fail| |apply framed_ret].
  repeat case_match; try apply framed_fail; try apply framed_ret.
  all: apply framed_read_error_body; by rewrite E.
Qed.
#[local] Hint Resolve framed_send : framed.
Lemma framed_timestamp : framed timestamp.
Proof. unfold timestamp. framed. Qed.
#[local] Hint Resolve framed_timestamp : framed.
Lemma framed_signed m p q : rooted p → framed (signed m p q).
Proof. intros Hp. unfold signed. framed. Qed.
Lemma framed_sample : framed clock_sample.
Proof. unfold clock_sample, public. framed. Qed.
#[local] Hint Resolve framed_signed framed_sample : framed.
Lemma framed_loop n : ∀ best e, framed (sample_loop n best e).
Proof. induction n as [|n IH]; intros best e; cbn [sample_loop]; framed. Qed.
#[local] Hint Resolve framed_loop : framed.
Lemma framed_sync : framed sync_clock.
Proof. unfold sync_clock. framed. Qed.
#[local] Hint Resolve framed_sync : framed.
Lemma framed_query symbol c : framed (query_order symbol c).
Proof. unfold query_order, transport, bad. framed. Qed.
#[local] Hint Resolve framed_query : framed.
Lemma framed_find_loop c l : ∀ e, framed (find_loop c l e).
Proof. induction l as [|i l IH]; intros e; cbn [find_loop]; framed. Qed.
#[local] Hint Resolve framed_find_loop : framed.
Lemma framed_find c : framed (find_order c).
Proof. unfold find_order. framed. Qed.
#[local] Hint Resolve framed_find : framed.
Lemma framed_rows path name : rooted path → framed (rows_of path name).
Proof. intros Hp. unfold rows_of, transport. framed. Qed.
Lemma framed_listen_open : framed listen_open.
Proof. unfold listen_open, transport, bad. framed. Qed.
Lemma framed_keepalive : framed listen_keepalive.
Proof. unfold listen_keepalive, transport. framed. Qed.
#[local] Hint Resolve framed_rows : framed.

(** The calls of the trait, and the boot apart from the loaded symbols. *)
Lemma framed_submit i : framed (bn_submit i).
Proof. unfold bn_submit, rules_for, transport, bad. framed. Qed.
Lemma framed_cancel c k : framed (bn_cancel c k).
Proof. unfold bn_cancel, transport, bad. framed. Qed.
Lemma framed_lookup c : framed (bn_lookup c).
Proof. unfold bn_lookup. framed. Qed.
Lemma framed_positions : framed bn_positions.
Proof. unfold bn_positions. framed. Qed.
Lemma framed_load i : framed (load_symbol i).
Proof. unfold load_symbol, public, transport, bad. framed. Qed.
Lemma framed_one_way : framed set_one_way_mode.
Proof. unfold set_one_way_mode. framed. Qed.
Lemma framed_leverage_loop n l : framed (leverage_loop n l).
Proof. induction l as [|i l IH]; cbn [leverage_loop]; framed. Qed.
End framed.

(** The credentials and the symbols are left alone. *)
Definition steady (v v' : BinanceVenue N) : Prop :=
  bn_credentials v' = bn_credentials v ∧ bn_symbols v' = bn_symbols v.

#[global] Instance steady_frame : Frame steady.
Proof.
  split; [|done..]. split; [done|]. intros v1 v2 v3 [? ?] [? ?]. split; congruence.
Qed.

(** ** What a call heard *)

(** A body came back for the request and was JSON. *)
Definition heard (rq : HttpRequest) (P : J → Prop) : Prop :=
  ∃ strict n n' text body,
    http strict rq n = (n', Body text) ∧ json_parse text = Ok body ∧ P body.

(** Nothing came back for it: no response, or a failure on the venue's side. *)
Definition unheard (rq : HttpRequest) : Prop :=
  ∃ strict n n', http strict rq n = (n', NoAnswer) ∨
    ∃ code, http strict rq n = (n', Status code) ∧ (strict = true → 500 ≤ code).

Definition url_of (base path query : list byte) : list byte :=
  if bool_decide (query = []) then base ++ path else base ++ path ++ str "?" ++ query.

Definition keyed_request (c : Credentials) (method : string) (path query : list byte) : HttpRequest :=
  mkHttpRequest method (url_of (rest_base c) path query) (Some (api_key c)).

Lemma read_json_Ok text body : read_json text = Ok body → json_parse text = Ok body.
Proof. apply map_err_is_Ok. Qed.

Lemma read_error_body_cases rq v v' r :
  read_error_body rq v = (v', Ok r) →
  match r with Some body => heard rq (λ b, b = body) | None => unheard rq end.
Proof.
  unfold read_error_body, run, transport, mbind, ST_bind, st_lift, st_fail, mret, ST_ret.
  destruct (http false rq (bn_net v)) as [n' a] eqn:Hh. destruct a as [text|e|code|]; try done.
  - destruct (read_json text) as [body|] eqn:Hj; [|done]. intros [= _ <-].
    exists false, (bn_net v), n', text, body. split_and!; [done|by apply read_json_Ok|done].
  - intros [= _ <-]. exists false, (bn_net v), n'. right. by exists code.
  - intros [= _ <-]. exists false, (bn_net v), n'. by left.
Qed.

Lemma send_cases method path query v v' r :
  send method path query true v = (v', Ok r) →
  let rq := keyed_request (bn_credentials v) method path query in
  match r with Some body => heard rq (λ b, b = body) | None => unheard rq end.
Proof.
  intros Hs rq. unfold send in Hs. change (st_get bn_credentials ≫= ?k) with (λ v, k (bn_credentials v) v) in Hs.
  cbv beta zeta in Hs. fold (url_of (rest_base (bn_credentials v)) path query) in Hs.
  change (mkHttpRequest method _ _) with rq in Hs.
  destruct (build rq); [done|]. revert Hs. unfold run at 1, mbind at 1, ST_bind at 1.
  destruct (http true rq (bn_net v)) as [n' a] eqn:Hh. destruct a as [text|e|code|]; try done.
  - unfold mbind, ST_bind, st_lift, mret, ST_ret.
    destruct (read_json text) as [body|] eqn:Hj; [|done]. intros [= _ <-].
    exists true, (bn_net v), n', text, body. split_and!; [done|by apply read_json_Ok|done].
  - case_bool; [done|]. case_bool; [done|]. case_bool; [|apply read_error_body_cases].
    intros [= _ <-]. exists true, (bn_net v), n'. right. exists code. z_reflect. split; [done|lia].
  - intros [= _ <-]. exists true, (bn_net v), n'. by left.
Qed.

(** A signed call: its query is signed at some time. *)
Definition signed_request (c : Credentials) (method : string) (path : list byte) (query : Query)
    (rq : HttpRequest) : Prop :=
  ∃ t, rq = keyed_request c method path (query_sign hmac_sha256 (secret c) t query).

Lemma signed_cases method path query v v' r :
  signed method path query v = (v', Ok r) →
  ∃ rq, signed_request (bn_credentials v) method path query rq ∧
    match r with Some body => heard rq (λ b, b = body) | None => unheard rq end.
Proof.
  intros Hs. unfold signed in Hs. apply st_bind_Ok in Hs as (v1 & t & Ht & Hs).
  assert (bn_credentials v1 = bn_credentials v) as E.
  { pose proof (framed_timestamp steady v) as [E _]. by rewrite Ht in E. }
  apply st_bind_Ok in Hs as (v2 & c & Hc & Hs). unfold st_get in Hc. injection Hc as <- <-.
  apply send_cases in Hs. rewrite E in Hs. eexists. split; [by exists t|exact Hs].
Qed.

(** ** Absence *)

Definition query_params (symbol : Instrument) (c : ClientOrderId) : list (list byte * list byte) :=
  [(str "symbol", inline_as_str symbol); (str "origClientOrderId", inline_as_str c)].

(** The venue was asked about this order on this symbol, by its own name for it,
    and said with the one code for it that there is none. *)
Definition said_absent (cred : Credentials) (symbol : Instrument) (c : ClientOrderId) : Prop :=
  ∃ rq query, signed_request cred "GET" (str "/fapi/v1/order") query rq ∧
    read_query query = Some (query_params symbol c) ∧
    heard rq (λ body, ∃ message, error_code body = Some (ORDER_DOES_NOT_EXIST, message)).

Lemma plain_key k : Forall (λ c, unreserved c = true) (str k) → str k ≠ [] → plain (str k).
Proof. done. Qed.

Lemma query_params_read symbol c :
  read_query (query_of (query_params symbol c)) = Some (query_params symbol c).
Proof.
  destruct (query_of_holds (query_params symbol c)) as [[_ E]|[_ E]]; [|done|done].
  unfold query_params. repeat (constructor; [split; [repeat constructor|discriminate]|]). constructor.
Qed.

Lemma query_order_absent symbol c v v' :
  query_order symbol c v = (v', Ok None) → said_absent (bn_credentials v) symbol c.
Proof.
  intros Hq. unfold query_order in Hq. cbv zeta in Hq.
  apply st_bind_Ok in Hq as (v1 & r & Hs & Hq). apply signed_cases in Hs as (rq & Hrq & Hr).
  destruct r as [body|]; [|done].
  exists rq, (query_of (query_params symbol c)). split; [exact Hrq|]. split; [apply query_params_read|].
  destruct Hr as (strict & n & n' & t & b & Hh & Hj & ->). exists strict, n, n', t, body. split_and!; [done..|].
  destruct (error_code body) as [[code message]|].
  - destruct (Z.eqb_spec code ORDER_DOES_NOT_EXIST) as [->|]; [by exists message|].
    destruct (code_is_retryable code); [|done].
    by apply st_bind_Ok in Hq as (v2 & u & _ & Hq).
  - apply st_bind_Ok in Hq as (v2 & o & _ & Hq). done.
Qed.

Lemma find_loop_absent c l : ∀ last_error v v',
  find_loop c l last_error v = (v', Ok None) →
  last_error = None ∧ ∀ symbol, symbol ∈ l → said_absent (bn_credentials v) symbol c.
Proof.
  induction l as [|symbol l IH]; intros last_error v v' Hf; cbn [find_loop] in Hf.
  - destruct last_error; [done|]. split; [done|]. by intros ? ?%elem_of_nil.
  - apply st_bind_Ok in Hf as (v1 & r & Ha & Hf).
    pose proof (framed_query steady symbol c v) as [Ec _].
    unfold attempt in Ha. destruct (query_order symbol c v) as [v2 [o|[e|]]] eqn:Hq; [..|done];
      injection Ha as <- <-.
    + destruct o as [o|]; [done|]. destruct (IH _ _ _ Hf) as [-> Hl]. split; [done|].
      cbn [fst] in Ec. rewrite Ec in Hl. intros x [->|Hx]%elem_of_cons; [|by apply Hl].
      by eapply query_order_absent.
    + by apply IH in Hf as [? _].
Qed.

Lemma find_order_absent c v v' :
  find_order c v = (v', Ok None) →
  ∀ symbol, symbol ∈ symbols_all (bn_symbols v) → said_absent (bn_credentials v) symbol c.
Proof. intros Hf. unfold find_order in Hf. by apply find_loop_absent in Hf as [_ ?]. Qed.

Lemma symbols_all_spec (s : Symbols) symbol : symbol ∈ symbols_all s ↔ is_Some (s !! symbol).
Proof.
  unfold symbols_all, sort_ids. rewrite merge_sort_Permutation, list_elem_of_fmap. split.
  - intros ([i r] & -> & Hin%elem_of_map_to_list). by exists r.
  - intros [r Hr]. exists (symbol, r). split; [done|]. by apply elem_of_map_to_list.
Qed.

(** ** Submission *)

(** The parameters of an order: what the venue is asked to do. *)
Definition order_params (rules : SymbolRules) (i : Intent.t) : list (list byte * list byte) :=
  [(str "symbol", inline_as_str (Intent.instrument i));
   (str "side", match Intent.side i with Buy => str "BUY" | Sell => str "SELL" end);
   (str "quantity", to_string (Intent.qty i));
   (str "newClientOrderId", inline_as_str (Intent.client_order_id i))] ++
  match Intent.kind i with
  | Market => [(str "type", str "MARKET")]
  | Limit =>
      [(str "type", str "LIMIT"); (str "timeInForce", str "GTC");
       (str "price", to_string (round_price_down rules (default ZERO (Intent.limit_price i))))]
  | StopMarket =>
      [(str "type", str "STOP_MARKET");
       (str "stopPrice", to_string (round_price_down rules (default ZERO (Intent.stop_price i))));
       (str "reduceOnly", str "true")]
  end.

Lemma order_query_params rules i q :
  order_query rules i = Ok q → q = query_of (order_params rules i).
Proof.
  unfold order_query, order_params, query_of. cbv zeta. intros Hq.
  assert ((if bool_decide (Intent.side i = Buy) then str "BUY" else str "SELL") =
          match Intent.side i with Buy => str "BUY" | Sell => str "SELL" end) as Es.
  { by destruct (Intent.side i). }
  rewrite Es in Hq. clear Es.
  destruct (Intent.kind i); [by injection Hq as <-|..]; bind_step Hq p Hp; rewrite Hp; by injection Hq as <-.
Qed.

(** What those parameters have to say, of the intent and not of how the code
    writes it: a text that denotes the quantity, and one that denotes the price
    the order needs, cut down to the tick. *)
Definition order_says (rules : SymbolRules) (i : Intent.t) (params : list (list byte * list byte)) : Prop :=
  ∃ quantity rest, decimal quantity (raw (Intent.qty i)) ∧
    params =
      [(str "symbol", inline_as_str (Intent.instrument i));
       (str "side", match Intent.side i with Buy => str "BUY" | Sell => str "SELL" end);
       (str "quantity", quantity);
       (str "newClientOrderId", inline_as_str (Intent.client_order_id i))] ++ rest ∧
    match Intent.kind i with
    | Market => rest = [(str "type", str "MARKET")]
    | Limit => ∃ limit price sent, Intent.limit_price i = Some limit ∧
        snapped (raw (tick_size rules)) (raw limit) sent ∧ decimal price sent ∧
        rest = [(str "type", str "LIMIT"); (str "timeInForce", str "GTC"); (str "price", price)]
    | StopMarket => ∃ trigger price sent, Intent.stop_price i = Some trigger ∧
        snapped (raw (tick_size rules)) (raw trigger) sent ∧ decimal price sent ∧
        rest = [(str "type", str "STOP_MARKET"); (str "stopPrice", price); (str "reduceOnly", str "true")]
    end.

(** The numbers of an intent are of 64 bits. *)
Definition numbers_ok (i : Intent.t) : Prop :=
  e8_ok (Intent.qty i) ∧ from_option e8_ok True (Intent.limit_price i) ∧
  from_option e8_ok True (Intent.stop_price i).

Lemma snapped_written r (p : Price) :
  e8_ok p → decimal (to_string (round_price_down r p)) (raw (round_price_down r p)).
Proof.
  intros Hp. apply format_decimal. pose proof (round_price_snapped r p) as Hs. unfold snapped in Hs.
  unfold e8_ok in Hp. case_bool_decide; unfold_ranges; lia.
Qed.

Lemma order_params_say rules i q :
  numbers_ok i → order_query rules i = Ok q → order_says rules i (order_params rules i).
Proof.
  intros (Hq & Hl & Hs) Ho. unfold order_query in Ho. cbv zeta in Ho. unfold order_says, order_params.
  eexists _, _. split; [apply format_decimal, Hq|]. split; [reflexivity|].
  destruct (Intent.kind i); [done|..]; bind_step Ho p Hp; rewrite Hp in *; exists p; eexists _, _;
    (split; [done|]); (split; [apply round_price_snapped|]); (split; [by apply snapped_written|done]).
Qed.

Lemma order_params_plain rules i :
  Forall (λ kv : list byte * list byte, plain kv.1) (order_params rules i).
Proof.
  unfold order_params. destruct (Intent.kind i);
    repeat (constructor; [split; [repeat constructor|discriminate]|]); constructor.
Qed.

Lemma order_params_read rules i :
  read_query (query_of (order_params rules i)) = Some (order_params rules i).
Proof. by destruct (query_of_holds _ (order_params_plain rules i)) as [[_ ?]|[_ ?]]. Qed.

(** What an outcome says was heard. *)
Definition outcome_heard (rq : HttpRequest) (outcome : SubmitOutcome.t) : Prop :=
  match outcome with
  | SubmitOutcome.Acked _ => heard rq (λ body, error_code body = None)
  | SubmitOutcome.Rejected r => heard rq (λ body, ∃ code message,
      error_code body = Some (code, message) ∧ code_is_retryable code = false ∧
      r = reject_reason_new code message)
  | SubmitOutcome.TimedOut => unheard rq
  end.

Lemma heard_weaken rq (P Q : J → Prop) : heard rq P → (∀ b, P b → Q b) → heard rq Q.
Proof. intros (st & n & n' & t & b & ? & ? & ?) Hw. exists st, n, n', t, b. auto. Qed.

Lemma submit_heard_run i v v' outcome :
  bn_submit i v = (v', Ok outcome) →
  ∃ rules rq query,
    bn_symbols v !! Intent.instrument i = Some rules ∧
    placeable rules (Intent.qty i) (reference_price i) ∧
    signed_request (bn_credentials v) "POST" (str "/fapi/v1/order") query rq ∧
    order_query rules i = Ok query ∧ read_query query = Some (order_params rules i) ∧
    outcome_heard rq outcome.
Proof.
  intros Hs. unfold bn_submit in Hs.
  apply st_bind_Ok in Hs as (v1 & rules & Hr & Hs). unfold rules_for in Hr.
  change ((st_get bn_symbols ≫= ?k) v) with (k (bn_symbols v) v) in Hr. cbv beta in Hr.
  unfold symbols_get in Hr. destruct (bn_symbols v !! Intent.instrument i) as [r|] eqn:Hrules; [|done].
  injection Hr as <- <-.
  apply st_bind_Ok in Hs as (v1 & [] & Hc & Hs). unfold st_lift in Hc. injection Hc as <- Hc.
  apply map_err_is_Ok, rules_check_spec in Hc.
  apply st_bind_Ok in Hs as (v1 & query & Hq & Hs). unfold st_lift in Hq. injection Hq as <- Hq.
  pose proof (order_query_params _ _ _ Hq) as ->.
  apply st_bind_Ok in Hs as (v2 & body & Hb & Hs). apply signed_cases in Hb as (rq & Hrq & Hb).
  exists r, rq, (query_of (order_params r i)). split_and!; [done|done|done|done|apply order_params_read|].
  destruct body as [body|]; [|by injection Hs as _ <-].
  destruct (error_code body) as [[code message]|] eqn:He.
  - destruct (code_is_retryable code) eqn:Hret; [by apply st_bind_Ok in Hs as (v3 & u & _ & Hs)|].
    injection Hs as _ <-. eapply heard_weaken; [exact Hb|]. intros b ->. exists code, message.
    split_and!; [done|done|]. unfold reject_reason. by rewrite He.
  - injection Hs as _ <-. eapply heard_weaken; [exact Hb|]. by intros b ->.
Qed.

(** The request of a submission made at a time. *)
Definition order_request (c : Credentials) (offset t : Z) (query : Query) : HttpRequest :=
  keyed_request c "POST" (str "/fapi/v1/order")
    (query_sign hmac_sha256 (secret c) (venue_time_ms offset t) query).

(** Nothing comes back for it: the client has no response, or the venue fails. *)
Definition silent (rq : HttpRequest) (n : N) : Prop :=
  ∃ n', http true rq n = (n', NoAnswer) ∨ ∃ code, 500 ≤ code ∧ http true rq n = (n', Status code).

Lemma send_silent method path query v :
  let rq := keyed_request (bn_credentials v) method path query in
  build rq = None → silent rq (bn_net v) → (send method path query true v).2 = Ok None.
Proof.
  intros rq Hb [n' Hh]. unfold send.
  change (st_get bn_credentials ≫= ?k) with (λ v, k (bn_credentials v) v).
  cbv beta zeta. fold (url_of (rest_base (bn_credentials v)) path query).
  change (mkHttpRequest method _ _) with rq. rewrite Hb.
  unfold run at 1, mbind at 1, ST_bind at 1. destruct Hh as [->|(code & Hc & ->)]; [done|].
  rewrite !(proj2 (Z.eqb_neq code _)) by lia. cbn [orb]. by rewrite (proj2 (Z.leb_le _ _)).
Qed.

Lemma silence_is_timeout i v rules n t query :
  bn_symbols v !! Intent.instrument i = Some rules →
  rules_check rules (Intent.qty i) (reference_price i) = Ok tt → order_query rules i = Ok query →
  local_ms (bn_net v) = (n, t) →
  let rq := order_request (bn_credentials v) (bn_offset v) t query in
  build rq = None → silent rq n → (bn_submit i v).2 = Ok SubmitOutcome.TimedOut.
Proof.
  intros Hr Hc Hq Ht rq Hb Hn. unfold bn_submit, rules_for, symbols_get.
  assert ((symbols ← st_get bn_symbols;
           match symbols !! Intent.instrument i with
           | Some r => mret r
           | None => bad (inline_as_str (Intent.instrument i) ++ str " is not loaded")
           end) v = (v, Ok rules)) as E.
  { change ((st_get bn_symbols ≫= ?k) v) with (k (bn_symbols v) v). cbv beta. by rewrite Hr. }
  unfold mbind at 1, ST_bind at 1. rewrite E. unfold mbind at 1, ST_bind at 1, st_lift at 1.
  rewrite Hc. cbn [map_err]. unfold mbind at 1, ST_bind at 1, st_lift at 1. rewrite Hq.
  unfold mbind at 1, ST_bind at 1.
  assert ((signed "POST" (str "/fapi/v1/order") query v).2 = Ok None) as Hs.
  { unfold signed, timestamp, now_ms. unfold mbind, ST_bind, st_get, mret, ST_ret. rewrite Ht.
    by apply send_silent. }
  destruct (signed _ _ query v) as [v1 r]. cbn [snd] in Hs. by rewrite Hs.
Qed.

(** ** Properties *)

(** C11: absence has exactly one proof. When a lookup concludes that an order does not exist, or a
    cancel that there is nothing to cancel, then every symbol the adapter trades
    was asked about that order by a signed query that names them both and
    nothing else, and the venue answered each with the one code that says so. *)
Theorem absence_proven (c : ClientOrderId) (known : option VenueOrderId) (v v' : BinanceVenue N)
    (symbol : Instrument) :
  bn_lookup c v = (v', Ok LookupOutcome.Absent) ∨ bn_cancel c known v = (v', Ok CancelOutcome.Absent) →
  is_Some (bn_symbols v !! symbol) → said_absent (bn_credentials v) symbol c.
Proof.
  intros Hd Hs. assert (∃ v1, find_order c v = (v1, Ok None)) as [v1 Hf].
  { destruct Hd as [Hl|Hc].
    - unfold bn_lookup in Hl. apply st_bind_Ok in Hl as (v1 & r & Ha & Hl).
      unfold attempt in Ha. destruct (find_order c v) as [v2 [[[i o]|]|[e|]]]; [..|done];
        injection Ha as <- <-; [by injection Hl|by exists v2|].
      destruct (VenueError.is_retryable e); [by injection Hl|done].
    - unfold bn_cancel in Hc. apply st_bind_Ok in Hc as (v1 & r & Hf & Hc).
      destruct r as [[i o]|]; [|eauto]. cbv zeta in Hc. apply st_bind_Ok in Hc as (v2 & b & _ & Hc).
      destruct b as [b|]; [|done]. destruct (error_code b) as [[code m]|]; [|done].
      by repeat case_bool. }
  eapply find_order_absent; [exact Hf|]. by apply symbols_all_spec.
Qed.

(** C12: a timeout is not an answer, and what is sent is the order. A submission
    that ends in an outcome was for a symbol that is loaded and a size and a value
    its filters allow; the signed request reads back as the symbol, the side, the
    id, a text that denotes the exact quantity, and, for a limit or a stop order,
    a text that denotes its price cut down to the tick of the symbol: the price
    itself on the tick, less than a tick below it otherwise, and nothing for one
    below a tick; it is rejected only on a body with a code that is not retried,
    acknowledged only on a body without one, and timed out only when nothing came
    back. And when nothing comes back it is timed out: never rejected, never an
    error. *)
Theorem submit_heard (i : Intent.t) (v : BinanceVenue N) :
  (∀ v' outcome, bn_submit i v = (v', Ok outcome) → numbers_ok i →
    ∃ rules rq query params,
      bn_symbols v !! Intent.instrument i = Some rules ∧
      placeable rules (Intent.qty i) (reference_price i) ∧
      signed_request (bn_credentials v) "POST" (str "/fapi/v1/order") query rq ∧
      read_query query = Some params ∧ order_says rules i params ∧
      outcome_heard rq outcome) ∧
  (∀ rules n t query,
    bn_symbols v !! Intent.instrument i = Some rules →
    placeable rules (Intent.qty i) (reference_price i) → order_query rules i = Ok query →
    local_ms (bn_net v) = (n, t) →
    let rq := order_request (bn_credentials v) (bn_offset v) t query in
    build rq = None → silent rq n → (bn_submit i v).2 = Ok SubmitOutcome.TimedOut).
Proof.
  split.
  - intros v' outcome Hs Hn. destruct (submit_heard_run i v v' outcome Hs)
      as (rules & rq & query & Hr & Hp & Hrq & Hq & Hread & Ho).
    exists rules, rq, query, (order_params rules i). split_and!; try done. by eapply order_params_say.
  - intros rules n t query Hr Hp%rules_check_spec. by apply silence_is_timeout.
Qed.
End adapter.

(** ** Examples *)

(** A client that answers from a script and keeps the requests it was given. *)
Definition ex_client (script : list HttpAnswer) : Client (list HttpRequest) := {|
  http _ rq log := (log ++ [rq], nth (length log) script NoAnswer);
  local_ms log := (log, 1700000000000);
  build _ := None;
  hmac_sha256 key message := take 4 (rev message ++ key);
|}.

Definition ex_bodies : list (list byte * Tree) :=
  [(str "no such order", TObj [(str "code", TInt (-2013)); (str "msg", TStr (str "Order does not exist."))]);
   (str "no margin", TObj [(str "code", TInt (-2019)); (str "msg", TStr (str "Margin is insufficient."))]);
   (str "bad signature", TObj [(str "code", TInt (-1022)); (str "msg", TStr (str "Signature is not valid."))]);
   (str "taken", TObj [(str "orderId", TInt 553664)])].

Definition ex_symbol : Instrument := inline_or_default 16 (str "BTCUSDT").
Definition ex_adapter : BinanceVenue (list HttpRequest) :=
  mkBinanceVenue (credentials_demo (str "key") (str "secret")) [ex_symbol] 0
    (symbols_insert ex_rules ∅) None [].
Definition ex_submission : Intent.t :=
  Intent.mk (inline_or_default 36 (str "UI-1")) ex_symbol Buy (from_raw 1250000) Limit
    (Some (from_raw 10943257000000)) None Entry 7 None.

#[local] Existing Instance ex_client.
#[local] Instance ex_json : Json Tree := tree_json ex_bodies.

Lemma absence_proven_witness :
  let C := ex_client [Status 400; Body (str "no such order")] in
  let c := Intent.client_order_id ex_submission in
  let v' := (bn_lookup c ex_adapter).1 in
  bn_lookup c ex_adapter = (v', Ok LookupOutcome.Absent) ∧ length (bn_net v') = 2%nat ∧
  said_absent (bn_credentials ex_adapter) ex_symbol c.
Proof.
  intros C c v'.
  assert (bn_lookup c ex_adapter = (v', Ok LookupOutcome.Absent)) as E.
  { assert ((bn_lookup c ex_adapter).2 = Ok LookupOutcome.Absent) as E by (vm_compute; reflexivity).
    unfold v'. rewrite <-E. by destruct (bn_lookup c ex_adapter). }
  split; [exact E|]. split; [vm_compute; reflexivity|].
  apply (absence_proven c None ex_adapter v' ex_symbol).
  - left. exact E.
  - exists ex_rules. vm_compute. reflexivity.
Defined.

Lemma submit_heard_witness :
  let C := ex_client [Body (str "taken")] in
  let outcome := SubmitOutcome.Acked (inline_or_default 32 (str "553664")) in
  (bn_submit ex_submission ex_adapter).2 = Ok outcome ∧
  ∃ rules rq query params,
    bn_symbols ex_adapter !! Intent.instrument ex_submission = Some rules ∧
    placeable rules (Intent.qty ex_submission) (reference_price ex_submission) ∧
    signed_request (bn_credentials ex_adapter) "POST" (str "/fapi/v1/order") query rq ∧
    read_query query = Some params ∧ order_says rules ex_submission params ∧
    outcome_heard rq outcome.
Proof.
  intros C outcome.
  assert ((bn_submit ex_submission ex_adapter).2 = Ok outcome) as E by (vm_compute; reflexivity).
  split; [exact E|].
  apply (proj1 (submit_heard ex_submission ex_adapter) (bn_submit ex_submission ex_adapter).1 outcome).
  - rewrite <-E. by destruct (bn_submit ex_submission ex_adapter).
  - split_and!; vm_compute; try done; split; congruence.
Defined.

(** A refused order goes to the venue twice, byte for byte: the client does not
    hand back the body of an error, so the request is made again for it. The
    second time the venue may take it. *)
Example refused_order_sent_twice :
  let C := ex_client [Status 400; Body (str "taken")] in
  let '(v', r) := bn_submit ex_submission ex_adapter in
  r = Ok (SubmitOutcome.Acked (inline_or_default 32 (str "553664"))) ∧
  match bn_net v' with [a; b] => a = b | _ => False end.
Proof. vm_compute. split; reflexivity. Qed.
