(* ===== verification/Stream.v ===== *)
(** * The user stream (sentinel-binance/src/stream.rs)

    The thread behind [drain_events]: it opens a listen key and a socket, turns
    every frame into events on a channel, and comes back after any failure.  A
    socket is a parameter, like the HTTP client, and any call of it may never
    return; one turn of the thread is one pass of a loop, so that the worker's
    drains fall between turns. *)

From S2P Require Import Prelude Fixed Text Types Json Domain Intent Records Venue Symbol Signing VenueParse Binance Adapter.

Create HintDb safe.

(** Times of the stream are nanoseconds. *)
Definition KEEPALIVE_EVERY : Z := 30 * 60 * 1000000000.
Definition RECONNECT_BACKOFF : Z := 500 * 1000000.
Definition RECONNECT_BACKOFF_CAP : Z := 30 * 1000000000.

(** ** The socket *)

Inductive Message :=
| Text (text : list byte)
| Ping (payload : list byte)
| Close
| Other.

(** What a call of the socket comes back with.  It may never come back ([None]):
    a timeout is set for the reads of a plain socket only, and the venue's is a
    TLS one. *)
Abbreviation Called A := (option (result (list byte) A)).

(** A socket and the monotonic clock, over the network of the client. *)
Class Socket (N : Type) := {
  ws_connect : list byte → N → N * Called unit;
  ws_read : N → N * Called Message;
  ws_pong : list byte → N → N * Called unit;
  instant : N → N * Z;
}.

(** ** The thread *)

(** [combined_stream_url]: the private key and a mark for every instrument. *)
Definition combined_stream_url (ws_base listen_key : list byte) (instruments : list Instrument) : list byte :=
  ws_base ++ str "/stream?streams=" ++ listen_key ++
  (instruments ≫= λ i, str "/" ++ to_ascii_lowercase (inline_as_str i) ++ str "@markPrice@1s").

(** Where the thread is: about to connect after a wait, reading, inside a call
    that never comes back, or over. *)
Inductive Thread :=
| Connecting (backoff : Z)
| Reading (backoff last_keepalive : Z)
| Blocked
| Finished.

#[export] Instance Thread_eq_dec : EqDecision Thread.
Proof. solve_decision. Defined.

(** How a pass of the reading loop ends, besides an error; [Stuck] is one that
    does not end. *)
Inductive Pass := Again (last_keepalive : Z) | Stop | Stuck.

Definition next_backoff (backoff : Z) : Z := Z.min (backoff * 2) RECONNECT_BACKOFF_CAP.

Section stream.
Context {J N : Type} `{Json J} `{Client N} `{Socket N}.
Abbreviation BN := (ST (BinanceVenue N) VenueFailure).

Definition on_net {A} (f : N → N * A) : BN A := λ v,
  let '(n, a) := f (bn_net v) in (bn_set_net n v, Ok a).

(** [None] if the call does not come back. *)
Definition on_socket {A} (label : string) (f : N → N * Called A) : BN (option A) :=
  r ← on_net f;
  match r with
  | Some (Ok a) => mret (Some a)
  | Some (Err e) => transport (str label ++ str ": " ++ e)
  | None => mret None
  end.

(** [spawn]: a channel, and the thread at its first connection. *)
Definition spawn (v : BinanceVenue N) : BinanceVenue N * Thread :=
  (start_stream v, Connecting RECONNECT_BACKOFF).

(** The head of [read_once]: the key, the socket, the time. *)
Definition read_open : BN (option Z) :=
  listen_key ← listen_open;
  c ← st_get bn_credentials;
  instruments ← st_get bn_instruments;
  socket ← on_socket "connect" (ws_connect (combined_stream_url (ws_base c) listen_key instruments));
  match socket with
  | None => mret None
  | Some _ => now ← on_net instant; mret (Some now)
  end.

(** Events onto the channel, as far as there is a receiver. *)
Fixpoint send_events (l : list VenueEvent.t) : BN bool :=
  match l with
  | [] => mret true
  | x :: l' =>
      events ← st_get bn_events;
      match events with
      | None => mret false
      | Some q => _ ← st_modify (bn_set_events (Some (q ++ [x]))); send_events l'
      end
  end.

(** What a message does. *)
Definition on_message (last : Z) (m : Message) : BN Pass :=
  match m with
  | Text text =>
      match receive_text text with
      | Skip => mret (Again last)
      | Expired => transport (str "listen key expired")
      | Events l => alive ← send_events l; mret (if alive : bool then Again last else Stop)
      end
  | Ping payload =>
      sent ← on_socket "pong" (ws_pong payload);
      mret (match sent with Some _ => Again last | None => Stuck end)
  | Close => transport (str "venue closed the stream")
  | Other => mret (Again last)
  end.

(** One pass of the loop of [read_once]. *)
Definition read_pass (running : bool) (last : Z) : BN Pass :=
  if negb running then mret Stop
  else
    now ← on_net instant;
    last ← (if KEEPALIVE_EVERY <=? Z.max 0 (now - last) then
              now ← on_net instant; _ ← listen_keepalive; mret now
            else mret last);
    m ← on_socket "read" ws_read;
    match m with
    | None => mret Stuck
    | Some m => on_message last m
    end.

(** One turn of [run]. *)
Definition thread_turn (running : bool) (t : Thread) : BN Thread :=
  match t with
  | Connecting backoff =>
      if running then
        r ← attempt read_open;
        mret (match r with
              | Ok (Some last) => Reading backoff last
              | Ok None => Blocked
              | Err _ => Connecting (next_backoff backoff)
              end)
      else mret Finished
  | Reading backoff last =>
      r ← attempt (read_pass running last);
      mret (match r with
            | Ok (Again last) => Reading backoff last
            | Ok Stop => Finished
            | Ok Stuck => Blocked
            | Err _ => Connecting (next_backoff backoff)
            end)
  | Blocked => mret Blocked
  | Finished => mret Finished
  end.

(** ** The thread among the worker's drains *)

(** [stream_run s drained s']: turns of the thread and drains of the worker, in
    any order, and what the drains gave. *)
Inductive stream_run : BinanceVenue N * Thread → list VenueEvent.t → BinanceVenue N * Thread → Prop :=
| run_done s : stream_run s [] s
| run_turn running v t v' t' out s :
    thread_turn running t v = (v', Ok t') → stream_run (v', t') out s → stream_run (v, t) out s
| run_drain v t v' l out s :
    bn_drain v = (v', l) → stream_run (v', t) out s → stream_run (v, t) (l ++ out) s.

(** ** What a turn keeps *)

(** The events of a message. *)
Definition events_of (m : Message) : list VenueEvent.t :=
  match m with
  | Text text => match receive_text text with Events l => l | _ => [] end
  | _ => []
  end.

(** A relation that a request, a socket of the venue, a clock and an event of
    some message cannot break. *)
Class ThreadFrame (P : relation (BinanceVenue N)) := {
  thread_frame :: Frame P;
  frame_connect url v : at_base (ws_base (bn_credentials v)) url →
    P v (bn_set_net (ws_connect url (bn_net v)).1 v);
  frame_read v : P v (bn_set_net (ws_read (bn_net v)).1 v);
  frame_pong p v : P v (bn_set_net (ws_pong p (bn_net v)).1 v);
  frame_instant v : P v (bn_set_net (instant (bn_net v)).1 v);
  frame_event m x q v : x ∈ events_of m → bn_events v = Some q → P v (bn_set_events (Some (q ++ [x])) v);
}.

Section thread_frame.
Context (P : relation (BinanceVenue N)) `{!ThreadFrame P}.

Lemma framed_bind_at {A B} (m : BN A) (f : A → BN B) v :
  P v (m v).1 → (∀ a, framed P (f a)) → P v ((m ≫= f) v).1.
Proof.
  intros Hm Hf. unfold mbind, ST_bind. destruct (m v) as [v1 [a|e]]; cbn [fst] in *; [|done].
  etransitivity; [exact Hm|apply Hf].
Qed.

Lemma framed_on_net {A} (f : N → N * A) v : P v (bn_set_net (f (bn_net v)).1 v) → P v (on_net f v).1.
Proof. unfold on_net. by destruct (f (bn_net v)). Qed.

Lemma framed_on_socket {A} label (f : N → N * Called A) v :
  P v (bn_set_net (f (bn_net v)).1 v) → P v (on_socket label f v).1.
Proof.
  intros Hf. apply framed_bind_at; [by apply framed_on_net|].
  intros [[a|e]|]; [apply framed_ret|apply framed_fail|apply framed_ret]; apply _.
Qed.

Lemma framed_instant : framed P (on_net instant).
Proof. intros v. apply framed_on_net, frame_instant. Qed.

Lemma stream_url_at base key l : at_base base (combined_stream_url base key l).
Proof.
  by exists (str "stream?streams=" ++ key ++
    (l ≫= λ i, str "/" ++ to_ascii_lowercase (inline_as_str i) ++ str "@markPrice@1s")).
Qed.

Lemma framed_read_open : framed P read_open.
Proof.
  apply (framed_bind P); [by apply framed_listen_open, _|]. intros key v.
  change ((st_get bn_credentials ≫= ?k) v) with (k (bn_credentials v) v). cbv beta.
  change ((st_get bn_instruments ≫= ?k) v) with (k (bn_instruments v) v). cbv beta.
  apply framed_bind_at; [apply framed_on_socket, frame_connect, stream_url_at|intros [[]|]].
  - apply (framed_bind P); [apply framed_instant|intros; by apply framed_ret, _].
  - by apply framed_ret, _.
Qed.

Lemma framed_send_events m l : (∀ x, x ∈ l → x ∈ events_of m) → framed P (send_events l).
Proof.
  induction l as [|x l IH]; intros Hl v; cbn [send_events]; [by apply framed_ret, _|].
  change ((st_get bn_events ≫= ?k) v) with (k (bn_events v) v). cbv beta.
  destruct (bn_events v) as [q|] eqn:Hq; [|by apply framed_ret, _].
  change ((st_modify ?f ≫= ?k) v) with (k tt (f v)). cbv beta. etransitivity.
  - apply (frame_event m x q); [by apply Hl; left|done].
  - apply IH. intros y Hy. apply Hl. by right.
Qed.

Lemma framed_on_message last m : framed P (on_message last m).
Proof.
  destruct m as [text|p| |]; cbn [on_message].
  - destruct (receive_text text) as [| |l] eqn:Hr; [by apply framed_ret, _|by apply framed_fail, _|].
    apply (framed_bind P); [|intros; by apply framed_ret, _].
    apply (framed_send_events (Text text)). cbn [events_of]. by rewrite Hr.
  - apply (framed_bind P); [intros v; apply framed_on_socket, frame_pong|intros; by apply framed_ret, _].
  - by apply framed_fail, _.
  - by apply framed_ret, _.
Qed.

Lemma framed_read_pass running last : framed P (read_pass running last).
Proof.
  unfold read_pass. destruct running; [|by apply framed_ret, _]. cbn [negb].
  apply (framed_bind P); [apply framed_instant|intros now]. apply (framed_bind P).
  - case_bool; [|by apply framed_ret, _]. apply (framed_bind P); [apply framed_instant|intros].
    apply (framed_bind P); [by apply framed_keepalive, _|intros; by apply framed_ret, _].
  - intros. apply (framed_bind P); [intros v; apply framed_on_socket, frame_read|].
    intros [m|]; [apply framed_on_message|by apply framed_ret, _].
Qed.

Lemma framed_turn running t : framed P (thread_turn running t).
Proof.
  destruct t as [b|b last| |]; cbn [thread_turn]; [destruct running| | |]; try by apply framed_ret, _.
  all: apply (framed_bind P); [apply (framed_attempt P)|intros; by apply framed_ret, _].
  - apply framed_read_open.
  - apply framed_read_pass.
Qed.
End thread_frame.

(** ** Events, in order *)

(** A network that remembers the messages its sockets gave. *)
Class Recorded := {
  given : N → list Message;
  given_http b rq n : given (http b rq n).1 = given n;
  given_local n : given (local_ms n).1 = given n;
  given_connect url n : given (ws_connect url n).1 = given n;
  given_pong p n : given (ws_pong p n).1 = given n;
  given_instant n : given (instant n).1 = given n;
  given_read n : given (ws_read n).1 =
    given n ++ match (ws_read n).2 with Some (Ok m) => [m] | _ => [] end;
}.

Section order.
Context `{!Recorded}.

(** Nothing is read and nothing is delivered. *)
Definition quiet (v v' : BinanceVenue N) : Prop :=
  bn_events v' = bn_events v ∧ given (bn_net v') = given (bn_net v).

#[local] Instance quiet_frame : Frame quiet.
Proof.
  split.
  - split; [done|]. intros v1 v2 v3 [? ?] [? ?]. split; congruence.
  - intros b rq v _. split; [done|apply given_http].
  - intros v. split; [done|apply given_local].
  - done.
Qed.

Lemma quiet_on_net {A} (f : N → N * A) : (∀ n, given (f n).1 = given n) → framed quiet (on_net f).
Proof. intros Hf v. specialize (Hf (bn_net v)). unfold on_net. by destruct (f (bn_net v)). Qed.

Lemma quiet_on_socket {A} label (f : N → N * Called A) :
  (∀ n, given (f n).1 = given n) → framed quiet (on_socket label f).
Proof.
  intros Hf. apply (framed_bind quiet); [by apply quiet_on_net|].
  intros [[a|e]|]; [apply framed_ret|apply framed_fail|apply framed_ret]; apply _.
Qed.

Lemma quiet_read_open : framed quiet read_open.
Proof.
  apply (framed_bind quiet); [by apply framed_listen_open, _|intros].
  do 2 (apply (framed_bind quiet); [by apply framed_get, _|]; intros).
  apply (framed_bind quiet); [apply quiet_on_socket, given_connect|intros [[]|]; [|by apply framed_ret, _]].
  apply (framed_bind quiet); [apply quiet_on_net, given_instant|intros; by apply framed_ret, _].
Qed.

(** Messages read, their events on the channel. *)
Definition delivers (v v' : BinanceVenue N) : Prop := ∀ q, bn_events v = Some q →
  ∃ new, given (bn_net v') = given (bn_net v) ++ new ∧
    bn_events v' = Some (q ++ (new ≫= events_of)).

Lemma quiet_delivers v v' : quiet v v' → delivers v v'.
Proof. intros [He Hg] q Hq. exists []. rewrite He, Hg, !app_nil_r. done. Qed.

#[local] Instance delivers_preorder : PreOrder delivers.
Proof.
  split; [intros v; by apply quiet_delivers|].
  intros v1 v2 v3 Ha Hb q Hq. destruct (Ha q Hq) as (l1 & Hg1 & He1).
  destruct (Hb _ He1) as (l2 & Hg2 & He2). exists (l1 ++ l2).
  rewrite Hg2, Hg1, He2, bind_app, !app_assoc. done.
Qed.

Lemma send_events_all l : ∀ v q, bn_events v = Some q →
  send_events l v = (bn_set_events (Some (q ++ l)) v, Ok true).
Proof.
  induction l as [|x l IH]; intros v q Hq; cbn [send_events].
  - rewrite app_nil_r, <-Hq. by destruct v.
  - change ((st_get bn_events ≫= ?k) v) with (k (bn_events v) v). cbv beta. rewrite Hq.
    change ((st_modify ?f ≫= ?k) v) with (k tt (f v)). cbv beta. rewrite (IH _ (q ++ [x])) by done.
    by rewrite <-app_assoc.
Qed.

Lemma attempt_fst {A} (m : BN A) v : (attempt m v).1 = (m v).1.
Proof. unfold attempt. by destruct (m v) as [v' [a|[e|]]]. Qed.

Lemma then_ret_fst {A B} (m : BN A) (f : A → B) v : ((a ← m; mret (f a)) v).1 = (m v).1.
Proof. unfold mbind, ST_bind. by destruct (m v) as [v' [a|e]]. Qed.

(** A message that was read: its events, and nothing else. *)
Lemma on_message_delivers last m v q :
  bn_events v = Some q →
  bn_events (on_message last m v).1 = Some (q ++ events_of m) ∧
  given (bn_net (on_message last m v).1) = given (bn_net v).
Proof.
  intros Hq. destruct m as [text|p| |]; cbn [on_message events_of]; try (by rewrite app_nil_r).
  - destruct (receive_text text) as [| |l]; [by rewrite app_nil_r..|].
    rewrite then_ret_fst, (send_events_all l v q Hq). done.
  - rewrite app_nil_r. assert (framed quiet (on_message last (Ping p))) as Hk; [|rewrite <-Hq; exact (Hk v)].
    apply (framed_bind quiet); [apply quiet_on_socket, given_pong|intros; by apply framed_ret, _].
Qed.

Lemma read_then_delivers last v :
  delivers v ((m ← on_socket "read" ws_read;
               match m with None => mret Stuck | Some m => on_message last m end) v).1.
Proof.
  intros q Hq. unfold on_socket, on_net, mbind, ST_bind.
  pose proof (given_read (bn_net v)) as Hg. destruct (ws_read (bn_net v)) as [n [[m|e]|]]; cbn [fst snd] in *.
  - exists [m]. cbn. rewrite app_nil_r.
    destruct (on_message_delivers last m (bn_set_net n v) q Hq) as [-> ->]. by rewrite <-Hg.
  - exists []. cbn in *. by rewrite Hg, !app_nil_r.
  - exists []. cbn in *. by rewrite Hg, !app_nil_r.
Qed.

Lemma delivers_bind {A B} (m : BN A) (f : A → BN B) :
  framed quiet m → (∀ a v, delivers v (f a v).1) → ∀ v, delivers v ((m ≫= f) v).1.
Proof.
  intros Hm Hf v. specialize (Hm v). apply quiet_delivers in Hm. unfold mbind, ST_bind.
  destruct (m v) as [v1 [a|e]]; cbn [fst] in *; [|done]. etransitivity; [exact Hm|apply Hf].
Qed.

Lemma read_pass_delivers running last v : delivers v (read_pass running last v).1.
Proof.
  unfold read_pass. destruct running; [|by apply quiet_delivers]. cbn [negb].
  revert v. apply delivers_bind; [apply quiet_on_net, given_instant|]. intros now.
  apply delivers_bind; [|intros; apply read_then_delivers].
  case_bool; [|by apply framed_ret, _].
  apply (framed_bind quiet); [apply quiet_on_net, given_instant|intros].
  apply (framed_bind quiet); [apply framed_keepalive; apply _|intros; by apply framed_ret, _].
Qed.

Lemma thread_turn_delivers running t v : delivers v (thread_turn running t v).1.
Proof.
  destruct t as [b|b last| |]; cbn [thread_turn]; [destruct running| | |].
  2, 4, 5: by apply quiet_delivers.
  all: rewrite then_ret_fst, attempt_fst.
  - apply quiet_delivers, quiet_read_open.
  - apply read_pass_delivers.
Qed.

Lemma stream_run_delivers s out s' : stream_run s out s' → ∀ q, bn_events s.1 = Some q →
  ∃ new pending, given (bn_net s'.1) = given (bn_net s.1) ++ new ∧
    bn_events s'.1 = Some pending ∧ out ++ pending = q ++ (new ≫= events_of).
Proof.
  induction 1 as [s|running v t v' t' out s Ht Hr IH|v t v' l out s Hd Hr IH]; intros q Hq; cbn [fst] in *.
  - exists [], q. by rewrite !app_nil_r.
  - destruct (thread_turn_delivers running t v q Hq) as (new1 & Hg1 & He1). rewrite Ht in Hg1, He1. cbn [fst] in *.
    destruct (IH _ He1) as (new & pending & Hg & He & Ho). exists (new1 ++ new), pending.
    by rewrite Hg, Hg1, Ho, bind_app, !app_assoc.
  - unfold bn_drain in Hd. rewrite Hq in Hd. injection Hd as <- <-.
    destruct (IH [] eq_refl) as (new & pending & Hg & He & Ho). exists new, pending.
    by rewrite Hg, <-app_assoc, Ho.
Qed.
End order.

(** ** A turn always comes back *)

(** The call does not panic. *)
Definition safe {A} (m : BN A) : Prop := ∀ v, (m v).2 ≠ Err VenuePanic.

Lemma safe_bind {A B} (m : BN A) (f : A → BN B) : safe m → (∀ a, safe (f a)) → safe (m ≫= f).
Proof.
  intros Hm Hf v. specialize (Hm v). unfold mbind, ST_bind.
  destruct (m v) as [v1 [a|e]]; [apply Hf|]. cbn in *. congruence.
Qed.
Lemma safe_ret {A} (a : A) : safe (mret a). Proof. done. Qed.
Lemma safe_get {A} (f : BinanceVenue N → A) : safe (st_get f). Proof. done. Qed.
Lemma safe_modify f : safe (st_modify f). Proof. done. Qed.
Lemma safe_transport {A} e : safe (transport (A := A) e). Proof. done. Qed.
Lemma safe_bad {A} e : safe (bad (A := A) e). Proof. done. Qed.
Lemma safe_rate {A} e : safe (st_fail (A := A) (VenueErr e)). Proof. done. Qed.
Lemma safe_on_net {A} (f : N → N * A) : safe (on_net f).
Proof. intros v. unfold on_net. by destruct (f (bn_net v)). Qed.
Lemma safe_run b rq : safe (run b rq).
Proof. intros v. unfold run. by destruct (http b rq (bn_net v)). Qed.
Lemma safe_json text : safe (st_lift (read_json text)).
Proof. intros v. unfold st_lift, read_json. cbn. by destruct (json_parse text). Qed.

#[local] Hint Resolve safe_ret safe_get safe_modify safe_transport safe_bad safe_rate safe_on_net
  safe_run safe_json : safe.

Ltac safe := repeat first [ solve [eauto 2 with safe] | apply safe_bind; [|intros] | case_match ].

Lemma safe_send m p q k : safe (send m p q k).
Proof. unfold send, read_error_body. safe. Qed.
#[local] Hint Resolve safe_send : safe.

Lemma safe_on_socket {A} label (f : N → N * Called A) : safe (on_socket label f).
Proof. unfold on_socket. safe. Qed.
#[local] Hint Resolve safe_on_socket : safe.

Lemma safe_read_open : safe read_open.
Proof. unfold read_open, listen_open. safe. Qed.

Lemma safe_send_events l : safe (send_events l).
Proof. induction l; cbn [send_events]; safe. Qed.
#[local] Hint Resolve safe_send_events : safe.

Lemma safe_read_pass running last : safe (read_pass running last).
Proof. unfold read_pass, listen_keepalive, on_message. safe. Qed.

Lemma attempt_safe {A} (m : BN A) v : safe m → ∃ r, (attempt m v).2 = Ok r.
Proof.
  intros Hm. specialize (Hm v). unfold attempt. destruct (m v) as [v' [a|[e|]]]; cbn in *; eauto; done.
Qed.

Lemma thread_turn_total running t v : ∃ v' t', thread_turn running t v = (v', Ok t').
Proof.
  destruct t as [b|b last| |]; cbn [thread_turn]; [destruct running; [|by eauto]| |by eauto..].
  all: unfold mbind, ST_bind;
    match goal with |- context [attempt ?m ?v] => pose proof (attempt_safe m v) as Hr;
      destruct (attempt m v) as [v1 r]; cbn [snd] in Hr end.
  - destruct (Hr safe_read_open) as [r' ->]. by destruct r'; eauto.
  - destruct (Hr (safe_read_pass running last)) as [r' ->]. destruct r' as [[]|]; eauto.
Qed.

(** ** The wait *)

(** The wait before the next connection is between its bounds. *)
Definition patient (t : Thread) : Prop :=
  match t with
  | Connecting b | Reading b _ => RECONNECT_BACKOFF ≤ b ≤ RECONNECT_BACKOFF_CAP
  | Blocked | Finished => True
  end.

Lemma next_backoff_patient b :
  RECONNECT_BACKOFF ≤ b ≤ RECONNECT_BACKOFF_CAP →
  RECONNECT_BACKOFF ≤ next_backoff b ≤ RECONNECT_BACKOFF_CAP ∧ b ≤ next_backoff b.
Proof. unfold next_backoff, RECONNECT_BACKOFF, RECONNECT_BACKOFF_CAP. lia. Qed.

Lemma then_ret_Ok {A B} (m : BN A) (f : A → B) v v' b :
  (a ← m; mret (f a)) v = (v', Ok b) → ∃ a, m v = (v', Ok a) ∧ b = f a.
Proof.
  intros E. apply st_bind_Ok in E as (v1 & a & E1 & E2). injection E2 as <- <-. by exists a.
Qed.

Lemma thread_turn_patient running t v v' t' :
  thread_turn running t v = (v', Ok t') → patient t → patient t'.
Proof.
  destruct t as [b|b last| |]; cbn [thread_turn]; intros E Hp.
  - destruct running; [|by injection E as _ <-]. apply then_ret_Ok in E as (r & _ & ->).
    destruct r as [[last|]|]; [done..|]. by apply next_backoff_patient in Hp as [? _].
  - apply then_ret_Ok in E as (r & _ & ->). destruct r as [[last'| |]|]; [done..|].
    by apply next_backoff_patient in Hp as [? _].
  - by injection E as _ <-.
  - by injection E as _ <-.
Qed.

Lemma stream_run_patient s out s' : stream_run s out s' → patient s.2 → patient s'.2.
Proof. induction 1; cbn [snd] in *; eauto using thread_turn_patient. Qed.

(** ** A call that never comes back *)

(** Some call of the socket does not come back. *)
Definition some_call_blocks : Prop :=
  (∃ n, (ws_read n).2 = None) ∨ (∃ p n, (ws_pong p n).2 = None) ∨ (∃ url n, (ws_connect url n).2 = None).

Lemma on_socket_None {A} label (f : N → N * Called A) v v' :
  on_socket label f v = (v', Ok None) → (f (bn_net v)).2 = None.
Proof.
  unfold on_socket, on_net, mbind, ST_bind. destruct (f (bn_net v)) as [n [[a|e]|]]; [done..|]. by intros [= _].
Qed.

Lemma on_message_stuck last m v v' : on_message last m v = (v', Ok Stuck) → some_call_blocks.
Proof.
  destruct m as [text|p| |]; cbn [on_message]; [destruct (receive_text text)| | |]; try done;
    intros (a & E1 & E)%then_ret_Ok; destruct a; try done.
  apply on_socket_None in E1. right. left. eauto.
Qed.

Lemma read_pass_stuck running last v v' :
  read_pass running last v = (v', Ok Stuck) → running = true ∧ some_call_blocks.
Proof.
  unfold read_pass. destruct running; [cbn [negb]|done]. intros Hr. split; [done|].
  apply st_bind_Ok in Hr as (v1 & now & _ & Hr). apply st_bind_Ok in Hr as (v2 & last2 & _ & Hr).
  apply st_bind_Ok in Hr as (v3 & [m|] & Hm & Hr); [by apply on_message_stuck in Hr|].
  left. apply on_socket_None in Hm. eauto.
Qed.

Lemma read_open_stuck v v' : read_open v = (v', Ok None) → some_call_blocks.
Proof.
  unfold read_open. intros Hr.
  do 3 (apply st_bind_Ok in Hr as (? & ? & _ & Hr)). apply st_bind_Ok in Hr as (v1 & [[]|] & Hm & Hr).
  - by apply then_ret_Ok in Hr as (? & _ & ?).
  - right. right. apply on_socket_None in Hm. eauto.
Qed.

Lemma attempt_Ok {A} (m : BN A) v v' a : attempt m v = (v', Ok (Ok a)) → m v = (v', Ok a).
Proof. unfold attempt. destruct (m v) as [v1 [b|[e|]]]; naive_solver. Qed.

(** A thread gets stuck in a call of its socket, and nowhere else. *)
Lemma thread_turn_blocks running t v v' :
  thread_turn running t v = (v', Ok Blocked) → t = Blocked ∨ running = true ∧ some_call_blocks.
Proof.
  destruct t as [b|b last| |]; cbn [thread_turn]; intros E; [|right|by left|done].
  - destruct running; [right|done]. apply then_ret_Ok in E as ([[last|]|] & E & ?); try done.
    split; [done|]. by eapply read_open_stuck, attempt_Ok.
  - apply then_ret_Ok in E as ([[]|] & E & ?); try done. apply attempt_Ok in E.
    by apply read_pass_stuck in E.
Qed.

Lemma stream_run_blocked_only s out s' :
  stream_run s out s' → s.2 ≠ Blocked → s'.2 = Blocked → some_call_blocks.
Proof.
  induction 1 as [s|running v t v' t' out s Ht Hr IH|]; cbn [snd] in *; [done| |done].
  intros Hs Hb. destruct (decide (t' = Blocked)) as [->|Hn]; [|by apply IH].
  by apply thread_turn_blocks in Ht as [?|[_ ?]].
Qed.

(** From then on nothing is delivered but what was on the channel, and the flag
    that asks the thread to stop is never looked at. *)
Lemma blocked_delivers_nothing s out s' :
  stream_run s out s' → s.2 = Blocked → s'.2 = Blocked ∧ bn_net s'.1 = bn_net s.1 ∧
  (∀ q, bn_events s.1 = Some q → ∃ pending, bn_events s'.1 = Some pending ∧ q = out ++ pending).
Proof.
  induction 1 as [s|running v t v' t' out s Ht Hr IH|v t v' l out s Hd Hr IH]; cbn [fst snd] in *; intros Hb.
  - split_and!; [done..|]. intros q Hq. by exists q.
  - subst t. injection Ht as <- <-. by apply IH.
  - destruct (IH Hb) as (-> & Hn & He). unfold bn_drain in Hd. split; [done|].
    destruct (bn_events v) as [q|] eqn:Hq; injection Hd as <- <-; cbn in *; split; [done| |done|].
    + intros q' [= <-]. destruct (He [] eq_refl) as (pending & Hp & Hnil). exists pending.
      split; [done|]. symmetry in Hnil. apply app_eq_nil in Hnil as [-> ->]. by rewrite !app_nil_r.
    + done.
Qed.

(** ** Property *)

(** C14: what the stream read is what the worker drains, once and in order. From the moment it is
    started, whatever failures, reconnections, expired keys and drains there
    are in between, the events drained so far followed by those still on the
    channel are those of the messages the sockets gave, each decoded once; the
    wait before a reconnection stays between half a second and thirty; and the
    thread never panics. Its turns come back as long as the calls of its socket
    do: the one place where it can be stuck is a connect, a read or a pong that
    never returns, and stuck there it delivers nothing more, whoever asks it to
    stop. *)
Theorem stream_in_order `{!Recorded} (v v' : BinanceVenue N) (t' : Thread) (drained : list VenueEvent.t) :
  stream_run (spawn v) drained (v', t') →
  ∃ messages pending,
    given (bn_net v') = given (bn_net v) ++ messages ∧ bn_events v' = Some pending ∧
    drained ++ pending = messages ≫= events_of ∧ patient t' ∧
    (∀ running, ∃ v'' t'', thread_turn running t' v' = (v'', Ok t'') ∧
      (t'' = Blocked → t' = Blocked ∨ running = true ∧ some_call_blocks)) ∧
    (t' = Blocked → some_call_blocks ∧
      ∀ later v'' t'', stream_run (v', t') later (v'', t'') → t'' = Blocked ∧ ∃ rest, pending = later ++ rest).
Proof.
  intros Hr. destruct (stream_run_delivers _ _ _ Hr [] eq_refl) as (new & pending & Hg & He & Ho).
  exists new, pending. split_and!; [done..| | |].
  - by apply stream_run_patient in Hr; [|unfold patient, spawn, RECONNECT_BACKOFF, RECONNECT_BACKOFF_CAP; cbn; lia].
  - intros running. destruct (thread_turn_total running t' v') as (v2 & t2 & E). exists v2, t2.
    split; [done|]. intros ->. by apply thread_turn_blocks in E.
  - intros ->. split; [by apply (stream_run_blocked_only _ _ _ Hr)|]. intros later v2 t2 Hl.
    destruct (blocked_delivers_nothing _ _ _ Hl eq_refl) as (Hb & _ & Hq). split; [done|].
    destruct (Hq _ He) as (rest & _ & ->). by exists rest.
Qed.
End stream.

(** ** An example *)

(** A network whose sockets give a script, and the messages it has given. *)
Record ExNet := mkExNet { ex_reads : list (option (result (list byte) Message)); ex_given : list Message }.

#[local] Instance ex_stream_client : Client ExNet := {|
  http _ _ n := (n, Body (str "key"));
  local_ms n := (n, 1700000000000);
  build _ := None;
  hmac_sha256 key message := take 4 (rev message ++ key);
|}.

#[local] Instance ex_socket : Socket ExNet := {|
  ws_connect _ n := (n, Some (Ok tt));
  ws_read n :=
    match ex_reads n with
    | Some (Ok m) :: l => (mkExNet l (ex_given n ++ [m]), Some (Ok m))
    | r :: l => (mkExNet l (ex_given n), r)
    | [] => (n, Some (Err (str "closed")))
    end;
  ws_pong _ n := (n, Some (Ok tt));
  instant n := (n, 0);
|}.

#[local] Instance ex_recorded : Recorded (N := ExNet).
Proof.
  refine {| given := ex_given |}; try done.
  intros n. cbn. destruct (ex_reads n) as [|[[m|e]|] l]; cbn; by rewrite ?app_nil_r.
Defined.

#[local] Instance ex_frames : Json Tree := tree_json
  [(str "key", TObj [(str "listenKey", TStr (str "pqia"))]);
   (str "trade", TObj [(str "data", TObj [(str "e", TStr (str "ORDER_TRADE_UPDATE"));
      (str "o", TObj [(str "c", TStr (str "UI-1")); (str "x", TStr (str "TRADE")); (str "t", TInt 77);
                      (str "l", TStr (str "0.005")); (str "L", TStr (str "109432.5"))])])]);
   (str "expired", TObj [(str "e", TStr (str "listenKeyExpired"))]);
   (str "cancel", TObj [(str "e", TStr (str "ORDER_TRADE_UPDATE"));
      (str "o", TObj [(str "c", TStr (str "UI-1")); (str "x", TStr (str "EXPIRED"))])])].

Definition ex_stream : BinanceVenue ExNet :=
  mkBinanceVenue (credentials_demo (str "key") (str "secret")) [inline_or_default 16 (str "BTCUSDT")] 0 ∅ None
    (mkExNet [Some (Ok (Text (str "trade"))); Some (Ok (Text (str "expired"))); Some (Ok (Ping []));
              Some (Ok (Text (str "cancel"))); None] []).

(** What the drains of an execution give: [Some running] is a turn, [None] a drain. *)
Fixpoint ex_run (s : BinanceVenue ExNet * Thread) (l : list (option bool)) :
    list VenueEvent.t * (BinanceVenue ExNet * Thread) :=
  match l with
  | [] => ([], s)
  | Some running :: l' =>
      match thread_turn running s.2 s.1 with
      | (v', Ok t') => ex_run (v', t') l'
      | (v', Err _) => ([], s)
      end
  | None :: l' =>
      let '(v', e) := bn_drain s.1 in
      let '(out, s') := ex_run (v', s.2) l' in (e ++ out, s')
  end.

Lemma ex_run_run l : ∀ s, stream_run s (ex_run s l).1 (ex_run s l).2.
Proof.
  induction l as [|[running|] l IH]; intros [v t]; cbn [ex_run fst snd]; [constructor|..].
  - destruct (thread_turn_total running t v) as (v' & t' & E). rewrite E. by eapply run_turn.
  - destruct (bn_drain v) as [v' e] eqn:E. specialize (IH (v', t)).
    destruct (ex_run (v', t) l) as [out s']. by eapply run_drain.
Qed.

Definition ex_turns : list (option bool) :=
  [Some true; Some true; None; Some true; Some true; Some true; Some true; Some true].

Lemma stream_in_order_witness :
  let r := ex_run (spawn ex_stream) ex_turns in
  let id := inline_or_default 36 (str "UI-1") in
  r.1 = [VenueEvent.Fill id (inline_or_default 40 (str "77")) (from_raw 500000) (from_raw 10943250000000)] ∧
  bn_events r.2.1 = Some [VenueEvent.CancelConfirmed id] ∧
  r.2.2 = Blocked ∧
  ∃ messages pending,
    given (bn_net r.2.1) = given (bn_net ex_stream) ++ messages ∧ bn_events r.2.1 = Some pending ∧
    r.1 ++ pending = messages ≫= events_of ∧ patient r.2.2 ∧
    (∀ running, ∃ v'' t'', thread_turn running r.2.2 r.2.1 = (v'', Ok t'') ∧
      (t'' = Blocked → r.2.2 = Blocked ∨ running = true ∧ some_call_blocks)) ∧
    (r.2.2 = Blocked → some_call_blocks ∧
      ∀ later v'' t'', stream_run (r.2.1, r.2.2) later (v'', t'') → t'' = Blocked ∧ ∃ rest, pending = later ++ rest).
Proof.
  intros r id. split; [vm_compute; reflexivity|]. split; [vm_compute; reflexivity|].
  split; [vm_compute; reflexivity|].
  apply (stream_in_order ex_stream r.2.1 r.2.2 r.1).
  replace (r.2.1, r.2.2) with r.2 by (by destruct r.2). apply ex_run_run.
Defined.
