(* ===== verification/Sim.v ===== *)
(** * The simulated venue (sentinel-venue/src/sim.rs)

    The deterministic venue of paper mode and of the tests, with its scripted
    faults.  A counter that would overflow and a fill of an order that does not
    exist panic. *)

From S2P Require Import Prelude Fixed Types Domain Intent Position Records Venue.

Module Fault.
Inductive t :=
| TimeoutButAccepted
| TimeoutAndAbsent
| Reject (r : RejectReason)
| AcceptButSilent
| Transport
| RateLimited.
End Fault.

Record SimOrder := mkSimOrder {
  so_venue_order_id : VenueOrderId;
  so_instrument : Instrument;
  so_side : Side;
  so_qty : Qty;
  so_filled : Qty;
  so_filled_cost : Money;
  so_state : OrderState;
  so_acknowledged : bool;
  so_silent : bool;
}.

(** [cost * SCALE] is widened to [i128]: the product is exact. *)
Definition average_price (cost : Money) (qty : Qty) : option Price :=
  if negb (is_positive qty) then None
  else
    let scaled := raw cost * SCALE in
    let per_unit := Z.quot scaled (raw qty) in
    from_raw <$> i64_try_from per_unit.

Record SimVenue := mkSimVenue {
  sv_orders : gmap ClientOrderId SimOrder;
  sv_faults : gmap ClientOrderId Fault.t;
  sv_stream : list VenueEvent.t;
  sv_positions : gmap Instrument Qty;
  sv_next_id : Z;
  sv_next_exec : Z;
  sv_forced : option (list VenuePosition);
  sv_submits : Z;
  sv_lookups : Z;
  sv_cancels : Z;
}.

Definition sim_new : SimVenue := mkSimVenue ∅ ∅ [] ∅ 0 0 None 0 0 0.

Definition set_sv_orders (m : gmap ClientOrderId SimOrder) (v : SimVenue) : SimVenue :=
  mkSimVenue m (sv_faults v) (sv_stream v) (sv_positions v) (sv_next_id v) (sv_next_exec v)
    (sv_forced v) (sv_submits v) (sv_lookups v) (sv_cancels v).
Definition set_sv_faults (m : gmap ClientOrderId Fault.t) (v : SimVenue) : SimVenue :=
  mkSimVenue (sv_orders v) m (sv_stream v) (sv_positions v) (sv_next_id v) (sv_next_exec v)
    (sv_forced v) (sv_submits v) (sv_lookups v) (sv_cancels v).
Definition set_sv_stream (l : list VenueEvent.t) (v : SimVenue) : SimVenue :=
  mkSimVenue (sv_orders v) (sv_faults v) l (sv_positions v) (sv_next_id v) (sv_next_exec v)
    (sv_forced v) (sv_submits v) (sv_lookups v) (sv_cancels v).
Definition set_sv_positions (m : gmap Instrument Qty) (v : SimVenue) : SimVenue :=
  mkSimVenue (sv_orders v) (sv_faults v) (sv_stream v) m (sv_next_id v) (sv_next_exec v)
    (sv_forced v) (sv_submits v) (sv_lookups v) (sv_cancels v).
Definition set_sv_ids (i x : Z) (v : SimVenue) : SimVenue :=
  mkSimVenue (sv_orders v) (sv_faults v) (sv_stream v) (sv_positions v) i x
    (sv_forced v) (sv_submits v) (sv_lookups v) (sv_cancels v).
Definition set_sv_forced (f : option (list VenuePosition)) (v : SimVenue) : SimVenue :=
  mkSimVenue (sv_orders v) (sv_faults v) (sv_stream v) (sv_positions v) (sv_next_id v)
    (sv_next_exec v) f (sv_submits v) (sv_lookups v) (sv_cancels v).
Definition set_sv_counts (s l c : Z) (v : SimVenue) : SimVenue :=
  mkSimVenue (sv_orders v) (sv_faults v) (sv_stream v) (sv_positions v) (sv_next_id v)
    (sv_next_exec v) (sv_forced v) s l c.

Abbreviation SM := (ST SimVenue VenueFailure).

Definition push_back (e : VenueEvent.t) : SM unit :=
  st_modify (λ v, set_sv_stream (sv_stream v ++ [e]) v).

(** [n += 1] on an unsigned integer with overflow checks on. *)
Definition bump (limit n : Z) : SM Z :=
  if n <? limit then mret (n + 1) else st_fail VenuePanic.

Definition next_venue_id : SM VenueOrderId :=
  n ← st_get sv_next_id;
  n ← bump u64_max n;
  _ ← st_modify (λ v, set_sv_ids n (sv_next_exec v) v);
  mret (inline_or_default 32 (str "V-" ++ dec n)).

Definition next_exec_id : SM ExecId :=
  n ← st_get sv_next_exec;
  n ← bump u64_max n;
  _ ← st_modify (λ v, set_sv_ids (sv_next_id v) n v);
  mret (inline_or_default 40 (str "E-" ++ dec n)).

(** ** Scripting *)

Definition script (c : ClientOrderId) (fault : Fault.t) (v : SimVenue) : SimVenue :=
  set_sv_faults (<[c := fault]> (sv_faults v)) v.

(** What one execution does to its order. *)
Definition fill_order (qty : Qty) (price : Price) (o : SimOrder) : SimOrder :=
  let filled := unwrap_or (checked_add (so_filled o) qty) (so_filled o) in
  let cost := match notional price qty with
              | Ok cost => unwrap_or (checked_add (so_filled_cost o) cost) (so_filled_cost o)
              | Err _ => so_filled_cost o
              end in
  mkSimOrder (so_venue_order_id o) (so_instrument o) (so_side o) (so_qty o) filled cost
    (if leb (so_qty o) filled then Filled else Partial) (so_acknowledged o) (so_silent o).

(** What it does to the position. *)
Definition move_position (i : Instrument) (side : Side) (qty : Qty) (m : gmap Instrument Qty) :
    gmap Instrument Qty :=
  let entry := default ZERO (m !! i) in
  let signed := from_raw (i64_saturate (raw qty * sign side)) in
  <[i := unwrap_or (checked_add entry signed) entry]> m.

Definition sim_fill (c : ClientOrderId) (qty : Qty) (price : Price) : SM unit :=
  exec_id ← next_exec_id;
  self ← st_get id;
  match sv_orders self !! c with
  | None => st_fail VenuePanic
  | Some o =>
      _ ← st_modify (λ v, set_sv_orders (<[c := fill_order qty price o]> (sv_orders v)) v);
      _ ← st_modify (λ v, set_sv_positions
            (move_position (so_instrument o) (so_side o) qty (sv_positions v)) v);
      if so_silent o then mret tt
      else push_back (VenueEvent.Fill c exec_id qty price)
  end.

Definition fill_twice (c : ClientOrderId) (qty : Qty) (price : Price) : SM unit :=
  _ ← sim_fill c qty price;
  stream ← st_get sv_stream;
  match last stream with
  | None => st_fail VenuePanic
  | Some e => push_back e
  end.

Definition set_so_state (st : OrderState) (o : SimOrder) : SimOrder :=
  mkSimOrder (so_venue_order_id o) (so_instrument o) (so_side o) (so_qty o) (so_filled o)
    (so_filled_cost o) st (so_acknowledged o) (so_silent o).

Definition cancel_unsolicited (c : ClientOrderId) : SM unit :=
  self ← st_get id;
  match sv_orders self !! c with
  | None => mret tt
  | Some o =>
      _ ← st_modify (λ v, set_sv_orders (<[c := set_so_state Canceled o]> (sv_orders v)) v);
      push_back (VenueEvent.CancelConfirmed c)
  end.

Definition sim_mark (i : Instrument) (price : Price) : SM unit := push_back (VenueEvent.Mark i price).
Definition sim_balance (a : Asset) (amount : Money) : SM unit :=
  push_back (VenueEvent.Balance a amount).

Definition entry_price (v : SimVenue) (i : Instrument) : option Price :=
  let orders := omap (λ id, sv_orders v !! id) (sort_ids (map_to_list (sv_orders v)).*1) in
  let '(cost, qty) := foldl (λ acc o,
      if bool_decide (so_instrument o = i) then
        (unwrap_or (checked_add acc.1 (abs (so_filled_cost o))) acc.1,
         unwrap_or (checked_add acc.2 (so_filled o)) acc.2)
      else acc) (ZERO, ZERO) orders in
  average_price cost qty.

Definition force_positions (ps : list VenuePosition) (v : SimVenue) : SimVenue :=
  set_sv_forced (Some ps) v.

Definition knows (v : SimVenue) (c : ClientOrderId) : bool := bool_decide (is_Some (sv_orders v !! c)).

Definition was_acknowledged (v : SimVenue) (c : ClientOrderId) : bool :=
  match sv_orders v !! c with Some o => so_acknowledged o | None => false end.

Definition call_counts (v : SimVenue) : Z * Z * Z := (sv_submits v, sv_lookups v, sv_cancels v).

(** ** The calls *)

(** [self.faults.remove]. *)
Definition take_fault (c : ClientOrderId) : SM (option Fault.t) :=
  fault ← st_get (λ v, sv_faults v !! c);
  _ ← st_modify (λ v, set_sv_faults (delete c (sv_faults v)) v);
  mret fault.

(** The order a submission opens. *)
Definition accept (i : Intent.t) (acknowledged silent : bool) : SM VenueOrderId :=
  venue_order_id ← next_venue_id;
  _ ← st_modify (λ v, set_sv_orders
        (<[Intent.client_order_id i :=
             mkSimOrder venue_order_id (Intent.instrument i) (Intent.side i) (Intent.qty i)
               ZERO ZERO Working acknowledged silent]> (sv_orders v)) v);
  mret venue_order_id.

Definition simulated : VenueError.t := VenueError.Transport (str "simulated").

Definition sim_submit (i : Intent.t) : SM SubmitOutcome.t :=
  self ← st_get id;
  n ← bump u32_max (sv_submits self);
  _ ← st_modify (λ v, set_sv_counts n (sv_lookups v) (sv_cancels v) v);
  let coid := Intent.client_order_id i in
  fault ← take_fault coid;
  match fault with
  | Some Fault.Transport => st_fail (VenueErr simulated)
  | Some Fault.RateLimited => st_fail (VenueErr (VenueError.RateLimited None))
  | Some (Fault.Reject reason) => mret (SubmitOutcome.Rejected reason)
  | Some Fault.TimeoutAndAbsent => mret SubmitOutcome.TimedOut
  | Some Fault.TimeoutButAccepted =>
      _ ← accept i false false;
      mret SubmitOutcome.TimedOut
  | Some Fault.AcceptButSilent =>
      venue_order_id ← accept i true true;
      mret (SubmitOutcome.Acked venue_order_id)
  | None =>
      known ← st_get (λ v, knows v coid);
      if (known : bool) then
        mret (SubmitOutcome.Rejected (reject_reason_new (-4015) (str "duplicate client order id")))
      else
        venue_order_id ← accept i true false;
        mret (SubmitOutcome.Acked venue_order_id)
  end.

Definition sim_cancel (c : ClientOrderId) (_ : option VenueOrderId) : SM CancelOutcome.t :=
  self ← st_get id;
  n ← bump u32_max (sv_cancels self);
  _ ← st_modify (λ v, set_sv_counts (sv_submits v) (sv_lookups v) n v);
  fault ← take_fault c;
  match fault with
  | Some Fault.Transport => st_fail (VenueErr simulated)
  | Some Fault.TimeoutAndAbsent | Some Fault.TimeoutButAccepted => mret CancelOutcome.TimedOut
  | _ =>
      order ← st_get (λ v, sv_orders v !! c);
      match order with
      | None => mret CancelOutcome.Absent
      | Some o =>
          if is_terminal (so_state o) then mret CancelOutcome.Absent
          else
            _ ← st_modify (λ v, set_sv_orders (<[c := set_so_state Canceled o]> (sv_orders v)) v);
            _ ← (if so_silent o then mret tt else push_back (VenueEvent.CancelConfirmed c));
            mret CancelOutcome.Requested
      end
  end.

Definition sim_lookup (c : ClientOrderId) : SM LookupOutcome.t :=
  self ← st_get id;
  n ← bump u32_max (sv_lookups self);
  _ ← st_modify (λ v, set_sv_counts (sv_submits v) n (sv_cancels v) v);
  fault ← take_fault c;
  match fault with
  | Some Fault.Transport => st_fail (VenueErr simulated)
  | Some Fault.RateLimited => st_fail (VenueErr (VenueError.RateLimited None))
  | Some Fault.TimeoutAndAbsent | Some Fault.TimeoutButAccepted => mret LookupOutcome.TimedOut
  | _ =>
      order ← st_get (λ v, sv_orders v !! c);
      match order with
      | None => mret LookupOutcome.Absent
      | Some o =>
          mret (LookupOutcome.Found (mkOrderSnapshot (so_state o) (Some (so_venue_order_id o))
            (so_filled o) (average_price (so_filled_cost o) (so_filled o))))
      end
  end.

(** The reported positions, by instrument. *)
Definition reported (v : SimVenue) : list VenuePosition :=
  (λ iq, mkVenuePosition iq.1 iq.2 (entry_price v iq.1)) <$>
    sort_by_id (filter (λ iq, is_zero iq.2 = false) (map_to_list (sv_positions v))).

Definition sim_positions : SM (list VenuePosition) :=
  st_get (λ v, match sv_forced v with Some forced => forced | None => reported v end).

Definition sim_drain (v : SimVenue) : SimVenue * list VenueEvent.t :=
  (set_sv_stream [] v, sv_stream v).

#[export] Instance SimVenue_venue : Venue SimVenue := {|
  venue_submit := sim_submit;
  venue_cancel := sim_cancel;
  venue_lookup := sim_lookup;
  venue_positions := sim_positions;
  venue_drain := sim_drain;
|}.

(** ** What the simulated venue holds *)

(** What one order has added to the position of [i]. *)
Definition traded_on (i : Instrument) (o : SimOrder) : Z :=
  if bool_decide (so_instrument o = i) then sign (so_side o) * raw (so_filled o) else 0.

(** Every position is the signed sum of the executions. *)
Definition sim_books (v : SimVenue) : Prop :=
  ∀ i, raw (default ZERO (sv_positions v !! i)) = map_zsum (traded_on i) (sv_orders v).

(** An execution the venue can add up: its own clamps never fire. *)
Definition fill_fits (v : SimVenue) (c : ClientOrderId) (q : Qty) : Prop :=
  ∀ o, sv_orders v !! c = Some o →
    in_i64 (raw (so_filled o) + raw q) ∧ in_i64 (raw q * sign (so_side o)) ∧
    in_i64 (raw (default ZERO (sv_positions v !! so_instrument o)) + raw q * sign (so_side o)).

(** What can happen to a venue: calls, each on a client order id submitted once,
    executions, and what a script does. *)
Inductive sim_step : SimVenue → SimVenue → Prop :=
| step_script c f v : sim_step v (script c f v)
| step_submit i v : sv_orders v !! Intent.client_order_id i = None → sim_step v (sim_submit i v).1
| step_cancel c x v : sim_step v (sim_cancel c x v).1
| step_lookup c v : sim_step v (sim_lookup c v).1
| step_fill c q p v : fill_fits v c q → sim_step v (sim_fill c q p v).1
| step_unsolicited c v : sim_step v (cancel_unsolicited c v).1
| step_push e v : sim_step v (push_back e v).1
| step_drain v : sim_step v (sim_drain v).1.

Inductive sim_reach : SimVenue → Prop :=
| reach_new : sim_reach sim_new
| reach_step v v' : sim_reach v → sim_step v v' → sim_reach v'.

(** Replacing an order by one that has traded as much changes nothing. *)
Lemma books_replace v c o o' :
  sim_books v → sv_orders v !! c = Some o → (∀ i, traded_on i o' = traded_on i o) →
  sim_books (set_sv_orders (<[c := o']> (sv_orders v)) v).
Proof.
  intros H Ho E i. cbn [sv_orders sv_positions set_sv_orders].
  rewrite H, (map_zsum_update _ _ _ o) by done. rewrite E. lia.
Qed.

(** A new order has traded nothing. *)
Lemma books_accept v c o :
  sim_books v → sv_orders v !! c = None → raw (so_filled o) = 0 →
  sim_books (set_sv_orders (<[c := o]> (sv_orders v)) v).
Proof.
  intros H Hn Hz i. cbn [sv_orders sv_positions set_sv_orders].
  rewrite H, map_zsum_insert by done. unfold traded_on at 2. rewrite Hz. case_bool_decide; lia.
Qed.

(** An execution moves the order and the position together. *)
Lemma books_fill v c o q p :
  sim_books v → sv_orders v !! c = Some o → fill_fits v c q →
  sim_books (set_sv_positions (move_position (so_instrument o) (so_side o) q (sv_positions v))
    (set_sv_orders (<[c := fill_order q p o]> (sv_orders v)) v)).
Proof.
  intros H Ho Hfit i. destruct (Hfit o Ho) as (Hf & Hs & Hp).
  cbn [sv_orders sv_positions set_sv_orders set_sv_positions].
  rewrite (map_zsum_update _ _ _ o) by done. rewrite <-H. unfold move_position, traded_on.
  cbn [so_instrument so_side so_filled fill_order]. rewrite i64_saturate_in by done.
  unfold checked_add. cbn [raw]. rewrite !i64_checked_in by done. cbn [unwrap_or raw].
  case_bool_decide as Ei.
  - rewrite Ei, lookup_insert_eq. cbn [default from_option id raw]. lia.
  - rewrite lookup_insert_ne by done. lia.
Qed.

(** *** A small program logic: the books balance throughout *)

Definition triple {A} (P : SimVenue → Prop) (m : SM A) (Q : A → SimVenue → Prop) : Prop :=
  ∀ v, P v → sim_books (m v).1 ∧ ∀ a, (m v).2 = Ok a → Q a (m v).1.

Lemma triple_bind {A B} P (m : SM A) (f : A → SM B) Q R :
  triple P m Q → (∀ a, triple (Q a) (f a) R) → triple P (m ≫= f) R.
Proof.
  intros Hm Hf v Hv. destruct (Hm v Hv) as [Hb Hq]. unfold mbind, ST_bind.
  destruct (m v) as [v' [a|e]]; [|done]. by apply Hf, Hq.
Qed.

Lemma triple_get {A} P (f : SimVenue → A) :
  (∀ v, P v → sim_books v) → triple P (st_get f) (λ a v, P v ∧ a = f v).
Proof. intros H v Hv. split; [by apply H|]. by intros a [= <-]. Qed.

Lemma triple_modify P f (Q : unit → SimVenue → Prop) :
  (∀ v, P v → sim_books (f v) ∧ Q tt (f v)) → triple P (st_modify f) Q.
Proof. intros H v Hv. destruct (H v Hv). split; [done|]. by intros a [= <-]. Qed.

Lemma triple_ret {A} P (a : A) (Q : A → SimVenue → Prop) :
  (∀ v, P v → sim_books v ∧ Q a v) → triple P (mret a) Q.
Proof. intros H v Hv. destruct (H v Hv). split; [done|]. by intros ? [= <-]. Qed.

Lemma triple_fail {A} P e (Q : A → SimVenue → Prop) :
  (∀ v, P v → sim_books v) → triple P (st_fail e) Q.
Proof. intros H v Hv. split; [by apply H|done]. Qed.

Lemma triple_bump P limit n (Q : Z → SimVenue → Prop) :
  (∀ v, P v → sim_books v) → (∀ k v, P v → Q k v) → triple P (bump limit n) Q.
Proof. intros H HQ. unfold bump. case_bool; [apply triple_ret|apply triple_fail]; auto. Qed.

(** The books, and one order id the venue does not hold. *)
Definition fresh_for (c : ClientOrderId) (v : SimVenue) : Prop :=
  sim_books v ∧ sv_orders v !! c = None.

Lemma triple_take_fault (c : ClientOrderId) P :
  (∀ v, P v → sim_books v) → (∀ v m, P v → P (set_sv_faults m v)) →
  triple P (take_fault c) (λ _, P).
Proof.
  intros H Hm. eapply triple_bind; [by apply triple_get|]. intros f.
  eapply (triple_bind _ _ _ (λ _, P)).
  - apply triple_modify. intros v [Hv _]. split; [by apply H, Hm|by apply Hm].
  - intros _. apply triple_ret. eauto.
Qed.

Lemma triple_accept i ack silent :
  triple (fresh_for (Intent.client_order_id i)) (accept i ack silent) (λ _, sim_books).
Proof.
  unfold accept. eapply (triple_bind _ _ _ (λ _, fresh_for (Intent.client_order_id i))).
  - unfold next_venue_id. eapply triple_bind; [apply triple_get; by intros v []|]. intros n.
    eapply (triple_bind _ _ _ (λ _, fresh_for (Intent.client_order_id i)));
      [apply triple_bump; [by intros v [[] _]|by intros k v []]|]. intros k.
    eapply (triple_bind _ _ _ (λ _, fresh_for (Intent.client_order_id i))).
    + apply triple_modify. by intros v [].
    + intros _. apply triple_ret. by intros v [].
  - intros x. eapply (triple_bind _ _ _ (λ _, sim_books)).
    + apply triple_modify. intros v [Hb Hn]. split; by apply books_accept.
    + intros _. by apply triple_ret.
Qed.

Lemma triple_submit i :
  triple (fresh_for (Intent.client_order_id i)) (sim_submit i) (λ _, sim_books).
Proof.
  set (F := fresh_for (Intent.client_order_id i)).
  assert (∀ v, F v → sim_books v) as HF by (by intros v []).
  unfold sim_submit. eapply triple_bind; [by apply triple_get|]. intros self.
  eapply (triple_bind _ _ _ (λ _, F)); [apply triple_bump; naive_solver|]. intros n.
  eapply (triple_bind _ _ _ (λ _, F)); [by apply triple_modify; intros v []|]. intros _. cbv zeta.
  eapply (triple_bind _ _ _ (λ _, F)); [apply triple_take_fault; [exact HF|by intros v m []]|].
  assert (∀ a s (k : VenueOrderId → SubmitOutcome.t),
            triple F (accept i a s ≫= λ x, mret (k x)) (λ _, sim_books)) as Hk.
  { intros a s k. eapply triple_bind; [apply triple_accept|]. intros x. by apply triple_ret. }
  intros [[]|].
  all: first [by apply Hk | by apply triple_fail | by (apply triple_ret; eauto) | idtac].
  eapply triple_bind; [by apply triple_get|]. intros known. case_bool.
  - apply triple_ret. naive_solver.
  - intros v [Hv _]. by apply Hk.
Qed.

Lemma triple_mono {A} (P P' : SimVenue → Prop) (m : SM A) Q :
  (∀ v, P' v → P v) → triple P m Q → triple P' m Q.
Proof. intros H Hm v Hv. by apply Hm, H. Qed.

Lemma triple_push e : triple sim_books (push_back e) (λ _, sim_books).
Proof. apply triple_modify. by intros. Qed.

(** Replacing the order the venue holds under [c]. *)
Lemma triple_close c o (P : SimVenue → Prop) :
  (∀ v, P v → sim_books v ∧ sv_orders v !! c = Some o) →
  triple P (st_modify (λ v, set_sv_orders (<[c := set_so_state Canceled o]> (sv_orders v)) v))
    (λ _, sim_books).
Proof. intros H. apply triple_modify. intros v [Hb Ho]%H. split; by eapply books_replace. Qed.

(** Reading the state, and knowing which it was. *)
Lemma triple_read {A B} (P : SimVenue → Prop) (f : SimVenue → A) (k : A → SM B) Q :
  (∀ v, P v → triple (eq v) (k (f v)) Q) → triple P (st_get f ≫= k) Q.
Proof. intros H v Hv. by apply (H v Hv). Qed.

Lemma triple_unsolicited c : triple sim_books (cancel_unsolicited c) (λ _, sim_books).
Proof.
  unfold cancel_unsolicited. apply triple_read. intros v Hv. unfold id.
  destruct (sv_orders v !! c) as [o|] eqn:Ho; [|apply triple_ret; by intros v1 E1; subst v1].
  eapply (triple_bind _ _ _ (λ _, sim_books)); [|intros _; apply triple_push].
  apply (triple_close c o). intros v1 E1. by rewrite <-E1.
Qed.

(** The changes that touch neither an order nor a position. *)
Definition same_holdings (v v' : SimVenue) : Prop :=
  sv_orders v' = sv_orders v ∧ sv_positions v' = sv_positions v.

Lemma same_holdings_books v v' : same_holdings v v' → sim_books v → sim_books v'.
Proof. intros [Eo Ep] H i. by rewrite Eo, Ep. Qed.

(** The start of a call: one counter, one fault taken. *)
Lemma triple_call {A} c (n : SimVenue → Z) g (k : option Fault.t → SM A) :
  (∀ m v, same_holdings v (g m v)) → (∀ f, triple sim_books (k f) (λ _, sim_books)) →
  triple sim_books
    (self ← st_get id; m ← bump u32_max (n self); _ ← st_modify (g m); fault ← take_fault c; k fault)
    (λ _, sim_books).
Proof.
  intros Hg Hk. eapply triple_bind; [by apply triple_get|]. intros self.
  eapply (triple_bind _ _ _ (λ _, sim_books)); [apply triple_bump; naive_solver|]. intros m.
  eapply (triple_bind _ _ _ (λ _, sim_books)).
  { apply triple_modify. intros v Hv. split; by eapply same_holdings_books. }
  intros _. eapply (triple_bind _ _ _ (λ _, sim_books)); [by apply triple_take_fault|]. exact Hk.
Qed.

Lemma triple_cancel c x : triple sim_books (sim_cancel c x) (λ _, sim_books).
Proof.
  apply (triple_call c sv_cancels (λ n v, set_sv_counts (sv_submits v) (sv_lookups v) n v)); [done|].
  intros f.
  assert (triple sim_books (order ← st_get (λ v, sv_orders v !! c);
      match order with
      | None => mret CancelOutcome.Absent
      | Some o =>
          if is_terminal (so_state o) then mret CancelOutcome.Absent
          else
            _ ← st_modify (λ v, set_sv_orders (<[c := set_so_state Canceled o]> (sv_orders v)) v);
            _ ← (if so_silent o then mret tt else push_back (VenueEvent.CancelConfirmed c));
            mret CancelOutcome.Requested
      end) (λ _, sim_books)) as H.
  { eapply triple_bind; [by apply triple_get|]. intros [o|]; [|apply triple_ret; naive_solver].
    case_bool; [apply triple_ret; naive_solver|].
    eapply (triple_bind _ _ _ (λ _, sim_books)).
    { apply (triple_close c o). intros v [Hv E]. by split. }
    intros _.
    eapply (triple_bind _ _ _ (λ _, sim_books)); [|intros _; by apply triple_ret].
    case_bool; [by apply triple_ret|apply triple_push]. }
  destruct f as [[]|]; first [exact H | by apply triple_ret | by apply triple_fail].
Qed.

Lemma triple_lookup c : triple sim_books (sim_lookup c) (λ _, sim_books).
Proof.
  apply (triple_call c sv_lookups (λ n v, set_sv_counts (sv_submits v) n (sv_cancels v) v)); [done|].
  intros f.
  assert (∀ k : option SimOrder → LookupOutcome.t, triple sim_books
    (order ← st_get (λ v, sv_orders v !! c); mret (k order)) (λ _, sim_books)) as H.
  { intros k. eapply triple_bind; [by apply triple_get|]. intros o. apply triple_ret. naive_solver. }
  destruct f as [[]|]; first [by apply triple_ret | by apply triple_fail | idtac].
  all: eapply triple_bind; [by apply triple_get|]; intros [o|]; apply triple_ret; naive_solver.
Qed.

Lemma triple_fill c q p :
  triple (λ v, sim_books v ∧ fill_fits v c q) (sim_fill c q p) (λ _, sim_books).
Proof.
  set (F := λ v, sim_books v ∧ fill_fits v c q).
  assert (∀ v, F v → sim_books v) as HF by (by intros v []).
  unfold sim_fill. eapply (triple_bind _ _ _ (λ _, F)).
  - unfold next_exec_id. eapply triple_bind; [by apply triple_get|]. intros n.
    eapply (triple_bind _ _ _ (λ _, F)); [apply triple_bump; naive_solver|]. intros k.
    eapply (triple_bind _ _ _ (λ _, F)); [by apply triple_modify; intros v []|].
    intros _. apply triple_ret. eauto.
  - intros x. apply triple_read. intros v Hv. unfold id.
    destruct (sv_orders v !! c) as [o|] eqn:Ho;
      [|apply triple_fail; by intros v1 E1; subst v1; apply HF].
    pose proof (books_fill v c o q p (HF v Hv) Ho (proj2 Hv)) as Hb.
    intros v1 E1. subst v1. unfold mbind, ST_bind, st_modify.
    case_bool; [by split|]. by apply (triple_push _ _ Hb).
Qed.

Lemma sim_step_books v v' : sim_step v v' → sim_books v → sim_books v'.
Proof.
  intros Hs Hb. destruct Hs; first
    [ exact Hb | by apply triple_submit | by apply triple_cancel | by apply triple_lookup
    | by apply triple_fill | by apply triple_unsolicited | by apply triple_push ].
Qed.

Lemma sim_reach_books v : sim_reach v → sim_books v.
Proof.
  induction 1 as [|v v' _ IH Hs]; [|by eapply sim_step_books]. intros i. simpl.
  by rewrite map_zsum_empty.
Qed.
