(* ===== verification/VenueSuite.v ===== *)
(** * The tests of the venues (sentinel-venue, sentinel-binance)

    The unit tests of sim.rs, symbol.rs, signing.rs, parse.rs, stream.rs and of
    the adapter's credentials, each with all its assertions. The JSON a test
    spells out as text is here the value that text denotes; the digest of the
    signed queries is a stand-in that repeats its input, and the published
    vector of HMAC-SHA256 is a test of the library that computes it. *)

From S2P Require Import Prelude Fixed Suite Text Types Json Symbol Signing Domain Intent Position Format Codec Records Venue VenueParse Binance Adapter Stream Sim.

(** ** sentinel-venue/src/sim.rs *)

Module SimTests.
Definition coid (s : string) : option ClientOrderId := unwrap (inline_new 36 (str s)).

Definition intent_on (symbol id : string) (s : Side) (n : Z) : option Intent.t :=
  c ← coid id;
  i ← unwrap (inline_new 16 (str symbol));
  unwrap (Intent.market c i s (whole n) Entry 1).
Definition intent : string → Side → Z → option Intent.t := intent_on "BTCUSD".

(** The calls of the tests, on a venue that is passed along. *)
Definition submit (id : string) (s : Side) (n : Z) (v : SimVenue) : option (SimVenue * SubmitOutcome.t) :=
  x ← intent id s n; called (sim_submit x) v.
Definition lookup (id : string) (v : SimVenue) : option (SimVenue * LookupOutcome.t) :=
  c ← coid id; called (sim_lookup c) v.
Definition fill (id : string) (n p : Z) (v : SimVenue) : option SimVenue :=
  c ← coid id; fst <$> called (sim_fill c (whole n) (whole p)) v.
Definition scripted (id : string) (f : Fault.t) : option SimVenue := c ← coid id; Some (script c f sim_new).
Definition positions (v : SimVenue) : option (list VenuePosition) := snd <$> called sim_positions v.

Definition acked (o : SubmitOutcome.t) : bool := match o with SubmitOutcome.Acked _ => true | _ => false end.
Definition rejected (o : SubmitOutcome.t) : bool :=
  match o with SubmitOutcome.Rejected _ => true | _ => false end.
Definition snapshot (o : LookupOutcome.t) : option OrderSnapshot :=
  match o with LookupOutcome.Found s => Some s | _ => None end.

Definition a_plain_submission_is_acknowledged_and_findable : Test :=
  '(v, outcome) ← submit "UI-1" Buy 3 sim_new;
  _ ← assert (acked outcome);
  '(_, found) ← lookup "UI-1" v;
  _ ← snapshot found;
  Some tt.

Definition a_timeout_that_was_accepted_is_findable_by_client_order_id : Test :=
  v ← scripted "UI-1" Fault.TimeoutButAccepted;
  '(v, outcome) ← submit "UI-1" Buy 3 v;
  _ ← assert_eq outcome SubmitOutcome.TimedOut;
  c ← coid "UI-1";
  _ ← assert (knows v c);
  _ ← assert (negb (was_acknowledged v c));
  '(_, found) ← lookup "UI-1" v;
  s ← snapshot found;
  _ ← assert_eq (sn_state s) Working;
  _ ← sn_venue_order_id s;
  Some tt.

Definition a_timeout_that_was_not_accepted_is_conclusively_absent : Test :=
  v ← scripted "UI-1" Fault.TimeoutAndAbsent;
  '(v, outcome) ← submit "UI-1" Buy 3 v;
  _ ← assert_eq outcome SubmitOutcome.TimedOut;
  '(_, found) ← lookup "UI-1" v;
  assert_eq found LookupOutcome.Absent.

Definition the_two_timeouts_are_indistinguishable_at_the_moment_they_happen : Test :=
  accepted ← scripted "UI-1" Fault.TimeoutButAccepted;
  absent ← scripted "UI-1" Fault.TimeoutAndAbsent;
  '(_, a) ← submit "UI-1" Buy 3 accepted;
  '(_, b) ← submit "UI-1" Buy 3 absent;
  assert_eq a b.

Definition a_silent_order_reaches_the_stream_never : Test :=
  v ← scripted "UI-1" Fault.AcceptButSilent;
  '(v, _) ← submit "UI-1" Buy 3 v;
  v ← fill "UI-1" 3 100 v;
  let '(v, events) := sim_drain v in
  _ ← assert_eq events [];
  '(_, found) ← lookup "UI-1" v;
  s ← snapshot found;
  assert_eq (sn_filled_qty s) (whole 3).

Definition a_duplicate_execution_appears_twice_on_the_stream : Test :=
  '(v, _) ← submit "UI-1" Buy 3 sim_new;
  c ← coid "UI-1";
  '(v, _) ← called (fill_twice c (whole 1) (whole 100)) v;
  match (sim_drain v).2 with [a; b] => assert_eq a b | _ => None end.

Definition a_rejection_leaves_no_order_behind : Test :=
  v ← scripted "UI-1" (Fault.Reject (reject_reason_new (-2019) (str "insufficient margin")));
  '(v, outcome) ← submit "UI-1" Buy 3 v;
  _ ← assert (rejected outcome);
  '(_, found) ← lookup "UI-1" v;
  assert_eq found LookupOutcome.Absent.

Definition a_transport_failure_is_an_error_not_an_outcome : Test :=
  v ← scripted "UI-1" Fault.Transport;
  x ← intent "UI-1" Buy 3;
  '(_, err) ← called_err (sim_submit x) v;
  match err with VenueErr e => assert (VenueError.is_retryable e) | VenuePanic => None end.

Definition a_fault_is_consumed_so_a_retry_can_succeed : Test :=
  v ← scripted "UI-1" Fault.TimeoutAndAbsent;
  '(v, outcome) ← submit "UI-1" Buy 3 v;
  _ ← assert_eq outcome SubmitOutcome.TimedOut;
  '(_, again) ← submit "UI-1" Buy 3 v;
  assert (acked again).

Definition positions_follow_the_fills : Test :=
  '(v, _) ← submit "UI-1" Buy 3 sim_new;
  v ← fill "UI-1" 3 100 v;
  '(v, _) ← submit "UI-2" Sell 1 v;
  v ← fill "UI-2" 1 110 v;
  held ← positions v;
  match held with [p] => assert_eq (vp_qty p) (whole 2) | _ => None end.

Definition positions_can_be_forced_to_disagree_with_us : Test :=
  i ← unwrap (inline_new 16 (str "BTCUSD"));
  held ← positions (force_positions [mkVenuePosition i (whole (-5)) (Some (whole 100))] sim_new);
  p ← held !! 0%nat;
  assert_eq (vp_qty p) (whole (-5)).

(** A unit bought of each symbol, the orders numbered from [i]. *)
Fixpoint buy_each (i : Z) (symbols : list string) (v : SimVenue) : option SimVenue :=
  match symbols with
  | [] => Some v
  | s :: symbols =>
      c ← unwrap (inline_new 36 (str "UI-" ++ dec i));
      instrument ← unwrap (inline_new 16 (str s));
      x ← unwrap (Intent.market c instrument Buy (whole 1) Entry 1);
      '(v, _) ← called (sim_submit x) v;
      '(v, _) ← called (sim_fill c (whole 1) (whole 1)) v;
      buy_each (i + 1) symbols v
  end.

Definition positions_come_back_in_a_stable_order : Test :=
  v ← buy_each 0 ["SOLUSD"; "BTCUSD"; "ETHUSD"]%string sim_new;
  held ← positions v;
  assert_eq ((λ p, inline_as_str (vp_instrument p)) <$> held) [str "BTCUSD"; str "ETHUSD"; str "SOLUSD"].

Definition an_unsolicited_cancel_arrives_without_our_asking : Test :=
  '(v, _) ← submit "UI-1" Buy 3 sim_new;
  c ← coid "UI-1";
  '(v, _) ← called (cancel_unsolicited c) v;
  let '(v, events) := sim_drain v in
  _ ← assert_eq events [VenueEvent.CancelConfirmed c];
  assert_eq (call_counts v).2 0.

Definition the_venue_refuses_a_reused_client_order_id : Test :=
  '(v, _) ← submit "UI-1" Buy 3 sim_new;
  '(_, again) ← submit "UI-1" Buy 3 v;
  assert (rejected again).

Definition scripted_run : option (SubmitOutcome.t * list VenueEvent.t * list VenuePosition) :=
  v ← scripted "UI-1" Fault.TimeoutButAccepted;
  '(v, first) ← submit "UI-1" Buy 3 v;
  '(v, _) ← submit "UI-2" Sell 1 v;
  v ← fill "UI-2" 1 100 v;
  let '(v, events) := sim_drain v in
  held ← positions v;
  Some (first, events, held).

Definition the_same_script_produces_the_same_run : Test :=
  a ← scripted_run; b ← scripted_run; assert_eq a b.

Definition tests : list Test :=
  [a_plain_submission_is_acknowledged_and_findable;
   a_timeout_that_was_accepted_is_findable_by_client_order_id;
   a_timeout_that_was_not_accepted_is_conclusively_absent;
   the_two_timeouts_are_indistinguishable_at_the_moment_they_happen;
   a_silent_order_reaches_the_stream_never; a_duplicate_execution_appears_twice_on_the_stream;
   a_rejection_leaves_no_order_behind; a_transport_failure_is_an_error_not_an_outcome;
   a_fault_is_consumed_so_a_retry_can_succeed; positions_follow_the_fills;
   positions_can_be_forced_to_disagree_with_us; positions_come_back_in_a_stable_order;
   an_unsolicited_cancel_arrives_without_our_asking; the_venue_refuses_a_reused_client_order_id;
   the_same_script_produces_the_same_run].
End SimTests.

Example sim_tests_pass : suite SimTests.tests = true.
Proof. vm_compute. reflexivity. Qed.

(** ** sentinel-binance/src/symbol.rs *)

Module SymbolTests.
Definition rules (symbol step min tick : string) (min_notional : Z) : option SymbolRules :=
  i ← unwrap (inline_new 16 (str symbol));
  step ← qty_of step;
  min ← qty_of min;
  tick ← px tick;
  Some (mkSymbolRules i step min tick (whole min_notional) 3).

Definition btcusdt : option SymbolRules := rules "BTCUSDT" "0.001" "0.001" "0.1" 100.

Definition checked (r : SymbolRules) (qty price : string) : option (result Unplaceable unit) :=
  q ← qty_of qty; p ← px price; Some (rules_check r q p).

Definition a_well_formed_order_passes : Test :=
  r ← btcusdt;
  c ← checked r "0.003" "109432.5";
  unwrap c.

Definition an_off_step_quantity_is_caught_before_it_is_sent : Test :=
  r ← btcusdt;
  c ← checked r "0.0035" "109432.5";
  q ← qty_of "0.0035";
  step ← qty_of "0.001";
  assert_is (OffStep q step) (unwrap_err c).

Definition a_quantity_below_the_minimum_is_caught : Test :=
  r ← rules "BTCUSDT" "0.001" "0.002" "0.1" 100;
  c ← checked r "0.001" "109432.5";
  err ← unwrap_err c;
  match err with BelowMinQty _ _ => Some tt | _ => None end.

Definition an_order_worth_too_little_is_caught : Test :=
  r ← btcusdt;
  c ← checked r "0.001" "50";
  err ← unwrap_err c;
  match err with BelowMinNotional _ _ => Some tt | _ => None end.

Definition a_non_positive_quantity_is_refused : Test :=
  r ← btcusdt;
  p ← px "109432.5";
  for_each [ZERO; whole (-1)] (λ q, assert_is NonPositive (unwrap_err (rules_check r q p))).

Definition rounds (r : SymbolRules) (from to : string) : Test :=
  f ← qty_of from; assert_is (round_down r f) (qty_of to).

Definition rounding_snaps_to_a_multiple_of_the_step : Test :=
  r ← btcusdt;
  _ ← rounds r "0.0035" "0.003";
  _ ← rounds r "0.003" "0.003";
  _ ← rounds r "0.0009" "0";
  assert_eq (round_down r (whole (-1))) ZERO.

Definition rounding_is_to_the_step_not_to_its_decimal_places : Test :=
  r ← rules "BTCUSDT" "0.0025" "0.0025" "0.1" 0;
  _ ← rounds r "0.0031" "0.0025";
  off ← checked r "0.0031" "1";
  _ ← assert (is_err off);
  on ← checked r "0.005" "1";
  assert (is_ok on).

Definition a_rounded_quantity_is_always_on_the_grid : Test :=
  r ← rules "BTCUSDT" "0.001" "0" "0.1" 0;
  p ← px "109432.5";
  for_each [1; 99999; 350000; 1234567; 99999999] (λ n,
    let rounded := round_down r (from_raw n) in
    if is_positive rounded then unwrap (rules_check r rounded p) else Some tt).

Definition prices_snap_to_the_tick : Test :=
  r ← btcusdt;
  for_each ["109432.55"; "109432.5"]%string (λ s,
    p ← px s; assert_is (round_price_down r p) (px "109432.5")).

Definition symbols_are_findable_and_listed_in_a_stable_order : Test :=
  let symbols : Symbols := ∅ in
  _ ← assert_eq (size symbols) 0%nat;
  eth ← rules "ETHUSDT" "0.001" "0.001" "0.1" 100;
  btc ← btcusdt;
  let symbols := symbols_insert btc (symbols_insert eth symbols) in
  _ ← assert_eq (size symbols) 2%nat;
  sol ← unwrap (inline_new 16 (str "SOLUSDT"));
  _ ← symbols_get symbols (symbol btc);
  _ ← assert_eq (symbols_get symbols sol) None;
  assert_eq (inline_as_str <$> symbols_all symbols) [str "BTCUSDT"; str "ETHUSDT"].

Definition tests : list Test :=
  [a_well_formed_order_passes; an_off_step_quantity_is_caught_before_it_is_sent;
   a_quantity_below_the_minimum_is_caught; an_order_worth_too_little_is_caught;
   a_non_positive_quantity_is_refused; rounding_snaps_to_a_multiple_of_the_step;
   rounding_is_to_the_step_not_to_its_decimal_places; a_rounded_quantity_is_always_on_the_grid;
   prices_snap_to_the_tick; symbols_are_findable_and_listed_in_a_stable_order].
End SymbolTests.

Example symbol_tests_pass : suite SymbolTests.tests = true.
Proof. vm_compute. reflexivity. Qed.

(** ** sentinel-binance/src/signing.rs *)

Module SigningTests.
(** A digest that repeats what it is given: different inputs, different digests. *)
Definition digest (secret message : list byte) : list byte := secret ++ [Byte.x00] ++ message.

Fixpoint pushed (pairs : list (string * string)) (q : Query) : Query :=
  match pairs with
  | [] => q
  | (k, v) :: pairs => pushed pairs (query_push (str k) (str v) q)
  end.
Definition signed (pairs : list (string * string)) (secret : string) (ts : Z) : list byte :=
  query_sign digest (str secret) ts (pushed pairs []).
Definition signature (text : list byte) : option (list byte * list byte) :=
  rsplit_once (str "&signature=") text.

Definition the_query_keeps_insertion_order : Test :=
  assert_eq (pushed [("symbol", "BTCUSDT"); ("side", "BUY"); ("quantity", "0.003")]%string [])
    (str "symbol=BTCUSDT&side=BUY&quantity=0.003").

Definition the_signature_covers_exactly_what_precedes_it : Test :=
  '(payload, sig) ← signature (signed [("symbol", "BTCUSDT")]%string "secret" 1787761830000);
  _ ← assert_eq payload (str "symbol=BTCUSDT&timestamp=1787761830000&recvWindow=5000");
  assert_eq sig (sign digest (str "secret") payload).

Definition the_timestamp_is_milliseconds : Test :=
  let text := signed [] "secret" 1787761830000 in
  _ ← assert (contains (str "timestamp=1787761830000") text);
  assert (negb (contains (str "timestamp=1787761830&") text)).

Definition the_receive_window_is_sent_explicitly : Test :=
  assert (contains (str "recvWindow=5000") (signed [] "s" 1)).

Definition every_field_changes_the_signature : Test :=
  let sig pairs secret ts := snd <$> signature (signed pairs secret ts) in
  base ← sig [("symbol", "BTCUSDT")]%string "secret"%string 1000;
  for_each [sig [("symbol", "ETHUSDT")]%string "secret"%string 1000;
            sig [("symbols", "BTCUSDT")]%string "secret"%string 1000;
            sig [("symbol", "BTCUSDT")]%string "secret"%string 1001;
            sig [("symbol", "BTCUSDT")]%string "other"%string 1000] (λ other,
    other ← other; assert_ne base other).

Definition reordering_changes_the_signature : Test :=
  assert_ne (signed [("a", "1"); ("b", "2")]%string "s" 1) (signed [("b", "2"); ("a", "1")]%string "s" 1).

Definition values_are_percent_encoded : Test :=
  _ ← assert_eq (pushed [("newClientOrderId", "UI&evil=1")]%string [])
        (str "newClientOrderId=UI%26evil%3D1");
  assert_eq (pushed [("newClientOrderId", "UI-4bb5ba826e2e1")]%string [])
    (str "newClientOrderId=UI-4bb5ba826e2e1").

Definition optional_parameters_are_absent_rather_than_empty : Test :=
  let q := query_push_opt (str "timeInForce") (Some (str "GTC"))
             (query_push_opt (str "price") None (query_push (str "symbol") (str "BTCUSDT") [])) in
  assert_eq q (str "symbol=BTCUSDT&timeInForce=GTC").

(** A new clock has offset zero. *)
Definition the_clock_tracks_the_venue_rather_than_trusting_the_machine : Test :=
  _ ← assert_eq (venue_time_ms 0 1000) 1000;
  offset ← clock_sync 1787761832000 1787761830000;
  _ ← assert_eq offset 2000;
  assert_eq (venue_time_ms offset 1787761840000) 1787761842000.

Definition the_clock_handles_a_machine_that_is_fast : Test :=
  offset ← clock_sync 1787761828000 1787761830000;
  _ ← assert_eq offset (-2000);
  assert_eq (venue_time_ms offset 1787761840000) 1787761838000.

Definition a_slow_link_is_not_mistaken_for_a_broken_clock : Test :=
  offset ← sync_round_trip 1787761832000 1787761830000 1787761834000;
  _ ← assert_eq offset 0;
  assert_eq (venue_time_ms offset 1787761840000) 1787761840000.

Definition a_genuinely_slow_machine_is_still_corrected_across_a_slow_link : Test :=
  offset ← sync_round_trip 1787761832500 1787761830000 1787761831000;
  _ ← assert_eq offset 2000;
  assert_eq (venue_time_ms offset 1787761840000) 1787761842000.

(** [format_decimal] is the decimal text of the price. *)
Definition decimals_never_reach_the_venue_in_exponent_form : Test :=
  _ ← assert_eq (to_string (from_raw 1 : Price)) (str "0.00000001");
  p ← px "109432.5";
  _ ← assert_eq (to_string p) (str "109432.5");
  _ ← assert_eq (to_string (whole 1 : Price)) (str "1");
  for_each [from_raw 1; from_raw (-1); MAX : Price] (λ value,
    let text := to_string value in
    assert (negb (contains (str "e") text) && negb (contains (str "E") text))).

Definition tests : list Test :=
  [the_query_keeps_insertion_order; the_signature_covers_exactly_what_precedes_it;
   the_timestamp_is_milliseconds; the_receive_window_is_sent_explicitly;
   every_field_changes_the_signature; reordering_changes_the_signature; values_are_percent_encoded;
   optional_parameters_are_absent_rather_than_empty;
   the_clock_tracks_the_venue_rather_than_trusting_the_machine;
   the_clock_handles_a_machine_that_is_fast; a_slow_link_is_not_mistaken_for_a_broken_clock;
   a_genuinely_slow_machine_is_still_corrected_across_a_slow_link;
   decimals_never_reach_the_venue_in_exponent_form].
End SigningTests.

Example signing_tests_pass : suite SigningTests.tests = true.
Proof. vm_compute. reflexivity. Qed.

(** ** sentinel-binance/src/parse.rs *)

(** The values the texts of the tests denote. *)
#[local] Instance test_json : Json Tree := tree_json [].
Definition s (text : string) : Tree := TStr (str text).
Definition n (text : string) : Tree := TNum (str text).
Definition obj (fields : list (string * Tree)) : Tree := TObj ((λ f, (str f.1, f.2)) <$> fields).

Module ParseTests.
#[local] Open Scope string_scope.
Definition numbers_arrive_as_strings_and_stay_exact : Test :=
  _ ← assert_is (decimal_of (s "109432.50")) (Some <$> px "109432.5");
  _ ← assert_is (decimal_of (n "109432.5")) (Some <$> px "109432.5");
  _ ← assert_eq (decimal_of (s "0.00000001")) (Some (from_raw 1));
  assert_eq (decimal_of TNull) None.

Definition the_status_map_covers_what_binance_sends : Test :=
  for_each [("NEW", Working); ("PARTIALLY_FILLED", Partial); ("FILLED", Filled); ("CANCELED", Canceled);
            ("EXPIRED", Canceled); ("REJECTED", Rejected)] (λ '(status, st),
    assert_eq (order_state (str status)) st).

Definition self_trade_prevention_is_a_cancellation_not_a_rejection : Test :=
  assert_eq (order_state (str "EXPIRED_IN_MATCH")) Canceled.

Definition an_unknown_status_is_asked_about_rather_than_guessed_at : Test :=
  assert_eq (order_state (str "SOME_NEW_WORD")) Reconciling.

Definition absence_has_exactly_one_code : Test :=
  _ ← assert_eq ORDER_DOES_NOT_EXIST (-2013);
  assert_ne UNKNOWN_ORDER ORDER_DOES_NOT_EXIST.

Definition INSUFFICIENT_MARGIN : Z := -2019.
Definition EXCEEDS_LEVERAGE_BRACKET : Z := -2027.

Definition skew_and_throttling_are_retryable_and_margin_is_not : Test :=
  _ ← assert (code_is_retryable TIMESTAMP_SKEW);
  _ ← assert (code_is_retryable TOO_MANY_REQUESTS);
  _ ← assert (negb (code_is_retryable INSUFFICIENT_MARGIN));
  _ ← assert (negb (code_is_retryable EXCEEDS_LEVERAGE_BRACKET));
  assert (negb (code_is_retryable ORDER_DOES_NOT_EXIST)).

Definition a_rejection_keeps_the_venues_code_and_words : Test :=
  let body := obj [("code", TInt (-2019)); ("msg", s "Margin is insufficient.")] in
  _ ← assert_eq (error_code body) (Some (-2019, str "Margin is insufficient.")%Z);
  let reason := reject_reason body in
  _ ← assert_eq (code reason) (-2019);
  assert_eq (inline_as_str (text reason)) (str "Margin is insufficient.").

Definition a_resting_order_reads_as_working : Test :=
  order ← unwrap (venue_order (obj
    [("orderId", TInt 553664); ("symbol", s "BTCUSDT"); ("status", s "NEW"); ("origQty", s "0.003");
     ("executedQty", s "0"); ("avgPrice", s "0.00000"); ("clientOrderId", s "UI-4bb5ba826e2e1")]));
  _ ← assert_eq (vo_state order) Working;
  _ ← assert_is (vo_qty order) (qty_of "0.003");
  _ ← assert_eq (vo_filled_qty order) ZERO;
  _ ← assert_eq (vo_avg_price order) None;
  assert_eq (vo_order_id order) 553664.

Definition a_derived_average_keeps_the_precision_we_model_and_drops_the_rest : Test :=
  _ ← for_each [("78607.99999999999", "78607.99999999"); ("78623.72159999999", "78623.72159999");
                ("109432.5", "109432.5"); ("0", "0")] (λ '(text, kept),
        d ← derived_decimal (s text); assert_is d (Some <$> px kept));
  for_each [TNull; s "not a number"] (λ v, d ← derived_decimal v; assert_eq d None).

Definition what_we_send_is_still_refused_rather_than_rounded : Test :=
  _ ← assert_eq (decimal_of (s "78607.99999999999")) None;
  assert_eq (quantity (s "0.0000000012")) None.

Definition a_filled_order_carries_what_it_actually_cost : Test :=
  order ← unwrap (venue_order (obj
    [("orderId", TInt 1); ("symbol", s "BTCUSDT"); ("status", s "FILLED"); ("origQty", s "0.003");
     ("executedQty", s "0.003"); ("avgPrice", s "109432.5")]));
  _ ← assert_eq (vo_state order) Filled;
  _ ← assert_is (vo_filled_qty order) (qty_of "0.003");
  assert_is (vo_avg_price order) (Some <$> px "109432.5").

Definition an_order_row_without_an_executed_quantity_is_refused : Test :=
  assert (is_err (venue_order (obj [("orderId", TInt 1); ("symbol", s "BTCUSDT"); ("status", s "NEW")]))).

Definition a_short_position_keeps_its_sign : Test :=
  position ← unwrap (venue_position (obj
    [("symbol", s "BTCUSDT"); ("positionAmt", s "-0.076"); ("entryPrice", s "109432.5");
     ("markPrice", s "109500")]));
  _ ← assert_is (vr_qty position) (qty_of "-0.076");
  assert_is (vr_entry_price position) (px "109432.5").

Definition a_flat_position_is_zero_and_not_missing : Test :=
  position ← unwrap (venue_position (obj
    [("symbol", s "BTCUSDT"); ("positionAmt", s "0"); ("entryPrice", s "0")]));
  assert_eq (vr_qty position) ZERO.

Definition lot_size : Tree :=
  obj [("filterType", s "LOT_SIZE"); ("stepSize", s "0.001"); ("minQty", s "0.001")].

Definition the_filters_read_off_exchange_info : Test :=
  rules ← unwrap (symbol_rules (obj
    [("symbol", s "BTCUSDT"); ("quantityPrecision", TInt 3);
     ("filters", TArr [obj [("filterType", s "PRICE_FILTER"); ("tickSize", s "0.10")]; lot_size;
                       obj [("filterType", s "MIN_NOTIONAL"); ("notional", s "100")]])]));
  _ ← assert_is (step_size rules) (qty_of "0.001");
  _ ← assert_is (min_qty rules) (qty_of "0.001");
  _ ← assert_is (tick_size rules) (px "0.1");
  _ ← assert_eq (min_notional rules) (whole 100);
  assert_eq (quantity_precision rules) 3.

Definition a_symbol_with_no_lot_size_is_refused_at_boot : Test :=
  assert (is_err (symbol_rules (obj [("symbol", s "BTCUSDT"); ("filters", TArr [])]))).

Definition an_absent_minimum_notional_is_zero_rather_than_guessed : Test :=
  rules ← unwrap (symbol_rules (obj [("symbol", s "BTCUSDT"); ("filters", TArr [lot_size])]));
  assert_eq (min_notional rules) ZERO.

Definition tests : list Test :=
  [numbers_arrive_as_strings_and_stay_exact; the_status_map_covers_what_binance_sends;
   self_trade_prevention_is_a_cancellation_not_a_rejection;
   an_unknown_status_is_asked_about_rather_than_guessed_at; absence_has_exactly_one_code;
   skew_and_throttling_are_retryable_and_margin_is_not;
   a_rejection_keeps_the_venues_code_and_words; a_resting_order_reads_as_working;
   a_derived_average_keeps_the_precision_we_model_and_drops_the_rest;
   what_we_send_is_still_refused_rather_than_rounded;
   a_filled_order_carries_what_it_actually_cost;
   an_order_row_without_an_executed_quantity_is_refused; a_short_position_keeps_its_sign;
   a_flat_position_is_zero_and_not_missing; the_filters_read_off_exchange_info;
   a_symbol_with_no_lot_size_is_refused_at_boot;
   an_absent_minimum_notional_is_zero_rather_than_guessed].
End ParseTests.

Example parse_tests_pass : suite ParseTests.tests = true.
Proof. vm_compute. reflexivity. Qed.

(** ** sentinel-binance/src/stream.rs, lib.rs *)

Module StreamTests.
#[local] Open Scope string_scope.
(** [{"e": "ORDER_TRADE_UPDATE", "o": {...}}]. *)
Definition update (fields : list (string * Tree)) : Tree :=
  obj [("e", s "ORDER_TRADE_UPDATE"); ("o", obj fields)].
Definition coid (id : string) : option ClientOrderId := unwrap (inline_new 36 (str id)).
Definition silent (frame : Tree) : Test := assert_eq (decode_frame frame) [].

Definition a_trade_becomes_a_fill_keyed_on_the_trade_id : Test :=
  c ← coid "UI-4bb5ba826e2e1";
  x ← unwrap (inline_new 40 (str "9911"));
  q ← qty_of "0.001";
  p ← px "109432.5";
  assert_eq (decode_frame (obj
    [("e", s "ORDER_TRADE_UPDATE"); ("E", TInt 1787761830000);
     ("o", obj [("s", s "BTCUSDT"); ("c", s "UI-4bb5ba826e2e1"); ("S", s "BUY"); ("x", s "TRADE");
                ("X", s "PARTIALLY_FILLED"); ("i", TInt 553664); ("l", s "0.001");
                ("L", s "109432.5"); ("t", TInt 9911)])]))
    [VenueEvent.Fill c x q p].

Definition two_fills_on_one_order_carry_different_execution_ids : Test :=
  let fill trade_id :=
    update [("c", s "UI-1"); ("x", s "TRADE"); ("l", s "0.001"); ("L", s "1"); ("t", TInt trade_id)] in
  assert_ne (decode_frame (fill 1)) (decode_frame (fill 2)).

Definition a_trade_without_a_trade_id_is_dropped_not_applied : Test :=
  silent (update [("c", s "UI-1"); ("x", s "TRADE"); ("l", s "0.001"); ("L", s "1")]).

Definition a_cancellation_is_reported_and_a_new_order_is_not : Test :=
  c ← coid "UI-1";
  _ ← for_each ["CANCELED"; "EXPIRED"] (λ execution_type,
        assert_eq (decode_frame (update [("c", s "UI-1"); ("x", s execution_type)]))
          [VenueEvent.CancelConfirmed c]);
  silent (update [("c", s "UI-1"); ("x", s "NEW")]).

Definition an_account_update_becomes_balances : Test :=
  usdt ← unwrap (inline_new 8 (str "USDT"));
  btc ← unwrap (inline_new 8 (str "BTC"));
  a ← money "5942.65";
  b ← money "0.01";
  assert_eq (decode_frame (obj
    [("e", s "ACCOUNT_UPDATE");
     ("a", obj [("B", TArr [obj [("a", s "USDT"); ("wb", s "5942.65"); ("cw", s "5942.65")];
                            obj [("a", s "BTC"); ("wb", s "0.01"); ("cw", s "0.01")]])])]))
    [VenueEvent.Balance usdt a; VenueEvent.Balance btc b].

Definition a_mark_price_update_becomes_a_mark : Test :=
  i ← unwrap (inline_new 16 (str "BTCUSDT"));
  p ← px "109432.5";
  assert_eq (decode_frame (obj
    [("e", s "markPriceUpdate"); ("E", TInt 1787761830000); ("s", s "BTCUSDT"); ("p", s "109432.5");
     ("i", s "109430"); ("r", s "0.0001"); ("T", TInt 1787761860000)]))
    [VenueEvent.Mark i p].

Definition unrecognised_frames_produce_nothing_rather_than_a_guess : Test :=
  for_each [obj [("e", s "listenKeyExpired")]; obj [("e", s "TRADE_LITE")];
            obj [("result", TNull); ("id", TInt 1)]; obj []] silent.

Definition a_frame_missing_a_field_produces_nothing : Test :=
  for_each [obj [("e", s "markPriceUpdate"); ("s", s "BTCUSDT")];
            obj [("e", s "markPriceUpdate"); ("p", s "1")];
            update [("x", s "TRADE"); ("l", s "1"); ("L", s "1"); ("t", TInt 1)];
            obj [("e", s "ORDER_TRADE_UPDATE")]] silent.

Definition one_socket_carries_the_key_and_every_mark : Test :=
  btc ← unwrap (inline_new 16 (str "BTCUSDT"));
  eth ← unwrap (inline_new 16 (str "ETHUSDT"));
  assert_eq (combined_stream_url (str "wss://fstream.binance.com") (str "abc123") [btc; eth])
    (str "wss://fstream.binance.com/stream?streams=abc123/btcusdt@markPrice@1s/ethusdt@markPrice@1s").

Definition the_stream_url_works_with_no_symbols : Test :=
  assert_eq (combined_stream_url (str "wss://fstream.binance.com") (str "abc123") [])
    (str "wss://fstream.binance.com/stream?streams=abc123").

Definition the_backoff_is_bounded : Test :=
  _ ← assert (RECONNECT_BACKOFF <? RECONNECT_BACKOFF_CAP)%Z;
  _ ← assert (RECONNECT_BACKOFF_CAP <=? 60 * 1000000000)%Z;
  assert (KEEPALIVE_EVERY <=? 45 * 60 * 1000000000)%Z.

Definition tests : list Test :=
  [a_trade_becomes_a_fill_keyed_on_the_trade_id;
   two_fills_on_one_order_carry_different_execution_ids;
   a_trade_without_a_trade_id_is_dropped_not_applied;
   a_cancellation_is_reported_and_a_new_order_is_not; an_account_update_becomes_balances;
   a_mark_price_update_becomes_a_mark; unrecognised_frames_produce_nothing_rather_than_a_guess;
   a_frame_missing_a_field_produces_nothing; one_socket_carries_the_key_and_every_mark;
   the_stream_url_works_with_no_symbols; the_backoff_is_bounded].
End StreamTests.

Example stream_tests_pass : suite StreamTests.tests = true.
Proof. vm_compute. reflexivity. Qed.

Module CredentialsTests.
Definition demo_and_production_are_different_places : Test :=
  let demo := credentials_demo (str "k") (str "s") in
  let prod := credentials_production (str "k") (str "s") in
  _ ← assert_ne (rest_base demo) (rest_base prod);
  _ ← assert_ne (ws_base demo) (ws_base prod);
  _ ← assert (contains (str "demo") (rest_base demo));
  assert_eq (rest_base prod) (str "https://fapi.binance.com").

Definition demo_is_not_the_old_testnet : Test :=
  assert (negb (contains (str "binancefuture") (rest_base (credentials_demo (str "k") (str "s"))))).

Definition credentials_never_print_the_secret : Test :=
  let c := credentials_production (str "my-key") (str "my-very-secret-value") in
  for_each [credentials_to_string c; credentials_debug c] (λ shown,
    _ ← assert (negb (contains (str "my-very-secret-value") shown));
    assert (negb (contains (str "my-key") shown))).

Definition tests : list Test :=
  [demo_and_production_are_different_places; demo_is_not_the_old_testnet;
   credentials_never_print_the_secret].
End CredentialsTests.

Example credentials_tests_pass : suite CredentialsTests.tests = true.
Proof. vm_compute. reflexivity. Qed.
