(* ===== verification/Guards.v ===== *)
(** * Exposure guards (sentinel-engine/src/guards.rs)

    The verdict on an intent, a pure function of the book.  The theorems are
    both directions of each rule: exactly when an entry may exist, and how much
    an exit may close. *)

From S2P Require Import Prelude Fixed Types Domain Intent Position Records Book.

Inductive Refusal :=
| Halted
| InstrumentLocked (held_by : ClientOrderId)
| EntryAlreadyLive (existing : ClientOrderId)
| ExitExceedsPosition (requested available : Qty)
| ExceedsMaxPosition (would_be cap : Qty)
| PositionUnconfirmed.

#[export] Instance Refusal_eq_dec : EqDecision Refusal.
Proof. solve_decision. Defined.

(** [Note::new(..).unwrap_or_default()]. *)
Definition note_of (s : list byte) : Note := inline_or_default 96 s.

Definition refusal_note (r : Refusal) : Note :=
  match r with
  | Halted => note_of (str "account halted")
  | InstrumentLocked h => note_of (str "instrument locked by " ++ inline_as_str h)
  | EntryAlreadyLive x => note_of (str "entry " ++ inline_as_str x ++ str " is already live")
  | ExitExceedsPosition r a =>
      note_of (str "exit " ++ to_string r ++ str " exceeds available " ++ to_string a)
  | ExceedsMaxPosition w c =>
      note_of (str "position " ++ to_string w ++ str " exceeds cap " ++ to_string c)
  | PositionUnconfirmed => note_of (str "the venue has not yet reported the position")
  end.

Definition refusal_value (r : Refusal) : Qty :=
  match r with
  | ExitExceedsPosition _ available => available
  | ExceedsMaxPosition _ cap => cap
  | _ => ZERO
  end.

Inductive Verdict := Allow | Clamp (to : Qty) | Refuse (r : Refusal).

#[export] Instance Verdict_eq_dec : EqDecision Verdict.
Proof. solve_decision. Defined.

Record Limits := mkLimits {
  max_position : option Qty;
  limits_position_confirmed : bool;
}.

Definition limits_default : Limits := mkLimits None false.

(** The position the intent would make. *)
Definition would_be_position (b : Book) (i : Intent.t) : Qty :=
  unwrap_or (checked_add (pos_qty (position b (Intent.instrument i))) (Intent.signed_qty i)) MAX.

Definition evaluate_entry (b : Book) (i : Intent.t) (limits : Limits) (is_halted : bool) : Verdict :=
  if is_halted then Refuse Halted
  else if negb (limits_position_confirmed limits) then Refuse PositionUnconfirmed
  else
    match locking_order b (Intent.instrument i) with
    | Some holder => Refuse (InstrumentLocked (client_order_id (core holder)))
    | None =>
        match find (λ o, negb (is_exit o)) (live_orders_on b (Intent.instrument i)) with
        | Some existing => Refuse (EntryAlreadyLive (client_order_id (core existing)))
        | None =>
            match max_position limits with
            | Some cap =>
                if ltb cap (abs (would_be_position b i)) then
                  Refuse (ExceedsMaxPosition (would_be_position b i) cap)
                else Allow
            | None => Allow
            end
        end
    end.

Definition evaluate_exit (b : Book) (i : Intent.t) : Verdict :=
  let p := position b (Intent.instrument i) in
  let held := abs_qty p in
  let committed := committed_to_exits b (Intent.instrument i) in
  let available := max (unwrap_or (checked_sub held committed) ZERO) ZERO in
  let closes := eqb (is_positive (pos_qty p)) (bool_decide (Intent.side i = Sell)) in
  if is_zero held || negb closes then
    Refuse (ExitExceedsPosition (Intent.qty i) ZERO)
  else if is_zero available then Refuse (ExitExceedsPosition (Intent.qty i) available)
  else if ltb available (Intent.qty i) then Clamp available
  else Allow.

Definition evaluate (b : Book) (i : Intent.t) (limits : Limits) (is_halted : bool) : Verdict :=
  if Intent.opens_exposure i then evaluate_entry b i limits is_halted
  else evaluate_exit b i.

(** ** Properties *)

Lemma find_None_Forall {A} (p : A → bool) l : find p l = None ↔ Forall (λ x, p x = false) l.
Proof.
  split.
  - intros H. apply Forall_forall. intros x Hx. by eapply find_None.
  - induction 1 as [|x l Hx Hl IH]; [done|]. simpl. by rewrite Hx.
Qed.

Lemma find_is_None {A} (p : A → bool) l x : find p l = Some x → ¬ Forall (λ x, p x = false) l.
Proof. intros H HF. apply find_None_Forall in HF. congruence. Qed.

(** C29: an entry may exist exactly when the account trades, the venue has
    reported its positions to this process, every live order on the instrument
    is a protective exit in a state whose truth is proved, and the position it
    would make is within the cap.  It is never shrunk to fit. *)
Theorem entry_allowed_iff b i limits h :
  Intent.opens_exposure i = true →
  (evaluate b i limits h = Allow ↔
    h = false ∧ limits_position_confirmed limits = true ∧
    Forall (λ o, locks_instrument (state (core o)) = false ∧ is_exit o = true)
      (live_orders_on b (Intent.instrument i)) ∧
    (∀ cap : Qty, max_position limits = Some cap →
       raw (abs (would_be_position b i)) ≤ raw cap)) ∧
  (∀ q, evaluate b i limits h ≠ Clamp q).
Proof.
  intros Ho. unfold evaluate. rewrite Ho. unfold evaluate_entry, locking_order.
  destruct h; [naive_solver|]. destruct (limits_position_confirmed limits); [|naive_solver].
  simpl negb. cbn iota.
  destruct (find _ _) as [l|] eqn:El.
  { apply find_is_None in El. split; [|done]. split; [done|]. intros (_ & _ & HF & _).
    destruct El. eapply Forall_impl; [exact HF|]. by intros ? []. }
  destruct (find (λ o, negb (is_exit o)) _) as [x|] eqn:Ex.
  { apply find_is_None in Ex. split; [|done]. split; [done|]. intros (_ & _ & HF & _).
    destruct Ex. eapply Forall_impl; [exact HF|]. intros o [_ ->]. done. }
  apply find_None_Forall in El, Ex.
  assert (Forall (λ o, locks_instrument (state (core o)) = false ∧ is_exit o = true)
            (live_orders_on b (Intent.instrument i))) as Hall.
  { rewrite Forall_forall in *. intros o Hin. split; [by apply El|].
    apply Ex in Hin. by apply negb_false_iff in Hin. }
  destruct (max_position limits) as [cap|]; [|naive_solver].
  unfold ltb. case_bool; z_reflect; (split; [|done]).
  - split; [done|]. intros (_ & _ & _ & Hc). specialize (Hc cap eq_refl). lia.
  - split; [|done]. intros _. split_and!; try done. intros c [= <-]. lia.
Qed.

Lemma entry_allowed_iff_witness :
  Intent.opens_exposure ex_intent = true ∧
  (evaluate book_new ex_intent (mkLimits (Some (whole 10)) true) false = Allow ↔
    false = false ∧ true = true ∧
    Forall (λ o, locks_instrument (state (core o)) = false ∧ is_exit o = true)
      (live_orders_on book_new (Intent.instrument ex_intent)) ∧
    (∀ cap : Qty, Some (whole 10) = Some cap →
       raw (abs (would_be_position book_new ex_intent)) ≤ raw cap)).
Proof.
  split; [reflexivity|].
  apply (entry_allowed_iff book_new ex_intent (mkLimits (Some (whole 10)) true) false).
  reflexivity.
Defined.

(** What an exit is finally sent for. *)
Definition exit_qty (i : Intent.t) (v : Verdict) : option Z :=
  match v with
  | Allow => Some (raw (Intent.qty i))
  | Clamp q => Some (raw q)
  | Refuse _ => None
  end.

(** C30: an exit only ever closes.  When it is let through, for as much as was
    asked or for less, it is on the closing side of a position that is held, for
    a positive quantity, and together with every live exit on the instrument it
    stays within the size of the position. *)
Theorem exit_bounded b i limits h q :
  Intent.opens_exposure i = false → 0 < raw (Intent.qty i) →
  exit_qty i (evaluate b i limits h) = Some q →
  0 < q ≤ raw (Intent.qty i) ∧
  raw (pos_qty (position b (Intent.instrument i))) * sign (Intent.side i) < 0 ∧
  raw (committed_to_exits b (Intent.instrument i)) + q ≤
    raw (abs_qty (position b (Intent.instrument i))).
Proof.
  intros Ho Hq. unfold evaluate. rewrite Ho. unfold evaluate_exit.
  set (p := position b (Intent.instrument i)).
  set (committed := committed_to_exits b (Intent.instrument i)).
  case_bool; [done|]. apply orb_false_iff in Heqb0 as [Hh Hc]. apply negb_false_iff in Hc.
  assert (raw (pos_qty p) * sign (Intent.side i) < 0) as Hdir.
  { apply eqb_prop in Hc. unfold is_zero, abs_qty, abs, is_positive in *. simpl in Hh.
    destruct (Intent.side i); cbn [sign]; case_bool_decide; try done;
      destruct (Z.ltb_spec 0 (raw (pos_qty p))); try done; z_reflect; unfold_ranges; lia. }
  set (available := max (unwrap_or (checked_sub (abs_qty p) committed) ZERO) ZERO).
  case_bool; [done|]. unfold is_zero in Heqb0. z_reflect.
  assert (0 < raw available ∧ raw committed + raw available = raw (abs_qty p)) as [Hpos Hsum].
  { assert (raw available = Z.max (raw (unwrap_or (checked_sub (abs_qty p) committed) (ZERO : Qty))) 0) as Ha
      by apply raw_max.
    destruct (checked_sub (abs_qty p) committed) as [x|] eqn:E; cbn in Ha; [|exfalso; apply Heqb0; exact Ha].
    apply checked_sub_Ok in E as [E _]. lia. }
  unfold ltb. case_bool; intros [= <-]; z_reflect; split_and!; lia.
Qed.

(** A long position of five and an exit for seven. *)
Definition ex_exit : Intent.t :=
  Intent.mk (ex_text 36 "x-1") ex_btc Sell (whole 7) Market None None ProtectiveExit 78 None.

Lemma exit_bounded_witness :
  0 < raw (whole 5 : Qty) ≤ raw (Intent.qty ex_exit) ∧
  raw (pos_qty (position ex_book (Intent.instrument ex_exit))) * sign (Intent.side ex_exit) < 0 ∧
  raw (committed_to_exits ex_book (Intent.instrument ex_exit)) + raw (whole 5 : Qty) ≤
    raw (abs_qty (position ex_book (Intent.instrument ex_exit))).
Proof.
  apply (exit_bounded ex_book ex_exit limits_default true);
    [reflexivity | reflexivity | vm_compute; reflexivity].
Defined.
