(* ===== verification/Engine.v ===== *)
(** * The single writer (sentinel-engine/src/engine.rs, command.rs, error.rs)

    [Engine::submit] and every handler behind it, over the journal writer and
    the book.  A handler is a state-monad action on the whole engine: what it
    appended and applied before an error stays.  [Panicked] stands for the two
    string slices that panic off a character boundary. *)

From S2P Require Import Prelude Fixed Text Types Domain Intent Position Format Records Segment Journal Book Venue Guards.

Record Config := mkConfig {
  limits : Limits;
  stale_after_nanos : Z;
  reconcile_backoff_nanos : Z;
  tick_write_after_nanos : Z;
  reconcile_backoff_cap_nanos : Z;
}.

Definition config_default : Config :=
  mkConfig limits_default 120000000000 1000000000 5000000000 60000000000.

Definition ADOPTION_TRACE_MARKER : Z := 0xadb7.

Record Pending := mkPending {
  retry_at : Nanos;
  backoff : Z;
  in_flight : bool;
}.

Module EngineError.
Inductive t :=
| Journal (e : JournalError.t)
| Ledger (e : LedgerError.t)
| Panicked (at_ : string).

Definition is_fatal (e : t) : bool :=
  match e with
  | Journal e => JournalError.is_fatal e
  | Ledger e => LedgerError.is_integrity_violation e
  | Panicked _ => true
  end.
End EngineError.

(** The engine.  The scratch buffer is cleared at each use and holds no state. *)
Record Engine := mkEngine {
  journal : Journal;
  book : Book;
  config : Config;
  uncommitted : list VenueRequest.t;
  reconciling : gmap ClientOrderId Pending;
  e_halted : bool;
  position_confirmed : bool;
}.

Module Command.
Inductive t :=
| Tick (now : Nanos)
| Place (intent : Intent.t)
| Cancel (c : ClientOrderId) (trace_id : TraceId)
| Submitted (c : ClientOrderId) (outcome : SubmitOutcome.t)
| Cancelled (c : ClientOrderId) (outcome : CancelOutcome.t)
| LookedUp (c : ClientOrderId) (outcome : LookupOutcome.t)
| Streamed (event : VenueEvent.t)
| PositionsReported (positions : list (option VenuePosition))
| SweepStale
| Halt (note : Note)
| Resume (note : Note)
| Decide (actor : Actor.t) (instrument : Instrument) (kind : DecisionKind.t)
    (trace_id : TraceId) (value : Money) (note : Note).
End Command.

(** [Command::positions_reported]: the first eight, in an array of eight. *)
Definition positions_reported (ps : list VenuePosition) : Command.t :=
  let some := Some <$> take 8 ps in
  Command.PositionsReported (some ++ replicate (8 - length some) None).

Abbreviation EM := (ST Engine EngineError.t).

(** Field assignments. *)
Definition set_journal (j : Journal) (e : Engine) : Engine :=
  mkEngine j (book e) (config e) (uncommitted e) (reconciling e) (e_halted e)
    (position_confirmed e).
Definition set_book (b : Book) (e : Engine) : Engine :=
  mkEngine (journal e) b (config e) (uncommitted e) (reconciling e) (e_halted e)
    (position_confirmed e).
Definition set_uncommitted (l : list VenueRequest.t) (e : Engine) : Engine :=
  mkEngine (journal e) (book e) (config e) l (reconciling e) (e_halted e)
    (position_confirmed e).
Definition set_reconciling (m : gmap ClientOrderId Pending) (e : Engine) : Engine :=
  mkEngine (journal e) (book e) (config e) (uncommitted e) m (e_halted e)
    (position_confirmed e).
Definition set_e_halted (h : bool) (e : Engine) : Engine :=
  mkEngine (journal e) (book e) (config e) (uncommitted e) (reconciling e) h
    (position_confirmed e).
Definition set_confirmed (p : bool) (e : Engine) : Engine :=
  mkEngine (journal e) (book e) (config e) (uncommitted e) (reconciling e) (e_halted e) p.

(** A method of a field, run in place. *)
Definition on_journal {A} (m : ST Journal JournalError.t A) : EM A := λ e,
  let '(j, r) := m (journal e) in (set_journal j e, map_err EngineError.Journal r).
Definition on_book {A} (m : ST Book LedgerError.t A) : EM A := λ e,
  let '(b, r) := m (book e) in (set_book b e, map_err EngineError.Ledger r).

(** ** Writing *)

Definition write_at (now : Nanos) (record : Rec.t) : EM Applied :=
  let scratch := encode record in
  let kind := rec_kind record in
  seq ← on_journal (append kind now scratch);
  ep ← st_get (λ e, j_epoch (journal e));
  let len := Z.of_nat (length scratch) in
  let header := mkFrameHeader seq ep now kind (if len <=? u32_max then len else u32_max) in
  on_book (apply header record).

Definition write (record : Rec.t) : EM Applied :=
  now ← st_get (λ e, Book.now (book e));
  write_at now record.

Definition write_event (c : ClientOrderId) (trace_id : TraceId) (event : OrderEvent) : EM Applied :=
  existing ← st_get (λ e, core <$> order (book e) c);
  let from_state := match existing with Some o => state o | None => Created end in
  let next := existing ≫= λ o, ok (transition o event) in
  let to_state := match next with Some o => state o | None => from_state end in
  let applied := negb (Intent.is_some existing) || Intent.is_some next in
  write (Rec.OrderEvent c trace_id from_state to_state applied event).

Definition decide (i : Instrument) (actor : Actor.t) (kind : DecisionKind.t)
    (trace_id : TraceId) (value : Money) (note : Note) : EM unit :=
  _ ← write (Rec.Decision i actor kind trace_id value note);
  mret tt.

Definition request (r : VenueRequest.t) : EM unit :=
  st_modify (λ e, set_uncommitted (uncommitted e ++ [r]) e).

Definition trace_of (e : Engine) (c : ClientOrderId) : TraceId :=
  match order (book e) c with Some o => o_trace_id o | None => TRACE_NONE end.

(** [Money::from_raw(q.raw())]. *)
Definition as_money (q : Qty) : Money := from_raw (raw q).

(** ** Halting *)

Definition on_halt (note : Note) : EM unit :=
  h ← st_get e_halted;
  if (h : bool) then mret tt
  else
    _ ← st_modify (set_e_halted true);
    decide inline_empty Actor.Supervisor DecisionKind.Halted TRACE_NONE ZERO note.

Definition on_resume (note : Note) : EM unit :=
  h ← st_get e_halted;
  if (h : bool) then
    _ ← st_modify (set_e_halted false);
    decide inline_empty Actor.Supervisor DecisionKind.Resumed TRACE_NONE ZERO note
  else mret tt.

(** ** Reconciliation *)

Definition ensure_reconciling (c : ClientOrderId) (trace_id : TraceId) (cause : ReconcileCause) :
    EM unit :=
  already ← st_get (λ e, match order (book e) c with
                         | Some o => bool_decide (state (core o) = Reconciling)
                         | None => false
                         end);
  if (already : bool) then mret tt
  else
    _ ← write_event c trace_id (ReconcileStarted cause);
    i ← st_get (λ e, match order (book e) c with
                     | Some o => instrument (core o)
                     | None => inline_empty
                     end);
    decide i Actor.Reconciler DecisionKind.ReconcileScheduled trace_id ZERO
      (note_of (cause_as_str cause)).

Definition begin_reconcile (c : ClientOrderId) (trace_id : TraceId) (cause : ReconcileCause) :
    EM unit :=
  queued ← st_get (λ e, bool_decide (is_Some (reconciling e !! c)));
  if (queued : bool) then mret tt
  else
    _ ← ensure_reconciling c trace_id cause;
    _ ← st_modify (λ e, set_reconciling (<[c := mkPending (Book.now (book e))
          (reconcile_backoff_nanos (config e)) true]> (reconciling e)) e);
    request (VenueRequest.Lookup c).

Definition defer_reconcile (c : ClientOrderId) : EM unit :=
  st_modify (λ e,
    let cap := reconcile_backoff_cap_nanos (config e) in
    let now := Book.now (book e) in
    match reconciling e !! c with
    | Some p =>
        set_reconciling (<[c := mkPending (nanos_saturating_add now (backoff p))
          (Z.min (u64_saturate (backoff p * 2)) cap) false]> (reconciling e)) e
    | None => e
    end).

(** The keys whose backoff has expired, sorted. *)
Definition due_reconciliations (now : Nanos) (e : Engine) : list ClientOrderId :=
  sort_ids (filter (λ kp, in_flight kp.2 = false ∧ retry_at kp.2 ≤ now)
    (map_to_list (reconciling e))).*1.

Fixpoint retry_loop (due : list ClientOrderId) : EM unit :=
  match due with
  | [] => mret tt
  | c :: due' =>
      _ ← st_modify (λ e, match reconciling e !! c with
            | Some p => set_reconciling (<[c := mkPending (retry_at p) (backoff p) true]>
                                           (reconciling e)) e
            | None => e
            end);
      _ ← request (VenueRequest.Lookup c);
      retry_loop due'
  end.

Definition retry_due_reconciliations (now : Nanos) : EM unit :=
  due ← st_get (due_reconciliations now);
  retry_loop due.

(** [&s[..n]]: panics when [n] is inside a character. *)
Definition str_prefix (at_ : string) (s : list byte) (n : nat) : EM (list byte) :=
  if (n <=? length s)%nat && is_char_boundary s n then mret (take n s)
  else st_fail (EngineError.Panicked at_).

(** [EXEC_ID_CAPACITY - "RCN-".len() - suffix.len()] is at least fifteen. *)
Definition reconciliation_exec_id (c : ClientOrderId) (venue_filled : Qty) : EM ExecId :=
  let suffix := str ":" ++ dec_signed (raw venue_filled) in
  let room := (40 - 4 - length suffix)%nat in
  head ← str_prefix "reconciliation_exec_id" (inline_as_str c) (Nat.min (inline_len c) room);
  mret (inline_or_default 40 (str "RCN-" ++ head ++ suffix)).

Definition book_the_difference (c : ClientOrderId) (trace_id : TraceId) (venue_filled : Qty)
    (venue_avg_price : option Price) : EM unit :=
  self ← st_get id;
  match order (book self) c with
  | None => mret tt
  | Some o =>
      let i := instrument (core o) in
      let ours := foldl (λ sum f, unwrap_or (checked_add sum (f_qty f)) sum) ZERO
                    (fills_for (book self) c) in
      if bool_decide (venue_filled = ours) then mret tt
      else if ltb venue_filled ours then
        on_halt (note_of (inline_as_str c ++ str ": booked " ++ to_string ours ++
          str ", venue says " ++ to_string venue_filled))
      else
        let missing := unwrap_or (checked_sub venue_filled ours) ZERO in
        exec_id ← reconciliation_exec_id c venue_filled;
        let priced_by_venue := Intent.is_some venue_avg_price in
        let price := default ZERO (match venue_avg_price with
                                   | Some p => Some p
                                   | None => mark (book self) i
                                   end) in
        _ ← write_event c trace_id (FillReceived exec_id missing price);
        decide i Actor.Reconciler DecisionKind.ReconcileScheduled trace_id (as_money missing)
          (note_of (str "booked " ++ to_string missing ++
             str " the venue had and we did not, at " ++ to_string price ++ str " (" ++
             (if priced_by_venue then str "venue average" else str "last mark") ++ str ")"))
  end.

(** ** Placing *)

Definition refuse (i : Intent.t) (r : Refusal) : EM unit :=
  decide (Intent.instrument i) Actor.Guards DecisionKind.EntryBlocked (Intent.trace_id i)
    (as_money (refusal_value r)) (refusal_note r).

Definition authorise (i : Intent.t) : EM unit :=
  _ ← write (Rec.IntentPersisted i);
  _ ← write_event (Intent.client_order_id i) (Intent.trace_id i) SubmissionStarted;
  _ ← decide (Intent.instrument i)
        (if Intent.opens_exposure i then Actor.Gateway else Actor.Protection)
        (if Intent.opens_exposure i then DecisionKind.EntryPlaced else DecisionKind.ExitPlaced)
        (Intent.trace_id i) (as_money (Intent.qty i))
        (note_of (as_str (Intent.side i) ++ str " " ++ to_string (Intent.qty i) ++ str " " ++
           inline_as_str (Intent.instrument i)));
  request (VenueRequest.Submit i).

Definition on_place (i : Intent.t) : EM unit :=
  self ← st_get id;
  match order (book self) (Intent.client_order_id i) with
  | Some existing =>
      if bool_decide (state (core existing) = Submitting) then
        begin_reconcile (Intent.client_order_id i) (Intent.trace_id i) ReplayedMidSubmission
      else mret tt
  | None =>
      let lim := mkLimits (max_position (limits (config self))) (position_confirmed self) in
      match evaluate (book self) i lim (e_halted self) with
      | Refuse r => refuse i r
      | Clamp to =>
          let clamped := Intent.with_qty i to in
          _ ← decide (Intent.instrument i) Actor.Guards DecisionKind.ExitClamped
                (Intent.trace_id i) (as_money to)
                (note_of (str "exit " ++ to_string (Intent.qty i) ++ str " clamped to " ++
                   to_string to));
          authorise clamped
      | Allow => authorise i
      end
  end.

(** ** Venue answers *)

(** Runs [m] and continues with its result, error included. *)
Definition caught {A B} (m : EM A) (k : result EngineError.t A → EM B) : EM B := λ e,
  let '(e', r) := m e in k r e'.

Definition on_cancel (c : ClientOrderId) (trace_id : TraceId) : EM unit :=
  self ← st_get id;
  match order (book self) c with
  | None => mret tt
  | Some o =>
      let venue_order_id := venue_order_id (core o) in
      caught (write_event c trace_id CancelRequested) (λ r,
        match r with
        | Ok _ => request (VenueRequest.Cancel c venue_order_id)
        | Err (EngineError.Ledger le) =>
            if negb (LedgerError.is_integrity_violation le) then mret tt
            else st_fail (EngineError.Ledger le)
        | Err e => st_fail e
        end)
  end.

Definition on_submitted (c : ClientOrderId) (outcome : SubmitOutcome.t) : EM unit :=
  trace_id ← st_get (λ e, trace_of e c);
  match outcome with
  | SubmitOutcome.Acked v => _ ← write_event c trace_id (VenueAcked v); mret tt
  | SubmitOutcome.Rejected reason => _ ← write_event c trace_id (VenueRejected reason); mret tt
  | SubmitOutcome.TimedOut =>
      _ ← write_event c trace_id SubmissionTimedOut;
      begin_reconcile c trace_id SubmissionTimeout
  end.

Definition on_cancelled (c : ClientOrderId) (outcome : CancelOutcome.t) : EM unit :=
  trace_id ← st_get (λ e, trace_of e c);
  match outcome with
  | CancelOutcome.Requested => mret tt
  | CancelOutcome.TimedOut | CancelOutcome.Absent => begin_reconcile c trace_id CancelTimeout
  end.

Definition forget (c : ClientOrderId) : EM unit :=
  st_modify (λ e, set_reconciling (delete c (reconciling e)) e).

Definition on_looked_up (c : ClientOrderId) (outcome : LookupOutcome.t) : EM unit :=
  trace_id ← st_get (λ e, trace_of e c);
  match outcome with
  | LookupOutcome.TimedOut => defer_reconcile c
  | LookupOutcome.Found s =>
      _ ← ensure_reconciling c trace_id PositionDisagreement;
      _ ← book_the_difference c trace_id (sn_filled_qty s) (sn_avg_price s);
      _ ← write_event c trace_id
            (ReconcileResolved (sn_state s) (sn_venue_order_id s) (sn_filled_qty s));
      forget c
  | LookupOutcome.Absent =>
      _ ← ensure_reconciling c trace_id SubmissionTimeout;
      _ ← write_event c trace_id (ReconcileResolved Canceled None ZERO);
      forget c
  end.

Definition disown (c : ClientOrderId) : EM unit :=
  _ ← decide inline_empty Actor.Reconciler DecisionKind.ReconcileScheduled TRACE_NONE ZERO
        (note_of (str "disowned event for unknown order " ++ inline_as_str c));
  request VenueRequest.Positions.

(** What the book could not take goes to reconciliation. *)
Definition reconcile_if_needed (a : Applied) (c : ClientOrderId) (trace_id : TraceId)
    (cause : ReconcileCause) : EM unit :=
  match a with
  | NeedsReconciliation _ => begin_reconcile c trace_id cause
  | _ => mret tt
  end.

Definition on_streamed (event : VenueEvent.t) : EM unit :=
  match event with
  | VenueEvent.Mark i price => _ ← write (Rec.Mark i price); mret tt
  | VenueEvent.Balance a amount => _ ← write (Rec.Balance a amount); mret tt
  | VenueEvent.Fill c exec_id qty price =>
      self ← st_get id;
      if Intent.is_some (fill (book self) exec_id) then mret tt
      else if negb (Intent.is_some (order (book self) c)) then disown c
      else
        let trace_id := trace_of self c in
        applied ← write_event c trace_id (FillReceived exec_id qty price);
        reconcile_if_needed applied c trace_id LateFill
  | VenueEvent.CancelConfirmed c =>
      self ← st_get id;
      if negb (Intent.is_some (order (book self) c)) then disown c
      else
        let trace_id := trace_of self c in
        applied ← write_event c trace_id CancelConfirmed;
        reconcile_if_needed applied c trace_id LateCancelConfirm
  end.

(** ** Positions *)

Definition has_never_traded (e : Engine) (i : Instrument) : bool :=
  is_zero (pos_qty (position (book e) i)) &&
  negb (existsb (λ o, bool_decide (instrument (core o) = i)) (orders (book e))) &&
  negb (existsb (λ f, bool_decide (f_instrument f = i)) (all_fills (book e))).

Definition adopt_position (p : VenuePosition) : EM unit :=
  let i := vp_instrument p in
  let side := if is_positive (vp_qty p) then Buy else Sell in
  let qty := abs (vp_qty p) in
  self ← st_get id;
  let price := default ZERO (match vp_entry_price p with
                             | Some x => Some x
                             | None => mark (book self) i
                             end) in
  let ep := j_epoch (journal self) in
  let trace_id := Z.lor (Z.shiftl ADOPTION_TRACE_MARKER 64) ep in
  let suffix := str "-" ++ dec ep in
  head ← str_prefix "adopt_position" (inline_as_str i) (Nat.min (inline_len i) 20);
  let c := inline_or_default 36 (str "ADOPT-" ++ head ++ suffix) in
  match Intent.market c i side qty Entry trace_id with
  | Err err =>
      on_halt (note_of (inline_as_str i ++ str ": cannot adopt " ++ to_string (vp_qty p) ++
        str ": " ++ intent_error_to_string err))
  | Ok intent =>
      _ ← write (Rec.IntentPersisted intent);
      _ ← write_event c trace_id (ReconcileStarted PositionDisagreement);
      _ ← write_event c trace_id
            (FillReceived (inline_or_default 40 (str "ADOPT-" ++ head ++ suffix)) qty price);
      _ ← write_event c trace_id (ReconcileResolved Filled None qty);
      decide i Actor.Reconciler DecisionKind.EntryPlaced trace_id (as_money (vp_qty p))
        (note_of (str "adopted " ++ to_string (vp_qty p) ++
           str " held at the venue, booked at " ++ to_string price))
  end.

(** One turn of the loop over the report. *)
Definition on_position (first_report : bool) (p : VenuePosition) : EM unit :=
  self ← st_get id;
  let ours := pos_qty (position (book self) (vp_instrument p)) in
  if bool_decide (ours = vp_qty p) then mret tt
  else if first_report && has_never_traded self (vp_instrument p) then adopt_position p
  else if Intent.is_some (head (live_orders_on (book self) (vp_instrument p))) then
    decide (vp_instrument p) Actor.Reconciler DecisionKind.ReconcileScheduled TRACE_NONE
      (as_money (vp_qty p))
      (note_of (str "venue holds " ++ to_string (vp_qty p) ++ str ", book holds " ++
         to_string ours ++
         str ", an order is in flight — deferred to the next sweep"))
  else
    _ ← decide (vp_instrument p) Actor.Reconciler DecisionKind.ReconcileScheduled TRACE_NONE
          (as_money (vp_qty p))
          (note_of (str "venue holds " ++ to_string (vp_qty p) ++ str ", book holds " ++
             to_string ours));
    on_halt (note_of (inline_as_str (vp_instrument p) ++ str " position diverged: venue " ++
      to_string (vp_qty p) ++ str ", book " ++ to_string ours)).

Fixpoint positions_loop (first_report : bool) (ps : list VenuePosition) : EM unit :=
  match ps with
  | [] => mret tt
  | p :: ps' => _ ← on_position first_report p; positions_loop first_report ps'
  end.

Definition on_positions (ps : list (option VenuePosition)) : EM unit :=
  confirmed ← st_get position_confirmed;
  let first_report := negb confirmed in
  _ ← st_modify (set_confirmed true);
  positions_loop first_report (flatten ps).

(** ** Time *)

Fixpoint sweep_loop (cs : list ClientOrderId) : EM unit :=
  match cs with
  | [] => mret tt
  | c :: cs' =>
      self ← st_get id;
      _ ← (if bool_decide (is_Some (reconciling self !! c)) then mret tt
           else begin_reconcile c (trace_of self c) StaleSweep);
      sweep_loop cs'
  end.

Definition on_sweep : EM unit :=
  _ ← request VenueRequest.Positions;
  stale ← st_get (λ e, stale_orders (book e) (stale_after_nanos (config e)));
  sweep_loop stale.

Definition on_tick (now : Nanos) : EM unit :=
  self ← st_get id;
  if now <=? Book.now (book self) then mret tt
  else
    _ ← (if tick_write_after_nanos (config self) <=? saturating_since now (Book.now (book self))
         then _ ← write_at now Rec.Ticked; mret tt
         else mret tt);
    retry_due_reconciliations now.

(** ** The way in, and the way out *)

Definition submit (command : Command.t) : EM unit :=
  match command with
  | Command.Tick now => on_tick now
  | Command.Place intent => on_place intent
  | Command.Cancel c trace_id => on_cancel c trace_id
  | Command.Submitted c outcome => on_submitted c outcome
  | Command.Cancelled c outcome => on_cancelled c outcome
  | Command.LookedUp c outcome => on_looked_up c outcome
  | Command.Streamed event => on_streamed event
  | Command.PositionsReported positions => on_positions positions
  | Command.SweepStale => on_sweep
  | Command.Halt note => on_halt note
  | Command.Resume note => on_resume note
  | Command.Decide actor i kind trace_id value note => decide i actor kind trace_id value note
  end.

(** [Engine::flush]: the requests come out once their records are durable. *)
Definition engine_flush (io : FlushIo) : EM (list VenueRequest.t) :=
  _ ← on_journal (flush io);
  out ← st_get uncommitted;
  _ ← st_modify (set_uncommitted []);
  mret out.

(** The engine [Engine::open] builds from a claimed journal and a rebuilt book. *)
Definition engine_new (j : Journal) (b : Book) (cfg : Config) : Engine :=
  mkEngine j b cfg [] ∅ (halted b) false.
