(* ===== verification/Trace.v ===== *)
(** * What a command leaves behind (sentinel-engine/src/engine.rs)

    Every handler of the engine, seen from outside: the records it appended and
    applied, in order, and the venue requests it queued after them.  The other
    theorems about the engine are read off this account. *)

From S2P Require Import Prelude Fixed Types Domain Intent Position Format Codec Records Segment Journal Book Venue Guards Engine.

(** ** The account *)

(** A record in its frame, and what the book made of it. *)
Abbreviation Written := (FrameHeader * Rec.t * result LedgerError.t Applied)%type.

Definition frame_of (w : Written) : Frame := (w.1.1, encode w.1.2).

Definition is_Ok {E A} (r : result E A) : Prop := match r with Ok _ => True | Err _ => False end.

(** The book took every record. *)
Definition clean (ws : list Written) : Prop := Forall (λ w : Written, is_Ok w.2) ws.

(** Records appended to the journal and applied to the book, one after the
    other. *)
Inductive recorded : Journal → Book → list Written → Journal → Book → Prop :=
| recorded_nil j b : recorded j b [] j b
| recorded_cons j b at_ r j1 seq b1 res ws j2 b2 :
    (u64_ok (Book.now b) → u64_ok at_) →
    append (rec_kind r) at_ (encode r) j = (j1, Ok seq) →
    apply (mkFrameHeader seq (j_epoch j) at_ (rec_kind r) (Z.of_nat (length (encode r)))) r b =
      (b1, res) →
    recorded j1 b1 ws j2 b2 →
    recorded j b
      ((mkFrameHeader seq (j_epoch j) at_ (rec_kind r) (Z.of_nat (length (encode r))), r, res)
         :: ws) j2 b2.

Lemma recorded_app j b ws j1 b1 ws' j2 b2 :
  recorded j b ws j1 b1 → recorded j1 b1 ws' j2 b2 → recorded j b (ws ++ ws') j2 b2.
Proof. induction 1; [done|]. intros. cbn [app]. econstructor; eauto. Qed.

(** An engine before and after: what it wrote and what it queued. *)
Record step (e : Engine) (ws : list Written) (rs : list VenueRequest.t) (e' : Engine) : Prop := {
  st_recorded : recorded (journal e) (book e) ws (journal e') (book e');
  st_requests : uncommitted e' = uncommitted e ++ rs;
  st_config : config e' = config e;
}.

Lemma step_refl e : step e [] [] e.
Proof. split; [constructor|by rewrite app_nil_r|done]. Qed.

Lemma step_trans e ws rs e1 ws' rs' e2 :
  step e ws rs e1 → step e1 ws' rs' e2 → step e (ws ++ ws') (rs ++ rs') e2.
Proof.
  intros [H1 H2 H3] [K1 K2 K3]. split; [by eapply recorded_app| |congruence].
  by rewrite K2, H2, app_assoc.
Qed.

Lemma step_request e ws rs e' r :
  step e ws rs e' → step e ws (rs ++ [r]) (set_uncommitted (uncommitted e' ++ [r]) e').
Proof. intros [H1 H2 H3]. split; simpl; [done| |done]. by rewrite H2, app_assoc. Qed.

(** The submissions among the requests. *)
Definition submits (rs : list VenueRequest.t) : list Intent.t :=
  omap (λ r, match r with VenueRequest.Submit i => Some i | _ => None end) rs.

Lemma submits_app a b : submits (a ++ b) = submits a ++ submits b.
Proof. apply omap_app. Qed.

(** A handler that never asks for a submission, and whose records the book took
    whenever it returns [Ok]. *)
Definition traced_at {A} (e : Engine) (m : EM A) : Prop :=
  ∃ ws rs, step e ws rs (m e).1 ∧ submits rs = [] ∧ (is_Ok (m e).2 → clean ws).
Definition traced {A} (m : EM A) : Prop := ∀ e, traced_at e m.

Lemma traced_at_bind {A B} e (m : EM A) (f : A → EM B) :
  traced_at e m → (∀ a, traced_at (m e).1 (f a)) → traced_at e (m ≫= f).
Proof.
  intros (ws & rs & H & Hq & Hc) Hf. unfold traced_at, mbind, ST_bind in *.
  destruct (m e) as [e1 [a|err]]; simpl in *; [|by exists ws, rs].
  destruct (Hf a) as (ws' & rs' & H' & Hq' & Hc'). exists (ws ++ ws'), (rs ++ rs').
  split_and!; [by eapply step_trans|by rewrite submits_app, Hq, Hq'|].
  intros Hok. apply Forall_app. split; [by apply Hc|by apply Hc'].
Qed.

Lemma traced_bind {A B} (m : EM A) (f : A → EM B) :
  traced m → (∀ a, traced (f a)) → traced (m ≫= f).
Proof. intros Hm Hf e. apply traced_at_bind; [apply Hm|]. intros a. apply Hf. Qed.

(** An action that touches neither records nor requests. *)
Lemma traced_silent {A} (m : EM A) : (∀ e, step e [] [] (m e).1) → traced m.
Proof.
  intros H e. exists [], []. split_and!; [apply H|done|intros _; constructor].
Qed.

Lemma traced_ret {A} (a : A) : traced (mret a).
Proof. apply traced_silent. intros e. apply step_refl. Qed.
Lemma traced_get {A} (f : Engine → A) : traced (st_get f).
Proof. apply traced_silent. intros e. apply step_refl. Qed.
Lemma traced_fail {A} err : traced (st_fail (A := A) err).
Proof. apply traced_silent. intros e. apply step_refl. Qed.
Lemma traced_modify f :
  (∀ e, journal (f e) = journal e ∧ book (f e) = book e ∧
        uncommitted (f e) = uncommitted e ∧ config (f e) = config e) →
  traced (st_modify f).
Proof.
  intros H. apply traced_silent. intros e. destruct (H e) as (E1 & E2 & E3 & E4).
  split; simpl; [rewrite E1, E2; constructor|by rewrite app_nil_r|done].
Qed.

Lemma traced_request r : (∀ i, r ≠ VenueRequest.Submit i) → traced (request r).
Proof.
  intros Hr e. exists [], [r]. split_and!; [|destruct r; try done; by destruct (Hr intent)|].
  - split; simpl; [constructor|done..].
  - intros _. constructor.
Qed.

(** ** Writing a record *)

Lemma append_Err kind at_ p j j' err : append kind at_ p j = (j', Err err) → j' = j.
Proof.
  unfold append, st_get, st_modify, st_fail, mbind, ST_bind, mret, ST_ret, id.
  repeat case_match; intros; simplify_eq/=; done.
Qed.

Lemma append_Ok kind at_ p j j' seq :
  append kind at_ p j = (j', Ok seq) →
  j_epoch j' = j_epoch j ∧ Z.of_nat (length p) ≤ MAX_PAYLOAD ∧ seq = j_next_seq j ∧
  j_next_seq j' = seq_next (j_next_seq j).
Proof.
  unfold append, st_get, st_modify, st_fail, mbind, ST_bind, mret, ST_ret, id.
  destruct (j_poisoned j); [done|]. case_bool; [done|]. intros. z_reflect. by simplify_eq/=.
Qed.

(** The two ways a write ends: the journal refused, and nothing moved, or the
    record is in the journal and the book had its say. *)
Lemma write_at_cases at_ r e e' res :
  write_at at_ r e = (e', res) →
  (e' = e ∧ ∃ je, res = Err (EngineError.Journal je)) ∨
  ∃ j1 seq b1 ares,
    append (rec_kind r) at_ (encode r) (journal e) = (j1, Ok seq) ∧
    apply (mkFrameHeader seq (j_epoch (journal e)) at_ (rec_kind r)
             (Z.of_nat (length (encode r)))) r (book e) = (b1, ares) ∧
    e' = set_book b1 (set_journal j1 e) ∧ res = map_err EngineError.Ledger ares.
Proof.
  unfold write_at, on_journal, on_book, st_get, mbind, ST_bind. intros H.
  destruct (append _ _ _ _) as [j1 [seq|je]] eqn:Ha; simpl in H.
  - right. exists j1, seq. apply append_Ok in Ha as (Hep & Hlen & _). rewrite Hep in H.
    assert ((Z.of_nat (length (encode r)) <=? u32_max) = true) as Hle.
    { apply Z.leb_le. etrans; [exact Hlen|by vm_compute]. }
    rewrite Hle in H. destruct (apply _ _ _) as [b1 ares]. simplify_eq.
    by exists b1, ares.
  - left. apply append_Err in Ha as ->. simplify_eq. split; [by destruct e|eauto].
Qed.

Lemma traced_at_write at_ r e :
  (u64_ok (Book.now (book e)) → u64_ok at_) → traced_at e (write_at at_ r).
Proof.
  intros Hat. unfold traced_at. destruct (write_at at_ r e) as [e' res] eqn:H.
  apply write_at_cases in H as [[-> [je ->]]|(j1 & seq & b1 & ares & Ha & Hb & -> & ->)]; simpl.
  - exists [], []. split_and!; [apply step_refl|done|done].
  - eexists [_], []. split_and!; [|done|].
    + split; simpl; [|by rewrite app_nil_r|done]. eapply recorded_cons; eauto. constructor.
    + intros Hok. repeat constructor. simpl. by destruct ares.
Qed.

Lemma traced_write r : traced (write r).
Proof. intros e. unfold write. by apply (traced_at_write (Book.now (book e)) r e). Qed.

Lemma traced_write_event c t ev : traced (write_event c t ev).
Proof. apply traced_bind; [apply traced_get|]. intros o. apply traced_write. Qed.

Lemma traced_write_tick at_ r : u64_ok at_ → traced (write_at at_ r).
Proof. intros Hat e. by apply traced_at_write. Qed.

(** ** The handlers *)

Create HintDb traced.
#[local] Hint Resolve traced_ret traced_get traced_fail traced_write traced_write_event
  traced_write_tick : traced.

(** Follows the structure of a handler down to its primitives. *)
Ltac traced :=
  intros;
  repeat match goal with
    | |- traced _ => solve [eauto with traced]
    | |- traced (_ ≫= _) => apply traced_bind; [|intros ?; cbv beta]
    | |- traced (request _) => apply traced_request; done
    | |- traced (st_modify _) =>
        apply traced_modify; intros; cbv zeta; repeat case_match; done
    | |- traced (if ?b then _ else _) => destruct b
    | |- traced (match ?x with _ => _ end) => destruct x
    | |- traced (let _ := _ in _) => cbv zeta
    end.

Lemma traced_decide i a k t v n : traced (decide i a k t v n).
Proof. unfold decide. traced. Qed.
#[local] Hint Resolve traced_decide : traced.

Lemma traced_on_halt n : traced (on_halt n).
Proof. unfold on_halt. traced. Qed.
Lemma traced_on_resume n : traced (on_resume n).
Proof. unfold on_resume. traced. Qed.
#[local] Hint Resolve traced_on_halt traced_on_resume : traced.

Lemma traced_ensure_reconciling c t cause : traced (ensure_reconciling c t cause).
Proof. unfold ensure_reconciling. traced. Qed.
#[local] Hint Resolve traced_ensure_reconciling : traced.

Lemma traced_begin_reconcile c t cause : traced (begin_reconcile c t cause).
Proof. unfold begin_reconcile. traced. Qed.
Lemma traced_defer_reconcile c : traced (defer_reconcile c).
Proof. unfold defer_reconcile. traced. Qed.
Lemma traced_retry_loop due : traced (retry_loop due).
Proof. induction due; simpl; traced. Qed.
Lemma traced_str_prefix l s n : traced (str_prefix l s n).
Proof. unfold str_prefix. traced. Qed.
#[local] Hint Resolve traced_begin_reconcile traced_defer_reconcile traced_retry_loop
  traced_str_prefix : traced.

Lemma traced_reconciliation_exec_id c q : traced (reconciliation_exec_id c q).
Proof. unfold reconciliation_exec_id. traced. Qed.
#[local] Hint Resolve traced_reconciliation_exec_id : traced.

Lemma traced_book_the_difference c t q p : traced (book_the_difference c t q p).
Proof. unfold book_the_difference. traced. Qed.
#[local] Hint Resolve traced_book_the_difference : traced.

Lemma traced_on_submitted c o : traced (on_submitted c o).
Proof. unfold on_submitted. traced. Qed.
Lemma traced_on_cancelled c o : traced (on_cancelled c o).
Proof. unfold on_cancelled. traced. Qed.
Lemma traced_forget c : traced (forget c).
Proof. unfold forget. traced. Qed.
#[local] Hint Resolve traced_forget : traced.
Lemma traced_on_looked_up c o : traced (on_looked_up c o).
Proof. unfold on_looked_up. traced. Qed.
Lemma traced_on_streamed v : traced (on_streamed v).
Proof. unfold on_streamed, disown, reconcile_if_needed. traced. Qed.

Lemma traced_adopt_position p : traced (adopt_position p).
Proof. unfold adopt_position. traced. Qed.
#[local] Hint Resolve traced_adopt_position : traced.
Lemma traced_on_position first p : traced (on_position first p).
Proof. unfold on_position. traced. Qed.
#[local] Hint Resolve traced_on_position : traced.
Lemma traced_positions_loop first ps : traced (positions_loop first ps).
Proof. induction ps; simpl; traced. Qed.
#[local] Hint Resolve traced_positions_loop : traced.
Lemma traced_on_positions ps : traced (on_positions ps).
Proof. unfold on_positions. traced. Qed.

Lemma traced_sweep_loop cs : traced (sweep_loop cs).
Proof. induction cs; simpl; traced. Qed.
#[local] Hint Resolve traced_sweep_loop : traced.
Lemma traced_on_sweep : traced on_sweep.
Proof. unfold on_sweep. traced. Qed.
Lemma traced_on_tick at_ : u64_ok at_ → traced (on_tick at_).
Proof. unfold on_tick, retry_due_reconciliations. traced. Qed.

(** ** Placing *)

Lemma write_Ok r e e' a : write r e = (e', Ok a) → ∃ h, step e [(h, r, Ok a)] [] e'.
Proof.
  unfold write, st_get, mbind, ST_bind. intros H.
  apply write_at_cases in H as [[_ [je ?]]|(j1 & seq & b1 & ares & Ha & Hb & -> & Hres)]; [done|].
  destruct ares as [a'|]; [|done]. simpl in Hres. injection Hres as ->.
  eexists. split; simpl; [|by rewrite app_nil_r|done].
  eapply recorded_cons; [done|exact Ha|exact Hb|constructor].
Qed.

(** Either the submission is queued behind the record of its intent, or it is
    not queued at all. *)
Lemma authorise_cases i e :
  traced_at e (authorise i) ∨
  ∃ h a ws rs, step e ((h, Rec.IntentPersisted i, Ok a) :: ws) (rs ++ [VenueRequest.Submit i])
    (authorise i e).1 ∧ submits rs = [] ∧ clean ws.
Proof.
  unfold traced_at, authorise. unfold mbind, ST_bind.
  pose proof (traced_write (Rec.IntentPersisted i) e) as H1. unfold traced_at in H1.
  destruct (write (Rec.IntentPersisted i) e) as [e1 [a|]] eqn:E1; [|by left].
  apply write_Ok in E1 as [h E1].
  pose proof (traced_write_event (Intent.client_order_id i) (Intent.trace_id i)
    SubmissionStarted e1) as (ws2 & rs2 & H2 & Q2 & C2).
  destruct (write_event _ _ _ e1) as [e2 [a2|]]; cbn [fst snd] in *.
  2: { left. exists ([(h, Rec.IntentPersisted i, Ok a)] ++ ws2), rs2.
       split_and!; [exact (step_trans _ _ _ _ _ _ _ E1 H2)|done|done]. }
  match goal with |- context [decide ?i ?a ?k ?t ?v ?n] =>
    pose proof (traced_decide i a k t v n e2) as (ws3 & rs3 & H3 & Q3 & C3);
    destruct (decide i a k t v n e2) as [e3 [a3|]]; cbn [fst snd] in *
  end.
  all: pose proof (step_trans _ _ _ _ _ _ _ E1 (step_trans _ _ _ _ _ _ _ H2 H3)) as Hs.
  - right. exists h, a, (ws2 ++ ws3), (rs2 ++ rs3). split_and!.
    + exact (step_request _ _ _ _ (VenueRequest.Submit i) Hs).
    + by rewrite submits_app, Q2, Q3.
    + apply Forall_app. split; [by apply C2|by apply C3].
  - left. exists ([(h, Rec.IntentPersisted i, Ok a)] ++ ws2 ++ ws3), (rs2 ++ rs3).
    split_and!; [exact Hs|by rewrite submits_app, Q2, Q3|done].
Qed.

(** What the verdict on an intent lets through. *)
Definition placed (e : Engine) (command : Command.t) (i : Intent.t) : Prop :=
  ∃ i0, command = Command.Place i0 ∧ order (book e) (Intent.client_order_id i0) = None ∧
    let v := evaluate (book e) i0
               (mkLimits (max_position (limits (config e))) (position_confirmed e)) (e_halted e) in
    (v = Allow ∧ i = i0) ∨ (∃ q, v = Clamp q ∧ i = Intent.with_qty i0 q).

(** A handler asks for at most one submission, of an intent whose record it
    wrote in the same breath. *)
Definition submits_one {A} (e : Engine) (m : EM A) (ok : Intent.t → Prop) : Prop :=
  ∃ ws rs i h a, step e ws rs (m e).1 ∧ submits rs = [i] ∧ ok i ∧
    (h, Rec.IntentPersisted i, Ok a) ∈ ws ∧ clean ws.

Lemma authorise_account i e (ok : Intent.t → Prop) :
  ok i → traced_at e (authorise i) ∨ submits_one e (authorise i) ok.
Proof.
  intros Hok. destruct (authorise_cases i e) as [?|(h & a & ws & rs & H & Hq & Hc)]; [by left|].
  right. exists ((h, Rec.IntentPersisted i, Ok a) :: ws), (rs ++ [VenueRequest.Submit i]), i, h, a.
  split_and!; [done|by rewrite submits_app, Hq|done|by left|by constructor].
Qed.

Lemma bind_account {A B} e (m : EM A) (f : A → EM B) ok :
  traced_at e m →
  (∀ a, traced_at (m e).1 (f a) ∨ submits_one (m e).1 (f a) ok) →
  traced_at e (m ≫= f) ∨ submits_one e (m ≫= f) ok.
Proof.
  intros (ws & rs & H & Hq & Hc) Hf. unfold traced_at, submits_one, mbind, ST_bind in *.
  destruct (m e) as [e1 [a|err]]; cbn [fst snd] in *; [|left; by exists ws, rs].
  destruct (Hf a) as [(ws' & rs' & H' & Hq' & Hc')|(ws' & rs' & i & h & x & H' & Hq' & Ho & Hin & Hc')];
    [left|right].
  - exists (ws ++ ws'), (rs ++ rs'). split_and!; [by eapply step_trans|by rewrite submits_app, Hq, Hq'|].
    intros Hok. apply Forall_app. split; [by apply Hc|by apply Hc'].
  - exists (ws ++ ws'), (rs ++ rs'), i, h, x.
    split_and!; [by eapply step_trans|by rewrite submits_app, Hq, Hq'|done| |].
    + apply elem_of_app. by right.
    + apply Forall_app. split; [by apply Hc|done].
Qed.

Lemma get_account {A B} e (g : Engine → A) (f : A → EM B) ok :
  traced_at e (f (g e)) ∨ submits_one e (f (g e)) ok →
  traced_at e (st_get g ≫= f) ∨ submits_one e (st_get g ≫= f) ok.
Proof. done. Qed.

Lemma on_place_account i e :
  traced_at e (on_place i) ∨ submits_one e (on_place i) (placed e (Command.Place i)).
Proof.
  unfold on_place. apply get_account. cbv beta zeta. unfold id.
  destruct (order (book e) (Intent.client_order_id i)) as [existing|] eqn:Ho.
  - left. assert (traced (if bool_decide (state (core existing) = Submitting)
      then begin_reconcile (Intent.client_order_id i) (Intent.trace_id i) ReplayedMidSubmission
      else mret tt)) as H by traced. apply H.
  - set (v := evaluate _ _ _ _). destruct v as [|q|r] eqn:Hv.
    + apply authorise_account. exists i. naive_solver.
    + apply bind_account; [apply traced_decide|]. intros _. apply authorise_account.
      exists i. naive_solver.
    + left. apply traced_decide.
Qed.

(** ** Cancelling *)

(** Cancelling is a legal move of the order, when there is one. *)
Definition cancel_legal (e : Engine) (command : Command.t) : Prop :=
  match command with
  | Command.Cancel c _ =>
      ∀ o, order (book e) c = Some o → ∃ o', transition (core o) CancelRequested = Ok o'
  | _ => True
  end.

(** A legal event that is not a fill is taken. *)
Lemma legal_event_applies h c t ap ev o next b :
  b_orders b !! c = Some o → transition (core o) ev = Ok next →
  (∀ x q p, ev ≠ FillReceived x q p) →
  ∃ b', apply h (Rec.OrderEvent c t (state (core o)) (state next) ap ev) b = (b', Ok Changed).
Proof.
  intros Ho Ht Hev. unfold apply, apply_order_event.
  unfold st_get, st_modify, st_lift, st_fail, mbind, ST_bind, mret, ST_ret, id. simpl.
  rewrite Ho. simpl. rewrite bool_decide_eq_true_2 by done. simpl.
  destruct ev; try (by destruct (Hev _ _ _ eq_refl)); rewrite Ht;
    rewrite bool_decide_eq_true_2 by done; simpl; eauto.
Qed.

(** The record [write_event] makes of an event the order can take. *)
Lemma write_event_legal c t ev o next e e' res :
  order (book e) c = Some o → transition (core o) ev = Ok next →
  (∀ x q p, ev ≠ FillReceived x q p) →
  write_event c t ev e = (e', res) → (∃ je, res = Err (EngineError.Journal je)) ∨ res = Ok Changed.
Proof.
  unfold order. intros Ho Ht Hev H. unfold write_event, write, st_get, mbind, ST_bind in H.
  unfold order in H. rewrite Ho in H. cbn in H. rewrite Ht in H. cbn in H.
  apply write_at_cases in H as [[_ ?]|(j1 & seq & b1 & ares & _ & Hb & _ & ->)]; [by left|right].
  match type of Hb with apply ?h (Rec.OrderEvent _ _ _ _ ?ap _) _ = _ =>
    destruct (legal_event_applies h c t ap ev o next (book e) Ho Ht Hev) as [b' Hb']
  end.
  rewrite Hb' in Hb. by simplify_eq/=.
Qed.

Lemma on_cancel_run c t e :
  on_cancel c t e =
    match order (book e) c with
    | None => (e, Ok tt)
    | Some o =>
        let '(e', r) := write_event c t CancelRequested e in
        match r with
        | Ok _ => request (VenueRequest.Cancel c (venue_order_id (core o))) e'
        | Err (EngineError.Ledger le) =>
            if negb (LedgerError.is_integrity_violation le) then (e', Ok tt)
            else (e', Err (EngineError.Ledger le))
        | Err err => (e', Err err)
        end
    end.
Proof.
  unfold on_cancel, caught, st_get, mbind, ST_bind, id.
  destruct (order (book e) c) as [o|]; [|done].
  destruct (write_event c t CancelRequested e) as [e' [a|[]]]; try done. by destruct (negb _).
Qed.

Lemma on_cancel_account c t e :
  ∃ ws rs, step e ws rs (on_cancel c t e).1 ∧ submits rs = [] ∧
    (is_Ok (on_cancel c t e).2 → cancel_legal e (Command.Cancel c t) → clean ws).
Proof.
  rewrite on_cancel_run. cbn [cancel_legal].
  destruct (order (book e) c) as [o|] eqn:Ho; [|by exists [], []; split_and!; [apply step_refl|done|constructor]].
  pose proof (traced_write_event c t CancelRequested e) as (ws & rs & H & Hq & Hc).
  destruct (write_event c t CancelRequested e) as [e' res] eqn:E. cbn [fst snd] in *.
  destruct res as [a|[je|le|at_]].
  - exists ws, (rs ++ [VenueRequest.Cancel c (venue_order_id (core o))]). split_and!.
    + exact (step_request _ _ _ _ _ H).
    + by rewrite submits_app, Hq.
    + intros _ _. by apply Hc.
  - exists ws, rs. split_and!; [done|done|intros Hx; exact (False_ind _ Hx)].
  - exists ws, rs. destruct (negb _).
    + split_and!; [done|done|]. intros _ Hl. destruct (Hl o eq_refl) as [o' Ht].
      apply (write_event_legal _ _ _ o o') in E; [|done..]. naive_solver.
    + split_and!; [done|done|intros Hx; exact (False_ind _ Hx)].
  - exists ws, rs. split_and!; [done|done|intros Hx; exact (False_ind _ Hx)].
Qed.

(** ** Every command *)

Definition command_clock (command : Command.t) : Prop :=
  match command with Command.Tick now => u64_ok now | _ => True end.

Lemma submit_account command e :
  command_clock command →
  ∃ ws rs, step e ws rs (submit command e).1 ∧
    (submits rs = [] ∨
     ∃ i h a, submits rs = [i] ∧ placed e command i ∧ (h, Rec.IntentPersisted i, Ok a) ∈ ws) ∧
    (is_Ok (submit command e).2 → cancel_legal e command → clean ws).
Proof.
  intros Hclock.
  assert (∀ (m : EM unit), traced_at e m ∨ submits_one e m (placed e command) →
    ∃ ws rs, step e ws rs (m e).1 ∧
      (submits rs = [] ∨
       ∃ i h a, submits rs = [i] ∧ placed e command i ∧ (h, Rec.IntentPersisted i, Ok a) ∈ ws) ∧
      (is_Ok (m e).2 → cancel_legal e command → clean ws)) as Hone.
  { intros m [(ws & rs & ? & ? & ?)|(ws & rs & i & h & a & ? & ? & ? & ? & ?)];
      exists ws, rs; split_and!; eauto 10. }
  destruct command; cbn [submit].
  3: { destruct (on_cancel_account c trace_id e) as (ws & rs & ? & ? & ?).
       exists ws, rs. auto. }
  all: apply Hone; first [apply on_place_account | left].
  - by apply traced_on_tick.
  - apply traced_on_submitted.
  - apply traced_on_cancelled.
  - apply traced_on_looked_up.
  - apply traced_on_streamed.
  - apply traced_on_positions.
  - apply traced_on_sweep.
  - apply traced_on_halt.
  - apply traced_on_resume.
  - apply traced_decide.
Qed.
