(* ===== verification/Safety.v ===== *)
(** * What the engine promises the venue (sentinel-engine/src/engine.rs)

    Runs of one engine process: commands and flushes in any order.  No client
    order id is ever submitted twice, and a submission leaves only after the
    record of its intent is durable. *)

From S2P Require Import Prelude Fixed Types Domain Intent Position Crc Format Codec Records Segment Journal Book Venue Guards Engine Trace.

(** ** What a stretch of records does to the book and the journal *)

Lemma apply_orders_grow h r b b' res c :
  apply h r b = (b', res) → is_Some (b_orders b !! c) → is_Some (b_orders b' !! c).
Proof.
  intros H Hc. unfold apply, apply_order_event, position_entry in H.
  unfold st_get, st_modify, st_lift, st_fail, mbind, ST_bind, mret, ST_ret, id in H.
  repeat (case_match; simplify_eq/=; try done).
  all: rewrite lookup_insert_is_Some'; auto.
Qed.

Lemma apply_intent_known h i b b' a :
  apply h (Rec.IntentPersisted i) b = (b', Ok a) →
  is_Some (b_orders b' !! Intent.client_order_id i).
Proof.
  unfold apply, st_get, st_modify, mbind, ST_bind, mret, ST_ret.
  case_bool; intros; simplify_eq/=; z_reflect; [done|].
  rewrite lookup_insert_is_Some'. by left.
Qed.

Lemma recorded_orders_grow j b ws j' b' c :
  recorded j b ws j' b' → is_Some (b_orders b !! c) → is_Some (b_orders b' !! c).
Proof. induction 1; [done|]. intros. eauto using apply_orders_grow. Qed.

Lemma recorded_intent_known j b ws j' b' h i a :
  recorded j b ws j' b' → (h, Rec.IntentPersisted i, Ok a) ∈ ws →
  is_Some (b_orders b' !! Intent.client_order_id i).
Proof.
  induction 1 as [|j b at_ r j1 seq b1 res ws j2 b2 _ _ Hb Hr IH]; [by intros ?%elem_of_nil|].
  intros [E|?]%elem_of_cons; [|by apply IH]. simplify_eq.
  eapply recorded_orders_grow; [exact Hr|]. by eapply apply_intent_known.
Qed.

Lemma apply_now h r b b' res : apply h r b = (b', res) → Book.now b' = Z.max (Book.now b) (fh_nanos h).
Proof.
  unfold apply, apply_order_event, position_entry.
  unfold st_get, st_modify, st_lift, st_fail, mbind, ST_bind, mret, ST_ret, id. intros H.
  repeat (case_match; simplify_eq/=; try done).
Qed.

(** Sequence numbers grow; short of exhausting [u64] none is reused. *)
Lemma recorded_seq j b ws j' b' :
  recorded j b ws j' b' → 0 ≤ j_next_seq j → j_next_seq j' < u64_max → j_next_seq j ≤ j_next_seq j'.
Proof.
  induction 1 as [|j b at_ r j1 seq b1 res ws j2 b2 _ Ha _ _ IH]; [lia|].
  intros Hj Hmax. apply append_Ok in Ha as (_ & _ & _ & Hn).
  unfold seq_next in Hn. revert IH. rewrite Hn. unfold_ranges. lia.
Qed.

Lemma recorded_nonneg j b ws j' b' :
  recorded j b ws j' b' → 0 ≤ j_next_seq j → 0 ≤ j_next_seq j'.
Proof.
  induction 1 as [|j b at_ r j1 seq b1 res ws j2 b2 _ Ha _ _ IH]; [done|].
  intros _. apply IH. apply append_Ok in Ha as (_ & _ & _ & ->). unfold seq_next. unfold_ranges. lia.
Qed.

(** The journal's memory and the directory stay in agreement. *)
Lemma recorded_writer j b ws j' b' gs ps :
  recorded j b ws j' b' → writer_inv j gs ps → u64_ok (Book.now b) → j_next_seq j' < u64_max →
  writer_inv j' gs (ps ++ (frame_of <$> ws)) ∧ u64_ok (Book.now b').
Proof.
  intros H. revert ps.
  induction H as [|j b at_ r j1 seq b1 res ws j2 b2 Hat Ha Hb Hr IH]; intros ps Hi Hnow Hmax.
  { by rewrite app_nil_r. }
  assert (j_next_seq j < u64_max) as Hlt.
  { pose proof (wi_next _ _ _ Hi). apply append_Ok in Ha as (_ & _ & _ & Hn).
    pose proof (recorded_seq _ _ _ _ _ Hr) as Hs. rewrite Hn in Hs. unfold seq_next in Hs.
    unfold_ranges. lia. }
  destruct (append_inv _ _ _ _ _ _ _ _ Hi (Hat Hnow) Hlt Ha) as (-> & Hi1 & _).
  rewrite fmap_cons. unfold frame_of at 1. cbn [fst snd].
  rewrite cons_middle, app_assoc. apply IH; [done| |done].
  rewrite (apply_now _ _ _ _ _ Hb). cbn [fh_nanos]. specialize (Hat Hnow).
  destruct Hat, Hnow. split; lia.
Qed.

(** ** Runs *)

(** One process: commands, whatever they return, and acknowledged flushes; the
    list is what the flushes released to the venue, in order. *)
Inductive run : Engine → list VenueRequest.t → Engine → Prop :=
| run_nil e : run e [] e
| run_submit e command e' res out e'' :
    command_clock command → submit command e = (e', res) → run e' out e'' → run e out e''
| run_flush e io e' out out' e'' :
    engine_flush io e = (e', Ok out) → run e' out' e'' → run e (out ++ out') e''.

Lemma engine_flush_Ok io e e' out :
  engine_flush io e = (e', Ok out) →
  ∃ j seq, flush io (journal e) = (j, Ok seq) ∧
    e' = set_uncommitted [] (set_journal j e) ∧ out = uncommitted e.
Proof.
  unfold engine_flush, on_journal, st_get, st_modify, mbind, ST_bind, mret, ST_ret.
  destruct (flush io (journal e)) as [j [seq|]]; simpl; [|done]. intros. simplify_eq. eauto.
Qed.

(** The client order ids asked to be submitted. *)
Definition submitted (rs : list VenueRequest.t) : list ClientOrderId :=
  Intent.client_order_id <$> submits rs.

Lemma submitted_app a b : submitted (a ++ b) = submitted a ++ submitted b.
Proof. unfold submitted. by rewrite submits_app, fmap_app. Qed.

(** A list of ids that were unknown to one book and are all known to another. *)
Definition fresh_ids (b b' : Book) (cs : list ClientOrderId) : Prop :=
  NoDup cs ∧ (∀ c, c ∈ cs → order b c = None ∧ is_Some (order b' c)) ∧
  (∀ c, is_Some (order b c) → is_Some (order b' c)).

Lemma fresh_ids_app b b1 b2 cs cs' :
  fresh_ids b b1 cs → fresh_ids b1 b2 cs' → fresh_ids b b2 (cs ++ cs').
Proof.
  intros (N1 & H1 & G1) (N2 & H2 & G2). split_and!; [| |by auto].
  - apply NoDup_app. split_and!; [done| |done]. intros c Hc Hc'.
    destruct (H1 c Hc) as [_ Hs], (H2 c Hc') as [Hn _]. rewrite Hn in Hs. by destruct Hs.
  - intros c [Hc|Hc]%elem_of_app; [by destruct (H1 c Hc); auto|].
    destruct (H2 c Hc) as [Hn Hs]. split; [|done]. apply eq_None_not_Some. intros Hs'.
    apply G1 in Hs'. rewrite Hn in Hs'. by destruct Hs'.
Qed.

Lemma submit_fresh command e :
  command_clock command →
  ∃ rs, uncommitted (submit command e).1 = uncommitted e ++ rs ∧
    fresh_ids (book e) (book (submit command e).1) (submitted rs).
Proof.
  intros Hc. destruct (submit_account command e Hc) as (ws & rs & [Hr Hu _] & Hs & _).
  exists rs. split; [done|]. 
  assert (∀ c, is_Some (order (book e) c) → is_Some (order (book (submit command e).1) c))
    as Hgrow by (intros c; by eapply recorded_orders_grow).
  destruct Hs as [Hs|(i & h & a & Hs & (i0 & -> & Hnone & Hv) & Hin)];
    unfold submitted; rewrite Hs; cbn [fmap list_fmap].
  - split_and!; [constructor|by intros c ?%elem_of_nil|done].
  - split_and!; [apply NoDup_singleton| |done]. intros c ->%list_elem_of_singleton. split.
    + by destruct Hv as [[_ ->]|(q & _ & ->)].
    + by eapply recorded_intent_known.
Qed.

Lemma run_fresh e out e' :
  run e out e' →
  ∃ cs, submitted (out ++ uncommitted e') = submitted (uncommitted e) ++ cs ∧
    fresh_ids (book e) (book e') cs.
Proof.
  induction 1 as [e|e command e1 res out e2 Hc Hs _ (cs & Hcs & Hf)|e io e1 out out' e2 Hfl _ (cs & Hcs & Hf)].
  - exists []. split; [by rewrite app_nil_r|].
    split_and!; [constructor|by intros c ?%elem_of_nil|done].
  - destruct (submit_fresh command e Hc) as (rs & Hu & Hf1). rewrite Hs in Hu, Hf1.
    cbn [fst] in *. exists (submitted rs ++ cs).
    split; [|by eapply fresh_ids_app]. by rewrite Hcs, Hu, submitted_app, app_assoc.
  - apply engine_flush_Ok in Hfl as (j & seq & _ & -> & ->). cbn [uncommitted set_uncommitted] in Hcs.
    exists cs. rewrite <-app_assoc, submitted_app, Hcs. split; [done|exact Hf].
Qed.

(** *** What is durable *)

Lemma flush_next io j : j_next_seq (flush io j).1 = j_next_seq j.
Proof.
  unfold flush, poison, roll, create_segment, st_get, st_modify, st_fail, mbind, ST_bind,
    mret, ST_ret, id.
  repeat case_match; simplify_eq/=; done.
Qed.

(** The record of an intent, among the frames of a log. *)
Definition has_intent (i : Intent.t) (l : list Frame) : Prop :=
  ∃ f, f ∈ l ∧ fh_kind f.1 = RecordKind.IntentPersisted ∧ f.2 = encode (Rec.IntentPersisted i).

Lemma has_intent_app i l k : has_intent i l → has_intent i (l ++ k).
Proof. intros (f & ? & ?). exists f. split; [apply elem_of_app; by left|done]. Qed.

Lemma elem_of_submits i rs : VenueRequest.Submit i ∈ rs ↔ i ∈ submits rs.
Proof.
  unfold submits. rewrite list_elem_of_omap. split; [by intros ?; eexists|].
  intros ([] & ? & ?); naive_solver.
Qed.

(** The journal is sound, and every submission queued or released has the
    record of its intent in the log. *)
Record wal (e : Engine) (gs : list Group) (ps : list Frame) : Prop := {
  wal_writer : writer_inv (journal e) gs ps;
  wal_clock : u64_ok (Book.now (book e));
  wal_logged i : VenueRequest.Submit i ∈ uncommitted e → has_intent i (log gs ++ ps);
}.

Lemma submit_wal command e e' res gs ps :
  wal e gs ps → command_clock command → submit command e = (e', res) →
  j_next_seq (journal e') < u64_max →
  ∃ ws, wal e' gs (ps ++ (frame_of <$> ws)).
Proof.
  intros [Hw Hclk Hlog] Hc Hs Hmax.
  destruct (submit_account command e Hc) as (ws & rs & [Hr Hu _] & Hsub & _).
  rewrite Hs in Hr, Hu. cbn [fst] in *. exists ws.
  destruct (recorded_writer _ _ _ _ _ _ _ Hr Hw Hclk Hmax) as [Hw' Hclk'].
  split; [done|done|]. intros i. rewrite Hu, elem_of_app. intros [Hi|Hi].
  - rewrite app_assoc. by apply has_intent_app, Hlog.
  - apply elem_of_submits in Hi. destruct Hsub as [Hsub|(i' & h & a & Hsub & _ & Hin)];
      rewrite Hsub in Hi; [by apply elem_of_nil in Hi|].
    apply list_elem_of_singleton in Hi as ->.
    clear -Hr Hin. rewrite app_assoc.
    assert (fh_kind h = RecordKind.IntentPersisted) as Hk.
    { induction Hr; [by apply elem_of_nil in Hin|].
      apply elem_of_cons in Hin as [E|?]; [by simplify_eq|auto]. }
    exists (frame_of (h, Rec.IntentPersisted i', Ok a)). split; [|done].
    apply elem_of_app. right. by apply list_elem_of_fmap_2.
Qed.

Lemma flush_wal io e e' out gs ps :
  wal e gs ps → engine_flush io e = (e', Ok out) → j_next_seq (journal e') < u64_max →
  ∃ gs', wal e' gs' [] ∧ log gs' = log gs ++ ps ∧
    ∀ i, VenueRequest.Submit i ∈ out → has_intent i (log gs').
Proof.
  intros [Hw Hclk Hlog] Hf Hmax.
  apply engine_flush_Ok in Hf as (j & seq & Hf & -> & ->). cbn [journal set_journal set_uncommitted] in Hmax.
  pose proof (flush_next io (journal e)) as Hn. rewrite Hf in Hn. cbn [fst] in Hn.
  destruct (flush_inv _ _ _ _ _ _ Hw ltac:(lia) Hf) as (gs' & Hw' & Hl).
  exists gs'. split_and!; [|done|by rewrite Hl].
  split; [done|done|]. by intros i ?%elem_of_nil.
Qed.

Lemma run_nonneg e out e' :
  run e out e' → 0 ≤ j_next_seq (journal e) → 0 ≤ j_next_seq (journal e').
Proof.
  induction 1 as [e|e command e1 res out e2 Hc Hs _ IH|e io e1 out out' e2 Hfl _ IH]; [done| |].
  - intros Hj. apply IH. destruct (submit_account command e Hc) as (ws & rs & [Hr _ _] & _).
    rewrite Hs in Hr. cbn [fst] in Hr. by eapply recorded_nonneg.
  - intros Hj. apply IH. apply engine_flush_Ok in Hfl as (j & seq & Hf & -> & ->).
    pose proof (flush_next io (journal e)) as Hn. rewrite Hf in Hn. cbn [fst] in Hn.
    cbn [journal set_journal set_uncommitted]. lia.
Qed.

Lemma run_seq e out e' :
  run e out e' → 0 ≤ j_next_seq (journal e) → j_next_seq (journal e') < u64_max →
  j_next_seq (journal e) ≤ j_next_seq (journal e').
Proof.
  induction 1 as [e|e command e1 res out e2 Hc Hs _ IH|e io e1 out out' e2 Hfl _ IH]; [lia| |].
  - intros Hj Hmax. destruct (submit_account command e Hc) as (ws & rs & [Hr _ _] & _).
    rewrite Hs in Hr. cbn [fst] in Hr. pose proof (recorded_seq _ _ _ _ _ Hr Hj).
    pose proof (recorded_nonneg _ _ _ _ _ Hr Hj). lia.
  - apply engine_flush_Ok in Hfl as (j & seq & Hf & -> & ->). 
    pose proof (flush_next io (journal e)) as Hn. rewrite Hf in Hn. cbn [fst] in Hn.
    cbn [journal set_journal set_uncommitted] in IH. lia.
Qed.

Lemma run_wal e out e' gs ps :
  run e out e' → wal e gs ps → j_next_seq (journal e') < u64_max →
  ∃ gs' ps' new, wal e' gs' ps' ∧ log gs' = log gs ++ new ∧
    ∀ i, VenueRequest.Submit i ∈ out → has_intent i (log gs').
Proof.
  intros H. revert gs ps.
  induction H as [e|e command e1 res out e2 Hc Hs Hr IH|e io e1 out out' e2 Hfl Hr IH];
    intros gs ps Hw Hmax.
  - exists gs, ps, []. rewrite app_nil_r. split_and!; [done|done|by intros i ?%elem_of_nil].
  - assert (0 ≤ j_next_seq (journal e1)).
    { pose proof (wi_next _ _ _ (wal_writer _ _ _ Hw)).
      destruct (submit_account command e Hc) as (ws & rs & [Hrec _ _] & _).
      rewrite Hs in Hrec. cbn [fst] in Hrec. eapply recorded_nonneg; [exact Hrec|lia]. }
    pose proof (run_seq _ _ _ Hr).
    destruct (submit_wal _ _ _ _ _ _ Hw Hc Hs ltac:(lia)) as (ws & Hw1). by eapply IH.
  - pose proof (run_seq _ _ _ Hr) as Hseq.
    pose proof Hfl as (j & seq & Hf & E & _)%engine_flush_Ok. 
    pose proof (flush_next io (journal e)) as Hn. rewrite Hf in Hn. cbn [fst] in Hn.
    pose proof (wi_next _ _ _ (wal_writer _ _ _ Hw)).
    assert (j_next_seq (journal e1) = j_next_seq (journal e)) by (rewrite E; exact Hn).
    destruct (flush_wal _ _ _ _ _ _ Hw Hfl ltac:(lia)) as (gs1 & Hw1 & Hl & Hout).
    destruct (IH _ _ Hw1 Hmax) as (gs' & ps' & new & Hw' & Hl' & Hout').
    exists gs', ps', (ps ++ new). split_and!; [done|by rewrite Hl', Hl, app_assoc|].
    intros i [Hi|Hi]%elem_of_app; [|by apply Hout'].
    rewrite Hl'. by apply has_intent_app, Hout.
Qed.

(** *** Running a script *)

(** A run of commands and flushes, computed. *)
Inductive Input := Do (command : Command.t) | Flush (io : FlushIo).

Fixpoint run_script (script : list Input) (e : Engine) : option (list VenueRequest.t * Engine) :=
  match script with
  | [] => Some ([], e)
  | Do command :: rest => run_script rest (submit command e).1
  | Flush io :: rest =>
      match engine_flush io e with
      | (e', Ok out) => '(out', e'') ← run_script rest e'; Some (out ++ out', e'')
      | _ => None
      end
  end.

Definition clocks_ok (script : list Input) : Prop :=
  Forall (λ i, match i with Do c => command_clock c | _ => True end) script.

Lemma run_script_run script e out e' :
  clocks_ok script → run_script script e = Some (out, e') → run e out e'.
Proof.
  intros Hc. revert e out. induction Hc as [|[c|io] script Hi Hc IH]; intros e out H; simpl in H.
  - simplify_eq. constructor.
  - destruct (submit c e) as [e1 r] eqn:E. cbn [fst] in H. eapply run_submit; eauto.
  - destruct (engine_flush io e) as [e1 [out1|]] eqn:E; [|done].
    destruct (run_script script e1) as [[out2 e2]|] eqn:E2; simplify_eq/=.
    eapply run_flush; eauto.
Qed.

(** A fresh process: positions confirmed, an entry placed, placed again, timed
    out, found at the venue, a cancel. *)
Definition ex_engine : Engine :=
  Eval vm_compute in
    engine_new ex_claimed (unwrap_or (rebuild [claim_record [] 5]) book_new) config_default.

Definition ex_script : list Input := [
  Do (Command.Tick 1000);
  Do (positions_reported []);
  Do (Command.Place ex_intent);
  Flush IoOk;
  Do (Command.Place ex_intent);
  Do (Command.Submitted ex_coid SubmitOutcome.TimedOut);
  Do (Command.Place ex_intent);
  Flush IoOk;
  Do (Command.LookedUp ex_coid (LookupOutcome.Found
        (mkOrderSnapshot Working (Some (ex_text 32 "V-1")) ZERO None)));
  Do (Command.Place ex_intent);
  Flush IoOk;
  Do (Command.Cancel ex_coid 9)].

Definition ex_ran : list VenueRequest.t * Engine :=
  Eval vm_compute in default ([], ex_engine) (run_script ex_script ex_engine).

Lemma ex_clocks : clocks_ok ex_script.
Proof. repeat constructor; vm_compute; congruence. Qed.

Lemma ex_run : run ex_engine ex_ran.1 ex_ran.2.
Proof. apply (run_script_run ex_script); [apply ex_clocks|vm_compute; reflexivity]. Qed.

(** The journal of the example is sound. *)
Lemma ex_wal : ∃ gs, wal ex_engine gs [].
Proof.
  destruct (claim_fresh 5 ltac:(done)) as (j & gs & Hc & Hw & _).
  exists gs. split.
  - assert (journal ex_engine = j) as ->; [|exact Hw].
    assert ((claim false IoOk [] 5).2 = Ok j) as E by (by rewrite Hc).
    vm_compute in E. by injection E.
  - split; vm_compute; congruence.
  - by intros i ?%elem_of_nil.
Qed.

Example ex_released :
  submitted ex_ran.1 = [ex_coid] ∧ length ex_ran.1 = 2%nat ∧
  uncommitted ex_ran.2 = [VenueRequest.Cancel ex_coid (Some (ex_text 32 "V-1"))].
Proof. vm_compute. split_and!; reflexivity. Qed.

(** ** Properties *)

(** C2: over any run of commands and flushes of one process, whatever the
    venue answers and whatever times out, no client order id is asked to be
    submitted twice; none that the book already knew when the process opened is
    asked at all; and every one asked is an order of the book from then on. *)
Theorem never_submitted_twice e out e' :
  run e out e' → uncommitted e = [] →
  NoDup (submitted (out ++ uncommitted e')) ∧
  (∀ c, c ∈ submitted (out ++ uncommitted e') → order (book e) c = None ∧ is_Some (order (book e') c)).
Proof.
  intros (cs & Hcs & Hn & Hf & _)%run_fresh Hu. rewrite Hu in Hcs. cbn in Hcs.
  rewrite Hcs. done.
Qed.

Lemma never_submitted_twice_witness :
  NoDup (submitted (ex_ran.1 ++ uncommitted ex_ran.2)) ∧
  (∀ c, c ∈ submitted (ex_ran.1 ++ uncommitted ex_ran.2) →
     order (book ex_engine) c = None ∧ is_Some (order (book ex_ran.2) c)).
Proof. apply (never_submitted_twice ex_engine); [exact ex_run|reflexivity]. Defined.

(** What a writer holds on the disk of an intent, wherever it stops: the next
    claim recovers its record, or, when the crash tore the header of a segment
    being made and no claim can succeed, the record is in the segments before. *)
Definition kept_intent (i : Intent.t) (j : Journal) (c : CrashPoint) (now : Nanos) : Prop :=
  if torn_header c then ∃ l, headless (crash j c) l ∧ has_intent i l
  else ∃ j' gs', claim false IoOk (crash j c) now = (j_dir j', Ok j') ∧
    writer_inv j' gs' [] ∧ has_intent i (log gs').

(** The same of a directory, however it came to be. *)
Definition kept_in (i : Intent.t) (dir : Dir) (now : Nanos) : Prop :=
  (∃ l, headless dir l ∧ has_intent i l) ∨
  (∃ j' gs', claim false IoOk dir now = (j_dir j', Ok j') ∧ writer_inv j' gs' [] ∧ has_intent i (log gs')).

Lemma kept_intent_in i j c now : kept_intent i j c now → kept_in i (crash j c) now.
Proof. unfold kept_intent. destruct (torn_header c); [by left|by right]. Qed.

Lemma durable_kept i j gs ps c now :
  writer_inv j gs ps → has_intent i (log gs) → reached j c → u64_ok now →
  1 + j_next_seq j < u64_max → kept_intent i j c now.
Proof.
  intros Hw Hi Hr Hnow Hmax. pose proof (wi_next _ _ _ Hw). unfold kept_intent.
  destruct (torn_header c) eqn:Ht.
  - destruct (crash_blocked j gs ps c Hw Hr Ht ltac:(lia)) as [Hl _].
    eexists. split; [exact Hl|]. by apply has_intent_app.
  - destruct (crash_claim j gs ps c now Hw Hr Ht Hnow ltac:(lia)) as (j' & gs' & Hc & Hw' & Hl').
    exists j', gs'. split_and!; [done|done|]. rewrite Hl'. by do 2 apply has_intent_app.
Qed.

Lemma run_kept e0 gs out e i :
  wal e0 gs [] → run e0 out e → j_next_seq (journal e) < u64_max → VenueRequest.Submit i ∈ out →
  ∃ gs1 ps1, writer_inv (journal e) gs1 ps1 ∧ has_intent i (log gs1).
Proof.
  intros Hw Hr Hmax Hi. destruct (run_wal _ _ _ _ _ Hr Hw Hmax) as (gs1 & ps1 & _ & Hw1 & _ & Hout).
  exists gs1, ps1. split; [exact (wal_writer _ _ _ Hw1)|by apply Hout].
Qed.

(** C1: a submission leaves the process only after the record of its intent is
    durable, and it stays so: however the process goes on, crash it anywhere in a
    flush or in the roll after it and claim the directory again, and the log that
    claim recovers holds the record of the very intent that was sent.  When the
    crash leaves a segment without its header, which no claim takes, the record
    is whole in the segments before it. *)
Theorem submission_after_record e0 gs e out e' out' i c now :
  wal e0 gs [] → run e0 out e → VenueRequest.Submit i ∈ out → run e out' e' →
  reached (journal e') c → u64_ok now → 1 + j_next_seq (journal e') < u64_max →
  kept_intent i (journal e') c now.
Proof.
  intros Hw Hrun Hi Hrun' Hr Hnow Hmax.
  assert (0 ≤ j_next_seq (journal e)) as H0.
  { eapply run_nonneg; [exact Hrun|]. rewrite (wi_next _ _ _ (wal_writer _ _ _ Hw)). lia. }
  pose proof (run_seq _ _ _ Hrun' H0 ltac:(lia)).
  destruct (run_wal _ _ _ _ _ Hrun Hw ltac:(lia)) as (gs1 & ps1 & _ & Hw1 & _ & Hout).
  destruct (run_wal _ _ _ _ _ Hrun' Hw1 ltac:(lia)) as (gs2 & ps2 & new & Hw2 & Hl & _).
  eapply durable_kept; [exact (wal_writer _ _ _ Hw2)| |done..].
  rewrite Hl. by apply has_intent_app, Hout.
Qed.

Lemma submission_after_record_witness :
  ∃ j gs', claim false IoOk (crash (journal ex_ran.2) (Writing 100)) 2000 = (j_dir j, Ok j) ∧
    writer_inv j gs' [] ∧ has_intent ex_intent (log gs').
Proof.
  destruct ex_wal as [gs Hw].
  apply (submission_after_record ex_engine gs ex_ran.2 ex_ran.1 ex_ran.2 [] ex_intent (Writing 100) 2000).
  - exact Hw.
  - exact ex_run.
  - apply elem_of_submits. vm_compute. left.
  - constructor.
  - exact I.
  - split; [lia|reflexivity].
  - reflexivity.
Defined.

(** What a submission needed: an intent the guards let through, and for one that
    opens exposure a trading account and a venue heard from. *)
Definition authorised (e : Engine) (command : Command.t) (i : Intent.t) : Prop :=
  placed e command i ∧
  (Intent.opens_exposure i = true → e_halted e = false ∧ position_confirmed e = true).

(** C6: a command asks for at most one submission, and only by placing an
    intent whose client order id the book does not know and whose verdict let it
    through: the very intent on [Allow], the same with the allowed quantity on
    [Clamp].  No answer of the venue, no timeout and no sweep ever submits.
    When what is submitted opens exposure, the account was not halted and the
    venue had reported its positions. *)
Theorem submission_authorised command e :
  command_clock command →
  ∃ new, submits (uncommitted (submit command e).1) = submits (uncommitted e) ++ new ∧
    (length new ≤ 1)%nat ∧
    ∀ i, i ∈ new → authorised e command i.
Proof.
  intros Hc. destruct (submit_account command e Hc) as (ws & rs & [_ Hu _] & Hs & _).
  exists (submits rs). rewrite Hu, submits_app. split; [done|].
  destruct Hs as [->|(i & h & a & -> & Hp & _)]; [split; [simpl; lia|by intros ? ?%elem_of_nil]|].
  split; [simpl; lia|]. intros i' ->%list_elem_of_singleton. split; [done|].
  destruct Hp as (i0 & _ & _ & [[Hv ->]|(q & Hv & ->)]); intros Ho;
    unfold evaluate in Hv; rewrite ?Ho in Hv.
  - unfold evaluate_entry in Hv. destruct (e_halted e); [done|].
    destruct (position_confirmed e); done.
  - change (Intent.opens_exposure i0 = true) in Ho. rewrite Ho in Hv.
    unfold evaluate_entry in Hv. repeat case_match; discriminate.
Qed.

Lemma submission_authorised_witness :
  let e := (submit (positions_reported []) ex_engine).1 in
  ∃ new, submits (uncommitted (submit (Command.Place ex_intent) e).1) = submits (uncommitted e) ++ new ∧
    (length new ≤ 1)%nat ∧
    ∀ i, i ∈ new → authorised e (Command.Place ex_intent) i.
Proof. intros e. apply (submission_authorised (Command.Place ex_intent) e). exact I. Defined.
