(* ===== verification/Runtime.v ===== *)
(** * The process (sentineld/src/runtime.rs)

    Three threads and two queues: the writer owns the engine, the venue worker
    owns the adapter, the ticker sends the time.  A step of the system is one
    turn of one of them; the threads share nothing but the queues, so a turn
    that only touches its own state and the ends of a queue is one step. *)

From S2P Require Import Prelude Fixed Types Domain Intent Position Crc Format Codec Records Segment Journal Book Venue Sim Guards Engine Trace Safety.

(** ** The venue worker *)

Section worker.
Context {V : Type} `{Venue V}.

(** A call that could not be made produces nothing; a panic ends the process. *)
Definition answered {A} (m : ST V VenueFailure A) (command : A → Command.t) (v : V) :
    V * option (list Command.t) :=
  match m v with
  | (v', Ok outcome) => (v', Some [command outcome])
  | (v', Err (VenueErr _)) => (v', Some [])
  | (v', Err VenuePanic) => (v', None)
  end.

Definition perform (r : VenueRequest.t) : V → V * option (list Command.t) :=
  match r with
  | VenueRequest.Submit intent =>
      answered (venue_submit intent) (Command.Submitted (Intent.client_order_id intent))
  | VenueRequest.Cancel c venue_order_id =>
      answered (venue_cancel c venue_order_id) (Command.Cancelled c)
  | VenueRequest.Lookup c => answered (venue_lookup c) (Command.LookedUp c)
  | VenueRequest.Positions => answered venue_positions positions_reported
  end.

(** ** The writer *)

(** The loop over a batch; [false] when an error is fatal. *)
Fixpoint writer_batch (batch : list Command.t) (e : Engine) : Engine * bool :=
  match batch with
  | [] => (e, true)
  | command :: batch' =>
      match submit command e with
      | (e', Err err) => if EngineError.is_fatal err then (e', false) else writer_batch batch' e'
      | (e', Ok _) => writer_batch batch' e'
      end
  end.

(** The loop that drains the queue on the way out: errors are dropped. *)
Fixpoint writer_drain (batch : list Command.t) (e : Engine) : Engine :=
  match batch with
  | [] => e
  | command :: batch' => writer_drain batch' (submit command e).1
  end.

(** ** The system *)

(** [sys_performed] is a ghost: what the worker has handed to the venue. *)
Record System := mkSystem {
  sys_engine : Engine;
  sys_venue : V;
  sys_commands : list Command.t;
  sys_requests : list VenueRequest.t;
  sys_running : bool;
  sys_writer : bool;
  sys_performed : list VenueRequest.t;
}.

(** What [start] builds. *)
Definition start (e : Engine) (v : V) : System := mkSystem e v [] [] true true [].

Definition send_commands (cs : list Command.t) (s : System) : System :=
  mkSystem (sys_engine s) (sys_venue s) (sys_commands s ++ cs) (sys_requests s)
    (sys_running s) (sys_writer s) (sys_performed s).

Definition stop (s : System) : System :=
  mkSystem (sys_engine s) (sys_venue s) (sys_commands s) (sys_requests s) false
    (sys_writer s) (sys_performed s).

(** The writer thread ends; the flag goes down with it. *)
Definition writer_ends (e : Engine) (rest : list Command.t) (s : System) : System :=
  mkSystem e (sys_venue s) rest (sys_requests s) false false (sys_performed s).

(** One turn of the writer on what it found queued. *)
Definition writer_turn (io : FlushIo) (batch rest : list Command.t) (s : System) : System :=
  match writer_batch batch (sys_engine s) with
  | (e, false) => writer_ends e rest s
  | (e, true) =>
      match engine_flush io e with
      | (e', Ok requests) =>
          mkSystem e' (sys_venue s) rest (sys_requests s ++ requests) (sys_running s)
            (sys_writer s) (sys_performed s)
      | (e', Err _) => writer_ends e' rest s
      end
  end.

(** The drain on the way out.  What its flush releases is dropped. *)
Definition writer_exit (io : FlushIo) (s : System) : System :=
  writer_ends (engine_flush io (writer_drain (sys_commands s) (sys_engine s))).1 [] s.

(** The worker takes what the stream pushed. *)
Definition worker_stream (s : System) : System :=
  let '(v, events) := venue_drain (sys_venue s) in
  mkSystem (sys_engine s) v (sys_commands s ++ (Command.Streamed <$> events)) (sys_requests s)
    (sys_running s) (sys_writer s) (sys_performed s).

(** What the other threads may say: the ticker, and the control socket through
    [Runtime::submit]. *)
Context (said : Command.t → Prop).

Inductive sys_step : System → System → Prop :=
| ss_send c s :
    said c → sys_writer s = true → sys_step s (send_commands [c] s)
| ss_stream s : sys_writer s = true → sys_step s (worker_stream s)
| ss_perform r rest s v answers :
    sys_requests s = r :: rest → perform r (sys_venue s) = (v, Some answers) →
    sys_step s (mkSystem (sys_engine s) v (sys_commands s ++ answers) rest (sys_running s)
      (sys_writer s) (sys_performed s ++ [r]))
| ss_write io batch rest s :
    sys_writer s = true → sys_running s = true → batch ≠ [] → sys_commands s = batch ++ rest →
    sys_step s (writer_turn io batch rest s)
| ss_stop s : sys_step s (stop s)
| ss_exit io s : sys_writer s = true → sys_running s = false → sys_step s (writer_exit io s).

Inductive sys_reach (s0 : System) : System → Prop :=
| sr_start : sys_reach s0 s0
| sr_step s s' : sys_reach s0 s → sys_step s s' → sys_reach s0 s'.
End worker.
Arguments System V : clear implicits.

(** ** What the queues carry is a run of the engine *)

Lemma run_trans e out e' out' e'' : run e out e' → run e' out' e'' → run e (out ++ out') e''.
Proof.
  induction 1 as [|e command e1 res out e2 Hc Hs _ IH|e io e1 out out2 e2 Hf _ IH]; [done|..];
    intros H2.
  - eapply run_submit; eauto.
  - rewrite <-app_assoc. eapply run_flush; eauto.
Qed.

Lemma writer_batch_run batch e :
  Forall command_clock batch → run e [] (writer_batch batch e).1.
Proof.
  intros H. revert e. induction H as [|c batch Hc _ IH]; intros e; cbn [writer_batch]; [constructor|].
  destruct (submit c e) as [e1 [u|err]] eqn:Es; [eapply run_submit; eauto|].
  case_bool; [|eapply run_submit; eauto]. eapply run_submit; [done|exact Es|constructor].
Qed.

Lemma writer_drain_run batch e : Forall command_clock batch → run e [] (writer_drain batch e).
Proof.
  intros H. revert e. induction H as [|c batch Hc _ IH]; intros e; cbn [writer_drain]; [constructor|].
  destruct (submit c e) as [e1 r] eqn:Es. eapply run_submit; [done|exact Es|apply IH].
Qed.

Section invariant.
Context {V : Type} `{Venue V} (said : Command.t → Prop).

Lemma perform_clock r (v v' : V) answers :
  perform r v = (v', Some answers) → Forall command_clock answers.
Proof.
  unfold perform, answered. intros E. destruct r; repeat (case_match; simplify_eq); by repeat constructor.
Qed.

(** The journal [j] of a writer that has ended is that of [e], stopped between
    two flushes or by one that failed. *)
Definition stopped_by (e : Engine) (j : Journal) : Prop :=
  j_next_seq j = j_next_seq (journal e) ∧
  (j_next_seq j < u64_max → ∃ c, reached (journal e) c ∧ j_dir j = crash (journal e) c).

Lemma stopped_here e : stopped_by e (journal e).
Proof.
  split; [done|]. intros _. exists (Writing 0). split; [done|]. cbn [crash]. rewrite take_0.
  unfold dir_append. rewrite <-(list_fmap_id (j_dir (journal e))) at 1.
  apply list_fmap_ext. intros _ [b f] _. cbn. case_match; [by rewrite app_nil_r|done].
Qed.

Lemma stopped_flush io e0 gs out e e' err :
  wal e0 gs [] → run e0 out e → engine_flush io e = (e', Err err) → stopped_by e (journal e').
Proof.
  intros Hw Hr Hf. unfold engine_flush, on_journal in Hf.
  unfold st_get, st_modify, st_lift, mbind, ST_bind, mret, ST_ret, id in Hf.
  pose proof (flush_next io (journal e)) as Hn.
  destruct (flush io (journal e)) as [j [seq|je]] eqn:Ej; cbn in Hf, Hn; [done|].
  assert (journal e' = j) as -> by (destruct je; simplify_eq/=; done).
  split; [done|]. intros Hmax.
  destruct (run_wal _ _ _ _ _ Hr Hw ltac:(lia)) as (gs1 & ps1 & _ & Hw1 & _).
  eapply failed_flush_is_crash; [exact (wal_writer _ _ _ Hw1)|lia|exact Ej].
Qed.

(** What was performed and what is queued came out of one run of the engine, in
    its order; while the writer lives it is the run that led to its engine, and
    when it has ended its journal is where that run stopped. *)
Record traced_system (e0 : Engine) (s : System V) : Prop := {
  ts_clock : Forall command_clock (sys_commands s);
  ts_run : ∃ e dropped, run e0 (sys_performed s ++ sys_requests s ++ dropped) e ∧
             (sys_writer s = true → e = sys_engine s ∧ dropped = []) ∧
             (sys_writer s = false → stopped_by e (journal (sys_engine s)));
}.

Hypothesis said_clock : ∀ c, said c → command_clock c.

Context (e0 : Engine) (gs0 : list Group) (Hwal : wal e0 gs0 []).

(** The writer's turn and its exit, both from a writer that lives. *)
Lemma writer_turn_traced io batch rest (s : System V) :
  sys_writer s = true → sys_commands s = batch ++ rest →
  traced_system e0 s → traced_system e0 (writer_turn io batch rest s).
Proof using Hwal.
  intros Hl Hb [Hc (e & d & Hr & Hw & _)]. destruct (Hw Hl) as [-> ->]. rewrite app_nil_r in Hr.
  rewrite Hb in Hc. apply Forall_app in Hc as [Hcb Hcr].
  pose proof (writer_batch_run batch (sys_engine s) Hcb) as Hr1.
  unfold writer_turn. destruct (writer_batch batch (sys_engine s)) as [e1 [|]]; cbn [fst] in Hr1.
  - pose proof (run_trans _ _ _ _ _ Hr Hr1) as Hr2. rewrite app_nil_r in Hr2.
    destruct (engine_flush io e1) as [e2 [out|err]] eqn:Ef; (split; [done|]).
    + exists e2, []. cbn. split_and!; [|done|congruence]. rewrite app_nil_r, app_assoc.
      eapply run_trans; [exact Hr2|]. rewrite <-(app_nil_r out). by eapply run_flush; [|constructor].
    + exists e1, []. cbn. rewrite app_nil_r. split_and!; [done|done|]. intros _. by eapply stopped_flush.
  - split; [done|]. exists e1, []. cbn. split_and!; [|done|intros _; apply stopped_here].
    rewrite app_nil_r. pose proof (run_trans _ _ _ _ _ Hr Hr1) as Hr2. by rewrite app_nil_r in Hr2.
Qed.

Lemma writer_exit_traced io (s : System V) :
  sys_writer s = true → traced_system e0 s → traced_system e0 (writer_exit io s).
Proof using Hwal.
  intros Hl [Hc (e & d & Hr & Hw & _)]. destruct (Hw Hl) as [-> ->]. rewrite app_nil_r in Hr.
  pose proof (run_trans _ _ _ _ _ Hr (writer_drain_run _ _ Hc)) as Hr1. rewrite app_nil_r in Hr1.
  unfold writer_exit. set (e1 := writer_drain _ _) in *. split; [constructor|].
  destruct (engine_flush io e1) as [e2 [out|err]] eqn:Ef; cbn.
  - exists e2, out. split_and!; [|done|intros _; apply stopped_here]. rewrite app_assoc.
    eapply run_trans; [exact Hr1|]. rewrite <-(app_nil_r out). by eapply run_flush; [|constructor].
  - exists e1, []. rewrite app_nil_r. split_and!; [done|done|]. intros _. by eapply stopped_flush.
Qed.

Lemma sys_step_traced s s' : sys_step said s s' → traced_system e0 s → traced_system e0 s'.
Proof using Hwal said_clock.
  intros Hs Ht. destruct Hs as [c s Hk _|s _|r rest s v answers Hq Hp
    |io batch rest s Hl Hrun Hne Hb|s|io s Hl Hrun];
    [| | |by apply writer_turn_traced| |by apply writer_exit_traced];
    destruct Ht as [Hc (e & d & Hr & Hw & Hst)].
  - split; [by apply Forall_app_2; [|apply Forall_singleton, said_clock]|]. by exists e, d.
  - split; unfold worker_stream; destruct (venue_drain (sys_venue s)) as [v evs]; cbn.
    + apply Forall_app_2; [done|]. apply Forall_fmap, Forall_forall. by intros [].
    + by exists e, d.
  - split; cbn.
    + apply Forall_app_2; [done|]. by eapply perform_clock.
    + exists e, d. split; [|done]. rewrite Hq in Hr. by rewrite <-app_assoc.
  - split; [done|]. by exists e, d.
Qed.

Lemma sys_reach_traced v0 s : sys_reach said (start e0 v0) s → traced_system e0 s.
Proof using Hwal said_clock.
  induction 1 as [|s s' _ IH Hs]; [|by eapply sys_step_traced].
  split; [constructor|]. exists e0, []. split; [constructor|done].
Qed.
End invariant.

(** ** A schedule, computed *)

Section schedule.
Context {V : Type} `{Venue V} (said : Command.t → Prop).

Inductive Turn := Send (c : Command.t) | Write (io : FlushIo) | Perform | Stream.

Definition take_turn (t : Turn) (s : System V) : option (System V) :=
  match t with
  | Send c => if sys_writer s then Some (send_commands [c] s) else None
  | Stream => if sys_writer s then Some (worker_stream s) else None
  | Write io =>
      match sys_commands s with
      | [] => None
      | batch => if sys_writer s && sys_running s then Some (writer_turn io batch [] s) else None
      end
  | Perform =>
      match sys_requests s with
      | [] => None
      | r :: rest =>
          match perform r (sys_venue s) with
          | (v, Some answers) =>
              Some (mkSystem (sys_engine s) v (sys_commands s ++ answers) rest (sys_running s)
                (sys_writer s) (sys_performed s ++ [r]))
          | _ => None
          end
      end
  end.

Fixpoint schedule (ts : list Turn) (s : System V) : option (System V) :=
  match ts with
  | [] => Some s
  | t :: ts' => s' ← take_turn t s; schedule ts' s'
  end.

Lemma take_turn_step t s s' :
  match t with Send c => said c | _ => True end → take_turn t s = Some s' → sys_step said s s'.
Proof.
  unfold take_turn. intros Hc E. destruct t as [c|io| |].
  - case_bool; [|done]. injection E as <-. by constructor.
  - destruct (sys_commands s) as [|c cs] eqn:Ec; [done|]. case_bool_in E; [|done]. z_reflect.
    injection E as <-. apply ss_write; [done..|by rewrite app_nil_r].
  - destruct (sys_requests s) as [|r rest] eqn:Er; [done|].
    destruct (perform r (sys_venue s)) as [v [answers|]] eqn:Ep; [|done].
    injection E as <-. by eapply ss_perform.
  - case_bool; [|done]. injection E as <-. by constructor.
Qed.

Lemma schedule_reach s0 ts s s' :
  Forall (λ t, match t with Send c => said c | _ => True end) ts →
  sys_reach said s0 s → schedule ts s = Some s' → sys_reach said s0 s'.
Proof.
  intros H1. revert s. induction H1 as [|t ts Ht _ IH]; intros s Hs E; [by injection E as <-|].
  cbn [schedule] in E. destruct (take_turn t s) as [s1|] eqn:Et; [|done].
  apply (IH s1); [|exact E]. eapply sr_step; [exact Hs|]. by eapply take_turn_step.
Qed.
End schedule.

(** Paper trading: the positions, an entry, its submission and the answer. *)
Definition ex_turns : list Turn :=
  [Send Command.SweepStale; Write IoOk; Perform; Send (Command.Place ex_intent); Write IoOk;
   Perform; Write IoOk].

Definition ex_system : System SimVenue :=
  Eval vm_compute in
    default (start ex_engine sim_new) (schedule ex_turns (start ex_engine sim_new)).

Lemma ex_system_reach : sys_reach command_clock (start ex_engine sim_new) ex_system.
Proof.
  apply (schedule_reach command_clock _ ex_turns (start ex_engine sim_new)).
  - repeat constructor.
  - constructor.
  - vm_compute. reflexivity.
Qed.

Example ex_system_working :
  sys_performed ex_system = [VenueRequest.Positions; VenueRequest.Submit ex_intent] ∧
  (state ∘ core <$> order (book (sys_engine ex_system)) ex_coid) = Some Working.
Proof. vm_compute. split; reflexivity. Qed.

(** ** Properties *)

(** The engine as the flush of the writer's next turn finds it: the batch of that
    turn handled, whatever it is, or all that is queued on the way out. *)
Inductive before_flush {V} (s : System V) : Engine → Prop :=
| bf_turn batch rest :
    sys_commands s = batch ++ rest → before_flush s (writer_batch batch (sys_engine s)).1
| bf_exit : before_flush s (writer_drain (sys_commands s) (sys_engine s)).

Lemma before_flush_run {V} (s : System V) e :
  before_flush s e → Forall command_clock (sys_commands s) → run (sys_engine s) [] e.
Proof.
  intros [batch rest Hb|] Hc; [|by apply writer_drain_run]. rewrite Hb in Hc.
  apply Forall_app in Hc as [Hc _]. by apply writer_batch_run.
Qed.

(** C9: the whole process, with any venue.  Whatever is said to the writer,
    however the threads interleave, and whatever the venue answers: no client
    order id reaches the venue's submit twice, and none does that the book
    already knew at start.  And whatever was submitted can be found again: stop
    the process anywhere in the flush of the writer's next turn, with the records
    of that turn in its buffer, or in the roll after it, and the log the next
    claim recovers holds the intent; so it does when the writer has ended, also
    by a flush that failed.  Where a crash leaves a segment without its header
    and no claim succeeds, the record is in the segments before it. *)
Theorem system_submits_once {V} `{Venue V} e0 gs (v0 : V) s :
  wal e0 gs [] → uncommitted e0 = [] → sys_reach command_clock (start e0 v0) s →
  NoDup (submitted (sys_performed s)) ∧
  (∀ i, VenueRequest.Submit i ∈ sys_performed s →
     order (book e0) (Intent.client_order_id i) = None ∧
     (∀ e c now, sys_writer s = true → before_flush s e → reached (journal e) c →
        u64_ok now → 1 + j_next_seq (journal e) < u64_max → kept_intent i (journal e) c now) ∧
     (∀ now, sys_writer s = false →
        u64_ok now → 1 + j_next_seq (journal (sys_engine s)) < u64_max →
        kept_in i (j_dir (journal (sys_engine s))) now)).
Proof.
  intros Hw Hu Hr. eapply (sys_reach_traced _ (λ c Hc, Hc)) in Hr as [Hcl (e & d & Hr & Hl & Hst)]; [|exact Hw].
  pose proof Hr as (cs & Hcs & Hn & Hf & _)%run_fresh. rewrite Hu in Hcs. cbn in Hcs.
  rewrite <-app_assoc, submitted_app in Hcs. rewrite <-Hcs in Hn, Hf. split.
  { by apply NoDup_app in Hn as [? _]. }
  intros i Hi. split_and!.
  - apply Hf. apply elem_of_app. left. by apply list_elem_of_fmap_2, elem_of_submits.
  - intros e1 c now Hlive Hbf Hc Hnow Hmax. destruct (Hl Hlive) as [-> ->].
    pose proof (run_trans _ _ _ _ _ Hr (before_flush_run s e1 Hbf Hcl)) as Hr1.
    destruct (run_kept _ _ _ _ i Hw Hr1) as (gs1 & ps1 & Hw1 & Hi1); [lia|rewrite !elem_of_app; tauto|].
    by eapply durable_kept.
  - intros now Hdead Hnow Hmax. destruct (Hst Hdead) as [En Hex].
    destruct (Hex ltac:(lia)) as (c & Hc & ->). apply kept_intent_in.
    destruct (run_kept _ _ _ _ i Hw Hr) as (gs1 & ps1 & Hw1 & Hi1); [lia|rewrite !elem_of_app; tauto|].
    eapply durable_kept; [exact Hw1|done..|lia].
Qed.

(** One more entry queued: the flush of the next turn has records to write. *)
Definition ex_intent_next : Intent.t :=
  Intent.mk (ex_text 36 "UI-2") (ex_text 16 "ETHUSD") Buy (whole 1) Market None None Entry 78 None.
Definition ex_system_more : System SimVenue := Eval vm_compute in send_commands [Command.Place ex_intent_next] ex_system.

Lemma ex_system_more_reach : sys_reach command_clock (start ex_engine sim_new) ex_system_more.
Proof. eapply sr_step; [exact ex_system_reach|]. by apply (ss_send _ (Command.Place ex_intent_next) ex_system). Qed.

Lemma system_submits_once_witness :
  let s := ex_system_more in let j := journal (writer_batch (sys_commands s) (sys_engine s)).1 in
  j_buffered_records j = 3 ∧ VenueRequest.Submit ex_intent ∈ sys_performed s ∧
  NoDup (submitted (sys_performed s)) ∧
  kept_intent ex_intent j (Writing 100) 3000.
Proof.
  intros s j. split; [vm_compute; reflexivity|].
  assert (VenueRequest.Submit ex_intent ∈ sys_performed s) as Hi by (apply elem_of_submits; vm_compute; left).
  split; [exact Hi|]. destruct ex_wal as [gs Hw].
  destruct (system_submits_once ex_engine gs sim_new s Hw) as [H1 H2];
    [reflexivity|exact ex_system_more_reach|]. split; [exact H1|].
  destruct (H2 ex_intent Hi) as (_ & Hk & _). apply Hk.
  - reflexivity.
  - apply (bf_turn s (sys_commands s) []). by rewrite app_nil_r.
  - exact I.
  - split; [lia|vm_compute; reflexivity].
  - vm_compute. reflexivity.
Defined.

(** The drain on the way out applies what is queued, but what its flush releases
    goes nowhere: the order is recorded as being submitted and never is. *)
Definition ex_leaving : System SimVenue :=
  stop (send_commands [Command.Place ex_intent]
    (default (start ex_engine sim_new) (schedule [Send (positions_reported []); Write IoOk]
       (start ex_engine sim_new)))).

Example exit_drops_the_submission :
  let s := writer_exit IoOk ex_leaving in
  (state ∘ core <$> order (book (sys_engine s)) ex_coid) = Some Submitting ∧
  sys_requests s = [] ∧ sys_performed s = [].
Proof. vm_compute. repeat split; reflexivity. Qed.
