(* ===== verification/WellFormed.v ===== *)
(** * Values the program can hold

    Text that is valid UTF-8 without a NUL, integers within their width: what
    commands bring in, what the book keeps and what the engine writes.  Every
    record the engine writes is one the codec reads back. *)

From S2P Require Import Prelude Fixed Text Types Domain Intent Position Format Codec Records Segment Journal Book Venue Guards Engine Trace.

(** ** Text *)

(** UTF-8 without a NUL, as a test. *)
Definition clean_text (s : list byte) : bool :=
  utf8_valid s && forallb (λ b, negb (is_zero_byte b)) s.

Lemma utf8_valid_app a b : utf8_valid a = true → utf8_valid (a ++ b) = utf8_valid b.
Proof.
  remember (length a) as n eqn:Hn. revert a Hn.
  induction n as [n IH] using lt_wf_ind. intros [|b0 l1] -> H; [done|].
  cbn [app utf8_valid] in *. case_bool.
  { eapply IH; [|reflexivity|done]. simpl. lia. }
  destruct l1 as [|b1 l2]; [done|]. cbn [app]. case_bool.
  { apply andb_true_iff in H as [-> H]. rewrite (IH (length l2)); [done|simpl; lia|done..]. }
  destruct l2 as [|b2 l3]; [done|]. cbn [app]. case_bool.
  { apply andb_true_iff in H as [-> H]. rewrite (IH (length l3)); [done|simpl; lia|done..]. }
  destruct l3 as [|b3 l4]; [done|]. cbn [app].
  apply andb_true_iff in H as [-> H]. rewrite (IH (length l4)); [done|simpl; lia|done..].
Qed.

Lemma second_ok_cont b0 b1 : second_ok b0 b1 = true → is_cont b1 = true.
Proof.
  unfold second_ok, is_cont, between. intros H. repeat case_bool; z_reflect;
    apply andb_true_iff; rewrite !Z.leb_le; lia.
Qed.

(** Inside a character there is a continuation byte, so a boundary cuts between
    characters. *)
Lemma boundary_cons b l n : is_char_boundary (b :: l) (S (S n)) = is_char_boundary l (S n).
Proof. done. Qed.

Lemma boundary_not_cont b c l : is_char_boundary (b :: c :: l) 1 = true → is_cont c = false.
Proof. unfold is_char_boundary. simpl. by destruct (is_cont c). Qed.

Lemma utf8_valid_take s n :
  utf8_valid s = true → is_char_boundary s n = true → utf8_valid (take n s) = true.
Proof.
  remember (length s) as k eqn:Hk. revert s n Hk.
  induction k as [k IH] using lt_wf_ind. intros [|b0 l1] [|n] -> H Hb; try done.
  cbn [take utf8_valid] in *.
  destruct (b2z b0 <? 128).
  { destruct n as [|n]; [done|]. rewrite boundary_cons in Hb.
    eapply (IH (length l1)); [simpl; lia|done|done|done]. }
  destruct l1 as [|b1 l2]; [done|].
  destruct n as [|n].
  { exfalso. assert (is_cont b1 = false) as Hc by exact (boundary_not_cont _ _ _ Hb).
    destruct (between 194 223 b0); [by rewrite Hc in H|].
    destruct l2 as [|b2 l3]; [done|].
    assert (second_ok b0 b1 = false) as Hs.
    { destruct (second_ok b0 b1) eqn:E; [apply second_ok_cont in E; congruence|done]. }
    rewrite Hs in H. destruct (between 224 239 b0); [done|]. destruct l3; [done|].
    by rewrite andb_false_r in H. }
  rewrite boundary_cons in Hb. cbn [take].
  destruct (between 194 223 b0).
  { apply andb_true_iff in H as [-> H]. destruct n as [|n]; [done|].
    rewrite boundary_cons in Hb. cbn [andb].
    eapply (IH (length l2)); [simpl; lia|done|done|done]. }
  destruct l2 as [|b2 l3]; [done|].
  destruct n as [|n].
  { exfalso. assert (is_cont b2 = false) as Hc by exact (boundary_not_cont _ _ _ Hb).
    rewrite Hc in H. destruct (between 224 239 b0); [by rewrite andb_false_r in H|].
    destruct l3; [done|]. by rewrite andb_false_r in H. }
  rewrite boundary_cons in Hb. cbn [take].
  destruct (between 224 239 b0).
  { apply andb_true_iff in H as [-> H]. destruct n as [|n]; [done|].
    rewrite boundary_cons in Hb. cbn [andb].
    eapply (IH (length l3)); [simpl; lia|done|done|done]. }
  destruct l3 as [|b3 l4]; [done|].
  destruct n as [|n].
  { exfalso. assert (is_cont b3 = false) as Hc by exact (boundary_not_cont _ _ _ Hb).
    rewrite Hc, andb_false_r in H. done. }
  rewrite boundary_cons in Hb. cbn [take].
  apply andb_true_iff in H as [-> H]. destruct n as [|n]; [done|].
  rewrite boundary_cons in Hb. cbn [andb].
  eapply (IH (length l4)); [simpl; lia|done|done|done].
Qed.

Lemma clean_text_spec s : clean_text s = true ↔ utf8_valid s = true ∧ Byte.x00 ∉ s.
Proof.
  unfold clean_text. rewrite andb_true_iff, forallb_forall. unfold is_zero_byte.
  split; intros [H1 H2]; (split; [done|]).
  - intros Hin%list_elem_of_In. apply H2 in Hin. by vm_compute in Hin.
  - intros x Hx%list_elem_of_In. apply negb_true_iff, bool_decide_eq_false.
    by intros ->.
Qed.

Lemma clean_app a b : clean_text a = true → clean_text b = true → clean_text (a ++ b) = true.
Proof.
  rewrite !clean_text_spec. intros [Ha ?] [Hb ?]. split; [by rewrite utf8_valid_app|].
  rewrite elem_of_app. tauto.
Qed.

Lemma clean_ascii s : Forall (λ b, 0 < b2z b < 128) s → clean_text s = true.
Proof.
  induction 1 as [|b s Hb _ IH]; [done|]. unfold clean_text in *. cbn [utf8_valid forallb].
  rewrite (proj2 (Z.ltb_lt _ _)) by lia.
  assert (negb (is_zero_byte b) = true) as ->; [|done].
  unfold is_zero_byte. apply negb_true_iff, bool_decide_eq_false. intros ->.
  destruct Hb as [Hb _]. by vm_compute in Hb.
Qed.

Lemma clean_take s n :
  clean_text s = true → is_char_boundary s n = true → clean_text (take n s) = true.
Proof.
  rewrite !clean_text_spec. intros [Hu Hz] Hb. split; [by apply utf8_valid_take|].
  intros Hin. apply Hz. by eapply elem_of_take in Hin as (k & ? & _); eapply list_elem_of_lookup_2.
Qed.

Lemma text_ok_default N s : clean_text s = true → text_ok (inline_or_default N s).
Proof.
  rewrite clean_text_spec. intros [Hu Hz]. unfold inline_or_default.
  destruct (inline_new N s) as [x|] eqn:E; simpl; [|apply text_ok_empty].
  split; [by eapply inline_new_wf|]. apply inline_new_Ok in E as [_ ->].
  unfold inline_clean. simpl. by rewrite take_app_length.
Qed.

Lemma clean_as_str N (x : InlineStr N) : text_ok x → clean_text (inline_as_str x) = true.
Proof.
  intros [Hw Hc]. apply clean_text_spec. unfold inline_as_str. rewrite (wf_utf8 _ Hw).
  split; [by apply Hw|done].
Qed.

(** Digits, a sign and a point. *)
Definition ascii (s : list byte) : Prop := Forall (λ b, 0 < b2z b < 128) s.

Lemma digit_ascii z : 0 < b2z (z2b (48 + z mod 10)) < 128.
Proof. pose proof (Z.mod_pos_bound z 10). rewrite b2z_z2b by lia. lia. Qed.

Lemma dec_ascii n : ascii (dec n).
Proof.
  unfold dec. assert (ascii []) as H by constructor. revert n H. generalize (@nil byte) as acc.
  intros acc n. generalize (S (Z.to_nat (Z.log2 n))) as fuel. intros fuel.
  revert n acc. induction fuel as [|fuel IH]; intros n acc H; [done|].
  cbn [dec_digits]. cbv zeta. assert (ascii (z2b (48 + n mod 10) :: acc)).
  { constructor; [apply digit_ascii|done]. }
  case_bool; [done|]. by apply IH.
Qed.

Lemma trim_ascii s : ascii s → ascii (trim_zeros s).
Proof.
  induction 1 as [|b s Hb _ IH]; [constructor|]. simpl.
  destruct (trim_zeros s); [case_bool; [done|by apply Forall_singleton]|by constructor].
Qed.

Lemma format_ascii r : ascii (format_e8 r).
Proof.
  unfold format_e8. apply Forall_app. split; [case_bool; [by apply Forall_singleton|by apply Forall_nil]|].
  apply Forall_app. split; [apply dec_ascii|].
  case_bool; [constructor|]. constructor; [done|]. apply trim_ascii.
  unfold zero_pad. apply Forall_app. split; [|apply dec_ascii].
  apply Forall_replicate. done.
Qed.

Lemma clean_dec_signed z : clean_text (dec_signed z) = true.
Proof.
  apply clean_ascii. unfold dec_signed. case_bool; [constructor; [done|]|]; apply dec_ascii.
Qed.

Lemma clean_dec z : clean_text (dec z) = true.
Proof. apply clean_ascii, dec_ascii. Qed.

Lemma clean_to_string {d} (x : e8 d) : clean_text (to_string x) = true.
Proof. apply clean_ascii, format_ascii. Qed.

(** ** Texts the engine composes *)

Create HintDb clean.
#[export] Hint Resolve clean_app clean_as_str clean_to_string clean_dec clean_dec_signed : clean.

(** A concatenation of literals, ids and figures. *)
Ltac clean :=
  repeat match goal with
    | |- clean_text (_ ++ _) = true => apply clean_app
    | |- clean_text (str _) = true => vm_compute; reflexivity
    end; eauto with clean.

Lemma text_ok_note s : clean_text s = true → text_ok (note_of s).
Proof. apply text_ok_default. Qed.

Lemma clean_cause c : clean_text (cause_as_str c) = true.
Proof. by destruct c. Qed.
Lemma clean_side s : clean_text (as_str (s : Side)) = true.
Proof. by destruct s. Qed.
Lemma clean_intent_error err : clean_text (intent_error_to_string err) = true.
Proof. destruct err as [| | | |[]]; done. Qed.
#[export] Hint Resolve clean_cause clean_side clean_intent_error : clean.

Lemma text_ok_refusal r :
  (∀ c, r = InstrumentLocked c ∨ r = EntryAlreadyLive c → text_ok c) → text_ok (refusal_note r).
Proof.
  intros H. destruct r; cbn [refusal_note]; apply text_ok_note; clean; apply clean_as_str, H; auto.
Qed.

(** ** What the engine is given and what it keeps *)

Definition wf_order (o : Order) : Prop :=
  text_ok (client_order_id (core o)) ∧ text_ok (instrument (core o)) ∧ trace_ok (o_trace_id o).

Record wf_book (b : Book) : Prop := {
  wb_orders c o : b_orders b !! c = Some o → wf_order o;
  wb_marks i p : b_marks b !! i = Some p → e8_ok p;
}.

(** A request to the venue: its ids are text. *)
Definition wf_request (r : VenueRequest.t) : Prop :=
  match r with
  | VenueRequest.Submit i => text_ok (Intent.client_order_id i) ∧ text_ok (Intent.instrument i)
  | VenueRequest.Cancel c _ | VenueRequest.Lookup c => text_ok c
  | VenueRequest.Positions => True
  end.

(** The ids a question is open about are text. *)
Definition wf_pending (m : gmap ClientOrderId Pending) : Prop := ∀ c, is_Some (m !! c) → text_ok c.

Record wf_engine (e : Engine) : Prop := {
  we_book : wf_book (book e);
  we_epoch : 0 ≤ j_epoch (journal e) ≤ u64_max;
  we_cap : opt_ok (max_position (limits (config e)));
  we_requests : Forall wf_request (uncommitted e);
  we_pending : wf_pending (reconciling e);
}.

Lemma wf_pending_insert m c p : wf_pending m → text_ok c → wf_pending (<[c := p]> m).
Proof. intros Hm Hc c'. rewrite lookup_insert_is_Some'. intros [<-|H]; [done|by apply Hm]. Qed.
Lemma wf_pending_again m c p q : wf_pending m → m !! c = Some q → wf_pending (<[c := p]> m).
Proof. intros Hm Hc. apply wf_pending_insert; [done|]. apply Hm. by rewrite Hc. Qed.
Lemma wf_pending_delete m c : wf_pending m → wf_pending (delete c m).
Proof. intros Hm c' [x [_ H]%lookup_delete_Some]. apply Hm. by rewrite H. Qed.

Lemma wf_engine_new j b cfg :
  wf_book b → 0 ≤ j_epoch j ≤ u64_max → opt_ok (max_position (limits cfg)) →
  wf_engine (engine_new j b cfg).
Proof.
  intros. split; [done..|constructor|]. intros c [p E].
  change ((∅ : gmap ClientOrderId Pending) !! c = Some p) in E. by rewrite lookup_empty in E.
Qed.

Definition wf_snapshot (s : OrderSnapshot) : Prop :=
  match sn_venue_order_id s with Some v => text_ok v | None => True end ∧
  e8_ok (sn_filled_qty s) ∧ opt_ok (sn_avg_price s).

Definition wf_position (p : VenuePosition) : Prop :=
  text_ok (vp_instrument p) ∧ e8_ok (vp_qty p) ∧ opt_ok (vp_entry_price p).

Definition wf_venue_event (v : VenueEvent.t) : Prop :=
  match v with
  | VenueEvent.Fill c x q p => text_ok c ∧ text_ok x ∧ e8_ok q ∧ e8_ok p
  | VenueEvent.CancelConfirmed c => text_ok c
  | VenueEvent.Mark i p => text_ok i ∧ e8_ok p
  | VenueEvent.Balance a m => text_ok a ∧ e8_ok m
  end.

(** A command whose texts and integers are values of their types. *)
Definition wf_command (command : Command.t) : Prop :=
  match command with
  | Command.Tick now => u64_ok now
  | Command.Place i => intent_ok i
  | Command.Cancel c t => text_ok c ∧ trace_ok t
  | Command.Submitted c (SubmitOutcome.Acked v) => text_ok c ∧ text_ok v
  | Command.Submitted c (SubmitOutcome.Rejected r) =>
      text_ok c ∧ - 2 ^ 31 ≤ code r < 2 ^ 31 ∧ text_ok (text r)
  | Command.LookedUp c (LookupOutcome.Found s) => text_ok c ∧ wf_snapshot s
  | Command.Submitted c _ | Command.Cancelled c _ | Command.LookedUp c _ => text_ok c
  | Command.Streamed v => wf_venue_event v
  | Command.PositionsReported ps => Forall wf_position (flatten ps)
  | Command.SweepStale => True
  | Command.Halt n | Command.Resume n => text_ok n
  | Command.Decide _ i _ t v n => text_ok i ∧ trace_ok t ∧ e8_ok v ∧ text_ok n
  end.

Lemma trace_none_ok : trace_ok TRACE_NONE.
Proof. unfold trace_ok, TRACE_NONE. lia. Qed.
Lemma zero_ok {d} : e8_ok (ZERO : e8 d).
Proof. vm_compute. split; congruence. Qed.
#[export] Hint Resolve trace_none_ok zero_ok text_ok_empty : core.

(** Applying a record of such values keeps the book so. *)
Lemma set_core_wf o ev next stamp :
  wf_order o → transition (core o) ev = Ok next → wf_order (set_core next stamp o).
Proof.
  intros (H1 & H2 & H3) (E1 & E2 & _)%transition_identity. unfold wf_order. simpl.
  by rewrite E1, E2.
Qed.

Lemma wf_book_order b c o :
  wf_book b → wf_order o → wf_book (set_orders (<[c := o]> (b_orders b)) b).
Proof.
  intros [H1 H2] Ho. split; simpl; [|done]. intros c' o'.
  destruct (base.decide (c' = c)) as [->|]; [rewrite lookup_insert_eq; naive_solver|].
  rewrite lookup_insert_ne by done. apply H1.
Qed.

Lemma wf_book_ext b b' :
  wf_book b → b_orders b' = b_orders b → b_marks b' = b_marks b → wf_book b'.
Proof. intros [H1 H2] E1 E2. split; rewrite ?E1, ?E2; done. Qed.

Lemma apply_order_event_orders h c fs ts ev b b' res :
  apply_order_event h c fs ts ev b = (b', res) →
  b_marks b' = b_marks b ∧
  (b_orders b' = b_orders b ∨
   ∃ o next stamp, b_orders b !! c = Some o ∧ transition (core o) ev = Ok next ∧
     b_orders b' = <[c := set_core next stamp o]> (b_orders b)).
Proof.
  intros H. destruct (base.decide (res = Ok Changed)) as [->|Hne].
  - apply apply_order_event_Changed in H as (o & next & Ho & _ & Ht & _ & H).
    assert (b_marks b' = b_marks b ∧ b_orders b' = <[c := set_core next
      (if is_venue_evidence ev then Some (fh_nanos h) else None) o]> (b_orders b)) as [Hm E].
    { destruct ev; try (by rewrite H). by destruct H as (_ & pos & _ & ->). }
    split; [done|right]. by exists o, next, (if is_venue_evidence ev then Some (fh_nanos h) else None).
  - unfold apply_order_event, position_entry in H.
    unfold st_get, st_modify, st_lift, st_fail, mbind, ST_bind, mret, ST_ret, id in H.
    repeat (case_match; simplify_eq/=; auto).
Qed.

Lemma apply_wf h r b b' res :
  apply h r b = (b', res) → record_ok r → wf_book b → wf_book b'.
Proof.
  intros H Hr Hb. unfold apply in H.
  change ((st_modify (stamp h) ≫= ?k) b) with (k tt (stamp h b)) in H. cbv beta in H.
  assert (wf_book (stamp h b)) as Hs by (by eapply wf_book_ext).
  destruct r as [e s|i|c tr fs ts ap ev|i a k tr v n|i p|a m|].
  3: { apply apply_order_event_orders in H as [Hm [E|(o & next & st & Ho & Ht & E)]].
       - by eapply wf_book_ext.
       - eapply wf_book_ext; [apply (wf_book_order (stamp h b) c)|exact E|exact Hm]; [done|].
         eapply set_core_wf; [|exact Ht]. by eapply (wb_orders _ Hs). }
  all: unfold st_get, st_modify, mbind, ST_bind, mret, ST_ret in H;
    repeat case_match; simplify_eq/=; try (by eapply wf_book_ext).
  - eapply wf_book_ext; [apply (wf_book_order (stamp h b) (Intent.client_order_id i))|done..]; [done|].
    by destruct Hr.
  - destruct Hr as [_ Hp]. destruct Hs as [H1 H2]. split; simpl; [exact H1|].
    intros i' p'. destruct (base.decide (i' = i)) as [->|]; [rewrite lookup_insert_eq; naive_solver|].
    rewrite lookup_insert_ne by done. apply H2.
Qed.
