(* ===== verification/Control.v ===== *)
(** * The control socket (sentineld/src/control.rs)

    One JSON object per line, parsed into a command for the writer, and one
    answer for every line.  Whatever a line says, what comes out of the parser
    is a command of the five kinds the socket carries, built from values of
    their types. *)

From S2P Require Import Prelude Fixed Text Types Json Domain Intent Codec Records Book Venue Guards Engine WellFormed.

(** [Display] of the errors a line can meet. *)
Definition too_long_to_string (e : TooLong) : list byte :=
  dec (Z.of_nat (tl_len e)) ++ str " bytes exceeds capacity " ++ dec (Z.of_nat (tl_capacity e)).

Definition parse_error_to_string (e : ParseError) : list byte :=
  match e with
  | Empty => str "empty"
  | Malformed => str "malformed decimal"
  | TooPrecise => str "more than 8 decimal places"
  | OutOfRange => str "out of range for i64 at 1e8"
  end.

Section control.
Context {J : Type} `{Json J}.

(** ** The parser *)

(** A string field of the object. *)
Definition text_field (v : J) (name : string) : option (list byte) := json_get (str name) v ≫= json_str.

Definition missing (name : string) : list byte := str "missing " ++ str name.

Definition parse_side (s : list byte) : result (list byte) Side :=
  if bool_decide (s ∈ [str "buy"; str "BUY"]) then Ok Buy
  else if bool_decide (s ∈ [str "sell"; str "SELL"]) then Ok Sell
  else Err (str "side " ++ debug_str s).

(** An exit has to be asked for by name. *)
Definition parse_authority (s : option (list byte)) : Authority :=
  match s with
  | Some s => if bool_decide (s ∈ [str "exit"; str "protective_exit"]) then ProtectiveExit else Entry
  | None => Entry
  end.

Definition price_field (v : J) (name : string) : option Price :=
  text_field v name ≫= λ s, ok (parse s).

Definition kind_of_prices (limit_price stop_price : option Price) : OrderKind :=
  if Intent.is_some stop_price then StopMarket
  else if Intent.is_some limit_price then Limit
  else Market.

Definition trace_field (v : J) : TraceId :=
  default TRACE_NONE (json_get (str "trace_id") v ≫= json_u64).

Definition parse_place (v : J) : result (list byte) Command.t :=
  client_order_id ← ok_or (text_field v "client_order_id") (missing "client_order_id");
  instrument ← ok_or (text_field v "instrument") (missing "instrument");
  side ← ok_or (text_field v "side") (missing "side");
  side ← parse_side side;
  qty ← ok_or (text_field v "qty" ≫= λ s, ok (parse s)) (missing "qty");
  let authority := parse_authority (text_field v "authority") in
  let limit_price := price_field v "limit_price" in
  let stop_price := price_field v "stop_price" in
  let kind := kind_of_prices limit_price stop_price in
  let trace_id := trace_field v in
  c ← map_err too_long_to_string (inline_new 36 client_order_id);
  i ← map_err too_long_to_string (inline_new 16 instrument);
  intent ← map_err intent_error_to_string
             (Intent.new c i side qty kind limit_price stop_price authority trace_id None);
  Ok (Command.Place intent).

Definition parse_decide (v : J) : result (list byte) Command.t :=
  instrument ← ok_or (text_field v "instrument") (missing "instrument");
  i ← map_err too_long_to_string (inline_new 16 instrument);
  value ← match text_field v "value" with
          | Some s => map_err parse_error_to_string (parse s)
          | None => Ok ZERO
          end;
  Ok (Command.Decide Actor.Strategy i DecisionKind.StanceDeclared TRACE_NONE value
        (note_of (default [] (text_field v "note")))).

Definition control_parse (line : list byte) : result (list byte) Command.t :=
  value ← json_parse line;
  op ← ok_or (text_field value "op") (missing "op");
  if bool_decide (op = str "place") then parse_place value
  else if bool_decide (op = str "cancel") then
    client_order_id ← ok_or (text_field value "client_order_id") (missing "client_order_id");
    c ← map_err too_long_to_string (inline_new 36 client_order_id);
    Ok (Command.Cancel c TRACE_NONE)
  else if bool_decide (op = str "halt") then
    Ok (Command.Halt (note_of (default (str "halted by operator") (text_field value "note"))))
  else if bool_decide (op = str "resume") then
    Ok (Command.Resume (note_of (default (str "resumed by operator") (text_field value "note"))))
  else if bool_decide (op = str "decide") then parse_decide value
  else Err (str "unknown op " ++ debug_str op).

(** [socket_path]: [Path::join] of the name of the socket. *)
Definition SOCKET_NAME : list byte := str "control.sock".
Definition socket_path (journal_dir : list byte) : list byte :=
  match last journal_dir with
  | None => SOCKET_NAME
  | Some c => if bool_decide (c = z2b 47) then journal_dir ++ SOCKET_NAME
              else journal_dir ++ [z2b 47] ++ SOCKET_NAME
  end.

(** ** One connection *)

(** A line as it is read, [None] when the read fails or the bytes are not UTF-8;
    whether the writer's end of the channel is alive when the line is served;
    and whether the answer can be written. *)
Record Line := mkLine { ln_text : option (list byte); ln_writer : bool; ln_written : bool }.

Definition quoted (s : list byte) : list byte := [z2b 34] ++ s ++ [z2b 34].

Definition answer_ok : list byte := str "{" ++ quoted (str "ok") ++ str ":true}".
Definition answer_error (message : list byte) : list byte :=
  str "{" ++ quoted (str "ok") ++ str ":false," ++ quoted (str "error") ++ str ":" ++ message ++ str "}".

(** The answer to a line, and the command it hands to the writer. *)
Definition answer_line (line : list byte) (writer : bool) : list byte * option Command.t :=
  match control_parse line with
  | Ok command =>
      if writer then (answer_ok, Some command)
      else (answer_error (quoted (str "the writer has stopped")), None)
  | Err e => (answer_error (json_quote e), None)
  end.

(** The answers written and the commands handed over, in order. *)
Fixpoint handle (lines : list Line) : list (list byte) * list Command.t :=
  match lines with
  | [] => ([], [])
  | l :: lines' =>
      match ln_text l with
      | None => ([], [])
      | Some line =>
          if bool_decide (trim line = []) then handle lines'
          else
            let '(answer, command) := answer_line line (ln_writer l) in
            if ln_written l then
              let '(answers, commands) := handle lines' in
              (answer :: answers, option_list command ++ commands)
            else ([], option_list command)
      end
  end.
End control.

(** ** What a command says was asked *)

Section spec.
Context {J : Type} `{JsonLaws J}.

Definition says (v : J) (name : string) (s : list byte) : Prop := text_field v name = Some s.

(** The order has a price exactly if the line writes one that reads as it. *)
Definition price_said (v : J) (name : string) (p : option Price) : Prop :=
  ∀ x, p = Some x ↔ ∃ s, says v name s ∧ decimal s (raw x).

(** The number under [name], if there is one that is a natural number of 64 bits. *)
Definition number_said (v : J) (name : string) (n : Z) : Prop :=
  ∃ w, json_get (str name) v = Some w ∧ json_u64 w = Some n.

(** Which kind of order the prices of the line make it. *)
Definition kind_said (i : Intent.t) : Prop :=
  match Intent.kind i with
  | StopMarket => Intent.stop_price i ≠ None ∧ Intent.limit_price i = None
  | Limit => Intent.stop_price i = None ∧ Intent.limit_price i ≠ None
  | Market => Intent.stop_price i = None ∧ Intent.limit_price i = None
  end.

Record place_asked (v : J) (i : Intent.t) : Prop := {
  pa_op : says v "op" (str "place");
  pa_coid : says v "client_order_id" (inline_as_str (Intent.client_order_id i));
  pa_instrument : says v "instrument" (inline_as_str (Intent.instrument i));
  pa_side : ∃ s, says v "side" s ∧
    s ∈ match Intent.side i with Buy => [str "buy"; str "BUY"] | Sell => [str "sell"; str "SELL"] end;
  pa_qty : ∃ s, says v "qty" s ∧ decimal s (raw (Intent.qty i));
  pa_positive : 0 < raw (Intent.qty i);
  pa_authority : Intent.authority i = ProtectiveExit ↔
    ∃ s, says v "authority" s ∧ s ∈ [str "exit"; str "protective_exit"];
  pa_limit : price_said v "limit_price" (Intent.limit_price i);
  pa_stop : price_said v "stop_price" (Intent.stop_price i);
  pa_kind : kind_said i;
  pa_trace : number_said v "trace_id" (Intent.trace_id i) ∨
    (∀ n, ¬ number_said v "trace_id" n) ∧ Intent.trace_id i = TRACE_NONE;
  pa_quote : Intent.quote_at_decision i = None;
}.

Definition asked (v : J) (c : Command.t) : Prop :=
  match c with
  | Command.Place i => place_asked v i
  | Command.Cancel c t =>
      says v "op" (str "cancel") ∧ says v "client_order_id" (inline_as_str c) ∧ t = TRACE_NONE
  | Command.Halt _ => says v "op" (str "halt")
  | Command.Resume _ => says v "op" (str "resume")
  | Command.Decide a i k t value _ =>
      says v "op" (str "decide") ∧ says v "instrument" (inline_as_str i) ∧
      a = Actor.Strategy ∧ k = DecisionKind.StanceDeclared ∧ t = TRACE_NONE ∧
      ((∃ s, says v "value" s ∧ decimal s (raw value)) ∨ (∀ s, ¬ says v "value" s) ∧ value = ZERO)
  | _ => False
  end.

(** No field of the line holds a NUL, which the text of an id cannot carry. *)
Definition no_nul (v : J) : Prop := ∀ name s, text_field v name = Some s → Byte.x00 ∉ s.

Lemma text_utf8 v name s : text_field v name = Some s → utf8_valid s = true.
Proof. intros (w & _ & Hs)%bind_Some. by eapply json_str_utf8. Qed.

Lemma text_clean v name s : no_nul v → text_field v name = Some s → clean_text s = true.
Proof. intros Hn Hs. apply clean_text_spec. split; [by eapply text_utf8|by eapply Hn]. Qed.

(** An id made of a field: of its type, and the field itself. *)
Lemma id_of_field v name N s (x : InlineStr N) :
  no_nul v → text_field v name = Some s → inline_new N s = Ok x →
  text_ok x ∧ says v name (inline_as_str x).
Proof.
  intros Hn Hs Hx. pose proof (text_utf8 _ _ _ Hs) as Hu.
  assert (inline_as_str x = s) as E by (by eapply inline_new_as_str). unfold says. rewrite E.
  split; [|done]. pose proof (text_ok_default N s (text_clean _ _ _ Hn Hs)) as Ho.
  unfold inline_or_default in Ho. by rewrite Hx in Ho.
Qed.

Lemma parse_decimal {d} s (x : e8 d) : parse s = Ok x → decimal s (raw x) ∧ e8_ok x.
Proof.
  unfold parse. destruct (parse_e8 s) as [r|] eqn:E; [|done]. intros [= <-].
  apply parse_e8_spec in E. split; [done|]. by destruct E.
Qed.

Lemma decimal_parse {d} s (x : e8 d) : decimal s (raw x) → parse s = Ok x.
Proof. intros Hd. apply parse_e8_spec in Hd. unfold parse. rewrite Hd. f_equal. by apply raw_inj. Qed.

Lemma price_field_said v name : price_said v name (price_field v name) ∧ opt_ok (price_field v name).
Proof.
  unfold price_field, price_said, says. destruct (text_field v name) as [s|] eqn:Hs; cbn; [|naive_solver].
  split.
  - intros x. split.
    + destruct (parse s) as [p|] eqn:E; [|done]. intros [= <-]. apply parse_decimal in E as [Hd _]. by exists s.
    + intros (s' & [= <-] & Hd%decimal_parse). by rewrite Hd.
  - destruct (parse s) as [p|] eqn:E; [|done]. by apply parse_decimal in E as [_ Hp].
Qed.

Lemma trace_field_said v :
  number_said v "trace_id" (trace_field v) ∨ (∀ n, ¬ number_said v "trace_id" n) ∧ trace_field v = TRACE_NONE.
Proof.
  unfold trace_field, number_said. destruct (json_get (str "trace_id") v) as [w|] eqn:E; cbn.
  - destruct (json_u64 w) as [n|] eqn:En; cbn; [left; by exists w|]. right. split; [|done].
    intros n (w' & [= <-] & Hw). congruence.
  - right. split; [|done]. naive_solver.
Qed.

Lemma note_field v name s : no_nul v → clean_text s = true →
  text_ok (note_of (default s (text_field v name))).
Proof.
  intros Hn Hs. apply text_ok_note. destruct (text_field v name) eqn:E; [|done]. simpl.
  by eapply text_clean.
Qed.

Lemma parse_side_said s x : parse_side s = Ok x →
  s ∈ match x with Buy => [str "buy"; str "BUY"] | Sell => [str "sell"; str "SELL"] end.
Proof. unfold parse_side. repeat case_bool_decide; intros E; by simplify_eq. Qed.

Lemma parse_authority_said v :
  parse_authority (text_field v "authority") = ProtectiveExit ↔
    ∃ s, says v "authority" s ∧ s ∈ [str "exit"; str "protective_exit"].
Proof.
  unfold says. destruct (text_field v "authority") as [s|]; simpl.
  - case_bool_decide; [|naive_solver]. split; [eauto|done].
  - naive_solver.
Qed.

Lemma trace_field_ok v : trace_ok (trace_field v).
Proof.
  unfold trace_field. destruct (json_get (str "trace_id") v) as [w|]; [|apply trace_none_ok]. simpl.
  destruct (json_u64 w) as [n|] eqn:E; [|apply trace_none_ok]. apply json_u64_range in E.
  unfold trace_ok. simpl. unfold_ranges. lia.
Qed.

Lemma intent_new_keeps c i s q k l st a t quote x :
  Intent.new c i s q k l st a t quote = Ok x →
  x = Intent.mk c i s q k l st a t quote ∧ 0 < raw q ∧ (l = None ∨ st = None).
Proof.
  intros Hx. pose proof (intent_new_Ok _ _ _ _ _ _ _ _ _ _ _ Hx) as ->.
  apply intent_new_exact in Hx as [_ Hq _ _ _ Hone _ _]. done.
Qed.

Lemma kind_of_prices_said c i s q l st a t quote :
  l = None ∨ st = None → kind_said (Intent.mk c i s q (kind_of_prices l st) l st a t quote).
Proof. unfold kind_said, kind_of_prices. by intros [->| ->]; [destruct st|destruct l]. Qed.

Lemma parse_place_sound v c :
  no_nul v → says v "op" (str "place") → parse_place v = Ok c → wf_command c ∧ asked v c.
Proof.
  intros Hn Hop Hp. unfold parse_place in Hp.
  bind_step Hp coid Hcoid. bind_step Hp instr Hinstr. bind_step Hp sidetext Hside.
  bind_step Hp sd Hsd. bind_step Hp q Hq. cbv zeta in Hp.
  bind_step Hp c0 Hc. bind_step Hp i0 Hi. bind_step Hp x Hx. injection Hp as <-.
  apply bind_Some in Hq as (sq & Hsq & Hq).
  destruct (parse sq) as [q'|] eqn:Eq; [injection Hq as ->|done].
  apply parse_decimal in Eq as [Hqd Hqok].
  destruct (id_of_field _ _ _ _ _ Hn Hcoid Hc) as [Hc1 Hc2].
  destruct (id_of_field _ _ _ _ _ Hn Hinstr Hi) as [Hi1 Hi2].
  destruct (price_field_said v "limit_price") as [Hl1 Hl2].
  destruct (price_field_said v "stop_price") as [Hs1 Hs2].
  pose proof (intent_new_keeps _ _ _ _ _ _ _ _ _ _ _ Hx) as (-> & Hpos & Hone).
  split; [split; try done; apply trace_field_ok|].
  split; cbn; try done; [| |apply parse_authority_said| |apply trace_field_said].
  - exists sidetext. split; [done|]. by apply parse_side_said.
  - by exists sq.
  - by apply kind_of_prices_said.
Qed.

Lemma parse_decide_sound v c :
  no_nul v → says v "op" (str "decide") → parse_decide v = Ok c → wf_command c ∧ asked v c.
Proof.
  intros Hn Hop Hp. unfold parse_decide in Hp.
  bind_step Hp instr Hinstr. bind_step Hp i Hi. bind_step Hp val Hval. injection Hp as <-.
  destruct (id_of_field _ _ _ _ _ Hn Hinstr Hi) as [Hi1 Hi2].
  split; split_and!; try done; [|by apply (note_field v "note" [])|].
  - destruct (text_field v "value"); [|injection Hval as <-; apply zero_ok].
    apply map_err_is_Ok, parse_decimal in Hval as [_ ?]. done.
  - unfold says. destruct (text_field v "value") as [s|]; [left|right; by injection Hval as <-].
    apply map_err_is_Ok, parse_decimal in Hval as [? _]. by exists s.
Qed.

Lemma control_parse_sound (line : list byte) (v : J) (c : Command.t) :
  json_parse line = Ok v → no_nul v → control_parse line = Ok c → wf_command c ∧ asked v c.
Proof.
  intros Hv Hn Hp. unfold control_parse in Hp. rewrite Hv in Hp. cbn [mbind result_bind] in Hp.
  bind_step Hp op Hop. 
  case_bool_in Hp; [z_reflect; subst op; by apply parse_place_sound|].
  case_bool_in Hp; z_reflect.
  { subst op. bind_step Hp coid Hcoid. bind_step Hp c0 Hc. injection Hp as <-.
    destruct (id_of_field _ _ _ _ _ Hn Hcoid Hc) as [Hc1 Hc2].
    split; [split; [done|apply trace_none_ok]|done]. }
  case_bool_in Hp; z_reflect; [subst op; injection Hp as <-; split; [by apply note_field|done]|].
  case_bool_in Hp; z_reflect; [subst op; injection Hp as <-; split; [by apply note_field|done]|].
  case_bool_in Hp; z_reflect; [subst op; by apply parse_decide_sound|done].
Qed.

(** C26: the socket gives the writer only what a line asked for. Whatever JSON value a line holds,
    as long as no string of it holds a NUL, the command that comes out of it is
    well typed and one of the five the socket carries; a placement carries the
    id, the instrument, the side and the quantity the line spells out, exactly
    and with a positive quantity, a limit or a stop price exactly if the line
    writes one that reads as it (and is of the kind these make it), the trace
    id the line gives and otherwise none, and protective authority if and only
    if the line asked for it by name. *)
Theorem control_commands (line : list byte) (v : J) (c : Command.t) :
  json_parse line = Ok v → no_nul v → control_parse line = Ok c → wf_command c ∧ asked v c.
Proof. apply control_parse_sound. Qed.
End spec.

(** ** A connection *)

Section connection.
Context {J : Type} `{Json J}.

Definition blank (l : Line) : bool :=
  match ln_text l with Some line => bool_decide (trim line = []) | None => true end.

(** Over a connection that stays up, every line that is not blank gets its
    answer, in order, and the writer gets the commands of those answered [ok]. *)
Lemma handle_answers lines :
  Forall (λ l, is_Some (ln_text l) ∧ ln_written l = true) lines →
  let served := filter (λ l, blank l = false) lines in
  let answers := (λ l, answer_line (default [] (ln_text l)) (ln_writer l)) <$> served in
  handle lines = (answers.*1, omap snd answers).
Proof.
  induction 1 as [|[t writer w] lines [[line Hl] Hw] _ IH]; [done|].
  cbn [ln_text ln_written] in Hl, Hw. subst t w. cbn [handle]. rewrite filter_cons.
  assert (blank (mkLine (Some line) writer true) = bool_decide (trim line = [])) as -> by done.
  cbn [ln_text ln_writer ln_written]. destruct (bool_decide (trim line = [])); [by apply IH|].
  rewrite decide_True by done. rewrite IH. cbn [fmap list_fmap default ln_text ln_writer id].
  by destruct (answer_line line writer) as [a [c|]].
Qed.

Lemma answered_ok line writer :
  (answer_line line writer).1 = answer_ok →
  ∃ c, control_parse line = Ok c ∧ writer = true ∧ (answer_line line writer).2 = Some c.
Proof.
  unfold answer_line. destruct (control_parse line) as [c|e]; [destruct writer; [by eauto|]|];
    intros E; by vm_compute in E.
Qed.
End connection.

(** ** Examples *)

Definition ex_order_line : list byte := str "place".
Definition ex_price_line : list byte := str "place at a price".
Definition ex_fields : list (list byte * Tree) :=
  [(str "op", TStr (str "place")); (str "client_order_id", TStr (str "UI-1"));
   (str "instrument", TStr (str "BTCUSD")); (str "side", TStr (str "buy"));
   (str "qty", TStr (str "0.003"))].

(** The texts stand for the lines of JSON that denote these values. *)
Definition ex_table : list (list byte * Tree) :=
  [(ex_order_line, TObj ex_fields);
   (ex_price_line, TObj (ex_fields ++ [(str "limit_price", TStr (str "109,432.5"))]))].

Definition ex_control_intent : Intent.t :=
  Intent.mk (inline_or_default 36 (str "UI-1")) (inline_or_default 16 (str "BTCUSD")) Buy
    (from_raw 300000) Market None None Entry TRACE_NONE None.

Lemma tree_no_nul table fields :
  forallb (λ f, match f.2 with TStr s => clean_text s | _ => true end) fields = true →
  @no_nul Tree (tree_json table) (TObj fields).
Proof.
  intros Hall name s Hs. unfold text_field in Hs. apply bind_Some in Hs as (w & Hw & Hs).
  change (snd <$> find (λ f, bool_decide (f.1 = str name)) fields = Some w) in Hw.
  destruct (find _ fields) as [f|] eqn:Hf; [|done]. injection Hw as <-.
  apply find_Some in Hf as [Hf _]. rewrite forallb_forall in Hall.
  specialize (Hall f (proj1 (list_elem_of_In _ _) Hf)). cbn in Hall, Hs.
  destruct f.2 as [|t| | | |]; try done. destruct (utf8_valid t); [|done]. injection Hs as <-.
  by apply clean_text_spec in Hall as [_ ?].
Qed.

Lemma control_commands_witness :
  let J := tree_json ex_table in
  control_parse ex_order_line = Ok (Command.Place ex_control_intent) ∧
  (wf_command (Command.Place ex_control_intent) ∧
   asked (TObj ex_fields) (Command.Place ex_control_intent)).
Proof.
  intros J. assert (control_parse ex_order_line = Ok (Command.Place ex_control_intent)) as Hp
    by (vm_compute; reflexivity).
  split; [exact Hp|].
  apply (@control_commands Tree J (tree_json_laws ex_table) ex_order_line (TObj ex_fields)
           (Command.Place ex_control_intent)).
  - vm_compute. reflexivity.
  - apply tree_no_nul. vm_compute. reflexivity.
  - exact Hp.
Defined.

(** A price that is written and cannot be read is not refused: the order becomes
    a market order. *)
Example unreadable_price_is_market :
  let J := tree_json ex_table in
  control_parse ex_price_line = Ok (Command.Place ex_control_intent).
Proof. vm_compute. reflexivity. Qed.
