(* ===== verification/Answers.v ===== *)
(** * What the venue's answers put into the engine (sentinel-binance, sentineld/src/runtime.rs)

    The adapter of Binance.v behind the worker of Runtime.v: every command its
    answers become, and every event of its stream, is a value the journal can
    hold; and its report of positions is exactly what the venue said is held. *)

From S2P Require Import Prelude Fixed Text Types Json Domain Intent Format Codec Records Segment Journal Book Venue Symbol Signing VenueParse Binance Adapter Stream Engine Trace Runtime WellFormed Control.

Section answers.
Context {J N : Type} `{JL : JsonLaws J} `{Client N}.

(** No string of the venue holds a NUL, which the text of an id cannot carry. *)
Context (no_nul_text : ∀ (v : J) s, json_str v = Some s → Byte.x00 ∉ s).

(** ** Fields *)

Lemma str_clean (v : J) s : json_str v = Some s → clean_text s = true.
Proof. intros Hs. apply clean_text_spec. split; [by eapply json_str_utf8|by eapply no_nul_text]. Qed.

Lemma inline_text_ok N0 s (x : InlineStr N0) : clean_text s = true → inline_new N0 s = Ok x → text_ok x.
Proof. intros Hs Hx. pose proof (text_ok_default N0 s Hs) as Ho. unfold inline_or_default in Ho. by rewrite Hx in Ho. Qed.

Lemma field_id_ok N0 (row : J) name (x : InlineStr N0) : field_id N0 row name = Some x → text_ok x.
Proof.
  unfold field_id, field_str. intros (s & (w & _ & Hs)%bind_Some & Hx)%bind_Some.
  destruct (inline_new N0 s) as [y|] eqn:E; [|done]. injection Hx as ->.
  eapply inline_text_ok; [by eapply str_clean|done].
Qed.

Lemma decimal_of_ok (v : J) p : decimal_of v = Some p → e8_ok p.
Proof.
  unfold decimal_of. intros (s & _ & Hp)%bind_Some. destruct (parse s) eqn:E; [|done].
  injection Hp as ->. by apply parse_decimal in E as [_ ?].
Qed.

Lemma quantity_ok (v : J) q : quantity v = Some q → e8_ok q.
Proof. unfold quantity. intros (p & Hp & ->)%fmap_Some. by apply decimal_of_ok in Hp. Qed.
Lemma amount_ok (v : J) m : amount v = Some m → e8_ok m.
Proof. unfold amount. intros (p & Hp & ->)%fmap_Some. by apply decimal_of_ok in Hp. Qed.

Lemma derived_ok (v : J) p : derived_decimal v = Some (Some p) → e8_ok p.
Proof.
  unfold derived_decimal, derived_text. destruct (figure v) as [text|]; [|done].
  destruct (parse text) as [x|] eqn:E.
  { intros [= ->]. by apply parse_decimal in E as [_ ?]. }
  destruct (split_once _ text) as [[whole fraction]|]; [|done]. case_match; [|done].
  intros [= Hp]. destruct (parse (whole ++ _)) as [y|] eqn:E'; [|done]. injection Hp as ->.
  by apply parse_decimal in E' as [_ ?].
Qed.

Lemma get_as_spec {A} (f : J → option A) row name a :
  get_as f row name = Some a → ∃ w, json_get (str name) row = Some w ∧ f w = Some a.
Proof. apply bind_Some. Qed.

(** ** Events of the stream *)

Lemma order_update_ok frame : Forall wf_venue_event (decode_order_update frame).
Proof.
  unfold decode_order_update. destruct (json_get (str "o") frame) as [order|]; [|constructor].
  destruct (field_id 36 order "c") as [c|] eqn:Hc; [|constructor]. apply field_id_ok in Hc.
  cbv zeta. case_bool_decide; [|case_bool_decide; [by apply Forall_singleton|constructor]].
  destruct (get_as integer order "t" ≫= _) as [x|] eqn:Hx; [|constructor].
  apply bind_Some in Hx as (id & _ & Hx).
  destruct (inline_new 40 (dec_signed id)) as [y|] eqn:Ey; [|done]. injection Hx as ->.
  apply inline_text_ok in Ey; [|apply clean_dec_signed].
  destruct (get_as quantity order "l") as [q|] eqn:Hq; [|constructor].
  destruct (get_as decimal_of order "L") as [p|] eqn:Hp; [|constructor].
  apply get_as_spec in Hq as (? & _ & Hq%quantity_ok). apply get_as_spec in Hp as (? & _ & Hp%decimal_of_ok).
  by apply Forall_singleton.
Qed.

Lemma account_update_ok frame : Forall wf_venue_event (decode_account_update frame).
Proof.
  unfold decode_account_update. case_match; [|constructor]. apply Forall_forall. intros ev Hev.
  apply list_elem_of_omap in Hev as (entry & _ & Hev).
  apply bind_Some in Hev as (asset & Ha%field_id_ok & (m & Hm & [= <-])%bind_Some).
  apply get_as_spec in Hm as (? & _ & Hm%amount_ok). done.
Qed.

Lemma frame_ok frame : Forall wf_venue_event (decode_frame frame).
Proof.
  unfold decode_frame. cbv zeta. repeat case_bool_decide;
    [apply order_update_ok|apply account_update_ok| |constructor].
  destruct (decode_mark frame) as [ev|] eqn:E; [|constructor]. apply Forall_singleton.
  unfold decode_mark in E. apply bind_Some in E as (i & Hi%field_id_ok & (p & Hp & [= <-])%bind_Some).
  by apply get_as_spec in Hp as (? & _ & Hp%decimal_of_ok).
Qed.

Lemma events_ok m : Forall wf_venue_event (events_of m).
Proof.
  destruct m as [text| | |]; cbn; try constructor. unfold receive_text.
  destruct (json_parse text); [|constructor]. case_bool_decide; [constructor|apply frame_ok].
Qed.

(** ** Answers to requests *)

Lemma floor_boundary_ok text e : is_char_boundary text (floor_boundary text e) = true.
Proof. induction e as [|e IH]; cbn [floor_boundary]; [done|]. by case_bool. Qed.

Lemma reject_ok (body : J) :
  let r := reject_reason body in - 2 ^ 31 ≤ code r < 2 ^ 31 ∧ text_ok (text r).
Proof.
  unfold reject_reason, error_code. cbv zeta.
  destruct (_ ≫= _) as [[n message]|] eqn:E; [|split; [vm_compute; split; congruence|]].
  2: { apply text_ok_default, clean_take; [by vm_compute|apply floor_boundary_ok]. }
  apply bind_Some in E as (n' & _ & (n'' & Hn & [= <- <-])%bind_Some). split.
  - unfold i32_try_from in Hn. case_match eqn:E; [|done]. injection Hn as <-. z_reflect. cbn. lia.
  - apply text_ok_default, clean_take; [|apply floor_boundary_ok].
    destruct (field_str body "msg") as [s|] eqn:Es; [|done]. cbn.
    unfold field_str in Es. apply bind_Some in Es as (w & _ & Hs). by eapply str_clean.
Qed.

Lemma venue_order_ok (row : J) o :
  venue_order row = Ok o → e8_ok (vo_filled_qty o) ∧ opt_ok (vo_avg_price o).
Proof.
  unfold venue_order. intros E. bind_step E status Hs. bind_step E executed He. bind_step E avg Ha.
  bind_step E oid Hid. bind_step E symb Hsym. injection E as <-. cbn. split.
  - by apply quantity_ok in He.
  - destruct avg as [p|]; [|done]. cbn. case_bool; [|done].
    by apply derived_ok in Ha.
Qed.

Lemma venue_position_ok (row : J) r :
  venue_position row = Ok r → text_ok (vr_symbol r) ∧ e8_ok (vr_qty r) ∧ e8_ok (vr_entry_price r).
Proof.
  unfold venue_position. intros E. bind_step E symb Hs. bind_step E q Hq. bind_step E entry He.
  injection E as <-. cbn.
  split_and!; [by eapply field_id_ok|by eapply quantity_ok|].
  destruct entry; cbn; [by eapply derived_ok|apply zero_ok].
Qed.

Lemma submitted_ok (i : Intent.t) (v v' : BinanceVenue N) o :
  text_ok (Intent.client_order_id i) → bn_submit i v = (v', Ok o) →
  wf_command (Command.Submitted (Intent.client_order_id i) o).
Proof.
  intros Hi E. unfold bn_submit in E. cbv zeta in E.
  apply st_bind_Ok in E as (v1 & rules & _ & E). apply st_bind_Ok in E as (v2 & u & _ & E).
  apply st_bind_Ok in E as (v3 & query & _ & E). apply st_bind_Ok in E as (v4 & body & _ & E).
  destruct body as [body|]; [|by injection E as _ <-].
  destruct (error_code body) as [[n message]|] eqn:He.
  - destruct (code_is_retryable n); [by apply st_bind_Ok in E as (v5 & w & _ & E)|].
    injection E as _ <-. split; [done|apply reject_ok].
  - injection E as _ <-. split; [done|]. apply text_ok_default.
    destruct (integer (field body "orderId")); [apply clean_dec_signed|done].
Qed.

Lemma find_loop_ok c l : ∀ last_error v v' symbol order,
  find_loop c l last_error v = (v', Ok (Some (symbol, order))) →
  e8_ok (vo_filled_qty order) ∧ opt_ok (vo_avg_price order).
Proof.
  induction l as [|x l IH]; intros e v v' symbol order E; cbn [find_loop] in E.
  - by destruct e.
  - apply st_bind_Ok in E as (v1 & r & Ha & E). destruct r as [[o|]|err]; [|by apply IH in E..].
    injection E as _ <- <-. unfold attempt in Ha.
    destruct (query_order x c v) as [v2 [r|[e'|]]] eqn:Hq; [|done..]. injection Ha as _ ->.
    unfold query_order in Hq. cbv zeta in Hq. apply st_bind_Ok in Hq as (v3 & body & _ & Hq).
    destruct body as [body|]; [|done]. destruct (error_code body) as [[n m]|].
    + destruct (n =? _); [done|]. destruct (code_is_retryable n); [|done].
      by apply st_bind_Ok in Hq as (v4 & w & _ & Hq).
    + apply st_bind_Ok in Hq as (v4 & o' & Ho & Hq). injection Hq as _ <-.
      unfold st_lift in Ho. injection Ho as _ Ho. by apply venue_order_ok in Ho.
Qed.

Lemma looked_up_ok c (v v' : BinanceVenue N) o :
  text_ok c → bn_lookup c v = (v', Ok o) → wf_command (Command.LookedUp c o).
Proof.
  intros Hc E. unfold bn_lookup in E. apply st_bind_Ok in E as (v1 & r & Ha & E).
  destruct r as [[[symbol order]|]|e]; [|by injection E as _ <-|].
  - injection E as _ <-. unfold attempt in Ha.
    destruct (find_order c v) as [v2 [r|[e|]]] eqn:Hf; [|done..]. injection Ha as _ ->.
    apply find_loop_ok in Hf as [Hq Hp]. split; [done|]. split_and!; [|done..]. cbn.
    destruct (inline_new 32 _) eqn:E; cbn; [|done].
    eapply inline_text_ok; [apply clean_dec_signed|exact E].
  - destruct (VenueError.is_retryable e); [by injection E as _ <-|done].
Qed.

(** ** Positions *)

Lemma result_mapM_Ok {E A B} (f : A → result E B) l out :
  result_mapM f l = Ok out → Forall2 (λ x y, f x = Ok y) l out.
Proof.
  revert out. induction l as [|x l IH]; intros out E1; cbn [result_mapM] in E1.
  - injection E1 as <-. constructor.
  - bind_step E1 y Hy. bind_step E1 ys Hys. injection E1 as <-. constructor; auto.
Qed.

(** The row says that this position is held, in a symbol that is loaded. *)
Definition held (symbols : Symbols) (row : J) (p : VenuePosition) : Prop :=
  field_id 16 row "symbol" = Some (vp_instrument p) ∧
  quantity (field row "positionAmt") = Some (vp_qty p) ∧ raw (vp_qty p) ≠ 0 ∧
  is_Some (symbols !! vp_instrument p) ∧
  ∃ entry, derived_decimal (field row "entryPrice") = Some entry ∧
    vp_entry_price p = (e ← entry; if is_positive e then Some e else None).

(** The row can be read: a size, and unless it is flat a symbol. *)
Definition readable (row : J) : Prop :=
  ∃ q : Qty, quantity (field row "positionAmt") = Some q ∧
    (raw q ≠ 0 → is_Some (field_id 16 row "symbol")).

Lemma position_of_row_Ok symbols row r :
  position_of_row symbols row = Ok r → readable row ∧ ∀ p, r = Some p ↔ held symbols row p.
Proof.
  unfold position_of_row. cbv zeta. destruct (quantity (field row "positionAmt")) as [q|] eqn:Hq.
  2: { unfold venue_position. intros E. bind_step E parsed Hp. bind_step Hp x Hx. by rewrite Hq in Hp. }
  destruct (is_zero q) eqn:Hz; unfold is_zero in Hz; z_reflect.
  { intros [= <-]. split; [by exists q|]. intros p. split; [done|]. intros (_ & Hp & Hn & _).
    rewrite Hq in Hp. injection Hp as E. by rewrite <-E, Hz in Hn. }
  unfold venue_position. intros E. bind_step E parsed Hp.
  bind_step Hp symb Hs. rewrite Hq in Hp. cbn [malformed ok_or mbind result_bind] in Hp.
  bind_step Hp entry He. injection Hp as <-. cbn [vr_qty vr_symbol vr_entry_price] in E.
  split; [exists q; split; [done|]; by rewrite Hs|].
  destruct (is_zero q) eqn:Hz'; [unfold is_zero in Hz'; by z_reflect|]. unfold symbols_get in E. intros p.
  assert ((if is_positive (default ZERO entry) then Some (default ZERO entry) else None) =
          (e ← entry; if is_positive e then Some e else None)) as Ee by (by destruct entry).
  split.
  - intros ->. destruct (symbols !! symb) eqn:Hl; [|done]. injection E as <-.
    split_and!; cbn; [done..|by eexists|]. by exists entry.
  - intros (Hs' & Hq' & _ & [r' Hl] & entry' & He' & Hentry).
    destruct p as [pi pq pe]; cbn in *. rewrite Hs in Hs'. rewrite Hq in Hq'. rewrite He in He'.
    injection Hs' as <-. injection Hq' as <-. injection He' as <-. subst pe. rewrite Hl in E.
    injection E as <-. by rewrite <-Ee.
Qed.

Lemma positions_run (v v' : BinanceVenue N) l :
  bn_positions v = (v', Ok l) →
  ∃ rq rows out, signed_request (bn_credentials v) "GET" (str "/fapi/v3/positionRisk") [] rq ∧
    heard rq (λ body, error_code body = None ∧ default [] (json_array body) = rows) ∧
    Forall2 (λ row r, position_of_row (bn_symbols v) row = Ok r) rows out ∧
    l = merge_sort position_le (omap id out).
Proof.
  intros E. unfold bn_positions in E. apply st_bind_Ok in E as (v1 & rows & Hr & E).
  pose proof (framed_rows steady (str "/fapi/v3/positionRisk") "positionRisk" ltac:(by eexists) v) as [_ Es]. rewrite Hr in Es.
  cbn [fst] in Es. change ((st_get bn_symbols ≫= ?k) v1) with (k (bn_symbols v1) v1) in E. cbv beta in E.
  apply st_bind_Ok in E as (v2 & out & Ho & E). injection E as _ <-. unfold st_lift in Ho. injection Ho as _ Ho.
  apply result_mapM_Ok in Ho. rewrite Es in Ho.
  unfold rows_of in Hr. apply st_bind_Ok in Hr as (v3 & body & Hb & Hr).
  apply signed_cases in Hb as (rq & Hrq & Hb). destruct body as [body|]; [|done].
  destruct (error_code body) as [[n m]|] eqn:He; [done|]. injection Hr as _ <-.
  exists rq, (default [] (json_array body)), out. split_and!; [done| |done|done].
  eapply heard_weaken; [exact Hb|]. by intros b ->.
Qed.

Lemma positions_members (symbols : Symbols) rows out p :
  Forall2 (λ row r, position_of_row symbols row = Ok r) rows out →
  p ∈ merge_sort position_le (omap id out) ↔ ∃ row, row ∈ rows ∧ held symbols row p.
Proof.
  intros Ho. rewrite merge_sort_Permutation, list_elem_of_omap. split.
  - intros (r & Hr & E). cbn in E. subst r. apply list_elem_of_lookup in Hr as [k Hk].
    destruct (Forall2_lookup_r _ _ _ _ _ Ho Hk) as (row & Hrow & Hp). exists row.
    split; [by eapply list_elem_of_lookup_2|]. by apply position_of_row_Ok in Hp as [_ Hp]; apply Hp.
  - intros (row & [k Hk]%list_elem_of_lookup & Hheld).
    destruct (Forall2_lookup_l _ _ _ _ _ Ho Hk) as (r & Hr & Hp). exists r.
    split; [by eapply list_elem_of_lookup_2|]. apply position_of_row_Ok in Hp as [_ Hp]. by apply Hp.
Qed.

#[local] Instance position_le_total : Total position_le.
Proof. intros a b. apply (id_le_total 16). Qed.
#[local] Instance position_le_trans : Transitive position_le.
Proof. intros a b c. apply (id_le_trans 16). Qed.

Lemma held_ok symbols row p : held symbols row p → wf_position p.
Proof.
  intros (Hs & Hq & _ & _ & entry & He & Hp). split_and!; [by eapply field_id_ok|by eapply quantity_ok|].
  rewrite Hp. destruct entry as [e|]; [|done]. cbn. case_bool; [by eapply derived_ok|done].
Qed.

Lemma positions_ok (v v' : BinanceVenue N) l : bn_positions v = (v', Ok l) → Forall wf_position l.
Proof.
  intros (rq & rows & out & _ & _ & Ho & ->)%positions_run. apply Forall_forall. intros p.
  rewrite (positions_members _ _ _ _ Ho). intros (row & _ & Hh). by eapply held_ok.
Qed.

Lemma reported_ok l : Forall wf_position l → wf_command (positions_reported l).
Proof.
  intros Hl. unfold positions_reported. cbv zeta. cbn [wf_command]. apply Forall_forall. unfold flatten.
  intros p (r & [Hr|Hr]%elem_of_app & E)%list_elem_of_omap; cbn in E; subst r.
  - apply list_elem_of_fmap in Hr as (q & [= <-] & (k & Hk & _)%elem_of_take).
    rewrite Forall_forall in Hl. apply Hl. by eapply list_elem_of_lookup_2.
  - by apply elem_of_replicate in Hr as [? _].
Qed.

(** What the worker makes of an answer. *)
Lemma performed_ok (r : VenueRequest.t) (v v' : BinanceVenue N) commands :
  wf_request r → perform r v = (v', Some commands) → Forall wf_command commands.
Proof.
  intros Hr E. destruct r as [i|c k|c|]; cbn [perform] in E; unfold answered in E;
    match type of E with context [match ?a with _ => _ end] => destruct a as [v1 [o|[e|]]] eqn:Ea end;
    simplify_eq; try apply Forall_nil_2; apply Forall_singleton.
  - eapply submitted_ok; [apply Hr|exact Ea].
  - by destruct o.
  - eapply looked_up_ok; [exact Hr|exact Ea].
  - eapply reported_ok, positions_ok, Ea.
Qed.

(** ** Properties *)

(** What one row says: it can be read, and it says a position or that there is
    none to report. *)
Definition row_says (symbols : Symbols) (row : J) (r : option VenuePosition) : Prop :=
  readable row ∧ ∀ p, r = Some p ↔ held symbols row p.

(** The rows of a body. One that is not a list has none. *)
Definition body_rows (body : J) (rows : list J) : Prop :=
  match json_array body with
  | Some l => rows = l
  | None => rows = []
  end.

(** C17: the report of positions is what the venue said, row by row. A report
    that is given came from one signed request and a body without an error code;
    every row of the body could be read, for one that cannot makes the report an
    error; the report is, sorted by symbol, one position for each row that says
    one, with the symbol, the signed size, not zero, of a symbol this adapter
    trades, and the entry price when it is positive, and nothing else: no row is
    dropped and none is counted twice. A body with neither a code nor a list
    counts as one with no rows: it is taken to say that nothing is held. *)
Theorem positions_exact (v v' : BinanceVenue N) (l : list VenuePosition) :
  bn_positions v = (v', Ok l) →
  ∃ rq rows said, signed_request (bn_credentials v) "GET" (str "/fapi/v3/positionRisk") [] rq ∧
    heard rq (λ body, error_code body = None ∧ body_rows body rows) ∧
    Forall2 (row_says (bn_symbols v)) rows said ∧
    l ≡ₚ omap id said ∧ StronglySorted position_le l.
Proof.
  intros (rq & rows & out & Hrq & Hh & Ho & ->)%positions_run. exists rq, rows, out.
  split_and!; [done| | |apply merge_sort_Permutation|apply (StronglySorted_merge_sort _ _)].
  - eapply heard_weaken; [exact Hh|]. intros b [Hc Hr]. split; [done|]. unfold body_rows.
    by destruct (json_array b).
  - eapply Forall2_impl; [exact Ho|]. intros row r. apply position_of_row_Ok.
Qed.
End answers.

(** ** Examples *)

(** Trees whose strings are clean text. *)
Definition clean_json (table : list (list byte * Tree)) : Json Tree :=
  {| json_parse := json_parse (Json := tree_json table);
     json_get := json_get (Json := tree_json table);
     json_str v := match v with TStr s => if clean_text s then Some s else None | _ => None end;
     json_number := json_number (Json := tree_json table);
     json_i64 := json_i64 (Json := tree_json table);
     json_u64 := json_u64 (Json := tree_json table);
     json_array := json_array (Json := tree_json table);
     json_null := TNull;
     json_quote := debug_str |}.

Lemma clean_json_no_nul table (v : Tree) s : json_str (Json := clean_json table) v = Some s → Byte.x00 ∉ s.
Proof. destruct v; try done. cbn. case_match eqn:E; [|done]. intros [= <-]. by apply clean_text_spec in E as [_ ?]. Qed.

Lemma clean_json_laws table : @JsonLaws Tree (clean_json table).
Proof.
  split; try done; intros v; destruct v; try done; cbn; intros x.
  - case_match eqn:E; [|done]. intros [= <-]. by apply clean_text_spec in E as [? _].
  - case_match; [|done]. intros [= <-]. by z_reflect.
  - case_match; [|done]. intros [= <-]. by z_reflect.
Qed.

#[local] Instance ex_answers : Json Tree := clean_json
  [(str "rows", TArr
    [TObj [(str "symbol", TStr (str "XRPUSDT")); (str "positionAmt", TInt 5); (str "entryPrice", TStr (str "2.1"))];
     TObj [(str "symbol", TStr (str "A SYMBOL TOO LONG FOR ITS TYPE")); (str "positionAmt", TStr (str "0.000"))];
     TObj [(str "symbol", TStr (str "BTCUSDT")); (str "positionAmt", TStr (str "-0.005"));
           (str "entryPrice", TStr (str "78607.99999999999"))]])].
#[local] Instance ex_answers_laws : JsonLaws Tree := clean_json_laws _.

#[local] Instance ex_answers_client : Client (list HttpRequest) := ex_client [Body (str "rows")].

Definition ex_report : list VenuePosition :=
  [mkVenuePosition ex_symbol (from_raw (-500000)) (Some (from_raw 7860799999999))].

Lemma positions_exact_witness :
  let v' := (bn_positions ex_adapter).1 in
  (bn_positions ex_adapter).2 = Ok ex_report ∧
  ∃ rq rows said, signed_request (bn_credentials ex_adapter) "GET" (str "/fapi/v3/positionRisk") [] rq ∧
    heard rq (λ body, error_code body = None ∧ body_rows body rows) ∧
    Forall2 (row_says (bn_symbols ex_adapter)) rows said ∧
    ex_report ≡ₚ omap id said ∧ StronglySorted position_le ex_report.
Proof.
  intros v'. assert ((bn_positions ex_adapter).2 = Ok ex_report) as E by (vm_compute; reflexivity).
  split; [exact E|]. apply (positions_exact ex_adapter v' ex_report).
  rewrite <-E. by destruct (bn_positions ex_adapter).
Defined.

(** A body that is no list and has no code, as null, reads as an account that
    holds nothing. *)
Example null_body_is_flat :
  let J := clean_json [(str "null", TNull)] in
  let C := ex_client [Body (str "null")] in
  (bn_positions ex_adapter).2 = Ok [].
Proof. vm_compute. reflexivity. Qed.

(** A lookup the venue answers with a 401 becomes no command at all: the engine
    goes on waiting for it (Stall.v). *)
Example unauthorized_lookup_is_lost :
  let C := ex_client [Status 401] in
  (perform (VenueRequest.Lookup (Intent.client_order_id ex_submission)) ex_adapter).2 = Some [].
Proof. vm_compute. reflexivity. Qed.
