(* ===== verification/Config.v ===== *)
(** * Process configuration (sentineld/src/config.rs)

    What the environment makes of the daemon: which venue, whether real money,
    what to trade.  The environment is a function from names to the values that
    are set and are text. *)

From S2P Require Import Prelude Fixed Text Types Codec Guards Engine Control.

Abbreviation Env := (list byte → option (list byte)).

(** [std::env::var], [Err] when the variable is absent or is not text. *)
Definition var (env : Env) (name : string) : option (list byte) := env (str name).

Inductive VenueConfig :=
| Simulator
| Binance (api_key secret : list byte) (demo : bool) (leverage : option Z).

(** [Config] of the process; a [Duration] is its nanoseconds. *)
Record Settings := mkSettings {
  journal_dir : list byte;
  instruments : list Instrument;
  venue_config : VenueConfig;
  s_max_position : option Qty;
  tick_interval : Z;
  sweep_interval : Z;
  stale_after : Z;
  tick_write_after : Z;
}.

Inductive ConfigError := Missing (name : string) | Invalid (name : string) (reason : list byte).

Definition config_error_to_string (e : ConfigError) : list byte :=
  match e with
  | Missing name => str name ++ str " is not set"
  | Invalid name reason => str name ++ str ": " ++ reason
  end.

Definition from_millis (n : Z) : Z := n * 1000000.
Definition from_secs (n : Z) : Z := n * 1000000000.

Definition parse_leverage (env : Env) : result ConfigError (option Z) :=
  match var env "SENTINEL_LEVERAGE" with
  | Some text =>
      let v := v ← parse_u32 text; if (1 <=? v) && (v <=? 125) then Some v else None in
      ok_or (Some <$> v) (Invalid "SENTINEL_LEVERAGE"
        (debug_str text ++ str " is not a leverage between 1 and 125"))
  | None => Ok None
  end.

(** The first of the variables that is set. *)
Definition first_set (env : Env) (name other : string) : option (list byte) :=
  match var env name with Some v => Some v | None => var env other end.

Fixpoint parse_instruments (names : list (list byte)) : result ConfigError (list Instrument) :=
  match names with
  | [] => Ok []
  | s :: names' =>
      i ← map_err (λ e, Invalid "SENTINEL_INSTRUMENTS" (s ++ str ": " ++ too_long_to_string e))
            (inline_new 16 s);
      rest ← parse_instruments names';
      Ok (i :: rest)
  end.

Definition symbol_list (env : Env) : list (list byte) :=
  let symbols := default (str "BTCUSDT") (first_set env "SENTINEL_INSTRUMENTS" "SENTINEL_SYMBOLS") in
  filter (λ s, s ≠ []) (trim <$> split_on (z2b 44) symbols).

Definition venue_from_env (env : Env) : result ConfigError VenueConfig :=
  match var env "SENTINEL_VENUE" with
  | Some v =>
      if bool_decide (v ∈ [str "binance"; str "futures"]) then
        api_key ← ok_or (first_set env "BINANCE_FUTURES_KEY" "BINANCE_API_KEY")
                    (Missing "BINANCE_FUTURES_KEY");
        secret ← ok_or (first_set env "BINANCE_FUTURES_SECRET" "BINANCE_API_SECRET")
                   (Missing "BINANCE_FUTURES_SECRET");
        let demo := negb (bool_decide (var env "SENTINEL_BINANCE_ENV" = Some (str "production"))) in
        leverage ← parse_leverage env;
        Ok (Binance api_key secret demo leverage)
      else Ok Simulator
  | None => Ok Simulator
  end.

Definition tick_write_from_env (env : Env) : result ConfigError Z :=
  match var env "SENTINEL_TICK_WRITE_AFTER" with
  | Some text =>
      from_secs <$> ok_or (parse_u64 text)
                      (Invalid "SENTINEL_TICK_WRITE_AFTER" (str "expects whole seconds"))
  | None => Ok (from_secs 5)
  end.

Definition from_env (env : Env) : result ConfigError Settings :=
  let journal_dir := default (str "/data/journal") (var env "SENTINEL_JOURNAL") in
  instruments ← parse_instruments (symbol_list env);
  if bool_decide (instruments = []) then Err (Missing "SENTINEL_INSTRUMENTS")
  else
    venue ← venue_from_env env;
    max_position ← match var env "SENTINEL_MAX_POSITION" with
                   | Some text =>
                       Some <$> map_err (λ e, Invalid "SENTINEL_MAX_POSITION"
                                           (parse_error_to_string e)) (parse text)
                   | None => Ok None
                   end;
    tick_write_after ← tick_write_from_env env;
    Ok (mkSettings journal_dir instruments venue max_position (from_millis 250) (from_secs 30)
          (from_secs 120) tick_write_after).

Definition is_live_money (s : Settings) : bool :=
  match venue_config s with Binance _ _ false _ => true | _ => false end.

Fixpoint join (sep : list byte) (l : list (list byte)) : list byte :=
  match l with
  | [] => []
  | [s] => s
  | s :: l' => s ++ sep ++ join sep l'
  end.

Definition describe (s : Settings) : list byte :=
  (match venue_config s with
   | Simulator => str "simulator"
   | Binance _ _ true _ => str "binance futures demo"
   | Binance _ _ false _ => str "binance futures PRODUCTION"
   end) ++ str ", " ++ join (str ",") (inline_as_str <$> instruments s) ++
  str ", journal " ++ journal_dir s.

(** [runtime::engine_config]. *)
Definition as_u64_nanos (d : Z) : Z := if d <=? u64_max then d else u64_max.

Definition engine_config (s : Settings) : Config :=
  mkConfig (mkLimits (s_max_position s) false) (as_u64_nanos (stale_after s))
    (reconcile_backoff_nanos config_default) (as_u64_nanos (tick_write_after s))
    (reconcile_backoff_cap_nanos config_default).

(** ** Properties *)

(** The same settings under other credentials. *)
Definition with_keys (api_key secret : list byte) (s : Settings) : Settings :=
  mkSettings (journal_dir s) (instruments s)
    (match venue_config s with
     | Simulator => Simulator
     | Binance _ _ demo leverage => Binance api_key secret demo leverage
     end)
    (s_max_position s) (tick_interval s) (sweep_interval s) (stale_after s) (tick_write_after s).

Definition names_binance (env : Env) : Prop :=
  ∃ v, var env "SENTINEL_VENUE" = Some v ∧ v ∈ [str "binance"; str "futures"].

Lemma parse_leverage_range env n : parse_leverage env = Ok (Some n) → 1 ≤ n ≤ 125.
Proof.
  unfold parse_leverage. destruct (var env "SENTINEL_LEVERAGE") as [t|]; [|done].
  destruct (parse_u32 t) as [v|]; [|done]. cbn. case_bool; [|done]. cbn. intros [= <-].
  z_reflect. lia.
Qed.

Lemma venue_from_env_cases env v :
  venue_from_env env = Ok v →
  match v with
  | Simulator => ¬ names_binance env
  | Binance _ _ demo leverage => names_binance env ∧
      (demo = false ↔ var env "SENTINEL_BINANCE_ENV" = Some (str "production")) ∧
      (∀ n, leverage = Some n → 1 ≤ n ≤ 125)
  end.
Proof.
  unfold venue_from_env, names_binance. destruct (var env "SENTINEL_VENUE") as [w|].
  2: { intros [= <-]. by intros (? & ? & _). }
  case_bool_decide as Hw; [|intros [= <-]; by intros (? & [= <-] & ?)].
  intros Hv. bind_step Hv k Hk. bind_step Hv sec Hsec. bind_step Hv lev Hlev. injection Hv as <-.
  split_and!; [by exists w| |].
  - by rewrite negb_false_iff, bool_decide_eq_true.
  - intros n ->. by eapply parse_leverage_range.
Qed.

(** For real exactly when both words are said. *)
Lemma is_live_money_iff env s :
  from_env env = Ok s →
  (is_live_money s = true ↔
     names_binance env ∧ var env "SENTINEL_BINANCE_ENV" = Some (str "production")).
Proof.
  intros Hs. unfold from_env in Hs. bind_step Hs insts Hi. case_bool_decide; [done|].
  bind_step Hs v Hv. bind_step Hs cap Hcap. bind_step Hs tw Htw. injection Hs as <-.
  apply venue_from_env_cases in Hv. unfold is_live_money. cbn [venue_config].
  destruct v as [|k sec [] l]; naive_solver.
Qed.

Lemma from_env_cap env s : from_env env = Ok s → opt_ok (max_position (limits (engine_config s))).
Proof.
  intros Hs. unfold from_env in Hs. bind_step Hs insts Hi. case_bool_decide; [done|].
  bind_step Hs v Hv. bind_step Hs cap Hcap. bind_step Hs tw Htw. injection Hs as <-. simpl.
  destruct (var env "SENTINEL_MAX_POSITION") as [t|]; [|by injection Hcap as <-].
  destruct (parse t) as [q|] eqn:Hq; [|done]. cbn in Hcap. injection Hcap as <-.
  by apply parse_decimal in Hq as [_ Hq].
Qed.

(** C27: real money has to be named twice. A process that starts trades for real exactly when the
    environment names the venue and names production, each by its exact word; it
    has something to trade, a leverage it sets is between 1 and 125, nothing in
    the configuration grants the engine a confirmed position, and the line it
    prints about itself is the same whatever its key and its secret are. *)
Theorem live_money_opt_in (env : Env) (s : Settings) :
  from_env env = Ok s →
  (is_live_money s = true ↔
     names_binance env ∧ var env "SENTINEL_BINANCE_ENV" = Some (str "production")) ∧
  instruments s ≠ [] ∧
  (∀ k sec d n, venue_config s = Binance k sec d (Some n) → 1 ≤ n ≤ 125) ∧
  limits_position_confirmed (limits (engine_config s)) = false ∧
  (∀ k sec, describe (with_keys k sec s) = describe s).
Proof.
  intros Hs. split; [by apply is_live_money_iff|]. unfold from_env in Hs. bind_step Hs insts Hi.
  case_bool_decide as Hne; [done|]. bind_step Hs v Hv. bind_step Hs cap Hcap.
  bind_step Hs tw Htw. injection Hs as <-.
  apply venue_from_env_cases in Hv. cbn [venue_config instruments]. split_and!; [done| |done|].
  - intros k sec d n ->. destruct Hv as (_ & _ & Hl). by apply Hl.
  - intros k sec. by destruct v as [|? ? []].
Qed.

Definition ex_env : Env := λ name,
  snd <$> find (λ kv : list byte * list byte, bool_decide (kv.1 = name))
    [(str "SENTINEL_VENUE", str "futures"); (str "BINANCE_API_KEY", str "key");
     (str "BINANCE_FUTURES_SECRET", str "hidden"); (str "SENTINEL_BINANCE_ENV", str "production");
     (str "SENTINEL_SYMBOLS", str " BTCUSDT,, ETHUSDT "); (str "SENTINEL_LEVERAGE", str "20");
     (str "SENTINEL_MAX_POSITION", str "0.5"); (str "SENTINEL_TICK_WRITE_AFTER", str "10")].

Definition ex_settings : Settings :=
  mkSettings (str "/data/journal")
    [inline_or_default 16 (str "BTCUSDT"); inline_or_default 16 (str "ETHUSDT")]
    (Binance (str "key") (str "hidden") false (Some 20)) (Some (from_raw 50000000))
    250000000 30000000000 120000000000 10000000000.

Lemma live_money_opt_in_witness :
  from_env ex_env = Ok ex_settings ∧
  describe ex_settings = str "binance futures PRODUCTION, BTCUSDT,ETHUSDT, journal /data/journal" ∧
  ((is_live_money ex_settings = true ↔
     names_binance ex_env ∧ var ex_env "SENTINEL_BINANCE_ENV" = Some (str "production")) ∧
   instruments ex_settings ≠ [] ∧
   (∀ k sec d n, venue_config ex_settings = Binance k sec d (Some n) → 1 ≤ n ≤ 125) ∧
   limits_position_confirmed (limits (engine_config ex_settings)) = false ∧
   (∀ k sec, describe (with_keys k sec ex_settings) = describe ex_settings)).
Proof.
  assert (from_env ex_env = Ok ex_settings) as H by (vm_compute; reflexivity).
  split; [exact H|]. split; [vm_compute; reflexivity|].
  apply (live_money_opt_in ex_env ex_settings). exact H.
Defined.
