(* ===== verification/Errors.v ===== *)
(** * What the errors say ([Display] of the error types)

    The texts an operator reads when the journal, the log, the book, the audit
    or the venue refuses something. What the operating system says of a failed
    call, and the path of the journal, are arguments. *)

From S2P Require Import Prelude Fixed Text Types Domain Intent Position Format Codec Segment Book Invariants Venue Engine Config.

Definition format_error_to_string (e : FormatError) : list byte :=
  match e with
  | NotAJournal => str "not a sentinel journal segment"
  | UnsupportedVersion found =>
      str "journal format version " ++ dec found ++ str ", expected " ++ dec VERSION
  | PayloadTooLarge len =>
      str "frame claims " ++ dec len ++ str " payload bytes, over the " ++ dec MAX_PAYLOAD ++ str " cap"
  | Truncated want have =>
      str "frame claims " ++ dec want ++ str " payload bytes, " ++ dec have ++ str " available"
  | ChecksumMismatch stored computed =>
      str "checksum 0x" ++ hex_fixed 8 stored ++ str " does not match 0x" ++ hex_fixed 8 computed
  | UnknownKind kind => str "record kind " ++ dec kind ++ str " is not known"
  end.

Definition codec_error_to_string (e : CodecError.t) : list byte :=
  match e with
  | CodecError.Truncated want have =>
      str "record wants " ++ dec (Z.of_nat want) ++ str " more bytes, " ++ dec (Z.of_nat have) ++ str " remain"
  | CodecError.BadDiscriminant e => unknown_to_string e
  | CodecError.BadText => str "padded text is not a valid inline string"
  | CodecError.BadFlag value => str "flag byte " ++ dec value ++ str " is neither 0 nor 1"
  | CodecError.TrailingBytes extra => dec (Z.of_nat extra) ++ str " bytes remain after the record"
  end.

Definition position_overflow_to_string : list byte := str "position arithmetic overflowed".

Definition violation_to_string (v : Violation) : list byte :=
  match v with
  | PositionDisagreesWithFills i position fills =>
      inline_as_str i ++ str ": position " ++ to_string position ++ str " but fills sum to " ++ to_string fills
  | OrderOverfilled c ordered filled =>
      inline_as_str c ++ str ": filled " ++ to_string filled ++ str " against an order of " ++ to_string ordered
  | ExitsExceedPosition i exits position =>
      inline_as_str i ++ str ": " ++ to_string exits ++ str " of live exits against a position of " ++
      to_string position
  | UntracedOrder c => inline_as_str c ++ str ": no trace id"
  | BasisWithoutPosition i basis =>
      inline_as_str i ++ str ": cost basis " ++ to_string basis ++ str " on a flat position"
  end.

Definition report_to_string (r : Report) : list byte :=
  if holds r then str "all invariants hold" else join (str "; ") (violation_to_string <$> violations r).

Definition venue_error_to_string (e : VenueError.t) : list byte :=
  match e with
  | VenueError.Transport m => str "transport: " ++ m
  | VenueError.Malformed m => str "malformed venue response: " ++ m
  | VenueError.Unauthorized => str "venue refused our credentials"
  | VenueError.RateLimited (Some t) => str "rate limited, retry after " ++ dec t ++ str "ns"
  | VenueError.RateLimited None => str "rate limited"
  end.

Section journal.
Context (dir : list byte) (os_says : string → list byte).

Definition journal_error_to_string (e : JournalError.t) : list byte :=
  match e with
  | JournalError.Io doing => str doing ++ str ": " ++ os_says doing
  | JournalError.Format e => format_error_to_string e
  | JournalError.AlreadyClaimed => str "journal at " ++ dir ++ str " is held by another writer"
  | JournalError.SequenceGap expected found =>
      str "journal skips from " ++ dec expected ++ str " to " ++ dec found
  | JournalError.PayloadTooLarge len =>
      dec (Z.of_nat len) ++ str " bytes exceeds the record payload cap"
  | JournalError.Poisoned doing =>
      str "journal is poisoned: " ++ str doing ++ str " failed and cannot be retried"
  end.

Definition ledger_error_to_string (e : LedgerError.t) : list byte :=
  match e with
  | LedgerError.Journal e => str "journal: " ++ journal_error_to_string e
  | LedgerError.Codec seq source => str "record " ++ dec seq ++ str ": " ++ codec_error_to_string source
  | LedgerError.UnknownOrder c => inline_as_str c ++ str ": no intent for this order"
  | LedgerError.Transition c source => inline_as_str c ++ str ": " ++ transition_error_to_string source
  | LedgerError.PositionOverflow i => inline_as_str i ++ str ": position arithmetic overflowed"
  | LedgerError.StateDisagrees c recorded held =>
      inline_as_str c ++ str ": the log says " ++ as_str recorded ++ str ", this build says " ++ as_str held
  end.

(** [None]: the model's own panic is not an error the source returns. *)
Definition engine_error_to_string (e : EngineError.t) : option (list byte) :=
  match e with
  | EngineError.Journal e => Some (str "journal: " ++ journal_error_to_string e)
  | EngineError.Ledger e => Some (str "ledger: " ++ ledger_error_to_string e)
  | EngineError.Panicked _ => None
  end.
End journal.

(** Two violations are told apart on one line. *)
Example report_on_one_line :
  report_to_string (mkReport
    [UntracedOrder (inline_or_default 36 (str "UI-1"));
     BasisWithoutPosition (inline_or_default 16 (str "BTCUSD")) (whole 3)]) =
  str "UI-1: no trace id; BTCUSD: cost basis 3 on a flat position".
Proof. vm_compute. reflexivity. Qed.
