(* ===== verification/Replay.v ===== *)
(** * The book is the log (sentinel-engine/src/engine.rs, sentinel-ledger/src/book.rs)

    The engine never holds a fact its log does not: after every command that
    succeeds, the live book is exactly what [Book::rebuild] folds from the
    records, durable and pending, and a process that opens the journal again
    finds the same book.  The one exception is a cancel that the order cannot
    take, which succeeds and leaves a log no rebuild folds.  The first part follows every handler once more to show
    that all it writes can be read back. *)

From S2P Require Import Prelude Fixed Types Domain Intent Position Crc Format Codec Records Segment Journal Book Venue Guards Engine Trace Safety WellFormed.

(** ** Everything written can be read back *)

Definition all_ok (ws : list Written) : Prop := Forall (λ w : Written, record_ok w.1.2) ws.

(** From a well-formed engine: what is written is well-formed, the engine
    stays so, the book took everything if the result is [Ok], and the result
    satisfies [Q]. *)
Definition kept_at {A} (e : Engine) (m : EM A) (Q : A → Prop) : Prop :=
  wf_engine e →
  ∃ ws rs, step e ws rs (m e).1 ∧ (is_Ok (m e).2 → clean ws) ∧ all_ok ws ∧
    wf_engine (m e).1 ∧ (∀ a, (m e).2 = Ok a → Q a).
Definition kept {A} (m : EM A) (Q : A → Prop) : Prop := ∀ e, kept_at e m Q.
Abbreviation keeps m := (kept m (λ _, True)).

Lemma kept_bind {A B} (m : EM A) (f : A → EM B) Q R :
  kept m Q → (∀ a, Q a → kept (f a) R) → kept (m ≫= f) R.
Proof.
  intros Hm Hf e He. destruct (Hm e He) as (ws & rs & H & Hc & Ho & He1 & HQ).
  unfold mbind, ST_bind. destruct (m e) as [e1 [a|err]]; cbn [fst snd] in *.
  - destruct (Hf a (HQ a eq_refl) e1 He1) as (ws' & rs' & H' & Hc' & Ho' & He2 & HR).
    exists (ws ++ ws'), (rs ++ rs'). split_and!; [by eapply step_trans| |by apply Forall_app|done|done].
    intros Hok. apply Forall_app. split; [by apply Hc|by apply Hc'].
  - exists ws, rs. split_and!; [done|by intros []|done|done|done].
Qed.

Lemma keeps_bind {A B} (m : EM A) (f : A → EM B) R :
  keeps m → (∀ a, kept (f a) R) → kept (m ≫= f) R.
Proof. intros Hm Hf. eapply kept_bind; [exact Hm|auto]. Qed.

(** A read: what was read is what a well-formed engine holds. *)
Lemma kept_get {A B} (g : Engine → A) (f : A → EM B) R :
  (∀ e, wf_engine e → kept (f (g e)) R) → kept (st_get g ≫= f) R.
Proof. intros H e He. exact (H e He e He). Qed.

(** An action that touches neither records nor the well-formed part. *)
Lemma kept_silent {A} (m : EM A) (Q : A → Prop) :
  (∀ e, step e [] [] (m e).1 ∧ book (m e).1 = book e ∧ journal (m e).1 = journal e ∧
        config (m e).1 = config e ∧
        (wf_pending (reconciling e) → wf_pending (reconciling (m e).1)) ∧
        ∀ a, (m e).2 = Ok a → Q a) → kept m Q.
Proof.
  intros H e [H1 H2 H3 H4 H5]. destruct (H e) as (Hs & E1 & E2 & E3 & E4 & HQ). exists [], [].
  split_and!; [done|by constructor|by constructor| |done].
  split; rewrite ?E1, ?E2, ?E3; [done..| |by apply E4]. by rewrite (st_requests _ _ _ _ Hs), app_nil_r.
Qed.

Lemma kept_ret {A} (a : A) (Q : A → Prop) : Q a → kept (mret a) Q.
Proof.
  intros HQ. apply kept_silent. intros e. split_and!; [apply step_refl|done..|].
  intros b E. injection E as <-. done.
Qed.
Lemma kept_fail {A} err (Q : A → Prop) : kept (st_fail err) Q.
Proof. apply kept_silent. intros e. by split_and!; [apply step_refl|..]. Qed.
Lemma keeps_modify f :
  (∀ e, journal (f e) = journal e ∧ book (f e) = book e ∧
        uncommitted (f e) = uncommitted e ∧ config (f e) = config e ∧
        (wf_pending (reconciling e) → wf_pending (reconciling (f e)))) → keeps (st_modify f).
Proof.
  intros H. apply kept_silent. intros e. destruct (H e) as (E1 & E2 & E3 & E4 & E5).
  split_and!; try done. split; simpl; [rewrite E1, E2; constructor|by rewrite app_nil_r|done].
Qed.
Lemma wf_engine_request r e :
  wf_engine e → wf_request r → wf_engine (set_uncommitted (uncommitted e ++ [r]) e).
Proof. intros [H1 H2 H3 H4 H5] Hr. split; simpl; try done. by apply Forall_app_2; [|constructor]. Qed.
Lemma keeps_request r : wf_request r → keeps (request r).
Proof.
  intros Hr e He. exists [], [r].
  split_and!; [|by constructor|by constructor|by apply wf_engine_request|done].
  split; simpl; [constructor|done..].
Qed.

Lemma wf_engine_write h r b e j1 res :
  wf_engine e → record_ok r → apply h r (book e) = (b, res) →
  j_epoch j1 = j_epoch (journal e) → wf_engine (set_book b (set_journal j1 e)).
Proof. intros [H1 H2 H3 H4 H5] Hr Hb E. split; simpl; [by eapply apply_wf|by rewrite E|done..]. Qed.

Lemma kept_at_write at_ r e :
  record_ok r → (u64_ok (Book.now (book e)) → u64_ok at_) →
  kept_at e (write_at at_ r) (λ _, True).
Proof.
  intros Hr Hat He. unfold kept_at. destruct (write_at at_ r e) as [e' res] eqn:H.
  apply write_at_cases in H as [[-> [je ->]]|(j1 & seq & b1 & ares & Ha & Hb & -> & ->)]; simpl.
  - exists [], []. by split_and!; [apply step_refl| |constructor| |].
  - eexists [_], []. split_and!; [| | | |done].
    + split; simpl; [|by rewrite app_nil_r|done]. eapply recorded_cons; eauto. constructor.
    + intros Hok. repeat constructor. simpl. by destruct ares.
    + by repeat constructor.
    + apply append_Ok in Ha as (Hep & _). by eapply wf_engine_write.
Qed.

Lemma keeps_write r : record_ok r → keeps (write r).
Proof. intros Hr e. unfold write. by apply (kept_at_write (Book.now (book e)) r e). Qed.

Lemma keeps_write_event c t ev :
  text_ok c → trace_ok t → event_ok ev → keeps (write_event c t ev).
Proof. intros. apply kept_get. intros e He. cbv zeta. by apply keeps_write. Qed.

Lemma keeps_decide i a k t v n :
  text_ok i → trace_ok t → e8_ok v → text_ok n → keeps (decide i a k t v n).
Proof.
  intros. apply keeps_bind; [by apply keeps_write|]. intros _. by apply kept_ret.
Qed.

(** ** What a well-formed engine answers *)

Lemma wf_order_of e c o : wf_engine e → order (book e) c = Some o → wf_order o.
Proof. intros [[H _] _ _ _ _]. apply H. Qed.

Lemma wf_trace_of e c : wf_engine e → trace_ok (trace_of e c).
Proof.
  intros He. unfold trace_of. destruct (order (book e) c) as [o|] eqn:E; [|done].
  by apply (wf_order_of e c o).
Qed.

Lemma wf_instrument_of e c :
  wf_engine e →
  text_ok (match order (book e) c with Some o => instrument (core o) | None => inline_empty end).
Proof.
  intros He. destruct (order (book e) c) as [o|] eqn:E; [|done]. by apply (wf_order_of e c o).
Qed.

Lemma wf_orders e o : wf_engine e → o ∈ orders (book e) → wf_order o.
Proof.
  intros He Ho. unfold orders in Ho. apply list_elem_of_omap in Ho as (c & _ & Hc).
  by apply (wf_order_of e c o).
Qed.

Lemma wf_live_on e i o : wf_engine e → o ∈ live_orders_on (book e) i → wf_order o.
Proof.
  intros He Ho. unfold live_orders_on, live_orders in Ho.
  apply list_elem_of_filter in Ho as [_ Ho]. apply list_elem_of_filter in Ho as [_ Ho].
  by apply (wf_orders e).
Qed.

Lemma wf_stale e age c : wf_engine e → c ∈ stale_orders (book e) age → text_ok c.
Proof.
  intros He Hc. unfold stale_orders in Hc. rewrite elem_of_sort_ids in Hc.
  rewrite list_elem_of_fmap in Hc. destruct Hc as (o & -> & Ho).
  apply list_elem_of_filter in Ho as [_ Ho]. apply list_elem_of_filter in Ho as [_ Ho].
  apply list_elem_of_filter in Ho as [_ Ho]. by apply (wf_orders e).
Qed.

Lemma unwrap_sub_ok {d} (x y z : e8 d) : e8_ok z → e8_ok (unwrap_or (checked_sub x y) z).
Proof.
  intros Hz. destruct (checked_sub x y) as [v|] eqn:E; [|done].
  apply checked_sub_Ok in E as [E ?]. simpl. unfold e8_ok. by rewrite E.
Qed.

Lemma unwrap_add_ok {d} (x y z : e8 d) : e8_ok z → e8_ok (unwrap_or (checked_add x y) z).
Proof.
  intros Hz. destruct (checked_add x y) as [v|] eqn:E; [|done].
  apply checked_add_Ok in E as [E ?]. simpl. unfold e8_ok. by rewrite E.
Qed.

Lemma max_ok {d} (x y : e8 d) : e8_ok x → e8_ok y → e8_ok (max x y).
Proof. unfold max. by case_match. Qed.

Lemma abs_ok {d} (x : e8 d) : e8_ok (abs x).
Proof. apply i64_saturate_range. Qed.

Lemma as_money_ok q : e8_ok q → e8_ok (as_money q).
Proof. done. Qed.

Create HintDb kept.
#[local] Hint Resolve unwrap_sub_ok unwrap_add_ok max_ok abs_ok as_money_ok wf_trace_of
  wf_instrument_of wf_stale : kept.

(** What a verdict mentions. *)
Lemma verdict_wf e i lim h :
  wf_engine e → opt_ok (max_position lim) → e8_ok (Intent.qty i) →
  match evaluate (book e) i lim h with
  | Allow => True
  | Clamp q => e8_ok q ∧ 0 < raw q
  | Refuse r => e8_ok (refusal_value r) ∧ text_ok (refusal_note r)
  end.
Proof.
  intros He Hcap Hq. unfold evaluate. destruct (Intent.opens_exposure i).
  - unfold evaluate_entry. destruct h; [split; [done|by apply text_ok_refusal; intros ? [|]]|].
    case_bool; [split; [done|by apply text_ok_refusal; intros ? [|]]|].
    unfold locking_order. destruct (find _ _) as [o|] eqn:El.
    { apply find_Some in El as [Hin _]. split; [done|]. apply text_ok_refusal.
      intros c [[= <-]|?]; [|done]. by apply (wf_live_on e (Intent.instrument i)). }
    destruct (find (λ o, negb (is_exit o)) _) as [o|] eqn:Ex.
    { apply find_Some in Ex as [Hin _]. split; [done|]. apply text_ok_refusal.
      intros c [?|[= <-]]; [done|]. by apply (wf_live_on e (Intent.instrument i)). }
    destruct (max_position lim) as [cap|]; [|done]. case_bool; [|done].
    split; [done|]. by apply text_ok_refusal; intros ? [|].
  - unfold evaluate_exit. set (available := max _ ZERO).
    assert (e8_ok available) as Ha by (unfold available; auto with kept).
    assert (0 ≤ raw available) by (unfold available; rewrite raw_max; simpl; lia).
    case_bool; [split; [done|by apply text_ok_refusal; intros ? [|]]|].
    case_bool; [split; [done|by apply text_ok_refusal; intros ? [|]]|].
    case_bool; [|done]. unfold is_zero in *. z_reflect. split; [done|lia].
Qed.

(** ** The handlers *)

(** Follows the structure of a handler down to its primitives. *)
Ltac kept :=
  intros;
  repeat match goal with
    | |- kept _ _ => solve [eauto with kept]
    | |- kept (st_get _ ≫= _) _ => apply kept_get; intros; cbv beta zeta
    | |- kept (_ ≫= _) _ => apply keeps_bind; [|intros ?; cbv beta]
    | |- kept (mret _) _ => by apply kept_ret
    | |- kept (request _) _ => apply keeps_request; cbn [wf_request]; by eauto with kept
    | |- kept (st_fail _) _ => apply kept_fail
    | |- kept (decide _ _ _ _ _ _) _ => apply keeps_decide; eauto with kept
    | |- kept (write_event _ _ _) _ => apply keeps_write_event; eauto with kept
    | |- kept (st_modify _) _ =>
        apply keeps_modify; intros; cbv zeta; repeat case_match;
          split_and?; simpl; eauto using wf_pending_insert, wf_pending_again, wf_pending_delete
    | |- kept (if ?b then _ else _) _ => destruct b eqn:?
    | |- kept (match ?x with _ => _ end) _ => destruct x eqn:?
    | |- kept (let _ := _ in _) _ => cbv zeta
    end.

Lemma keeps_on_halt n : text_ok n → keeps (on_halt n).
Proof. unfold on_halt. kept. Qed.
Lemma keeps_on_resume n : text_ok n → keeps (on_resume n).
Proof. unfold on_resume. kept. Qed.
#[local] Hint Resolve keeps_on_halt keeps_on_resume : kept.

Lemma note_cause c : text_ok (note_of (cause_as_str c)).
Proof. apply text_ok_note. auto with clean. Qed.
#[local] Hint Resolve note_cause : kept.
#[local] Hint Extern 1 (event_ok _) => exact I : kept.

Lemma keeps_ensure_reconciling c t cause :
  text_ok c → trace_ok t → keeps (ensure_reconciling c t cause).
Proof. unfold ensure_reconciling. kept. Qed.
#[local] Hint Resolve keeps_ensure_reconciling : kept.

Lemma keeps_begin_reconcile c t cause :
  text_ok c → trace_ok t → keeps (begin_reconcile c t cause).
Proof. unfold begin_reconcile. kept. Qed.
Lemma keeps_defer_reconcile c : keeps (defer_reconcile c).
Proof. unfold defer_reconcile. kept. Qed.
Lemma keeps_retry_loop due : Forall text_ok due → keeps (retry_loop due).
Proof. induction 1; simpl; kept. Qed.
Lemma wf_due now e : wf_engine e → Forall text_ok (due_reconciliations now e).
Proof.
  intros He. apply Forall_forall. intros c. unfold due_reconciliations.
  rewrite elem_of_sort_ids. intros ([c' p] & -> & [_ Hp]%list_elem_of_filter)%list_elem_of_fmap.
  apply elem_of_map_to_list in Hp. apply (we_pending _ He). by exists p.
Qed.
#[local] Hint Resolve keeps_begin_reconcile keeps_defer_reconcile keeps_retry_loop wf_due : kept.

(** A prefix that ends between characters is text. *)
Lemma kept_str_prefix l s n :
  clean_text s = true → kept (str_prefix l s n) (λ h, clean_text h = true).
Proof.
  intros Hs. unfold str_prefix. case_bool; [|apply kept_fail]. apply kept_ret.
  apply andb_true_iff in Heqb as [_ Hb]. by apply clean_take.
Qed.

Lemma kept_exec_id c q : text_ok c → kept (reconciliation_exec_id c q) text_ok.
Proof.
  intros Hc. unfold reconciliation_exec_id. cbv zeta.
  eapply kept_bind; [apply kept_str_prefix; by apply clean_as_str|].
  intros head Hhead. apply kept_ret. apply text_ok_default. clean.
Qed.

Lemma wf_mark e i p : wf_engine e → mark (book e) i = Some p → e8_ok p.
Proof. intros [[_ H] _ _ _ _]. apply H. Qed.

Lemma wf_price e i venue :
  wf_engine e → opt_ok venue →
  e8_ok (default ZERO (match venue with Some p => Some p | None => mark (book e) i end)).
Proof.
  intros He Hv. destruct venue; [done|].
  destruct (mark (book e) i) eqn:E; simpl; [by eapply wf_mark|done].
Qed.
#[local] Hint Resolve wf_price : kept.

Lemma foldl_sum_ok l : ∀ z : Qty, e8_ok z →
  e8_ok (foldl (λ sum f, unwrap_or (checked_add sum (f_qty f)) sum) z l).
Proof. induction l; simpl; auto with kept. Qed.

Lemma keeps_book_the_difference c t q p :
  text_ok c → trace_ok t → e8_ok q → opt_ok p → keeps (book_the_difference c t q p).
Proof.
  intros Hc Ht Hq Hp. unfold book_the_difference. apply kept_get. intros e He.
  unfold id. destruct (order (book e) c) as [o|] eqn:Ho; [|by apply kept_ret].
  cbv zeta. case_bool; [by apply kept_ret|]. case_bool.
  { apply keeps_on_halt, text_ok_note. clean. }
  eapply kept_bind; [by apply kept_exec_id|]. intros x Hx.
  apply keeps_bind; [apply keeps_write_event; [done|done|]|].
  { split_and!; [done|auto with kept|by apply wf_price]. }
  intros _. apply keeps_decide; [by eapply wf_order_of|done|auto with kept|].
  apply text_ok_note. clean. by destruct p.
Qed.
#[local] Hint Resolve keeps_book_the_difference : kept.

Lemma keeps_forget c : keeps (forget c).
Proof. unfold forget. kept. Qed.
#[local] Hint Resolve keeps_forget : kept.

Lemma keeps_on_submitted c o : wf_command (Command.Submitted c o) → keeps (on_submitted c o).
Proof.
  intros Hw. unfold on_submitted. apply kept_get. intros e He. destruct o; cbn in Hw; kept;
    by destruct_and?; split_and?.
Qed.

Lemma keeps_on_cancelled c o : text_ok c → keeps (on_cancelled c o).
Proof. intros. unfold on_cancelled. kept. Qed.

Lemma keeps_on_looked_up c o : wf_command (Command.LookedUp c o) → keeps (on_looked_up c o).
Proof.
  intros Hw. unfold on_looked_up. apply kept_get. intros e He. destruct o as [s| |]; cbn in Hw.
  - destruct Hw as (Hc & Hv & Hq & Hp). kept; by split_and?.
  - kept. by split_and?.
  - kept.
Qed.

Lemma keeps_disown c : text_ok c → keeps (disown c).
Proof. intros. unfold disown. kept. apply text_ok_note. clean. Qed.
#[local] Hint Resolve keeps_disown : kept.

Lemma keeps_on_streamed v : wf_venue_event v → keeps (on_streamed v).
Proof.
  destruct v as [c x q p|c|i p|a m]; cbn [wf_venue_event]; intros Hw;
    unfold on_streamed, reconcile_if_needed; destruct_and?.
  - kept; by split_and?.
  - kept.
  - apply keeps_bind; [by apply keeps_write|]. kept.
  - apply keeps_bind; [by apply keeps_write|]. kept.
Qed.

(** ** Intents *)

Lemma with_qty_ok i q : intent_ok i → e8_ok q → 0 < raw q → intent_ok (Intent.with_qty i q).
Proof.
  intros [Hv H1 H2 H3 H4 H5 H6 H7] Hq Hq0. split; simpl; try done.
  unfold Intent.new in *. 
  assert (is_positive q = true) as -> by (apply Z.ltb_lt, Hq0).
  repeat case_bool; simplify_eq; done.
Qed.

Lemma market_ok c i s q a t x :
  Intent.market c i s q a t = Ok x → text_ok c → text_ok i → e8_ok q → trace_ok t →
  intent_ok x.
Proof.
  unfold Intent.market. intros H ????. 
  assert (x = Intent.mk c i s q Market None None a t None) as ->.
  { unfold Intent.new in H. repeat (case_bool; [done|]). congruence. }
  by split.
Qed.

Lemma keeps_authorise i : intent_ok i → keeps (authorise i).
Proof.
  intros Hi. pose proof Hi as [_ Hc Hin Hq _ _ _ Ht]. unfold authorise.
  apply keeps_bind; [by apply keeps_write|intros _].
  kept. apply text_ok_note. clean.
Qed.
#[local] Hint Resolve keeps_authorise : kept.

Lemma keeps_on_place i : intent_ok i → keeps (on_place i).
Proof.
  intros Hi. pose proof Hi as [_ Hc Hin Hq _ _ _ Ht]. unfold on_place. apply kept_get.
  intros e He. unfold id. destruct (order _ _); [case_bool; kept|]. cbv zeta.
  pose proof (verdict_wf e i (mkLimits (max_position (limits (config e))) (position_confirmed e))
    (e_halted e) He (we_cap _ He) Hq) as Hv.
  destruct (evaluate _ _ _ _) as [|q|r].
  - kept.
  - destruct Hv. apply keeps_bind.
    + apply keeps_decide; [done|done|done|]. apply text_ok_note. clean.
    + intros _. apply keeps_authorise. by apply with_qty_ok.
  - destruct Hv. unfold refuse. kept.
Qed.

(** ** Positions, sweeps and ticks *)

Lemma log2_below a n : 0 < n → 0 ≤ a < 2 ^ n → Z.log2 a < n.
Proof.
  intros Hn Ha. destruct (Z.eq_dec a 0) as [->|]; [simpl; lia|]. apply Z.log2_lt_pow2; lia.
Qed.

Lemma lor_bound a b n : 0 < n → 0 ≤ a < 2 ^ n → 0 ≤ b < 2 ^ n → 0 ≤ Z.lor a b < 2 ^ n.
Proof.
  intros Hn Ha Hb. assert (0 ≤ Z.lor a b) by (apply Z.lor_nonneg; lia). split; [done|].
  destruct (Z.eq_dec (Z.lor a b) 0) as [->|Hne]; [apply Z.pow_pos_nonneg; lia|].
  apply Z.log2_lt_pow2; [lia|]. rewrite Z.log2_lor by lia.
  apply Z.max_lub_lt; by apply log2_below.
Qed.

Lemma adoption_trace_ok e : wf_engine e →
  trace_ok (Z.lor (Z.shiftl ADOPTION_TRACE_MARKER 64) (j_epoch (journal e))).
Proof.
  intros [_ He _ _ _]. apply lor_bound; [lia|vm_compute; split; congruence|]. 
  unfold_ranges. lia.
Qed.

Lemma keeps_adopt_position p : wf_position p → keeps (adopt_position p).
Proof.
  intros (Hi & Hq & Hp). unfold adopt_position. apply kept_get. intros e He. cbv zeta.
  unfold id. pose proof (adoption_trace_ok e He) as Ht.
  eapply kept_bind; [apply kept_str_prefix; by apply clean_as_str|]. intros h Hh.
  assert (∀ N, text_ok (inline_or_default N (str "ADOPT-" ++ h ++ str "-" ++ dec (j_epoch (journal e)))))
    as Hid by (intros; apply text_ok_default; clean).
  destruct (Intent.market _ _ _ _ _ _) as [intent|err] eqn:Em.
  - apply market_ok in Em; [|auto with kept..].
    apply keeps_bind; [by apply keeps_write|intros _].
    apply keeps_bind; [by apply keeps_write_event|intros _].
    apply keeps_bind; [apply keeps_write_event; [done|done|]|intros _].
    { cbn [event_ok]. split_and!; [done|auto with kept|by apply wf_price]. }
    apply keeps_bind; [apply keeps_write_event; [done|done|]|intros _].
    { cbn [event_ok]. split; [done|auto with kept]. }
    apply keeps_decide; [done|done|done|]. apply text_ok_note. clean.
  - apply keeps_on_halt, text_ok_note. clean.
Qed.

Lemma keeps_on_position first p : wf_position p → keeps (on_position first p).
Proof.
  intros Hw. pose proof Hw as (Hi & Hq & Hp). unfold on_position. apply kept_get. intros e He.
  cbv zeta. case_bool; [by apply kept_ret|]. case_bool; [by apply keeps_adopt_position|].
  case_bool.
  - apply keeps_decide; [done|done|done|]. apply text_ok_note. clean.
  - apply keeps_bind; [apply keeps_decide; [done|done|done|]|intros _; apply keeps_on_halt];
      apply text_ok_note; clean.
Qed.

Lemma keeps_positions_loop first ps :
  Forall wf_position ps → keeps (positions_loop first ps).
Proof.
  induction 1 as [|p ps Hp _ IH]; simpl; [by apply kept_ret|].
  apply keeps_bind; [by apply keeps_on_position|done].
Qed.

Lemma keeps_on_positions ps : Forall wf_position (flatten ps) → keeps (on_positions ps).
Proof.
  intros Hw. unfold on_positions. apply kept_get. intros e He. cbv zeta.
  apply keeps_bind; [kept|intros _; by apply keeps_positions_loop].
Qed.

Lemma keeps_sweep_loop cs : Forall text_ok cs → keeps (sweep_loop cs).
Proof.
  induction 1 as [|c cs Hc _ IH]; simpl; [by apply kept_ret|].
  apply kept_get. intros e He. apply keeps_bind; [|done]. case_bool; kept.
Qed.

Lemma keeps_on_sweep : keeps on_sweep.
Proof.
  unfold on_sweep. apply keeps_bind; [kept|intros _]. apply kept_get. intros e He.
  apply keeps_sweep_loop. apply Forall_forall. intros c. by apply wf_stale.
Qed.

Lemma keeps_on_tick at_ : u64_ok at_ → keeps (on_tick at_).
Proof.
  intros Hat. unfold on_tick, retry_due_reconciliations. apply kept_get. intros e He.
  case_bool; [by apply kept_ret|]. apply keeps_bind; [|kept].
  case_bool; [|by apply kept_ret]. apply keeps_bind; [|kept].
  intros e1. by apply kept_at_write.
Qed.

(** ** Every command *)

Lemma keeps_on_cancel c t e :
  wf_command (Command.Cancel c t) → cancel_legal e (Command.Cancel c t) →
  kept_at e (on_cancel c t) (λ _, True).
Proof.
  intros [Hc Ht] Hl He. rewrite on_cancel_run. cbn [cancel_legal] in Hl.
  destruct (order (book e) c) as [o|] eqn:Ho.
  2: { exists [], []. by split_and!; [apply step_refl|constructor|constructor| |]. }
  destruct (keeps_write_event c t CancelRequested Hc Ht I e He) as (ws & rs & H & Hcl & Hok & He' & _).
  destruct (write_event c t CancelRequested e) as [e' res] eqn:E. cbn [fst snd] in *.
  destruct (Hl o eq_refl) as [o' Htr].
  destruct (write_event_legal _ _ _ o o' _ _ _ Ho Htr ltac:(done) E) as [[je ->]| ->].
  - exists ws, rs. split_and!; [done|intros []|done|done|done].
  - exists ws, (rs ++ [VenueRequest.Cancel c (venue_order_id (core o))]).
    split_and!; [exact (step_request _ _ _ _ _ H)|intros _; by apply Hcl|done| |done].
    by apply wf_engine_request.
Qed.

Lemma submit_kept command e :
  wf_command command → cancel_legal e command → kept_at e (submit command) (λ _, True).
Proof.
  intros Hw Hl. destruct command; cbn [submit wf_command] in *.
  - by apply keeps_on_tick.
  - by apply keeps_on_place.
  - by apply keeps_on_cancel.
  - by apply keeps_on_submitted.
  - by apply keeps_on_cancelled.
  - by apply keeps_on_looked_up.
  - by apply keeps_on_streamed.
  - by apply keeps_on_positions.
  - apply keeps_on_sweep.
  - by apply keeps_on_halt.
  - by apply keeps_on_resume.
  - destruct Hw as (? & ? & ? & ?). by apply keeps_decide.
Qed.

Lemma decode_own r : record_ok r → decode (rec_kind r) (encode r) = Ok r.
Proof. intros Hr. by apply (whole_exact _ _ _ (reads_record r Hr)). Qed.

Lemma flush_epoch io j : j_epoch (flush io j).1 = j_epoch j.
Proof.
  unfold flush, poison, roll, create_segment, st_get, st_modify, st_fail, mbind, ST_bind,
    mret, ST_ret, id.
  repeat case_match; simplify_eq/=; done.
Qed.

Lemma cancel_typed c t e :
  text_ok c → trace_ok t → wf_engine e →
  ∃ ws rs, step e ws rs (on_cancel c t e).1 ∧ all_ok ws ∧ wf_engine (on_cancel c t e).1.
Proof.
  intros Hc Ht He. rewrite on_cancel_run. destruct (order (book e) c) as [o|].
  2: { exists [], []. by split_and!; [apply step_refl|constructor|]. }
  destruct (keeps_write_event c t CancelRequested Hc Ht I e He) as (ws & rs & H & _ & Hok & He' & _).
  destruct (write_event c t CancelRequested e) as [e' res]. cbn [fst snd] in *.
  repeat case_match; cbn [fst];
    first [ exists ws, rs; by split_and!
          | exists ws, (rs ++ [VenueRequest.Cancel c (venue_order_id (core o))]);
            split_and!; [exact (step_request _ _ _ _ _ H)|done|by apply wf_engine_request] ].
Qed.

Lemma submit_typed command e :
  wf_command command → wf_engine e →
  ∃ ws rs, step e ws rs (submit command e).1 ∧ all_ok ws ∧ wf_engine (submit command e).1.
Proof.
  intros Hw He.
  assert (cancel_legal e command ∨ ∃ c t, command = Command.Cancel c t) as [Hl|(c & t & ->)].
  { destruct command; try (by left). right. eauto. }
  - destruct (submit_kept command e Hw Hl He) as (ws & rs & ? & _ & ? & ? & _). by exists ws, rs.
  - destruct Hw. by apply cancel_typed.
Qed.

Lemma flush_typed io e : wf_engine e → wf_engine (engine_flush io e).1.
Proof.
  intros [H1 H2 H3 H4 H5]. pose proof (flush_epoch io (journal e)) as E.
  unfold engine_flush, on_journal, st_get, st_modify, st_lift, mbind, ST_bind, mret, ST_ret, id.
  destruct (flush io (journal e)) as [j [s|err]]; cbn in *; split; cbn; try congruence; done || constructor.
Qed.

(** ** The book is the fold of the log *)

Lemma rebuild_step_own h r b b' a :
  record_ok r → fh_kind h = rec_kind r → apply h r b = (b', Ok a) →
  rebuild_step (h, encode r) b = (b', Ok tt).
Proof.
  intros Hr Hk Ha. unfold rebuild_step, mbind, ST_bind, st_lift. cbn [fst snd].
  rewrite Hk, decode_own by done. cbn [map_err]. by rewrite Ha.
Qed.

(** What was appended and taken folds to the same book. *)
Lemma recorded_replays j b ws j' b' :
  recorded j b ws j' b' → clean ws → all_ok ws →
  rebuild_loop (frame_of <$> ws) b = (b', Ok tt).
Proof.
  induction 1 as [|j b at_ r j1 seq b1 res ws j2 b2 _ _ Hb _ IH]; [done|].
  intros [Hr Hc]%Forall_cons [Hk Ho]%Forall_cons. cbn [fst snd] in *.
  destruct res; [|done]. rewrite fmap_cons. cbn [rebuild_loop].
  pose proof (λ E, rebuild_step_own _ _ _ _ _ Hk E Hb) as E. specialize (E eq_refl).
  unfold mbind, ST_bind. match goal with |- context [rebuild_step ?f b] =>
    assert (rebuild_step f b = (b1, Ok tt)) as -> by exact E end. by apply IH.
Qed.

(** The frame of a record that reads back. *)
Definition readable (f : Frame) : Prop :=
  ∃ r, record_ok r ∧ fh_kind f.1 = rec_kind r ∧ f.2 = encode r.

Lemma recorded_readable j b ws j' b' :
  recorded j b ws j' b' → all_ok ws → Forall readable (frame_of <$> ws).
Proof.
  induction 1; [constructor|]. intros [Hk Ho]%Forall_cons. rewrite fmap_cons.
  constructor; [|by apply IHrecorded]. by exists r.
Qed.

(** A live engine whose book is the fold of its log: [gs] durable, [ps]
    pending. *)
Record mirror (e : Engine) (gs : list Group) (ps : list Frame) : Prop := {
  mi_writer : writer_inv (journal e) gs ps;
  mi_clock : u64_ok (Book.now (book e));
  mi_wf : wf_engine e;
  mi_log : Forall readable (log gs ++ ps);
  mi_fold : rebuild (log gs ++ ps) = Ok (book e);
}.

Lemma rebuild_extend fs gs b b' :
  rebuild fs = Ok b → rebuild_loop gs b = (b', Ok tt) → rebuild (fs ++ gs) = Ok b'.
Proof.
  unfold rebuild. rewrite rebuild_loop_app. unfold mbind, ST_bind.
  destruct (rebuild_loop fs book_new) as [b0 [[]|]]; [|done]. by intros [= ->] ->.
Qed.

Lemma submit_mirror command e e' gs ps :
  mirror e gs ps → wf_command command → cancel_legal e command →
  submit command e = (e', Ok tt) → j_next_seq (journal e') < u64_max →
  ∃ new, mirror e' gs (ps ++ new).
Proof.
  intros [Hw Hclk Hwf Hlog Hf] Hc Hl Hs Hmax.
  destruct (submit_kept command e Hc Hl Hwf) as (ws & rs & [Hr _ _] & Hcl & Hok & Hwf' & _).
  rewrite Hs in *. cbn [fst snd] in *.
  destruct (recorded_writer _ _ _ _ _ _ _ Hr Hw Hclk Hmax) as [Hw' Hclk'].
  exists (frame_of <$> ws). split; [done..| |]; rewrite app_assoc.
  - apply Forall_app. split; [done|]. by eapply recorded_readable.
  - eapply rebuild_extend; [exact Hf|]. eapply recorded_replays; [exact Hr|by apply Hcl|done].
Qed.

Lemma flush_mirror io e e' out gs ps :
  mirror e gs ps → engine_flush io e = (e', Ok out) → j_next_seq (journal e') < u64_max →
  ∃ gs', mirror e' gs' [] ∧ log gs' = log gs ++ ps.
Proof.
  intros [Hw Hclk Hwf Hlog Hf] He Hmax.
  pose proof (flush_typed io e Hwf) as Hwf'. rewrite He in Hwf'.
  apply engine_flush_Ok in He as (j & seq & Hfl & -> & ->).
  cbn [journal set_journal set_uncommitted] in Hmax.
  pose proof (flush_next io (journal e)) as Hn. rewrite Hfl in Hn. cbn [fst] in Hn.
  destruct (flush_inv _ _ _ _ _ _ Hw ltac:(lia) Hfl) as (gs' & Hw' & Hl).
  exists gs'. split; [|done]. split; [done|done|exact Hwf'|by rewrite app_nil_r, Hl|by rewrite app_nil_r, Hl].
Qed.

(** A run in which every command succeeds and no cancel is refused. *)
Inductive clean_run : Engine → Engine → Prop :=
| clean_nil e : clean_run e e
| clean_submit e command e' e'' :
    wf_command command → cancel_legal e command → submit command e = (e', Ok tt) →
    clean_run e' e'' → clean_run e e''
| clean_flush e io e' out e'' :
    engine_flush io e = (e', Ok out) → clean_run e' e'' → clean_run e e''.

Lemma wf_command_clock command : wf_command command → command_clock command.
Proof. by destruct command. Qed.

Lemma clean_run_run e e' : clean_run e e' → ∃ out, run e out e'.
Proof.
  induction 1 as [e|e command e1 e2 Hw _ Hs _ [out IH]|e io e1 out e2 Hf _ [out' IH]].
  - eexists. constructor.
  - exists out. eapply run_submit; [by apply wf_command_clock|exact Hs|exact IH].
  - eexists. eapply run_flush; [exact Hf|exact IH].
Qed.

Lemma clean_run_mirror e e' gs ps :
  clean_run e e' → mirror e gs ps → j_next_seq (journal e') < u64_max →
  ∃ gs' ps', mirror e' gs' ps' ∧ (∃ new, log gs' ++ ps' = log gs ++ ps ++ new) ∧
    ∃ durable, log gs' = log gs ++ durable.
Proof.
  intros H. revert gs ps.
  induction H as [e|e command e1 e2 Hw Hl Hs Hr IH|e io e1 out e2 Hf Hr IH]; intros gs ps Hm Hmax.
  - exists gs, ps. split_and!; [done|exists []; by rewrite app_nil_r..].
  - assert (j_next_seq (journal e1) < u64_max) as Hmax1.
    { destruct (clean_run_run _ _ Hr) as [out Hrun].
      pose proof (run_seq _ _ _ Hrun) as Hseq. pose proof (wi_next _ _ _ (mi_writer _ _ _ Hm)).
      assert (0 ≤ j_next_seq (journal e1)); [|lia].
      eapply (run_nonneg e []); [|lia]. eapply run_submit; [by apply wf_command_clock|exact Hs|constructor]. }
    destruct (submit_mirror _ _ _ _ _ Hm Hw Hl Hs Hmax1) as (new & Hm1).
    destruct (IH _ _ Hm1 Hmax) as (gs' & ps' & Hm' & (new' & E) & Hd).
    exists gs', ps'. split_and!; [done| |done]. exists (new ++ new'). by rewrite E, !app_assoc.
  - assert (j_next_seq (journal e1) < u64_max) as Hmax1.
    { destruct (clean_run_run _ _ Hr) as [out' Hrun].
      pose proof (run_seq _ _ _ Hrun) as Hseq. pose proof (wi_next _ _ _ (mi_writer _ _ _ Hm)).
      assert (0 ≤ j_next_seq (journal e1)); [|lia].
      eapply (run_nonneg e (out ++ [])); [|lia]. eapply run_flush; [exact Hf|constructor]. }
    destruct (flush_mirror _ _ _ _ _ _ Hm Hf Hmax1) as (gs1 & Hm1 & Hlog).
    destruct (IH _ _ Hm1 Hmax) as (gs' & ps' & Hm' & (new' & E) & (d & Ed)).
    exists gs', ps'. split_and!; [done| |].
    + exists new'. by rewrite E, Hlog, app_nil_l, app_assoc.
    + exists (ps ++ d). by rewrite Ed, Hlog, app_assoc.
Qed.

(** Sequence numbers only grow over a run. *)
Lemma clean_run_seq e0 e1 e2 gs ps :
  mirror e0 gs ps → clean_run e0 e1 → clean_run e1 e2 → j_next_seq (journal e2) < u64_max →
  j_next_seq (journal e1) ≤ j_next_seq (journal e2).
Proof.
  intros Hm [out Hr]%clean_run_run [out' Hr']%clean_run_run Hmax. eapply run_seq; [exact Hr'| |done].
  eapply run_nonneg; [exact Hr|]. rewrite (wi_next _ _ _ (mi_writer _ _ _ Hm)). lia.
Qed.

(** The claim's own record reads back, and folds to the new epoch. *)
Lemma claim_record_readable l now :
  u64_ok now → 2 + Z.of_nat (length l) < u64_max → readable (claim_record l now).
Proof.
  intros Hnow Hl.
  exists (Rec.EpochClaimed (epoch_next (final_epoch GENESIS l)) (Z.of_nat (length l))).
  split; [|done]. simpl. unfold epoch_next. unfold_ranges. lia.
Qed.

Lemma rebuild_step_readable f b :
  readable f → ∃ r, record_ok r ∧
    rebuild_step f b = ((apply f.1 r b).1, (λ _, tt) <$> (apply f.1 r b).2).
Proof.
  intros (r & Hr & Hk & Hp). exists r. split; [done|].
  unfold rebuild_step, mbind, ST_bind, st_lift. rewrite Hk, Hp, decode_own by done.
  cbn [map_err]. by destruct (apply f.1 r b) as [b' []].
Qed.

Lemma claim_record_folds l now b :
  u64_ok now → 2 + Z.of_nat (length l) < u64_max →
  let f := claim_record l now in
  rebuild_loop [f] b = (set_epoch (fh_epoch f.1) (stamp f.1 b), Ok tt).
Proof.
  intros Hnow Hl f. cbn [rebuild_loop].
  assert (0 ≤ epoch_next (final_epoch GENESIS l) < 2 ^ 64) as He
    by (unfold epoch_next; unfold_ranges; lia).
  unfold mbind, ST_bind.
  assert (rebuild_step f b = (set_epoch (fh_epoch f.1) (stamp f.1 b), Ok tt)) as ->; [|done].
  unfold f, claim_record. cbv zeta.
  apply (rebuild_step_own _ (Rec.EpochClaimed (epoch_next (final_epoch GENESIS l))
           (Z.of_nat (length l))) _ _ Changed); [|done|done].
  split; [done|]. unfold_ranges. lia.
Qed.

(** *** A refused event *)

(** The record [write_event] makes of an event the order refuses. *)
Definition refused_record (c : ClientOrderId) (t : TraceId) (o : Order) (ev : OrderEvent) : Rec.t :=
  Rec.OrderEvent c t (state (core o)) (state (core o)) false ev.

Lemma apply_refused h c t o ev err b :
  b_orders b !! c = Some o → transition (core o) ev = Err err →
  needs_reconciliation err = false → (∀ x q p, ev ≠ FillReceived x q p) →
  apply h (refused_record c t o ev) b = (stamp h b, Err (LedgerError.Transition c err)).
Proof.
  intros Ho Ht Hn Hev. unfold apply, apply_order_event, refused_record.
  unfold st_get, st_modify, st_lift, st_fail, mbind, ST_bind, mret, ST_ret, id. simpl.
  rewrite Ho. simpl. rewrite bool_decide_eq_true_2 by done. simpl.
  destruct ev; try (by destruct (Hev _ _ _ eq_refl)); by rewrite Ht, Hn.
Qed.

Lemma write_event_refused c t ev o err e e' res :
  order (book e) c = Some o → transition (core o) ev = Err err →
  needs_reconciliation err = false → (∀ x q p, ev ≠ FillReceived x q p) →
  write_event c t ev e = (e', res) →
  (∃ je, res = Err (EngineError.Journal je)) ∨
  ∃ h j1, res = Err (EngineError.Ledger (LedgerError.Transition c err)) ∧
    e' = set_book (stamp h (book e)) (set_journal j1 e) ∧
    fh_kind h = RecordKind.OrderEvent ∧
    recorded (journal e) (book e)
      [(h, refused_record c t o ev, Err (LedgerError.Transition c err))] j1 (stamp h (book e)).
Proof.
  unfold order. intros Ho Ht Hn Hev H. unfold write_event, write, st_get, mbind, ST_bind in H.
  unfold order in H. rewrite Ho in H. cbn in H. rewrite Ht in H. cbn in H.
  apply write_at_cases in H as [[_ ?]|(j1 & seq & b1 & ares & Ha & Hb & -> & ->)]; [by left|right].
  pose proof (apply_refused (mkFrameHeader seq (j_epoch (journal e)) (Book.now (book e))
    RecordKind.OrderEvent (Z.of_nat (length (encode (refused_record c t o ev))))) c t o ev err
    (book e) Ho Ht Hn Hev) as Hb'.
  unfold refused_record in *. cbn [rec_kind] in Hb. rewrite Hb' in Hb. simplify_eq.
  eexists _, j1. split_and!; [done|reflexivity|done|].
  apply (recorded_cons _ _ _ (refused_record c t o ev) _ _ _ _ [] _ _ (λ H, H) Ha Hb').
  constructor.
Qed.

Lemma cancel_refusal o err :
  transition o CancelRequested = Err err →
  needs_reconciliation err = false ∧ transition_integrity_violation err = false.
Proof.
  unfold transition. unfold guard, mbind, result_bind. intros H.
  destruct (state o); simpl in H; try discriminate; by simplify_eq.
Qed.

Lemma rebuild_stops fs f b b' err :
  rebuild fs = Ok b → rebuild_step f b = (b', Err err) → rebuild (fs ++ [f]) = Err err.
Proof.
  unfold rebuild. rewrite rebuild_loop_app. unfold mbind, ST_bind.
  destruct (rebuild_loop fs book_new) as [b0 [[]|]]; [|done]. intros [= ->].
  cbn [rebuild_loop]. unfold mbind, ST_bind. by intros ->.
Qed.

(** A cancel the order cannot take: its record is written, and no book takes it. *)
Lemma cancel_record_refused c t o err e e' gs ps :
  mirror e gs ps → wf_command (Command.Cancel c t) → order (book e) c = Some o →
  transition (core o) CancelRequested = Err err →
  submit (Command.Cancel c t) e = (e', Ok tt) → j_next_seq (journal e') < u64_max →
  uncommitted e' = uncommitted e ∧
  ∃ f, writer_inv (journal e') gs (ps ++ [f]) ∧
    rebuild (log gs ++ ps ++ [f]) = Err (LedgerError.Transition c err).
Proof.
  intros [Hw Hclk Hwf _ Hf] [Hc Ht] Ho Htr Hs Hmax.
  change (on_cancel c t e = (e', Ok tt)) in Hs. rewrite on_cancel_run, Ho in Hs.
  destruct (write_event c t CancelRequested e) as [e1 res] eqn:E.
  destruct (cancel_refusal _ _ Htr) as [Hn Hv].
  destruct (write_event_refused _ _ _ _ _ _ _ _ Ho Htr Hn ltac:(done) E)
    as [[je ->]|(h & j1 & -> & -> & Hk & Hrec)]; [done|].
  cbn [LedgerError.is_integrity_violation] in Hs. rewrite Hv in Hs. cbn [negb] in Hs.
  injection Hs as <-. split; [done|].
  destruct (recorded_writer _ _ _ _ _ _ _ Hrec Hw Hclk Hmax) as [Hw' _].
  exists (h, encode (refused_record c t o CancelRequested)). split; [exact Hw'|]. rewrite app_assoc.
  eapply rebuild_stops; [exact Hf|].
  unfold rebuild_step, mbind, ST_bind, st_lift. cbn [fst snd]. rewrite Hk.
  change RecordKind.OrderEvent with (rec_kind (refused_record c t o CancelRequested)).
  rewrite decode_own by done. cbn [map_err].
  by rewrite (apply_refused h c t o CancelRequested err (book e) Ho Htr Hn ltac:(done)).
Qed.


(** *** An example *)

(** A script of commands, none of them a cancel, that all succeed. *)
Fixpoint play (script : list Command.t) (e : Engine) : option Engine :=
  match script with
  | [] => Some e
  | command :: rest =>
      match submit command e with
      | (e', Ok _) => play rest e'
      | (_, Err _) => None
      end
  end.

Definition not_cancel (command : Command.t) : bool :=
  match command with Command.Cancel _ _ => false | _ => true end.

Lemma play_clean script : ∀ e e',
  Forall (λ c, wf_command c ∧ not_cancel c = true) script → play script e = Some e' →
  clean_run e e'.
Proof.
  induction script as [|c script IH]; intros e e'; simpl.
  - intros _ [= <-]. constructor.
  - intros [[Hw Hn] Hs]%Forall_cons. destruct (submit c e) as [e1 [[]|]] eqn:E; [|done].
    intros H. eapply clean_submit; [done| |exact E|by apply IH]. by destruct c.
Qed.

Definition ex_play : list Command.t := [
  Command.Tick 1000;
  positions_reported [];
  Command.Place ex_intent;
  Command.Submitted ex_coid (SubmitOutcome.Acked (ex_text 32 "V-1"));
  Command.Streamed (VenueEvent.Fill ex_coid (ex_text 40 "E-1") (whole 2) (whole 100));
  Command.SweepStale].

Definition ex_played : Engine := Eval vm_compute in default ex_engine (play ex_play ex_engine).

Lemma ex_text_small N s : clean_text (str s) = true → text_ok (ex_text N s).
Proof. apply text_ok_default. Qed.

Lemma ex_whole_ok {d} (n : Z) : 0 ≤ n < 1000 → e8_ok (whole n : e8 d).
Proof. intros Hn. unfold e8_ok, whole, SCALE. simpl. unfold_ranges. lia. Qed.

Lemma ex_intent_ok : intent_ok ex_intent.
Proof.
  split; [reflexivity|by apply ex_text_small|by apply ex_text_small|by apply ex_whole_ok|exact I..|].
  vm_compute. split; congruence.
Qed.

Lemma ex_play_wf : Forall (λ c, wf_command c ∧ not_cancel c = true) ex_play.
Proof.
  unfold ex_play. repeat (apply Forall_cons_2; [split; [|reflexivity]|]);
    cbn [wf_command wf_venue_event].
  - vm_compute; split; congruence.
  - constructor.
  - apply ex_intent_ok.
  - split; by apply ex_text_small.
  - split_and!; first [by apply ex_text_small | by apply ex_whole_ok].
  - exact I.
  - constructor.
Qed.

Lemma ex_clean : clean_run ex_engine ex_played.
Proof. apply (play_clean ex_play); [apply ex_play_wf|vm_compute; reflexivity]. Qed.

Lemma ex_mirror : ∃ gs, mirror ex_engine gs [].
Proof.
  destruct (claim_fresh 5 ltac:(done)) as (j & gs & Hc & Hw & Hl).
  exists gs. split.
  - assert (journal ex_engine = j) as ->; [|exact Hw].
    assert ((claim false IoOk [] 5).2 = Ok j) as E by (by rewrite Hc).
    vm_compute in E. by injection E.
  - split; vm_compute; congruence.
  - apply (wf_engine_new (journal ex_engine) (book ex_engine) config_default); [|vm_compute; split; congruence|done].
    split; intros x y E.
    + change ((∅ : gmap ClientOrderId Order) !! x = Some y) in E. by rewrite lookup_empty in E.
    + change ((∅ : gmap Instrument Price) !! x = Some y) in E. by rewrite lookup_empty in E.
  - rewrite app_nil_r, Hl. repeat constructor. by apply claim_record_readable.
  - rewrite app_nil_r, Hl. vm_compute. reflexivity.
Qed.

(** ** Properties *)




(** C36: the exception.  A cancel of an order that cannot take one returns [Ok]
    and asks nothing of the venue, but the record of the attempt is already in
    the journal and no book takes it: from then on the log cannot be folded, and
    a restart over it fails. *)
Theorem refused_cancel_breaks_the_log c t o err e e' gs ps :
  mirror e gs ps → wf_command (Command.Cancel c t) → order (book e) c = Some o →
  transition (core o) CancelRequested = Err err →
  submit (Command.Cancel c t) e = (e', Ok tt) → j_next_seq (journal e') < u64_max →
  uncommitted e' = uncommitted e ∧
  ∃ f, writer_inv (journal e') gs (ps ++ [f]) ∧
    rebuild (log gs ++ ps ++ [f]) = Err (LedgerError.Transition c err).
Proof. apply cancel_record_refused. Qed.

(** An entry placed and not yet acknowledged, and a cancel of it. *)
Definition ex_placed : Engine :=
  Eval vm_compute in default ex_engine (play (take 3 ex_play) ex_engine).

Lemma ex_placed_mirror : ∃ gs ps, mirror ex_placed gs ps.
Proof.
  destruct ex_mirror as [gs Hm].
  destruct (clean_run_mirror ex_engine ex_placed gs []) as (gs' & ps' & Hm' & _).
  - apply (play_clean (take 3 ex_play)); [apply Forall_take, ex_play_wf|vm_compute; reflexivity].
  - exact Hm.
  - vm_compute. reflexivity.
  - by exists gs', ps'.
Qed.

Lemma refused_cancel_breaks_the_log_witness :
  let e' := (submit (Command.Cancel ex_coid 9) ex_placed).1 in
  ∃ gs ps err, uncommitted e' = uncommitted ex_placed ∧
    ∃ f, writer_inv (journal e') gs (ps ++ [f]) ∧
      rebuild (log gs ++ ps ++ [f]) = Err (LedgerError.Transition ex_coid err).
Proof.
  intros e'. destruct ex_placed_mirror as (gs & ps & Hm). exists gs, ps.
  exists (Illegal Submitting EventKind.CancelRequested (Some CancelPending)).
  apply (refused_cancel_breaks_the_log ex_coid 9
           (default (order_of_intent ex_intent 0) (order (book ex_placed) ex_coid)) _
           ex_placed e' gs ps).
  - exact Hm.
  - split; [by apply ex_text_small|split; [lia|vm_compute; reflexivity]].
  - vm_compute. reflexivity.
  - reflexivity.
  - vm_compute. reflexivity.
  - vm_compute. reflexivity.
Defined.

(** A lookup that finds nothing of an order with a fill in the book closes the
    order at a filled quantity of zero; the fill and the position stay. *)
Example absent_forgets_fills :
  match play [Command.LookedUp ex_coid LookupOutcome.Absent] ex_played with
  | Some e =>
      (λ o, (state (core o), raw (filled_qty (core o)))) <$> order (book e) ex_coid = Some (Canceled, 0) ∧
      fill_count (book e) = 1%nat ∧ raw (pos_qty (position (book e) (Intent.instrument ex_intent))) = 2 * SCALE
  | None => False
  end.
Proof. vm_compute. repeat split. Qed.
