(* ===== verification/Open.v ===== *)
(** * Taking over (sentinel-engine/src/engine.rs, sentinel-ledger/src/book.rs)

    [Engine::open]: claim the journal, tail it from the start, fold the book.
    The theorem: over the directory a crash leaves it succeeds, unless the crash
    tore the header of a segment, and the engine it returns is again one whose
    book is its log. *)

From S2P Require Import Prelude Fixed Types Domain Intent Position Crc Format Codec Records Segment Journal Tailer Book Venue Guards Engine Trace Safety WellFormed Replay.

(** What [open] can fail with; fuel is the model's. *)
Inductive OpenFailure := OpenError (e : EngineError.t) | OpenOutOfFuel.

Definition tail_error {A} (wrap : JournalError.t → EngineError.t) (e : TailFailure) :
    result OpenFailure A :=
  Err (match e with Failed e => OpenError (wrap e) | OutOfFuel => OpenOutOfFuel end).

(** [Book::rebuild], pulling from the tailer: [fuel] bounds one call of it and
    [calls] the records. *)
Fixpoint rebuild_tail (world : nat → Dir) (fuel calls : nat) (t : Tailer) (b : Book) :
    result OpenFailure Book :=
  match calls with
  | O => Err OpenOutOfFuel
  | S calls' =>
      match next_record world fuel t with
      | (_, Err e) => tail_error (λ e, EngineError.Ledger (LedgerError.Journal e)) e
      | (_, Ok None) => Ok b
      | (t', Ok (Some record)) =>
          match rebuild_step record b with
          | (_, Err e) => Err (OpenError (EngineError.Ledger e))
          | (b', Ok _) => rebuild_tail world fuel calls' t' b'
          end
      end
  end.

(** [Engine::open].  The lock is held from the claim on, so nothing writes the
    directory while it is read. *)
Definition engine_open (held : bool) (io : FlushIo) (fuel calls : nat) (dir : Dir) (now : Nanos)
    (cfg : Config) : Dir * result OpenFailure Engine :=
  match claim held io dir now with
  | (dir, Err e) => (dir, Err (OpenError (EngineError.Journal e)))
  | (dir, Ok j) =>
      let world := λ _, dir in
      (dir,
       match tailer_open world fuel SEQ_ZERO with
       | (_, Err e) => tail_error EngineError.Journal e
       | (t, Ok _) =>
           b ← rebuild_tail world fuel calls t book_new;
           mret (engine_new j b cfg)
       end)
  end.

(** ** Pulling the log is folding it *)

Lemma rebuild_tail_at gs tail dir fuel : ∀ k p t b calls,
  groups_from 1 gs → torn_tail tail → shown gs tail dir →
  1 + Z.of_nat (length (log gs)) < u64_max → at_pos gs t p → (length gs ≤ fuel)%nat →
  (p + k = length (log gs))%nat → (k < calls)%nat →
  rebuild_tail (λ _, dir) fuel calls t b =
    match rebuild_loop (drop p (log gs)) b with
    | (b', Ok _) => Ok b'
    | (_, Err e) => Err (OpenError (EngineError.Ledger e))
    end.
Proof.
  induction k as [|k IH]; intros p t b [|calls] Hg Ht Hsh Hmax Hat Hfuel Hk Hc; try lia;
    destruct (next_record_at gs tail dir p t fuel Hg Ht Hsh Hmax Hat Hfuel) as (t1 & Hn & Hat1);
    cbn [rebuild_tail]; rewrite Hn.
  - by rewrite lookup_ge_None_2, drop_ge by lia.
  - rewrite (proj2 (Nat.ltb_lt p (length (log gs)))) in Hat1 by lia.
    destruct (lookup_lt_is_Some_2 (log gs) p ltac:(lia)) as [f Hf].
    rewrite Hf, (drop_S _ _ _ Hf). cbn [rebuild_loop]. unfold mbind, ST_bind.
    destruct (rebuild_step f b) as [b1 [[]|e]]; [|done].
    by apply (IH (S p) t1 b1 calls); try lia.
Qed.

(** The log of a writer with nothing pending, read from its directory and folded. *)
Lemma rebuild_durable j gs b fuel calls :
  writer_inv j gs [] → rebuild (log gs) = Ok b →
  (length (log gs) < fuel)%nat → (length gs ≤ fuel)%nat → (length (log gs) < calls)%nat →
  1 + Z.of_nat (length (log gs)) < u64_max →
  ∃ t, tailer_open (λ _, j_dir j) fuel SEQ_ZERO = (t, Ok tt) ∧
    rebuild_tail (λ _, j_dir j) fuel calls t book_new = Ok b.
Proof.
  intros Hw Hb Hf1 Hf2 Hf3 Hmax. pose proof (wi_groups _ _ _ Hw) as Hg. set (d := j_dir j).
  destruct (wi_last _ _ _ Hw) as (g & Hl & _). apply last_Some in Hl as (gs0 & ->).
  assert (shown (gs0 ++ [g]) [] d) as Hsh.
  { exists gs0, g. split; [done|]. unfold d. rewrite (wi_dir _ _ _ Hw), whole_dir_app, app_nil_r.
    change (whole_dir [g]) with [group_file g]. done. }
  destruct (tailer_open_at (gs0 ++ [g]) [] d 0 fuel) as (t & Ho & Hat);
    [done|by destruct gs0|apply torn_nil|done|lia|done|done|].
  exists t. split; [exact Ho|].
  rewrite (rebuild_tail_at (gs0 ++ [g]) [] d fuel (length (log (gs0 ++ [g]))) 0 t book_new calls)
    by first [done | apply torn_nil | lia].
  unfold rebuild in Hb. rewrite drop_0.
  by destruct (rebuild_loop _ _) as [b' [[]|]]; simplify_eq/=.
Qed.

(** What a claim returns, opened. *)
Lemma engine_open_claimed held io dir now cfg fuel calls d j gs b :
  claim held io dir now = (d, Ok j) → writer_inv j gs [] → j_dir j = d →
  rebuild (log gs) = Ok b →
  (length (log gs) < fuel)%nat → (length gs ≤ fuel)%nat → (length (log gs) < calls)%nat →
  1 + Z.of_nat (length (log gs)) < u64_max →
  engine_open held io fuel calls dir now cfg = (d, Ok (engine_new j b cfg)).
Proof.
  intros Hc Hw <- Hb Hf1 Hf2 Hf3 Hmax. unfold engine_open. rewrite Hc.
  destruct (rebuild_durable j gs b fuel calls Hw Hb Hf1 Hf2 Hf3 Hmax) as (t & Ho & Hr).
  by rewrite Ho, Hr.
Qed.

(** No segment but the last is empty. *)
Lemma groups_count gs : ∀ s, groups_from s gs → (length gs ≤ S (length (log gs)))%nat.
Proof.
  induction gs as [|g gs IH]; intros s Hg; [simpl; lia|]. destruct Hg as (_ & _ & _ & _ & Hne & Hg).
  apply IH in Hg. change (log (g :: gs)) with (g.2 ++ log gs). rewrite length_app. cbn [length].
  destruct gs as [|g' gs]; [simpl; lia|].
  destruct g.2 as [|f fs]; [by exfalso; apply Hne|]. cbn [length] in *. lia.
Qed.

(** ** What a readable log folds to *)

(** Applying whatever decodes keeps the book well typed. *)
Lemma rebuild_step_wf f b b' res : rebuild_step f b = (b', res) → wf_book b → wf_book b'.
Proof.
  unfold rebuild_step, mbind, ST_bind, st_lift. intros Hs Hb.
  destruct (decode (fh_kind f.1) f.2) as [r|e] eqn:Hd; cbn [map_err] in Hs; [|by injection Hs as <- _].
  apply decode_ok in Hd as [_ Hr]. destruct (apply f.1 r b) as [b1 [a|e]] eqn:Ha; injection Hs as <- _;
    by eapply apply_wf.
Qed.

Lemma readable_now f b b' :
  readable f → frame_ok f → rebuild_step f b = (b', Ok tt) → u64_ok (Book.now b) →
  u64_ok (Book.now b').
Proof.
  intros Hf [[_ _ Hn _] _] Hs Hb. destruct (rebuild_step_readable f b Hf) as (r & Hr & E).
  rewrite E in Hs. injection Hs as <- _. destruct (apply f.1 r b) as [b1 res] eqn:Ha.
  cbn [fst]. rewrite (apply_now _ _ _ _ _ Ha). unfold u64_ok in *. lia.
Qed.

Lemma rebuild_loop_wf fs : ∀ b b',
  Forall readable fs → Forall frame_ok fs → rebuild_loop fs b = (b', Ok tt) →
  wf_book b → u64_ok (Book.now b) → wf_book b' ∧ u64_ok (Book.now b').
Proof.
  induction fs as [|f fs IH]; intros b b' Hr Hf H Hb Hn; cbn [rebuild_loop] in H.
  - by injection H as <-.
  - apply Forall_cons in Hr as [Hr Hrs]. apply Forall_cons in Hf as [Hf Hfs].
    apply st_bind_Ok in H as (b1 & [] & H1 & H).
    eapply IH; [done|done|exact H|by eapply rebuild_step_wf|by eapply readable_now].
Qed.

Lemma book_new_wf : wf_book book_new.
Proof. split; intros ? ?; simpl; by rewrite lookup_empty. Qed.

Lemma rebuild_tail_wf world fuel calls : ∀ t b b',
  rebuild_tail world fuel calls t b = Ok b' → wf_book b → wf_book b'.
Proof.
  induction calls as [|calls IH]; intros t b b' E Hb; cbn [rebuild_tail] in E; [done|].
  destruct (next_record world fuel t) as [t1 [[f|]|e]]; [|by injection E as <-|done].
  destruct (rebuild_step f b) as [b1 [u|e]] eqn:Hs; [|done]. eapply IH; [exact E|by eapply rebuild_step_wf].
Qed.

Lemma claim_epoch held io dir now d j : claim held io dir now = (d, Ok j) → 0 ≤ j_epoch j ≤ u64_max.
Proof.
  unfold claim. destruct held; [done|]. destruct (claim_scan _ _) as [scan|]; [|done]. cbv zeta.
  destruct (match last (cs_dir scan) with Some _ => _ | None => _ end) as [[dir' base] bytes].
  set (j0 := mkJournal _ _ _ _ _ _ _ _ _ _). set (payload := le_bytes _ _ ++ _).
  destruct (append_and_flush io _ now payload j0) as [j' [s|e]] eqn:E; [|done]. intros [= _ <-].
  unfold append_and_flush in E. apply st_bind_Ok in E as (j1 & seq & Ha & E).
  apply st_bind_Ok in E as (j2 & n & Hf & [= <- _]).
  pose proof (flush_epoch io j1) as Hp. rewrite Hf in Hp. cbn [fst] in Hp. cbn [j_epoch set_stats]. rewrite Hp.
  apply append_Ok in Ha as (-> & _). unfold j0, epoch_next. cbn. unfold_ranges. lia.
Qed.

(** Whatever the directory holds, an engine that opens over it is well typed. *)
Lemma engine_open_wf held io fuel calls dir now cfg d e :
  engine_open held io fuel calls dir now cfg = (d, Ok e) → opt_ok (max_position (limits cfg)) → wf_engine e.
Proof.
  unfold engine_open. intros E Hcap. destruct (claim held io dir now) as [dir' [j|err]] eqn:Hc; [|done].
  injection E as _ E. destruct (tailer_open _ fuel SEQ_ZERO) as [t [u|err]]; [|done].
  bind_step E b Hb. injection E as <-. apply wf_engine_new; [|by eapply claim_epoch|done].
  eapply rebuild_tail_wf; [exact Hb|apply book_new_wf].
Qed.


(** The engine opened over a log that folds mirrors it. *)
Lemma opened_mirror j gs b cfg :
  writer_inv j gs [] → rebuild (log gs) = Ok b → Forall readable (log gs) →
  opt_ok (max_position (limits cfg)) → mirror (engine_new j b cfg) gs [].
Proof.
  intros Hw Hb Hr Hcap.
  assert (rebuild_loop (log gs) book_new = (b, Ok tt)) as Hl.
  { unfold rebuild in Hb. by destruct (rebuild_loop _ _) as [b' [[]|]]; simplify_eq. }
  destruct (rebuild_loop_wf _ _ _ Hr (seq_from_ok _ _ (groups_seq _ _ (wi_groups _ _ _ Hw))) Hl
    book_new_wf ltac:(done)) as [Hwf Hnow].
  split; rewrite ?app_nil_r; try done. apply wf_engine_new; [done| |done].
  pose proof (wi_epoch _ _ _ Hw) as He. unfold u64_ok in He.
  unfold_ranges. lia.
Qed.

(** The first boot over an empty directory. *)
Lemma fresh_opens now cfg fuel :
  u64_ok now → opt_ok (max_position (limits cfg)) → (1 < fuel)%nat →
  ∃ d e gs, engine_open false IoOk fuel fuel [] now cfg = (d, Ok e) ∧ mirror e gs [].
Proof.
  intros Hnow Hcap Hfuel. destruct (claim_fresh now Hnow) as (j & gs & Hc & Hw & Hl).
  assert (2 + Z.of_nat (length (@nil Frame)) < u64_max) as Hlen by done.
  pose proof (claim_record_folds [] now book_new Hnow Hlen) as Hf. cbv zeta in Hf.
  pose proof (groups_count gs 1 (wi_groups _ _ _ Hw)) as Hn. rewrite Hl in Hn. cbn [length] in Hn.
  eassert (rebuild (log gs) = Ok _) as Hb by (unfold rebuild; by rewrite Hl, Hf).
  exists (j_dir j). eexists _, gs. split.
  - eapply engine_open_claimed; [exact Hc|exact Hw|done|exact Hb|rewrite ?Hl; cbn [length]; lia..].
  - apply opened_mirror; [done|done| |done]. rewrite Hl. apply Forall_singleton. by apply claim_record_readable.
Qed.




(** ** Properties *)


