(* ===== verification/Boot.v ===== *)
(** * Boot (sentineld/src/main.rs)

    Claim the journal, rebuild the book, audit it, and only then accept work.
    The audit refuses a book with an order that names no decision, and the
    control socket accepts such orders: one of them is enough for the process
    never to start again over its own journal. *)

From S2P Require Import Prelude Fixed Text Types Json Domain Intent Position Format Codec Records Segment Journal Tailer Book Invariants Venue Guards Engine Trace Safety WellFormed Replay Open Control Config.

(** Why the process does not start. *)
Inductive BootError :=
| BadConfig (e : ConfigError)
| CannotClaim (e : OpenFailure)
| Unsound (r : Report).

(** [run], up to the engine it hands to its threads.  [disk] is the content of a
    journal directory, [locked] whether another process holds its lock. *)
Definition boot (env : Env) (disk : list byte → Dir) (locked : list byte → bool) (io : FlushIo)
    (fuel calls : nat) (now : Nanos) : result BootError (Settings * (Dir * Engine)) :=
  config ← map_err BadConfig (from_env env);
  let path := journal_dir config in
  let '(dir, opened) := engine_open (locked path) io fuel calls (disk path) now (engine_config config) in
  engine ← map_err CannotClaim opened;
  let report := check (book engine) in
  if negb (holds report) then Err (Unsound report)
  else Ok (config, (dir, engine)).

(** What is accepted is sound, and has confirmed no position yet. *)
Lemma boot_sound env disk locked io fuel calls now s d e :
  boot env disk locked io fuel calls now = Ok (s, (d, e)) →
  from_env env = Ok s ∧ violations (check (book e)) = [] ∧
  engine_open (locked (journal_dir s)) io fuel calls (disk (journal_dir s)) now (engine_config s) = (d, Ok e).
Proof.
  unfold boot. intros H. bind_step H c Hc. cbv zeta in H.
  destruct (engine_open _ _ _ _ _ _ _) as [d' r] eqn:Ho. bind_step H e' He. subst r.
  unfold holds in H. destruct (violations (check (book e'))) eqn:Hv; [|done].
  by injection H as <- <- <-.
Qed.

(** ** Orders keep their trace *)





















Definition ex_simulator : Env := λ _, None.







(** An id with a NUL in it, which a JSON string can write, is a value the socket
    takes and the journal cannot give back: the placement is accepted and made
    durable, and no process can open that journal again. *)
Definition ex_nul_id : list byte := str "UI" ++ [Byte.x00] ++ str "1".
Definition ex_nul_line : list byte := str "place with a NUL".
Definition ex_nul_table : list (list byte * Tree) :=
  [(ex_nul_line, TObj [(str "op", TStr (str "place")); (str "client_order_id", TStr ex_nul_id);
     (str "instrument", TStr (str "BTCUSD")); (str "side", TStr (str "buy"));
     (str "qty", TStr (str "0.003")); (str "trace_id", TInt 7)])].

Definition ex_nul_play : list Command.t :=
  [Command.Tick 1000; positions_reported []] ++
  option_list (let J := tree_json ex_nul_table in ok (control_parse ex_nul_line)).
Definition ex_nul : Engine := Eval vm_compute in (engine_flush IoOk (default ex_engine (play ex_nul_play ex_engine))).1.

Example nul_in_id_breaks_the_log :
  length ex_nul_play = 3%nat ∧ is_Some (play ex_nul_play ex_engine) ∧
  ∃ seq, boot ex_simulator (λ _, crash (journal ex_nul) (Writing 0)) (λ _, false) IoOk 50 50 2000 =
    Err (CannotClaim (OpenError (EngineError.Ledger (LedgerError.Codec seq CodecError.BadText)))).
Proof. split_and!; [vm_compute; reflexivity|vm_compute; by eexists|eexists; vm_compute; reflexivity]. Qed.
