(* ===== verification/Typed.v ===== *)
(** * The queues carry values of their types (sentineld/src/runtime.rs)

    What a venue promises to the process it is part of, and what the process
    keeps when its venue promises it: whatever the threads do, the engine, the
    commands queued for it and the requests it has released are values of their
    types.  Both venues keep the promise. *)

From S2P Require Import Prelude Fixed Text Types Json Domain Intent Position Format Codec Records Segment Journal Book Venue Symbol Signing VenueParse Binance Adapter Stream Sim Guards Engine Trace Safety Runtime WellFormed Control Answers Replay.

(** ** The promise *)

(** A condition on the venue that its answers keep, under which they are well
    typed when the requests are. *)
Class TypedVenue (V : Type) `{Venue V} := {
  venue_ok : V → Prop;
  perform_typed r (v v' : V) commands :
    venue_ok v → wf_request r → perform r v = (v', Some commands) →
    venue_ok v' ∧ Forall wf_command commands;
  drain_typed (v v' : V) events :
    venue_ok v → venue_drain v = (v', events) → venue_ok v' ∧ Forall wf_venue_event events;
}.

(** ** The system keeps it *)

Section system.
Context {V : Type} `{TypedVenue V}.

Record well_typed (s : System V) : Prop := {
  wt_engine : wf_engine (sys_engine s);
  wt_commands : Forall wf_command (sys_commands s);
  wt_requests : Forall wf_request (sys_requests s);
  wt_venue : venue_ok (sys_venue s);
}.

Lemma submit_keeps_wf c e : wf_command c → wf_engine e → wf_engine (submit c e).1.
Proof. intros Hc He. by destruct (submit_typed c e Hc He) as (ws & rs & _ & _ & ?). Qed.

Lemma writer_batch_typed batch : Forall wf_command batch → ∀ e, wf_engine e → wf_engine (writer_batch batch e).1.
Proof.
  induction 1 as [|c batch Hc _ IH]; intros e He; cbn [writer_batch]; [done|].
  pose proof (submit_keeps_wf c e Hc He) as Hs. destruct (submit c e) as [e' [u|err]]; cbn [fst] in Hs; [by apply IH|].
  case_bool; [done|by apply IH].
Qed.

Lemma writer_drain_typed batch : Forall wf_command batch → ∀ e, wf_engine e → wf_engine (writer_drain batch e).
Proof.
  induction 1 as [|c batch Hc _ IH]; intros e He; cbn [writer_drain]; [done|]. by apply IH, submit_keeps_wf.
Qed.

Lemma flush_releases io e e' out :
  wf_engine e → engine_flush io e = (e', Ok out) → wf_engine e' ∧ Forall wf_request out.
Proof.
  intros He Hf. pose proof (flush_typed io e He) as Hw. rewrite Hf in Hw. split; [done|].
  apply engine_flush_Ok in Hf as (j & seq & _ & _ & ->). apply He.
Qed.

Lemma sys_step_typed (said : Command.t → Prop) s s' :
  (∀ c, said c → wf_command c) → sys_step said s s' → well_typed s → well_typed s'.
Proof.
  intros Hsaid Hs [He Hc Hr Hv]. destruct Hs as [c s Hk _|s _|r rest s v answers Hq Hp
    |io batch rest s _ _ _ Hb|s|io s _ _].
  - split; try done. apply Forall_app_2; [done|]. by apply Forall_singleton, Hsaid.
  - unfold worker_stream. destruct (venue_drain (sys_venue s)) as [v evs] eqn:Hd.
    destruct (drain_typed _ _ _ Hv Hd) as [Hv' Hev]. split; try done.
    apply Forall_app_2; [done|]. by apply Forall_fmap.
  - rewrite Hq in Hr. apply Forall_cons in Hr as [Hr Hrest].
    destruct (perform_typed _ _ _ _ Hv Hr Hp) as [Hv' Ha]. split; try done. by apply Forall_app_2.
  - rewrite Hb in Hc. apply Forall_app in Hc as [Hcb Hcr].
    pose proof (writer_batch_typed _ Hcb _ He) as He1. unfold writer_turn.
    destruct (writer_batch batch (sys_engine s)) as [e1 [|]]; [|by split]. cbn [fst] in He1.
    pose proof (flush_typed io e1 He1) as He2.
    destruct (engine_flush io e1) as [e2 [out|err]] eqn:Hf; [|by split]. split; try done.
    apply Forall_app_2; [done|]. exact (proj2 (flush_releases _ _ _ _ He1 Hf)).
  - done.
  - split; try done. by apply flush_typed, writer_drain_typed.
Qed.

Lemma sys_reach_typed (said : Command.t → Prop) s0 s :
  (∀ c, said c → wf_command c) → sys_reach said s0 s → well_typed s0 → well_typed s.
Proof. intros Hsaid. induction 1; intros; [done|]. eapply sys_step_typed; eauto. Qed.

(** Whatever of its queue the writer takes next, the records it appends decode
    to themselves. *)
Lemma next_records s c :
  well_typed s → c ∈ sys_commands s →
  ∃ ws rs, step (sys_engine s) ws rs (submit c (sys_engine s)).1 ∧
    Forall (λ w : Written, decode (rec_kind w.1.2) (encode w.1.2) = Ok w.1.2) ws.
Proof.
  intros [He Hc _ _] Hin. rewrite Forall_forall in Hc.
  destruct (submit_typed c _ (Hc c Hin) He) as (ws & rs & Hs & Hok & _). exists ws, rs. split; [done|].
  eapply Forall_impl; [exact Hok|]. intros w. apply decode_own.
Qed.
End system.

(** ** The venue of Binance *)

Section binance.
Context {J N : Type} `{JL : JsonLaws J} `{Client N} `{Socket N}.
Context (no_nul_text : ∀ (v : J) s, json_str v = Some s → Byte.x00 ∉ s).

(** What is on the channel of the stream. *)
Definition channel_ok (v : BinanceVenue N) : Prop := Forall wf_venue_event (default [] (bn_events v)).

(** The channel goes on holding such events. *)
Definition channel_kept (v v' : BinanceVenue N) : Prop := channel_ok v → channel_ok v'.

#[local] Instance channel_frame : ThreadFrame channel_kept.
Proof.
  split; [split|..]; try by unfold channel_kept.
  - split; [by intros v Hv|]. by intros v1 v2 v3 Ha Hb Hv; apply Hb, Ha.
  - intros m x q v Hx Hq Hv. unfold channel_ok in *. rewrite Hq in Hv. cbn in *.
    apply Forall_app_2; [done|]. apply Forall_singleton.
    pose proof (events_ok no_nul_text m) as Hm. rewrite Forall_forall in Hm. by apply Hm.
Qed.

Lemma channel_turn running t (v : BinanceVenue N) : channel_ok v → channel_ok (thread_turn running t v).1.
Proof. apply (framed_turn channel_kept). Qed.

Lemma answered_state {V A} (m : ST V VenueFailure A) command (v : V) : (answered m command v).1 = (m v).1.
Proof. unfold answered. by destruct (m v) as [v' [a|[e|]]]. Qed.

Lemma channel_perform r (v : BinanceVenue N) : channel_kept v (perform r v).1.
Proof.
  destruct r as [i|c k|c|]; cbn [perform]; rewrite answered_state;
    [apply (framed_submit channel_kept)|apply (framed_cancel channel_kept)
    |apply (framed_lookup channel_kept)|apply (framed_positions channel_kept)].
Qed.

Definition binance_typed : TypedVenue (BinanceVenue N).
Proof.
  refine {| venue_ok := channel_ok |}.
  - intros r v v' commands Hv Hr E. split; [|by eapply performed_ok].
    pose proof (channel_perform r v Hv) as Hp. by rewrite E in Hp.
  - intros v v' events Hv E. cbn [venue_drain BinanceVenue_venue] in E. unfold bn_drain in E.
    unfold channel_ok in *. destruct (bn_events v) as [q|] eqn:Hq; injection E as <- <-; [by split; [constructor|]|].
    by rewrite Hq.
Defined.
End binance.

(** ** The simulated venue *)

Definition so_ok (o : SimOrder) : Prop :=
  text_ok (so_venue_order_id o) ∧ text_ok (so_instrument o) ∧ e8_ok (so_filled o).

Record sim_ok (v : SimVenue) : Prop := {
  sk_orders c o : sv_orders v !! c = Some o → so_ok o;
  sk_faults c r : sv_faults v !! c = Some (Fault.Reject r) → - 2 ^ 31 ≤ code r < 2 ^ 31 ∧ text_ok (text r);
  sk_stream : Forall wf_venue_event (sv_stream v);
  sk_positions i q : sv_positions v !! i = Some q → text_ok i ∧ e8_ok q;
  sk_forced : Forall wf_position (default [] (sv_forced v));
}.

Lemma sim_new_ok : sim_ok sim_new.
Proof.
  split; try apply Forall_nil_2.
  - intros c o E. change ((∅ : gmap ClientOrderId SimOrder) !! c = Some o) in E. by rewrite lookup_empty in E.
  - intros c r E. change ((∅ : gmap ClientOrderId Fault.t) !! c = Some (Fault.Reject r)) in E.
    by rewrite lookup_empty in E.
  - intros i q E. change ((∅ : gmap Instrument Qty) !! i = Some q) in E. by rewrite lookup_empty in E.
Qed.

(** The call keeps the venue so, and its answer satisfies [Q]. *)
Definition sim_gives {A} (m : SM A) (Q : A → Prop) : Prop := ∀ v, sim_ok v →
  sim_ok (m v).1 ∧ ∀ a, (m v).2 = Ok a → Q a.

Lemma sim_bind {A B} (m : SM A) (f : A → SM B) (P : A → Prop) (Q : B → Prop) :
  sim_gives m P → (∀ a, P a → sim_gives (f a) Q) → sim_gives (m ≫= f) Q.
Proof.
  intros Hm Hf v Hv. destruct (Hm v Hv) as [Hv1 Ha]. unfold mbind, ST_bind.
  destruct (m v) as [v1 [a|e]]; cbn [fst snd] in *; [|done]. by apply Hf; [apply Ha|].
Qed.
Lemma sim_ret {A} (a : A) (Q : A → Prop) : Q a → sim_gives (mret a) Q.
Proof. intros Ha v Hv. split; [done|]. by intros x [= <-]. Qed.
Lemma sim_fail {A} e (Q : A → Prop) : sim_gives (st_fail e) Q.
Proof. by split. Qed.
Lemma sim_get {A} (f : SimVenue → A) (Q : A → Prop) : (∀ v, sim_ok v → Q (f v)) → sim_gives (st_get f) Q.
Proof. intros Hf v Hv. split; [done|]. intros a [= <-]. by apply Hf. Qed.
Lemma sim_modify f : (∀ v, sim_ok v → sim_ok (f v)) → sim_gives (st_modify f) (λ _, True).
Proof. intros Hf v Hv. split; [by apply Hf|done]. Qed.

Lemma sim_bump limit n : sim_gives (bump limit n) (λ _, True).
Proof. unfold bump. case_bool; [by apply sim_ret|apply sim_fail]. Qed.

Lemma sim_venue_id : sim_gives next_venue_id text_ok.
Proof.
  eapply sim_bind; [by apply (sim_get _ (λ _, True))|]. intros n _.
  eapply sim_bind; [apply sim_bump|]. intros m _.
  eapply sim_bind; [apply sim_modify; by intros v []|]. intros _ _. apply sim_ret.
  apply text_ok_default. clean.
Qed.

Lemma sim_replace c o v :
  so_ok o → sim_ok v →
  sim_ok (set_sv_orders (<[c := o]> (sv_orders v)) v).
Proof.
  intros Ho [H1 H2 H3 H4 H5]. split; [|done..]. intros c' o'. cbn.
  intros [[_ <-]|[_ E]]%lookup_insert_Some; [done|by eapply H1].
Qed.

Definition fault_ok (f : option Fault.t) : Prop :=
  ∀ r, f = Some (Fault.Reject r) → - 2 ^ 31 ≤ code r < 2 ^ 31 ∧ text_ok (text r).

Lemma sim_take_fault c : sim_gives (take_fault c) fault_ok.
Proof.
  eapply sim_bind; [apply (sim_get _ fault_ok); intros v Hv r; apply (sk_faults v Hv)|]. intros f Hf.
  eapply sim_bind; [apply sim_modify|intros; by apply sim_ret].
  intros v [H1 H2 H3 H4 H5]. split; [done| |done..]. intros c' r. cbn. intros [_ E]%lookup_delete_Some. by eapply H2.
Qed.

Lemma sim_accept i a s : text_ok (Intent.instrument i) → sim_gives (accept i a s) text_ok.
Proof.
  intros Hi. eapply sim_bind; [apply sim_venue_id|]. intros v Hv.
  eapply sim_bind; [apply sim_modify; intros; by apply sim_replace|intros; by apply sim_ret].
Qed.

(** One call, up to its fault. *)
Ltac sim_head :=
  eapply sim_bind; [by apply (sim_get _ (λ _, True))|]; intros ? _;
  eapply sim_bind; [apply sim_bump|]; intros ? _;
  eapply sim_bind; [apply sim_modify; by intros ? []|]; intros _ _; cbv zeta;
  eapply sim_bind; [apply sim_take_fault|]; intros fault Hfault.

Lemma sim_submit_ok i : text_ok (Intent.client_order_id i) → text_ok (Intent.instrument i) →
  sim_gives (sim_submit i) (λ o, wf_command (Command.Submitted (Intent.client_order_id i) o)).
Proof.
  intros Hc Hi. unfold sim_submit. sim_head. destruct fault as [[| |r| | |]|].
  - eapply sim_bind; [by apply sim_accept|]. intros v Hv. by apply sim_ret.
  - by apply sim_ret.
  - apply sim_ret. split; [done|]. by apply Hfault.
  - eapply sim_bind; [by apply sim_accept|]. intros v Hv. by apply sim_ret.
  - apply sim_fail.
  - apply sim_fail.
  - eapply sim_bind; [by apply (sim_get _ (λ _, True))|]. intros [] _.
    + apply sim_ret. split; [done|]. split; [vm_compute; split; congruence|by apply text_ok_default].
    + eapply sim_bind; [by apply sim_accept|]. intros v Hv. by apply sim_ret.
Qed.

(** The order that is looked for. *)
Lemma sim_find c : sim_gives (st_get (λ v, sv_orders v !! c))
  (λ o, ∀ x, o = Some x → so_ok x).
Proof. apply sim_get. intros v Hv x. apply (sk_orders v Hv). Qed.

Lemma sim_cancel_ok c k : text_ok c → sim_gives (sim_cancel c k) (λ o, wf_command (Command.Cancelled c o)).
Proof.
  intros Hc. unfold sim_cancel. sim_head.
  destruct fault as [[| |r| | |]|]; try (by apply sim_ret); try apply sim_fail.
  all: eapply sim_bind; [apply sim_find|]; intros [o|] Ho; [|by apply sim_ret].
  all: pose proof (Ho o eq_refl) as (Ho1 & Ho2 & Ho3); case_bool; [by apply sim_ret|].
  all: eapply sim_bind; [apply sim_modify; intros; by apply sim_replace|]; intros _ _.
  all: eapply (sim_bind _ _ (λ _, True)); [|intros; by apply sim_ret].
  all: case_bool; [by apply sim_ret|]; apply sim_modify; intros v [H1 H2 H3 H4 H5]; split; try done.
  all: apply Forall_app_2; [done|by apply Forall_singleton].
Qed.

Lemma average_ok cost q : opt_ok (average_price cost q).
Proof.
  unfold average_price. case_bool; [done|]. cbv zeta. unfold i64_try_from.
  destruct (fits_i64 _) eqn:E; [|done]. by apply fits_i64_spec in E.
Qed.

Lemma sim_lookup_ok c : text_ok c → sim_gives (sim_lookup c) (λ o, wf_command (Command.LookedUp c o)).
Proof.
  intros Hc. unfold sim_lookup. sim_head.
  destruct fault as [[| |r| | |]|]; try (by apply sim_ret); try apply sim_fail.
  all: eapply sim_bind; [apply sim_find|]; intros [o|] Ho; [|by apply sim_ret].
  all: pose proof (Ho o eq_refl) as (Ho1 & Ho2 & Ho3); apply sim_ret; split; [done|].
  all: split_and!; [done|done|apply average_ok].
Qed.

Lemma sim_positions_ok : sim_gives sim_positions (λ l, Forall wf_position l).
Proof.
  apply sim_get. intros v Hv. pose proof (sk_forced v Hv) as Hf. destruct (sv_forced v) as [l|]; [exact Hf|].
  unfold reported. apply Forall_fmap, Forall_forall. intros [i q]. unfold sort_by_id.
  rewrite merge_sort_Permutation, list_elem_of_filter, elem_of_map_to_list. cbn. intros [_ Hq].
  destruct (sk_positions v Hv i q Hq). split_and!; [done..|].
  unfold entry_price. cbv zeta. destruct (foldl _ _ _). apply average_ok.
Qed.

(** Executions, and what else a script does at the venue. *)
Lemma sim_push e : wf_venue_event e → sim_gives (push_back e) (λ _, True).
Proof.
  intros He. apply sim_modify. intros v [H1 H2 H3 H4 H5]. split; try done.
  apply Forall_app_2; [done|by apply Forall_singleton].
Qed.

Lemma checked_add_ok {d} (x y : e8 d) : e8_ok x → e8_ok (unwrap_or (checked_add x y) x).
Proof. intros Hx. destruct (checked_add x y) as [z|] eqn:E; [|done]. apply checked_add_Ok in E as [E ?]. unfold unwrap_or, e8_ok. by rewrite E. Qed.

Lemma sim_fill_ok c q p : text_ok c → e8_ok q → e8_ok p → sim_gives (sim_fill c q p) (λ _, True).
Proof.
  intros Hc Hq Hp. eapply (sim_bind _ _ text_ok).
  { eapply sim_bind; [by apply (sim_get _ (λ _, True))|]. intros n _.
    eapply sim_bind; [apply sim_bump|]. intros m _.
    eapply sim_bind; [apply sim_modify; by intros v []|]. intros _ _. apply sim_ret, text_ok_default. clean. }
  intros exec Hexec. eapply sim_bind; [apply (sim_get _ sim_ok); done|]. intros self Hself.
  destruct (sv_orders self !! c) as [o|] eqn:Ho; [|apply sim_fail].
  destruct (sk_orders _ Hself c o Ho) as (H1 & H2 & H3).
  eapply sim_bind; [apply sim_modify; intros; apply sim_replace; [|done]|]; [|intros _ _].
  { split_and!; [done|done|by apply checked_add_ok]. }
  eapply sim_bind; [apply sim_modify|intros _ _; case_bool; [by apply sim_ret|by apply sim_push]].
  intros v [K1 K2 K3 K4 K5]. split; [done|done|done| |done]. intros i x. cbn. unfold move_position. cbv zeta.
  intros [[<- <-]|[_ E]]%lookup_insert_Some; [|by apply K4]. split; [done|]. apply checked_add_ok.
  destruct (sv_positions v !! so_instrument o) as [y|] eqn:E; [by apply (K4 _ _ E)|apply zero_ok].
Qed.

Lemma sim_script_ok c f v : (∀ r, f = Fault.Reject r → - 2 ^ 31 ≤ code r < 2 ^ 31 ∧ text_ok (text r)) →
  sim_ok v → sim_ok (script c f v).
Proof.
  intros Hf [H1 H2 H3 H4 H5]. split; [done| |done..]. intros c' r. cbn.
  intros [[_ ->]|[_ E]]%lookup_insert_Some; [by apply Hf|by eapply H2].
Qed.

Lemma answered_gives {A} (m : SM A) command (Q : A → Prop) (v v' : SimVenue) commands :
  sim_gives m Q → (∀ a, Q a → wf_command (command a)) → sim_ok v →
  answered m command v = (v', Some commands) → sim_ok v' ∧ Forall wf_command commands.
Proof.
  intros Hm Hq Hv. destruct (Hm v Hv) as [Hv' Ha]. unfold answered.
  destruct (m v) as [v1 [a|[e|]]]; cbn [fst snd] in *; intros [= <- <-]; (split; [done|]); [|constructor].
  by apply Forall_singleton, Hq, Ha.
Qed.

#[export] Instance sim_typed : TypedVenue SimVenue.
Proof.
  refine {| venue_ok := sim_ok |}.
  - intros [i|c k|c|] v v' commands Hv Hr E.
    + eapply (answered_gives (sim_submit i) (Command.Submitted (Intent.client_order_id i))); [by apply sim_submit_ok; apply Hr|by intros|done|exact E].
    + eapply (answered_gives (sim_cancel c k) (Command.Cancelled c)); [by apply sim_cancel_ok|by intros|done|exact E].
    + eapply (answered_gives (sim_lookup c) (Command.LookedUp c)); [by apply sim_lookup_ok|by intros|done|exact E].
    + eapply (answered_gives sim_positions positions_reported); [apply sim_positions_ok|apply reported_ok|done|exact E].
  - intros v v' events [H1 H2 H3 H4 H5] [= <- <-]. split; [|done]. by split.
Defined.
