(* ===== verification/Process.v ===== *)
(** * The process (sentineld/src/main.rs)

    The boot to its end: the audited engine of Boot.v, the venue of the
    configuration, and the threads started on both.  Which venue is a matter of
    two words of the environment; from then on, whatever the network answers,
    the process asks for no address of another venue. *)

From S2P Require Import Prelude Fixed Text Types Json Domain Intent Position Format Codec Records Segment Journal Tailer Invariants Venue Symbol Signing VenueParse Binance Adapter Stream Sim Guards Engine Trace Safety Runtime WellFormed Control Answers Config Replay Open Boot Typed.

Section process.
Context {J N : Type} `{Json J} `{Client N} `{Socket N}.

(** Why the process does not start. *)
Inductive RunError :=
| NoBoot (e : BootError)
| Unreachable (e : VenueError.t)
| BootPanic.

(** What the threads are started on. *)
Inductive Process :=
| Simulated (s : System SimVenue)
| Connected (s : System (BinanceVenue N)) (t : Thread).

Definition credentials_for (api_key secret : list byte) (demo : bool) : Credentials :=
  if demo then credentials_demo api_key secret else credentials_production api_key secret.

(** Connected and streaming. *)
Definition open_venue (api_key secret : list byte) (demo : bool) (leverage : option Z)
    (l : list Instrument) (n : N) : result RunError (BinanceVenue N * Thread) :=
  match connect (credentials_for api_key secret demo) l leverage n with
  | (v, Ok _) => Ok (spawn v)
  | (_, Err (VenueErr e)) => Err (Unreachable e)
  | (_, Err VenuePanic) => Err BootPanic
  end.

(** [run], up to the running threads. *)
Definition run_process (env : Env) (disk : list byte → Dir) (locked : list byte → bool) (io : FlushIo)
    (fuel calls : nat) (now : Nanos) (n : N) : result RunError (Settings * Process) :=
  '(config, (_, engine)) ← map_err NoBoot (boot env disk locked io fuel calls now);
  match venue_config config with
  | Simulator => Ok (config, Simulated (start engine sim_new))
  | Config.Binance api_key secret demo leverage =>
      '(v, t) ← open_venue api_key secret demo leverage (instruments config) n;
      Ok (config, Connected (start engine v) t)
  end.

(** The threads of [Runtime::start] and the thread of the stream, which shares
    the adapter's channel. *)
Definition set_venue {V} (v : V) (s : System V) : System V :=
  mkSystem (sys_engine s) v (sys_commands s) (sys_requests s) (sys_running s) (sys_writer s) (sys_performed s).

Inductive live_reach (said : Command.t → Prop) (s0 : System (BinanceVenue N)) (t0 : Thread) : System (BinanceVenue N) → Thread → Prop :=
| live_start : live_reach said s0 t0 s0 t0
| live_system s s' t : live_reach said s0 t0 s t → sys_step said s s' → live_reach said s0 t0 s' t
| live_stream running s t v t' :
    live_reach said s0 t0 s t → thread_turn running t (sys_venue s) = (v, Ok t') →
    live_reach said s0 t0 (set_venue v s) t'.

(** ** Where requests go *)

(** A network that remembers the addresses the program hands to its HTTP client
    and to its socket library.  Where these go from there, a redirect that they
    follow for instance, is theirs: it is part of what the network answers. *)
Class Logged := {
  handed : N → list (list byte);
  logged_http b rq n : handed (http b rq n).1 = handed n ++ [rq_url rq];
  logged_connect url n : handed (ws_connect url n).1 = handed n ++ [url];
  logged_local n : handed (local_ms n).1 = handed n;
  logged_read n : handed (ws_read n).1 = handed n;
  logged_pong p n : handed (ws_pong p n).1 = handed n;
  logged_instant n : handed (instant n).1 = handed n;
}.

Section logged.
Context `{!Logged}.

(** An address of the venue the credentials name. *)
Definition at_venue (c : Credentials) (url : list byte) : Prop :=
  at_base (rest_base c) url ∨ at_base (ws_base c) url.

(** Every address handed over in between is of that venue. *)
Definition stays (v v' : BinanceVenue N) : Prop :=
  bn_credentials v' = bn_credentials v ∧
  ∃ urls, handed (bn_net v') = handed (bn_net v) ++ urls ∧ Forall (at_venue (bn_credentials v)) urls.

Lemma stays_quiet v v' :
  bn_credentials v' = bn_credentials v → handed (bn_net v') = handed (bn_net v) → stays v v'.
Proof. intros Hc Ha. split; [done|]. exists []. by rewrite app_nil_r. Qed.

#[local] Instance stays_preorder : PreOrder stays.
Proof.
  split; [intros v; by apply stays_quiet|].
  intros v1 v2 v3 [Ec (l1 & E1 & F1)] [Ed (l2 & E2 & F2)]. split; [congruence|].
  exists (l1 ++ l2). rewrite E2, E1, app_assoc. split; [done|]. apply Forall_app. by rewrite <-Ec at 2.
Qed.

#[local] Instance stays_frame : ThreadFrame stays.
Proof.
  split; [split; [apply _|..]|..].
  - intros b rq v Hu. split; [done|]. exists [rq_url rq]. split; [apply logged_http|].
    apply Forall_singleton. by left.
  - intros v. apply stays_quiet; [done|]. apply logged_local.
  - intros o v. by apply stays_quiet.
  - intros url v Hu. split; [done|]. exists [url]. split; [apply logged_connect|].
    apply Forall_singleton. by right.
  - intros v. apply stays_quiet; [done|]. apply logged_read.
  - intros p v. apply stays_quiet; [done|]. apply logged_pong.
  - intros v. apply stays_quiet; [done|]. apply logged_instant.
  - intros m x q v _ _. by apply stays_quiet.
Qed.

Lemma stays_modify (f : BinanceVenue N → BinanceVenue N) :
  (∀ v, bn_credentials (f v) = bn_credentials v ∧ bn_net (f v) = bn_net v) → framed stays (st_modify f).
Proof. intros Hf v. destruct (Hf v) as [Ec En]. apply stays_quiet; [done|]. cbn. by rewrite En. Qed.

Lemma stays_load_loop l : framed stays (load_loop l).
Proof.
  induction l as [|i l IH]; cbn [load_loop]; [by apply framed_ret, _|].
  apply (framed_bind stays); [by apply framed_load, _|intros].
  apply (framed_bind stays); [by apply stays_modify|intros; apply IH].
Qed.

Lemma stays_connect c l leverage n : stays (bn_new c l n) (connect c l leverage n).1.
Proof.
  unfold connect. apply (framed_bind stays); [by apply framed_sync, _|intros].
  apply (framed_bind stays); [apply stays_load_loop|intros].
  apply (framed_bind stays); [by apply framed_one_way, _|intros]. destruct leverage; [|by apply framed_ret, _].
  unfold set_leverage. apply (framed_bind stays); [by apply framed_get, _|intros; by apply framed_leverage_loop, _].
Qed.

Lemma stays_drain v : stays v (bn_drain v).1.
Proof. unfold bn_drain. destruct (bn_events v); by apply stays_quiet. Qed.

Lemma stays_perform r v : stays v (perform r v).1.
Proof.
  destruct r as [i|c k|c|]; cbn [perform]; unfold answered.
  - pose proof (framed_submit stays i v) as Hs. cbn. by destruct (bn_submit i v) as [v' [o|[e|]]].
  - pose proof (framed_cancel stays c k v) as Hs. cbn. by destruct (bn_cancel c k v) as [v' [o|[e|]]].
  - pose proof (framed_lookup stays c v) as Hs. cbn. by destruct (bn_lookup c v) as [v' [o|[e|]]].
  - pose proof (framed_positions stays v) as Hs. cbn. by destruct (bn_positions v) as [v' [o|[e|]]].
Qed.

Lemma stays_step said s s' : sys_step said s s' → stays (sys_venue s) (sys_venue s').
Proof.
  intros Hs. destruct Hs as [c s _ _|s _|r rest s v answers _ Hp|io batch rest s _ _ _ _|s|io s _ _];
    try by apply stays_quiet.
  - unfold worker_stream. pose proof (stays_drain (sys_venue s)) as Hd. cbn [venue_drain BinanceVenue_venue].
    by destruct (bn_drain (sys_venue s)) as [v e].
  - pose proof (stays_perform r (sys_venue s)) as Hd. by rewrite Hp in Hd.
  - unfold writer_turn. destruct (writer_batch batch (sys_engine s)) as [e [|]]; [|by apply stays_quiet].
    by destruct (engine_flush io e) as [e' [|]]; apply stays_quiet.
Qed.

Lemma stays_live said s0 t0 s t : live_reach said s0 t0 s t → stays (sys_venue s0) (sys_venue s).
Proof.
  induction 1 as [|s s' t _ IH Hs|running s t v t' _ IH Ht]; [by apply stays_quiet|..].
  - etransitivity; [exact IH|by eapply stays_step].
  - etransitivity; [exact IH|]. pose proof (framed_turn stays running t (sys_venue s)) as Hk. by rewrite Ht in Hk.
Qed.

Lemma open_venue_stays k sec demo lev l n v t :
  open_venue k sec demo lev l n = Ok (v, t) →
  bn_credentials v = credentials_for k sec demo ∧
  ∃ urls, handed (bn_net v) = handed n ++ urls ∧ Forall (at_venue (credentials_for k sec demo)) urls.
Proof.
  unfold open_venue. pose proof (stays_connect (credentials_for k sec demo) l lev n) as (Hc & urls & Hu & Hf).
  destruct (connect _ l lev n) as [v1 [u|[e|]]]; [|done..]. intros [= <- _]. cbn in *. split; [done|].
  by exists urls.
Qed.

(** ** Property *)

(** An address of the demo venue, and of the real one. *)
Definition at_demo (url : list byte) : Prop := at_base DEMO_REST url ∨ at_base DEMO_WS url.
Definition at_production (url : list byte) : Prop := at_base PROD_REST url ∨ at_base PROD_WS url.

Lemma demo_not_production url : at_demo url → ¬ at_production url.
Proof. intros [[r ->]|[r ->]] [[r' E]|[r' E]]; by vm_compute in E. Qed.

(** A process that comes up connected was told to trade on the venue; whatever its threads then do, whatever is said
    to its writer and whatever the network answers, every address it has handed over, for a request or a socket,
    from its first call at boot on, is of the venue its environment names: of
    the real one if the environment says production, and otherwise of the demo
    one and none of the real one. *)
Lemma process_stays_put (env : Env) (disk : list byte → Dir) (locked : list byte → bool) (io : FlushIo)
    (fuel calls : nat) (now : Nanos) (n : N) (said : Command.t → Prop) (config : Settings)
    (sys0 sys : System (BinanceVenue N)) (t0 t : Thread) :
  run_process env disk locked io fuel calls now n = Ok (config, Connected sys0 t0) →
  live_reach said sys0 t0 sys t →
  names_binance env ∧
  ∃ urls, handed (bn_net (sys_venue sys)) = handed n ++ urls ∧
    (var env "SENTINEL_BINANCE_ENV" = Some (str "production") → Forall at_production urls) ∧
    (var env "SENTINEL_BINANCE_ENV" ≠ Some (str "production") →
      Forall (λ url, at_demo url ∧ ¬ at_production url) urls).
Proof.
  intros Hrun Hlive. unfold run_process in Hrun. bind_step Hrun r Hboot. destruct r as [cfg [d e]].
  apply boot_sound in Hboot as (Henv & _ & _).
  destruct (venue_config cfg) as [|k sec demo lev] eqn:Hv; [done|].
  destruct (open_venue k sec demo lev (instruments cfg) n) as [[v t1]|] eqn:Ho; [|done].
  injection Hrun as <- <- <-. apply open_venue_stays in Ho as (Hc & urls0 & Hu0 & Hf0).
  apply stays_live in Hlive as (_ & urls & Hu & Hf). cbn [sys_venue start] in Hu, Hf. rewrite Hc in Hf.
  assert (names_binance env ∧ (demo = false ↔ var env "SENTINEL_BINANCE_ENV" = Some (str "production"))) as [Hb Hd].
  { unfold from_env in Henv. bind_step Henv insts Hi. case_bool_decide; [done|].
    bind_step Henv vc Hvc. bind_step Henv cap Hcap. bind_step Henv tw Htw. injection Henv as <-.
    cbn [venue_config] in Hv. subst vc. apply venue_from_env_cases in Hvc. by destruct Hvc as (? & ? & _). }
  split; [done|]. exists (urls0 ++ urls). rewrite Hu, Hu0, app_assoc. split; [done|].
  assert (Forall (at_venue (credentials_for k sec demo)) (urls0 ++ urls)) as Hall by by apply Forall_app.
  destruct demo; (split; intros Hp; [|eapply Forall_impl; [exact Hall|]]); [|..].
  - by apply Hd in Hp.
  - intros url Hat. split; [exact Hat|by apply demo_not_production].
  - exact Hall.
  - by destruct Hp; apply Hd.
Qed.
End logged.
End process.

(** ** Values of their types *)

Section typed.
Context {J N : Type} `{JL : JsonLaws J} `{Client N} `{Socket N}.
Context (no_nul_text : ∀ (v : J) s, json_str v = Some s → Byte.x00 ∉ s).

(** What the threads beside the worker say: the ticker the time and that a sweep
    is due, the control socket what a line was parsed into. *)
Definition others_say (c : Command.t) : Prop :=
  (∃ now, u64_ok now ∧ c = Command.Tick now) ∨ c = Command.SweepStale ∨ ∃ line, control_parse line = Ok c.

Lemma others_say_wf c : others_say c → wf_command c.
Proof.
  intros [(now & Hn & ->)|[->|(line & Hl)]]; [done..|].
  destruct (json_parse line) as [v|e] eqn:Hv; [|unfold control_parse in Hl; by rewrite Hv in Hl].
  eapply (control_parse_sound line v c Hv); [|exact Hl].
  intros name s (w & _ & Hs)%bind_Some. by eapply no_nul_text.
Qed.

Definition holds_values {V} `{Venue V} (s : System V) : Prop :=
  wf_engine (sys_engine s) ∧ Forall wf_command (sys_commands s) ∧ Forall wf_request (sys_requests s) ∧
  ∀ c, c ∈ sys_commands s → ∃ ws rs, step (sys_engine s) ws rs (submit c (sys_engine s)).1 ∧
    Forall (λ w : Written, decode (rec_kind w.1.2) (encode w.1.2) = Ok w.1.2) ws.

Lemma typed_holds_values {V} `{TypedVenue V} (s : System V) : well_typed s → holds_values s.
Proof. intros Hs. pose proof Hs as []. split_and!; try done. intros c. by apply next_records. Qed.

#[local] Instance binance_typed_here : TypedVenue (BinanceVenue N) := binance_typed no_nul_text.

Lemma live_typed said s0 t0 s t :
  (∀ c, said c → wf_command c) → live_reach said s0 t0 s t → well_typed s0 → well_typed s.
Proof.
  intros Hsaid Hl Hw0. induction Hl as [|s s' t _ IH Hs|running s t v t' _ IH Ht]; [done|by eapply sys_step_typed|].
  destruct IH as [He Hc Hr Hv]. split; try done. cbn [sys_venue set_venue].
  pose proof (channel_turn no_nul_text running t (sys_venue s) Hv) as Hk. by rewrite Ht in Hk.
Qed.

Lemma open_venue_channel k sec demo lev l (n : N) v t :
  open_venue k sec demo lev l n = Ok (v, t) → channel_ok v.
Proof.
  unfold open_venue. destruct (connect _ l lev n) as [v1 [u|[e|]]]; [|done..]. intros [= <- _]. constructor.
Qed.

(** C16: from any bytes to values. Whatever a journal directory holds, a process that comes up over it,
    with the simulated venue or with Binance, holds nothing but values of their
    types from then on: however its threads interleave, whatever the network
    answers, whatever JSON arrives on the control socket and on the stream, as
    long as no string of it holds a NUL, and whatever any flush does. Its book, its pending questions and its queues are
    well typed, and whatever command the writer takes next, every record it
    appends decodes to itself. *)
Theorem process_well_typed (env : Env) (disk : list byte → Dir) (locked : list byte → bool) (io : FlushIo)
    (fuel calls : nat) (now : Nanos) (n : N) (config : Settings) (p : Process) :
  run_process env disk locked io fuel calls now n = Ok (config, p) →
  match p with
  | Simulated s0 => ∀ s, sys_reach others_say s0 s → holds_values s
  | Connected s0 t0 => ∀ s t, live_reach others_say s0 t0 s t → holds_values s
  end.
Proof.
  intros Hrun. unfold run_process in Hrun. bind_step Hrun r Hboot. destruct r as [cfg [d e]].
  apply boot_sound in Hboot as (Henv & _ & Hopen).
  apply engine_open_wf in Hopen; [|by eapply from_env_cap].
  destruct (venue_config cfg) as [|k sec demo lev].
  - injection Hrun as <- <-. intros s Hs. apply typed_holds_values.
    eapply sys_reach_typed; [apply others_say_wf|exact Hs|].
    split; [done|constructor|constructor|apply sim_new_ok].
  - bind_step Hrun vt Ho. destruct vt as [v t0]. injection Hrun as <- <-. intros s t Hs.
    apply typed_holds_values. eapply live_typed; [apply others_say_wf|exact Hs|].
    split; [done|constructor|constructor|by eapply open_venue_channel].
Qed.
End typed.

(** ** An example *)

#[local] Instance ex_process_client : Client (list (list byte)) := {|
  http _ rq n := (n ++ [rq_url rq], Body (str "answer"));
  local_ms n := (n, 1700000000000);
  build _ := None;
  hmac_sha256 key message := take 4 (rev message ++ key);
|}.

#[local] Instance ex_process_socket : Socket (list (list byte)) := {|
  ws_connect url n := (n ++ [url], Some (Ok tt));
  ws_read n := (n, Some (Ok Other));
  ws_pong _ n := (n, Some (Ok tt));
  instant n := (n, 0);
|}.

#[local] Instance ex_process_logged : Logged (N := list (list byte)).
Proof. by refine {| handed n := n |}. Defined.

#[local] Instance ex_process_json : Json Tree := clean_json
  [(str "answer", TObj
     [(str "serverTime", TInt 1700000000250); (str "listenKey", TStr (str "pqia"));
      (str "symbols", TArr [TObj [(str "symbol", TStr (str "BTCUSDT"));
        (str "filters", TArr [TObj [(str "filterType", TStr (str "LOT_SIZE")); (str "stepSize", TStr (str "0.001"))]])]])]);
   (ex_order_line, TObj ex_fields)].

(** The venue is named, production is not. *)
Definition ex_demo_env : Env := λ name,
  snd <$> find (λ kv : list byte * list byte, bool_decide (kv.1 = name))
    [(str "SENTINEL_VENUE", str "binance"); (str "BINANCE_API_KEY", str "key");
     (str "BINANCE_API_SECRET", str "hidden"); (str "SENTINEL_BINANCE_ENV", str "prod")].

Definition ex_process : option (Settings * (System (BinanceVenue (list (list byte))) * Thread)) :=
  match run_process ex_demo_env (λ _, []) (λ _, false) IoOk 100 100 1000 [] with
  | Ok (config, Connected s t) => Some (config, (s, t))
  | _ => None
  end.

(** The system as it starts, and after one turn of the stream's thread. *)
Definition ex_started : System (BinanceVenue (list (list byte))) * Thread :=
  match ex_process with Some (_, p) => p | None => (start ex_engine (bn_new (credentials_demo [] []) [] []), Finished) end.

Definition ex_turned : BinanceVenue (list (list byte)) := (thread_turn true ex_started.2 (sys_venue ex_started.1)).1.

(** The same process after a line of its control socket. *)
Lemma process_well_typed_witness :
  let sys := send_commands [Command.Place ex_control_intent] (set_venue ex_turned ex_started.1) in
  sys_commands sys = [Command.Place ex_control_intent] ∧ holds_values sys.
Proof.
  intros sys. split; [vm_compute; reflexivity|].
  apply (process_well_typed (JL := clean_json_laws _) (clean_json_no_nul _) ex_demo_env (λ _, []) (λ _, false)
           IoOk 100 100 1000 [] (unwrap_or (from_env ex_demo_env) ex_settings) (Connected ex_started.1 ex_started.2))
    with (t := Reading RECONNECT_BACKOFF 0).
  - vm_compute. reflexivity.
  - apply live_system with (s := set_venue ex_turned ex_started.1).
    + apply (live_stream _ _ _ true ex_started.1 ex_started.2); [constructor|]. vm_compute. reflexivity.
    + apply ss_send; [|vm_compute; reflexivity]. right. right. exists ex_order_line. vm_compute. reflexivity.
Defined.
