(* ===== verification/Main.v ===== *)
(** * The program (sentineld/src/main.rs, sentineld/src/control.rs)

    [main] from its first line to its last: what it prints and in which order,
    what it refuses to start on and what it says then, the control socket it
    opens last, the wait for a signal and the exit status. The boot of it is
    the boot of Process.v, so what that file proves of a running process holds
    of the program; what a run prints is kept also when the run fails. *)

From S2P Require Import Prelude Fixed Text Types Json Domain Intent Position Format Codec Records Segment Journal Tailer Book Invariants Venue Symbol Signing VenueParse Binance Adapter Stream Sim Guards Engine Trace Safety Runtime WellFormed Control Answers Config Errors Replay Open Boot Typed Process.

(** How a run of [main] ends short: a message for the operator, or a panic; the
    fuel is the model's. *)
Inductive Stop := Message (m : list byte) | Panics | NoFuel.

(** What the operating system answers: the text of a failed call of the journal,
    the threads, the socket, and the registration of each signal. *)
Record Os := mkOs {
  os_says : string → list byte;
  os_threads : result (list byte) unit;
  os_socket : result (list byte) unit;
  os_sigterm : result (list byte) unit;
  os_sigint : result (list byte) unit;
}.

(** A run so far is the lines it has printed. *)
Abbreviation Console := (list (list byte)).
Abbreviation CM := (ST Console Stop).

Definition println (line : list byte) : CM unit := st_modify (λ out, out ++ [str "sentineld: " ++ line]).

Definition or_message {E A} (to_text : E → list byte) (m : result E A) : CM A :=
  st_lift (map_err (λ e, Message (to_text e)) m).

Section main.
Context {J N : Type} `{Json J} `{Client N} `{Socket N}.
Context (os : Os).

(** [Display] of what [Engine::open] fails with. *)
Definition open_stop (dir : list byte) (e : OpenFailure) : Stop :=
  match e with
  | OpenError e =>
      match engine_error_to_string dir (os_says os) e with
      | Some text => Message (str "cannot claim " ++ dir ++ str ": " ++ text)
      | None => Panics
      end
  | OpenOutOfFuel => NoFuel
  end.

Definition LIVE_MONEY : list byte := str "LIVE MONEY — orders placed here can lose real funds".

Definition resumed_line (e : Engine) : list byte :=
  str "epoch " ++ dec (j_epoch (journal e)) ++ str ", resumed at seq " ++ dec (b_last_seq (book e)) ++ str ", " ++
  dec (Z.of_nat (length (orders (book e)))) ++ str " orders, " ++ dec (Z.of_nat (fill_count (book e))) ++
  str " fills" ++ (if e_halted e then str ", HALTED" else []).

Definition loaded_line (v : BinanceVenue N) : list byte :=
  dec (Z.of_nat (size (bn_symbols v))) ++ str " symbols loaded, clock offset " ++
  dec_signed (bn_offset v) ++ str "ms, stream up".

(** Claim, rebuild and audit. *)
Definition main_engine (disk : list byte → Dir) (locked : list byte → bool) (io : FlushIo)
    (fuel calls : nat) (now : Nanos) (config : Settings) : CM Engine :=
  let dir := journal_dir config in
  engine ← st_lift (map_err (open_stop dir)
             (engine_open (locked dir) io fuel calls (disk dir) now (engine_config config)).2);
  let report := check (book engine) in
  _ ← (if negb (holds report) then
         st_fail (Message (str "the rebuilt book is unsound: " ++ report_to_string report))
       else mret tt);
  _ ← println (resumed_line engine);
  mret engine.

(** Connect and start. *)
Definition main_threads (config : Settings) (engine : Engine) (n : N) : CM Process :=
  match venue_config config with
  | Simulator =>
      _ ← println (str "simulator — nothing here reaches a venue");
      _ ← or_message id (os_threads os);
      mret (Simulated (start engine sim_new))
  | Config.Binance api_key secret demo leverage =>
      '(v, t) ← st_lift
        (match connect (credentials_for api_key secret demo) (instruments config) leverage n with
         | (v, Ok _) => Ok (spawn v)
         | (_, Err (VenueErr e)) => Err (Message (str "cannot reach the venue: " ++ venue_error_to_string e))
         | (_, Err VenuePanic) => Err Panics
         end);
      _ ← println (loaded_line v);
      _ ← or_message id (os_threads os);
      mret (Connected (start engine v) t)
  end.

(** [run], up to the wait. *)
Definition main_boot (env : Env) (disk : list byte → Dir) (locked : list byte → bool) (io : FlushIo)
    (fuel calls : nat) (now : Nanos) (n : N) : CM (Settings * Process) :=
  config ← or_message config_error_to_string (from_env env);
  _ ← println (describe config);
  _ ← (if is_live_money config then println LIVE_MONEY else mret tt);
  engine ← main_engine disk locked io fuel calls now config;
  process ← main_threads config engine n;
  _ ← or_message (λ e, str "cannot open the control socket: " ++ e) (os_socket os);
  _ ← or_message (λ e, str "cannot handle signal 15: " ++ e) (os_sigterm os);
  _ ← or_message (λ e, str "cannot handle signal 2: " ++ e) (os_sigint os);
  _ ← println (str "running, control on " ++ socket_path (journal_dir config));
  mret (config, process).

(** The wait: the flags as each look finds them, the runtime's own and the one a
    signal sets. [Some rest] are the looks not taken. *)
Fixpoint wait (looks : list (bool * bool)) : option (list (bool * bool)) :=
  match looks with
  | [] => None
  | (is_running, terminate) :: looks' => if is_running && negb terminate then wait looks' else Some looks'
  end.

(** [handle.stop()]. *)
Definition stop_process (p : @Process N) : @Process N :=
  match p with
  | Simulated s => Simulated (stop s)
  | Connected s t => Connected (stop s) t
  end.

(** The whole of [run]: the process booted is stopped once a look ends the wait.
    In between its threads take the steps of Runtime.v. *)
Definition main_run (env : Env) (disk : list byte → Dir) (locked : list byte → bool) (io : FlushIo)
    (fuel calls : nat) (now : Nanos) (n : N) (threads : @Process N → @Process N)
    (looks : list (bool * bool)) : CM (@Process N) :=
  '(_, p) ← main_boot env disk locked io fuel calls now n;
  match wait looks with
  | None => st_fail NoFuel
  | Some _ =>
      let p := stop_process (threads p) in
      _ ← println (str "stopped");
      mret p
  end.

(** [main]: what is on the standard output, on the standard error, and whether
    the process succeeds. *)
Definition main (r : Console * result Stop (@Process N)) : Console * Console * bool :=
  match r with
  | (out, Ok _) => (out, [], true)
  | (out, Err (Message m)) => (out, [str "sentineld: " ++ m], false)
  | (out, Err _) => (out, [], false)
  end.

(** ** The control socket ([control::serve]) *)

(** What a turn of the accepting loop finds: a connection with its lines, nobody,
    or a listener that is gone. *)
Inductive Accepted := Connection (lines : list Line) | NobodyYet | ListenerGone.

(** The turns, each with the runtime's flag as it is read before it: the answers
    written and the commands handed to the writer. *)
Fixpoint serve_loop (turns : list (bool * Accepted)) : list (list byte) * list Command.t :=
  match turns with
  | [] => ([], [])
  | (false, _) :: _ => ([], [])
  | (true, ListenerGone) :: _ => ([], [])
  | (true, NobodyYet) :: turns' => serve_loop turns'
  | (true, Connection lines) :: turns' =>
      let '(a, c) := handle lines in
      let '(a', c') := serve_loop turns' in
      (a ++ a', c ++ c')
  end.
End main.

(** ** What a run that comes up has done and said *)

Section boot.
Context {J N : Type} `{Json J} `{Client N} `{Socket N}.
Context (os : Os).

Definition printed (line : list byte) : list byte := str "sentineld: " ++ line.

Lemma println_Ok line out out' u :
  println line out = (out', Ok u) → out' = out ++ [printed line].
Proof. by intros [= <-]. Qed.

Lemma or_message_Ok {E A} (t : E → list byte) (m : result E A) out out' a :
  or_message t m out = (out', Ok a) → out' = out ∧ m = Ok a.
Proof. unfold or_message, st_lift. destruct m; [|done]. by intros [= <- <-]. Qed.

(** Sound, and the next line says where the log was taken up. *)
Lemma main_engine_Ok disk locked io fuel calls now config out out' e :
  main_engine os disk locked io fuel calls now config out = (out', Ok e) →
  out' = out ++ [printed (resumed_line e)] ∧ holds (check (book e)) = true ∧
  (engine_open (locked (journal_dir config)) io fuel calls (disk (journal_dir config)) now
     (engine_config config)).2 = Ok e.
Proof.
  unfold main_engine. intros Hr. apply st_bind_Ok in Hr as (out1 & e1 & Hs1 & Hr).
  apply st_lift_Ok in Hs1 as [-> Hs1%map_err_is_Ok]. cbv zeta in Hr.
  apply st_bind_Ok in Hr as (out2 & [] & Hs2 & Hr). destruct (holds (check (book e1))) eqn:Hh; [|done].
  injection Hs2 as <-. apply st_bind_Ok in Hr as (out3 & [] & Hs3 & Hr). apply println_Ok in Hs3 as ->.
  by injection Hr as <- <-.
Qed.

(** The lines printed so far stay. *)
Lemma main_threads_Ok config e (n : N) out out' p :
  main_threads os config e n out = (out', Ok p) →
  (∃ rest, out' = out ++ rest) ∧
  match venue_config config with
  | Simulator => p = Simulated (start e sim_new)
  | Config.Binance k sec demo lev =>
      ∃ v t, open_venue k sec demo lev (instruments config) n = Ok (v, t) ∧ p = Connected (start e v) t
  end.
Proof.
  unfold main_threads. destruct (venue_config config) as [|k sec demo lev]; intros Hr.
  - apply st_bind_Ok in Hr as (out1 & [] & Hs1 & Hr). apply println_Ok in Hs1 as ->.
    apply st_bind_Ok in Hr as (out2 & [] & Hs2 & Hr). apply or_message_Ok in Hs2 as [-> _].
    injection Hr as <- <-. split; [by eexists|done].
  - apply st_bind_Ok in Hr as (out1 & [v t] & Hs1 & Hr). apply st_lift_Ok in Hs1 as [-> Hs1].
    apply st_bind_Ok in Hr as (out2 & [] & Hs2 & Hr). apply println_Ok in Hs2 as ->.
    apply st_bind_Ok in Hr as (out3 & [] & Hs3 & Hr). apply or_message_Ok in Hs3 as [-> _].
    injection Hr as <- <-. split; [by eexists|]. exists v, t. split; [|done].
    unfold open_venue. destruct (connect _ _ _ _) as [v1 [u|[e1|]]]; [|done..]. injection Hs1 as <- <-. done.
Qed.

(** A program that comes up is the process of Process.v. *)
Lemma main_boot_Ok env disk locked io fuel calls now (n : N) out config p :
  main_boot os env disk locked io fuel calls now n [] = (out, Ok (config, p)) →
  run_process env disk locked io fuel calls now n = Ok (config, p) ∧ from_env env = Ok config.
Proof.
  unfold main_boot. intros Hr. apply st_bind_Ok in Hr as (o1 & cfg & Hs1 & Hr).
  apply or_message_Ok in Hs1 as [-> Henv].
  apply st_bind_Ok in Hr as (o2 & [] & _ & Hr). apply st_bind_Ok in Hr as (o3 & [] & _ & Hr).
  apply st_bind_Ok in Hr as (o4 & e & Hs4 & Hr). apply main_engine_Ok in Hs4 as (_ & Hh & Ho).
  apply st_bind_Ok in Hr as (o5 & q & Hs5 & Hr). apply main_threads_Ok in Hs5 as [_ Hq].
  do 3 (apply st_bind_Ok in Hr as (? & [] & _ & Hr)).
  apply st_bind_Ok in Hr as (o6 & [] & _ & Hr). injection Hr as _ <- <-.
  split; [|done]. unfold run_process, boot. rewrite Henv. cbn [map_err mbind result_bind]. cbv zeta.
  destruct (engine_open _ _ _ _ _ _ _) as [d r]. cbn [snd] in Ho. subst r.
  cbn [map_err mbind result_bind]. rewrite Hh. cbn [negb map_err mbind result_bind].
  destruct (venue_config cfg) as [|k sec demo lev]; [by subst q|].
  destruct Hq as (v & t & -> & ->). done.
Qed.

Lemma st_bind_step {A B} (m : CM A) (f : A → CM B) out out' a :
  m out = (out', Ok a) → (m ≫= f) out = f a out'.
Proof. intros E. unfold mbind, ST_bind. by rewrite E. Qed.

(** Lines printed stay printed, whatever comes of the run. *)
Definition printing {A} (m : CM A) : Prop := ∀ out, ∃ rest, (m out).1 = out ++ rest.

Lemma printing_bind {A B} (m : CM A) (f : A → CM B) :
  printing m → (∀ a, printing (f a)) → printing (m ≫= f).
Proof.
  intros Hm Hf out. destruct (Hm out) as [r1 E1]. unfold mbind, ST_bind.
  destruct (m out) as [o1 [a|e]]; cbn [fst] in *; subst o1; [|by eexists].
  destruct (Hf a (out ++ r1)) as [r2 ->]. rewrite <-app_assoc. by eexists.
Qed.

Lemma printing_same {A} (m : CM A) : (∀ out, (m out).1 = out) → printing m.
Proof. intros Hm out. exists []. by rewrite Hm, app_nil_r. Qed.

Lemma printing_println line : printing (println line).
Proof. intros out. by eexists. Qed.

Lemma printing_or_message {E A} (t : E → list byte) (m : result E A) : printing (or_message t m).
Proof. by apply printing_same. Qed.

Ltac printing := repeat first
  [ apply printing_println | apply printing_or_message | by apply printing_same
  | apply printing_bind; [|intros] | case_match ].

Lemma printing_threads config e (n : N) : printing (main_threads os config e n).
Proof. unfold main_threads. printing. Qed.

(** The first line after what a run has printed is where the log was taken up, if
    there is one. *)
Lemma main_engine_lines disk locked io fuel calls now config out :
  (∃ e, main_engine os disk locked io fuel calls now config out = (out, Err e)) ∨
  ∃ e, main_engine os disk locked io fuel calls now config out = (out ++ [printed (resumed_line e)], Ok e).
Proof.
  unfold main_engine, mbind, ST_bind, st_lift. cbv zeta.
  destruct (map_err _ _) as [e|e]; [|by left; eexists]. destruct (holds _); [|by left; eexists]. right. by exists e.
Qed.

(** Whatever the disk, the lock and the network: the description, then the
    warning when there is one to give, then nothing or where the log was taken up. *)
Lemma main_boot_lines env disk locked io fuel calls now (n : N) config :
  from_env env = Ok config →
  ∃ rest, (main_boot os env disk locked io fuel calls now n []).1 =
      [printed (describe config)] ++ (if is_live_money config then [printed LIVE_MONEY] else []) ++ rest ∧
    (rest = [] ∨ ∃ e rest', rest = printed (resumed_line e) :: rest').
Proof.
  intros Henv. unfold main_boot.
  rewrite (st_bind_step _ _ [] [] config) by (unfold or_message, st_lift; by rewrite Henv).
  rewrite (st_bind_step _ _ _ [printed (describe config)] tt) by done.
  rewrite (st_bind_step _ _ _ ([printed (describe config)] ++
    if is_live_money config then [printed LIVE_MONEY] else []) tt) by by destruct (is_live_money config).
  match goal with |- context [main_engine _ _ _ _ _ _ _ _ ≫= ?k] => set (after := k) end.
  assert (∀ e, printing (after e)) as Hafter by (intros e; unfold after; printing; apply printing_threads).
  destruct (main_engine_lines disk locked io fuel calls now config ([printed (describe config)] ++
    if is_live_money config then [printed LIVE_MONEY] else [])) as [[e He]|[e He]].
  - exists []. unfold mbind, ST_bind. rewrite He, app_nil_r. by split; [|left].
  - rewrite (st_bind_step _ _ _ _ _ He). edestruct (Hafter e) as [rest Hr]. rewrite Hr.
    exists (printed (resumed_line e) :: rest). rewrite <-!app_assoc. split; [done|right; eauto].
Qed.

(** The second line is the warning or something else. *)
Lemma second_line config rest :
  rest = [] ∨ (∃ e rest', rest = printed (resumed_line e) :: rest') →
  ([printed (describe config)] ++ (if is_live_money config then [printed LIVE_MONEY] else []) ++ rest) !! 1%nat =
    Some (printed LIVE_MONEY) ↔ is_live_money config = true.
Proof.
  intros Hrest. destruct (is_live_money config); [done|]. split; [|done].
  destruct Hrest as [->|(e & rest' & ->)]; [done|]. cbn [app lookup list_lookup]. intros [=].
Qed.
End boot.

(** The wait is over exactly when a look finds the runtime stopped or a signal. *)
Lemma wait_ends looks :
  is_Some (wait looks) ↔ Exists (λ l : bool * bool, l.1 = false ∨ l.2 = true) looks.
Proof.
  induction looks as [|[r t] looks IH]; cbn [wait].
  - split; [by intros []|by intros Hn%Exists_nil].
  - rewrite Exists_cons, <-IH. destruct r, t; cbn; naive_solver.
Qed.

(** ** Property *)

Section money.
Context {J N : Type} `{Json J} `{Client N} `{Socket N} `{!Logged (N := N)}.

(** C13: real money is only ever touched by a program told to, and that has said so. A program that
    comes up connected was told to trade on the venue; whatever its threads then
    do, whatever is said to its writer and whatever the network answers, every
    address it has handed to its HTTP client or its socket library, from its
    first call at boot on, is of the venue its environment names: of the real
    one if the environment says production, and otherwise of the demo one and
    none of the real one (a redirect these libraries follow is theirs). And a
    program with that environment, whatever becomes of it, prints its
    description and then, exactly when it is the real one, the warning of live
    money: also when its journal cannot be opened or no venue answers, since no
    disk, no lock and no network can change these lines. *)
Theorem money_stays_put (os : Os) (env : Env) (disk : list byte → Dir) (locked : list byte → bool) (io : FlushIo)
    (fuel calls : nat) (now : Nanos) (n : N) (said : Command.t → Prop) (config : Settings) (out : Console)
    (sys0 sys : System (BinanceVenue N)) (t0 t : Thread) :
  main_boot os env disk locked io fuel calls now n [] = (out, Ok (config, Connected sys0 t0)) →
  live_reach said sys0 t0 sys t →
  names_binance env ∧
  (∀ disk' locked' io' fuel' calls' now' (n' : N), ∃ rest,
    let lines := (main_boot os env disk' locked' io' fuel' calls' now' n' []).1 in
    lines = printed (describe config) :: rest ∧
    (lines !! 1%nat = Some (printed LIVE_MONEY) ↔ var env "SENTINEL_BINANCE_ENV" = Some (str "production"))) ∧
  ∃ urls, handed (bn_net (sys_venue sys)) = handed n ++ urls ∧
    (var env "SENTINEL_BINANCE_ENV" = Some (str "production") → Forall at_production urls) ∧
    (var env "SENTINEL_BINANCE_ENV" ≠ Some (str "production") →
      Forall (λ url, at_demo url ∧ ¬ at_production url) urls).
Proof.
  intros Hb Hl. apply main_boot_Ok in Hb as [Hrun Henv].
  destruct (process_stays_put env disk locked io fuel calls now n said config sys0 sys t0 t Hrun Hl) as [Hn Hu].
  split_and!; [done| |done]. intros disk' locked' io' fuel' calls' now' n'.
  destruct (main_boot_lines os env disk' locked' io' fuel' calls' now' n' config Henv) as (rest & -> & Hrest).
  eexists. cbv zeta. split; [done|]. rewrite second_line, (is_live_money_iff env config Henv) by done. tauto.
Qed.
End money.

(** ** An example *)

#[local] Existing Instances ex_process_client ex_process_socket ex_process_logged ex_process_json.

Definition ex_os : Os := mkOs (λ _, str "no such file or directory") (Ok tt) (Ok tt) (Ok tt) (Ok tt).

Definition ex_main (env : Env) : Console * result Stop (Settings * @Process (list (list byte))) :=
  main_boot ex_os env (λ _, []) (λ _, false) IoOk 100 100 1000 [] [].

(** The console of the demo process of Process.v, and of the same under production. *)
Example ex_demo_console :
  (ex_main ex_demo_env).1 =
    [str "sentineld: binance futures demo, BTCUSDT, journal /data/journal";
     str "sentineld: epoch 1, resumed at seq 1, 0 orders, 0 fills";
     str "sentineld: 1 symbols loaded, clock offset 250ms, stream up";
     str "sentineld: running, control on /data/journal/control.sock"].
Proof. vm_compute. reflexivity. Qed.

Definition ex_live_env : Env := λ name,
  if bool_decide (name = str "SENTINEL_BINANCE_ENV") then Some (str "production") else ex_demo_env name.

Example ex_live_console : (ex_main ex_live_env).1 !! 1%nat = Some (printed LIVE_MONEY).
Proof. vm_compute. reflexivity. Qed.

(** A port nobody can bind: everything is up, and the process refuses to run. *)
Example ex_no_socket :
  main (N := list (list byte)) (match main_boot (mkOs (os_says ex_os) (Ok tt) (Err (str "address in use")) (Ok tt) (Ok tt))
    (λ _, None) (λ _, []) (λ _, false) IoOk 100 100 1000 [] [] with
    | (out, Ok (_, p)) => (out, Ok p) | (out, Err e) => (out, Err e) end) =
  ([str "sentineld: simulator, BTCUSDT, journal /data/journal";
    str "sentineld: epoch 1, resumed at seq 1, 0 orders, 0 fills";
    str "sentineld: simulator — nothing here reaches a venue"],
   [str "sentineld: cannot open the control socket: address in use"], false).
Proof. vm_compute. reflexivity. Qed.

Lemma money_stays_put_witness :
  let sys := set_venue ex_turned ex_started.1 in
  length (handed (bn_net (sys_venue sys))) = 9%nat ∧
  names_binance ex_demo_env ∧
  (∀ disk' locked' io' fuel' calls' now' n', ∃ rest,
    let lines := (main_boot ex_os ex_demo_env disk' locked' io' fuel' calls' now' n' []).1 in
    lines = printed (describe (unwrap_or (from_env ex_demo_env) ex_settings)) :: rest ∧
    (lines !! 1%nat = Some (printed LIVE_MONEY) ↔ var ex_demo_env "SENTINEL_BINANCE_ENV" = Some (str "production"))) ∧
  ∃ urls, handed (bn_net (sys_venue sys)) = handed [] ++ urls ∧
    (var ex_demo_env "SENTINEL_BINANCE_ENV" = Some (str "production") → Forall at_production urls) ∧
    (var ex_demo_env "SENTINEL_BINANCE_ENV" ≠ Some (str "production") →
      Forall (λ url, at_demo url ∧ ¬ at_production url) urls).
Proof.
  intros sys. split; [vm_compute; reflexivity|].
  apply (money_stays_put ex_os ex_demo_env (λ _, []) (λ _, false) IoOk 100 100 1000 [] command_clock
           (unwrap_or (from_env ex_demo_env) ex_settings) (ex_main ex_demo_env).1 ex_started.1 sys ex_started.2
           (Reading RECONNECT_BACKOFF 0)).
  - vm_compute. reflexivity.
  - apply (live_stream _ _ _ true ex_started.1 ex_started.2); [constructor|]. vm_compute. reflexivity.
Defined.
