(* ===== verification/Reconcile.v ===== *)
(** * Reconciliation (sentinel-engine/src/engine.rs)

    How the engine gets back to the truth: what an answered lookup leaves in the
    book, when an unanswered one is asked again, and what a position report the
    book disagrees with leads to. *)

From S2P Require Import Prelude Fixed Types Domain Intent Position Format Records Segment Journal Book Invariants Venue Guards Engine Trace Safety.

(** ** What one write does *)

(** Everything of an engine but its journal and its book. *)
Definition frame_same (e e' : Engine) : Prop :=
  config e' = config e ∧ reconciling e' = reconciling e ∧ e_halted e' = e_halted e ∧
  position_confirmed e' = position_confirmed e.

(** What a book says of orders and money. *)
Definition facts (b : Book) :
    gmap ClientOrderId Order * gmap ExecId Fill * gmap Instrument Position :=
  (b_orders b, b_fills b, b_positions b).

Lemma frame_same_trans e1 e2 e3 : frame_same e1 e2 → frame_same e2 e3 → frame_same e1 e3.
Proof. intros (?&?&?&?) (?&?&?&?). split_and!; congruence. Qed.

Lemma write_applies r e e' a :
  write r e = (e', Ok a) →
  frame_same e e' ∧ uncommitted e' = uncommitted e ∧
  ∃ h, apply h r (book e) = (book e', Ok a).
Proof.
  unfold write, st_get, mbind, ST_bind. intros H.
  apply write_at_cases in H as [[_ [je ?]]|(j1 & seq & b1 & ares & _ & Hb & -> & Hres)]; [done|].
  destruct ares as [x|]; [|done]. injection Hres as ->. split; [by split_and!|]. split; [done|]. eauto.
Qed.

Lemma write_event_applies c t ev e e' a :
  write_event c t ev e = (e', Ok a) →
  frame_same e e' ∧ uncommitted e' = uncommitted e ∧
  ∃ o h ts, order (book e) c = Some o ∧
    apply_order_event h c (state (core o)) ts ev (stamp h (book e)) = (book e', Ok a).
Proof.
  unfold write_event, st_get, mbind, ST_bind. cbv zeta. intros H.
  apply write_applies in H as (Hs & Hu & h & H). split; [done|]. split; [done|].
  change (apply h (Rec.OrderEvent ?c ?t ?fs ?ts ?ap ?ev) (book e))
    with (apply_order_event h c fs ts ev (stamp h (book e))) in H.
  destruct (order (book e) c) as [o|] eqn:Ho.
  - exists o, h. cbn [fmap option_fmap option_map] in H. eauto.
  - exfalso. unfold apply_order_event, st_get, st_lift, mbind, ST_bind, id in H.
    unfold order in Ho. cbn [b_orders stamp] in H. by rewrite Ho in H.
Qed.

(** An event that is not a fill and that no state can only take as evidence. *)
Definition concludes (ev : OrderEvent) : Prop :=
  match ev with
  | ReconcileStarted _ | ReconcileResolved _ _ _ => True
  | _ => False
  end.

Lemma concludes_not_evidence o ev err :
  concludes ev → transition o ev = Err err → needs_reconciliation err = false.
Proof.
  destruct ev; intros Hc H; try done; unfold transition, guard, mbind, result_bind in H;
    repeat (case_match; simplify_eq/=; try done).
  all: match goal with E : gross_ceiling _ = Err _ |- _ => by apply gross_ceiling_Err in E as -> end.
Qed.

(** The move such an event makes, when its write succeeds. *)
Lemma write_event_moves c t ev e e' a :
  concludes ev → write_event c t ev e = (e', Ok a) →
  frame_same e e' ∧ uncommitted e' = uncommitted e ∧
  ∃ o next ev', order (book e) c = Some o ∧ transition (core o) ev = Ok next ∧
    b_orders (book e') = <[c := set_core next ev' o]> (b_orders (book e)) ∧
    b_fills (book e') = b_fills (book e) ∧ b_positions (book e') = b_positions (book e) ∧
    b_marks (book e') = b_marks (book e).
Proof.
  intros Hc H. apply write_event_applies in H as (Hs & Hu & o & h & ts & Ho & H).
  split; [done|]. split; [done|].
  assert (a = Changed) as ->.
  { unfold apply_order_event in H. unfold order in Ho.
    unfold st_get, st_lift, st_modify, st_fail, mbind, ST_bind, mret, ST_ret, id in H.
    cbn [b_orders stamp] in H. rewrite Ho in H. cbn [ok_or] in H.
    destruct ev; try done; rewrite bool_decide_eq_true_2 in H by done; cbn [negb] in H;
      destruct (transition _ _) as [next|err] eqn:Ht;
      try (rewrite (concludes_not_evidence _ _ _ Hc Ht) in H; done);
      case_bool_in H; simpl in H; simplify_eq; done. }
  apply apply_order_event_Changed in H as (o' & next & Ho' & _ & Ht & _ & H).
  unfold order in Ho. cbn [b_orders stamp] in Ho'. rewrite Ho in Ho'. injection Ho' as <-.
  exists o, next, (if is_venue_evidence ev then Some (fh_nanos h) else None).
  destruct ev; try done; by rewrite H.
Qed.

Lemma decide_same i ac k t v n e e' :
  decide i ac k t v n e = (e', Ok tt) →
  frame_same e e' ∧ uncommitted e' = uncommitted e ∧ facts (book e') = facts (book e) ∧
  b_marks (book e') = b_marks (book e).
Proof.
  unfold decide. intros H. apply st_bind_Ok in H as (e1 & a & H & H1).
  apply st_ret_Ok in H1 as [-> _].
  apply write_applies in H as (Hs & Hu & h & H). split; [done|]. split; [done|].
  unfold apply, st_modify, mbind, ST_bind, mret, ST_ret in H. 
  destruct k; by injection H as <- _.
Qed.

(** ** The executions of one order *)

(** What the book has booked for an order. *)
Definition fill_of (c : ClientOrderId) (f : Fill) : Z :=
  if bool_decide (f_client_order_id f = c) then raw (f_qty f) else 0.
Definition booked (b : Book) (c : ClientOrderId) : Z := map_zsum (fill_of c) (b_fills b).

Lemma booked_fills_for b c : zsum (raw ∘ f_qty <$> fills_for b c) = booked b c.
Proof.
  unfold booked, map_zsum, fills_for.
  rewrite (zsum_perm (fill_of c ∘ snd <$> map_to_list (b_fills b)) (fill_of c <$> all_fills b))
    by (by rewrite all_fills_perm, <-list_fmap_compose).
  induction (all_fills b) as [|f l IH]; [done|]. rewrite filter_cons. cbn [fmap list_fmap zsum foldr].
  unfold fill_of at 1. case_decide; [rewrite bool_decide_eq_true_2 by done|rewrite bool_decide_eq_false_2 by done].
  - cbn [fmap list_fmap zsum foldr]. unfold zsum in IH. simpl in IH |- *. lia.
  - unfold zsum in *. simpl in IH |- *. lia.
Qed.

(** The code's own sum is that figure, as long as it can be written down. *)
Lemma sum_exact l : ∀ z : Qty,
  0 ≤ raw z → Forall (λ f, 0 ≤ raw (f_qty f)) l →
  raw z + zsum (raw ∘ f_qty <$> l) ≤ i64_max →
  raw (foldl (λ sum f, unwrap_or (checked_add sum (f_qty f)) sum) z l) =
    raw z + zsum (raw ∘ f_qty <$> l).
Proof.
  induction l as [|f l IH]; intros z Hz Hl Hb; [simpl; lia|].
  apply Forall_cons in Hl as [Hf Hl]. cbn [fmap list_fmap zsum foldr foldl] in *.
  assert (0 ≤ zsum (raw ∘ f_qty <$> l)) by (apply zsum_nonneg, Forall_fmap; exact Hl).
  unfold zsum in *. simpl in Hb.
  assert (checked_add z (f_qty f) = Ok (from_raw (raw z + raw (f_qty f)))) as E.
  { apply checked_add_Ok. split; [done|]. unfold_ranges. lia. }
  rewrite E. cbn [unwrap_or]. rewrite IH; simpl; try done; lia.
Qed.

Lemma ours_booked b c :
  (∀ x f, b_fills b !! x = Some f → 0 ≤ raw (f_qty f)) → booked b c ≤ i64_max →
  raw (foldl (λ sum f, unwrap_or (checked_add sum (f_qty f)) sum) (ZERO : Qty) (fills_for b c)) =
    booked b c.
Proof.
  intros Hf Hb.
  rewrite sum_exact; [by rewrite booked_fills_for|simpl; lia| |by rewrite booked_fills_for].
  apply Forall_forall. intros f Hin. unfold fills_for in Hin.
  apply list_elem_of_filter in Hin as [_ Hin]. rewrite all_fills_perm in Hin.
  apply list_elem_of_fmap in Hin as ([x f'] & -> & Hin). apply elem_of_map_to_list in Hin. eauto.
Qed.

Lemma booked_insert b c x f :
  b_fills b !! x = None →
  map_zsum (fill_of c) (<[x := f]> (b_fills b)) = fill_of c f + booked b c.
Proof. apply map_zsum_insert. Qed.

(** ** The steps of a resolution *)

(** An order under reconciliation. *)
Definition under_reconciliation (e : Engine) (c : ClientOrderId) : Prop :=
  ∃ o, order (book e) c = Some o ∧ state (core o) = Reconciling.

Lemma facts_order b b' c : facts b' = facts b → order b' c = order b c.
Proof. unfold facts, order. intros E. congruence. Qed.

Lemma facts_booked b b' c : facts b' = facts b → booked b' c = booked b c.
Proof. unfold facts, booked. intros E. congruence. Qed.

Lemma fill_in_reconciling o q k err :
  state o = Reconciling → apply_fill o q k = Err err → needs_reconciliation err = false.
Proof.
  intros Hs. unfold apply_fill. rewrite Hs.
  cbn -[checked_add gross_ceiling is_positive ltb leb min map_err].
  unfold guard, mbind, result_bind. intros H.
  destruct (negb (is_positive q)); [by injection H as <-|].
  destruct (checked_add _ _); cbn [map_err] in H; [|by injection H as <-].
  destruct (gross_ceiling _) eqn:Eg; [|injection H as <-; by apply gross_ceiling_Err in Eg as ->].
  destruct (ltb _ _); [by injection H as <-|]. by destruct (bool_decide _) eqn:Eb in H; simpl in H.
Qed.

Lemma fill_books c t x q p e e' a :
  under_reconciliation e c → fill (book e) x = None →
  write_event c t (FillReceived x q p) e = (e', Ok a) →
  frame_same e e' ∧ under_reconciliation e' c ∧ booked (book e') c = booked (book e) c + raw q ∧
  ∃ o, order (book e) c = Some o ∧ 0 < raw q ∧
    position_apply_fill (side (core o)) q p (position (book e) (instrument (core o))) =
      (position (book e') (instrument (core o)), Ok tt) ∧
    ∀ i, i ≠ instrument (core o) → position (book e') i = position (book e) i.
Proof.
  intros (o & Ho & Hst) Hx H. apply write_event_applies in H as (Hs & _ & o1 & h & ts & Ho1 & H).
  rewrite Ho in Ho1. injection Ho1 as <-. split; [done|].
  assert (a = Changed) as ->.
  { unfold apply_order_event in H. unfold order, fill in *.
    unfold st_get, st_lift, st_modify, st_fail, mbind, ST_bind, mret, ST_ret, id in H.
    cbn [b_orders b_fills stamp] in H. rewrite Ho in H. cbn [ok_or] in H. rewrite Hx in H.
    rewrite bool_decide_eq_false_2 in H by (by intros []).
    rewrite bool_decide_eq_true_2 in H by done. cbn [negb] in H.
    change (transition (core o) (FillReceived x q p)) with (apply_fill (core o) q EventKind.FillReceived) in H.
    destruct (apply_fill _ _ _) as [next|err] eqn:Ht.
    - case_bool_in H; [done|]. destruct (position_entry _ _ _) as [b1 [[]|]]; [|done].
      by simplify_eq/=.
    - by rewrite (fill_in_reconciling _ _ _ _ Hst Ht) in H. }
  apply apply_order_event_Changed in H as (o1 & next & Ho1 & _ & Ht & _ & Hx' & pos & Hpos & E).
  unfold order in Ho. cbn [b_orders stamp] in Ho1. rewrite Ho in Ho1. injection Ho1 as <-.
  split_and!.
  - eexists. unfold order. rewrite E. simpl. rewrite lookup_insert_eq. split; [done|]. simpl.
    change (apply_fill (core o) q EventKind.FillReceived = Ok next) in Ht.
    apply apply_fill_Ok in Ht as (target & _ & _ & _ & -> & _ & ->).
    by rewrite bool_decide_eq_true_2.
  - unfold booked at 1. rewrite E. cbn [b_fills set_orders set_positions set_fills stamp].
    cbn [b_fills stamp] in Hx'. rewrite booked_insert by done.
    unfold fill_of. cbn [f_client_order_id f_qty]. rewrite bool_decide_eq_true_2 by done. lia.
  - exists o. split; [done|].
    change (apply_fill (core o) q EventKind.FillReceived = Ok next) in Ht.
    apply apply_fill_Ok in Ht as (_ & Hq & _). split; [done|].
    unfold position in Hpos |- *. cbn [b_positions stamp] in Hpos. rewrite Hpos, E.
    cbn [b_positions set_orders set_positions set_fills stamp]. split; [by rewrite lookup_insert_eq|].
    intros i Hi. by rewrite lookup_insert_ne.
Qed.

Lemma started_state o cause next :
  transition o (ReconcileStarted cause) = Ok next → state next = Reconciling.
Proof. intros H. transition_cases H; by simplify_eq. Qed.

Lemma resolved_state o st v q next :
  transition o (ReconcileResolved st v q) = Ok next → state next = st.
Proof.
  unfold transition, guard, mbind, result_bind. intros H.
  repeat (case_match; simplify_eq/=; try done).
Qed.

Lemma ensure_reconciling_ok c t cause e e' :
  ensure_reconciling c t cause e = (e', Ok tt) →
  frame_same e e' ∧ under_reconciliation e' c ∧
  b_fills (book e') = b_fills (book e) ∧ b_marks (book e') = b_marks (book e).
Proof.
  unfold ensure_reconciling. intros H. apply st_bind_Ok in H as (e0 & al & H0 & H).
  apply st_get_Ok in H0 as [-> ->].
  destruct (order (book e) c) as [o|] eqn:Ho; [case_bool_decide as Hst|].
  { apply st_ret_Ok in H as [-> _]. split_and!; [done|by exists o|done|done]. }
  all: apply st_bind_Ok in H as (e1 & a & H1 & H);
    apply (write_event_moves c t (ReconcileStarted cause) _ _ _ I) in H1
      as (Hs & _ & o1 & next & ev & Ho1 & Ht & Eo & Ef & _ & Em);
    apply st_bind_Ok in H as (e2 & i & H2 & H); apply st_get_Ok in H2 as [-> ->];
    apply decide_same in H as (Hs2 & _ & Hfacts & Hm2).
  2: congruence.
  split; [by eapply frame_same_trans|]. split; [|unfold facts in Hfacts; split; congruence].
  exists (set_core next ev o1). rewrite (facts_order _ _ _ Hfacts). unfold order. rewrite Eo, lookup_insert_eq.
  split; [done|]. by eapply started_state.
Qed.

Lemma halts n e e' :
  on_halt n e = (e', Ok tt) →
  e_halted e' = true ∧ reconciling e' = reconciling e ∧ facts (book e') = facts (book e).
Proof.
  unfold on_halt. intros H. apply st_bind_Ok in H as (e0 & h & H0 & H).
  apply st_get_Ok in H0 as [-> ->]. destruct (e_halted e) eqn:Eh.
  - by apply st_ret_Ok in H as [-> _].
  - apply st_bind_Ok in H as (e1 & u & H1 & H). apply st_modify_Ok in H1 as [-> _].
    apply decide_same in H as ((_ & Hr & Hh & _) & _ & Hf & _). by rewrite Hh, Hr.
Qed.

Lemma str_prefix_same l s n e e' r : str_prefix l s n e = (e', r) → e' = e.
Proof. unfold str_prefix. case_bool; intros H; by injection H. Qed.

Lemma exec_id_same c q e e' r : reconciliation_exec_id c q e = (e', r) → e' = e.
Proof.
  unfold reconciliation_exec_id. cbv zeta. unfold mbind, ST_bind. intros H.
  destruct (str_prefix _ _ _ e) as [e1 [hd|]] eqn:E; apply str_prefix_same in E as ->; by injection H.
Qed.

(** The id of the correction a lookup of [c] would book names an execution the
    book has. The id is cut to the room there is, so that of another order that
    begins alike can be the same. *)
Definition correction_taken (e : Engine) (c : ClientOrderId) (q : Qty) : Prop :=
  ∃ x, (reconciliation_exec_id c q e).2 = Ok x ∧ is_Some (fill (book e) x).

(** An execution whose id is taken is recorded and books nothing. *)
Lemma fill_again c t x q p e e' a :
  is_Some (fill (book e) x) → write_event c t (FillReceived x q p) e = (e', Ok a) →
  frame_same e e' ∧ facts (book e') = facts (book e).
Proof.
  intros Hx H. apply write_event_applies in H as (Hs & _ & o & h & ts & Ho & H). split; [done|].
  unfold apply_order_event in H. unfold order, fill in *.
  unfold st_get, st_lift, mbind, ST_bind, mret, ST_ret, id in H. cbn [b_orders b_fills stamp] in H.
  rewrite Ho in H. cbn [ok_or] in H. rewrite bool_decide_eq_true_2 in H by done.
  by injection H as <- _.
Qed.

(** The correction a lookup books: exactly what is missing; or a halt; or nothing,
    when a correction of the same name is in the book. *)
Lemma difference_booked c t q p e e' :
  under_reconciliation e c →
  (∀ x f, b_fills (book e) !! x = Some f → 0 ≤ raw (f_qty f)) → booked (book e) c ≤ i64_max →
  e8_ok q →
  book_the_difference c t q p e = (e', Ok tt) →
  reconciling e' = reconciling e ∧ under_reconciliation e' c ∧
  (e_halted e = true → e_halted e' = true) ∧
  (booked (book e') c = raw q ∨
   (raw q < booked (book e) c ∧ booked (book e') c = booked (book e) c ∧ e_halted e' = true) ∨
   (booked (book e') c = booked (book e) c ∧ correction_taken e c q)).
Proof.
  intros Hrec Hfills Hmax Hq. pose proof Hrec as (o & Ho & Hst).
  unfold book_the_difference. intros H. apply st_bind_Ok in H as (e0 & self & H0 & H).
  apply st_get_Ok in H0 as [-> ->]. unfold id in H. rewrite Ho in H. cbv zeta in H.
  set (ours := foldl _ _ _) in H.
  assert (raw ours = booked (book e) c) as Hours by (by apply ours_booked).
  case_bool_in H.
  { apply st_ret_Ok in H as [-> _]. z_reflect. subst q. split_and!; try done. by left. }
  case_bool_in H.
  { apply halts in H as (Hh & Hr & Hf). split_and!; [done| |done|].
    - exists o. by rewrite (facts_order _ _ _ Hf).
    - right. left. unfold ltb in *. z_reflect. rewrite (facts_booked _ _ _ Hf). split_and!; [lia|done|done]. }
  apply st_bind_Ok in H as (e1 & x & Hx & H). pose proof (exec_id_same _ _ _ _ _ Hx) as ->.
  apply st_bind_Ok in H as (e2 & a & H1 & H).
  destruct (fill (book e) x) as [f|] eqn:Hfx.
  { apply fill_again in H1 as ((_ & Hr & Hh & _) & Hf1); [|by rewrite Hfx].
    apply decide_same in H as ((_ & Hr2 & Hh2 & _) & _ & Hf & _).
    split_and!; [congruence| |congruence|right; right].
    - exists o. by rewrite (facts_order _ _ _ Hf), (facts_order _ _ _ Hf1).
    - rewrite (facts_booked _ _ _ Hf), (facts_booked _ _ _ Hf1). split; [done|].
      exists x. by rewrite Hx, Hfx. }
  destruct (fill_books _ _ _ _ _ _ _ _ Hrec Hfx H1) as ((_ & Hr & Hh & _) & (o2 & Ho2 & Hst2) & Hb & _).
  apply decide_same in H as ((_ & Hr2 & Hh2 & _) & _ & Hf & _).
  split_and!; [congruence| |congruence|left].
  - exists o2. by rewrite (facts_order _ _ _ Hf).
  - rewrite (facts_booked _ _ _ Hf), Hb. unfold ltb in *. z_reflect.
    assert (0 ≤ booked (book e) c) as Hpos.
    { unfold booked, map_zsum. apply zsum_nonneg, Forall_fmap, Forall_forall.
      intros [y f] Hin%elem_of_map_to_list. simpl. unfold fill_of. case_bool_decide; [eauto|lia]. }
    assert (checked_sub q ours = Ok (from_raw (raw q - raw ours))) as ->.
    { apply checked_sub_Ok. split; [done|]. unfold e8_ok in Hq. unfold_ranges. lia. }
    simpl. lia.
Qed.

(** ** A position the venue reports *)

(** What adopting a position of [i] calls its order and its fill. *)
Definition adoption_name (e : Engine) (i : Instrument) : list byte :=
  str "ADOPT-" ++ take (Nat.min (inline_len i) 20) (inline_as_str i) ++
  str "-" ++ dec (j_epoch (journal e)).
Definition adoption_order (e : Engine) (i : Instrument) : ClientOrderId :=
  inline_or_default 36 (adoption_name e i).
Definition adoption_fill (e : Engine) (i : Instrument) : ExecId :=
  inline_or_default 40 (adoption_name e i).

(** A fill that opens a flat position is the position. *)
Lemma opening_from_flat side q price p p' :
  pos_qty p = ZERO → position_apply_fill side q price p = (p', Ok tt) →
  raw (pos_qty p') = raw q * sign side.
Proof.
  intros Hz H. unfold position_apply_fill in H.
  apply st_bind_Ok in H as (p1 & signed & H1 & H). apply st_lift_Ok in H1 as [-> Hs].
  apply st_bind_Ok in H as (p1 & cost & H1 & H). apply st_lift_Ok in H1 as [-> _].
  apply st_bind_Ok in H as (p1 & sc & H1 & H). apply st_lift_Ok in H1 as [-> _].
  apply st_bind_Ok in H as (p1 & self & H1 & H). apply st_get_Ok in H1 as [-> ->].
  unfold id in H. rewrite Hz in H. cbn [is_zero raw ZERO Z.eqb orb] in H.
  unfold fill_opening in H.
  apply st_bind_Ok in H as (p1 & self & H1 & H). apply st_get_Ok in H1 as [-> ->].
  apply st_bind_Ok in H as (p1 & v & H1 & H). apply st_lift_Ok in H1 as [-> Hv].
  apply st_bind_Ok in H as (p1 & [] & H1 & H). apply st_modify_Ok in H1 as [-> _].
  apply st_bind_Ok in H as (p1 & c & H1 & H). apply st_lift_Ok in H1 as [-> _].
  apply st_modify_Ok in H as [-> _]. cbn [pos_qty set_cost_basis set_pos_qty].
  unfold id in Hv. rewrite Hz in Hv. apply (proj1 (or_overflow_Ok _ _)), (proj1 (checked_add_Ok _ _ _)) in Hv as [Hv _].
  apply (proj1 (checked_sign_Ok _ _ _)) in Hs as [Hs _]. simpl in *. lia.
Qed.

Lemma write_intent_fresh i e e' a :
  write (Rec.IntentPersisted i) e = (e', Ok a) → order (book e) (Intent.client_order_id i) = None →
  frame_same e e' ∧
  b_fills (book e') = b_fills (book e) ∧ b_positions (book e') = b_positions (book e) ∧
  ∃ ts, order (book e') (Intent.client_order_id i) = Some (order_of_intent i ts).
Proof.
  intros H Hn. apply write_applies in H as (Hs & _ & h & H). split; [done|].
  unfold apply, st_modify, st_get, mbind, ST_bind, mret, ST_ret in H.
  unfold order in Hn. cbn [b_orders stamp] in H. rewrite Hn in H.
  rewrite bool_decide_eq_false_2 in H by (by intros []).
  injection H as <- <-. split_and!; [done..|]. exists (fh_nanos h).
  unfold order. cbn [b_orders set_orders push_sequence stamp]. by rewrite lookup_insert_eq.
Qed.

(** Adopting a position nobody here opened: it is booked, or the engine halts. *)
Lemma adopt_books p e e' :
  - i64_max ≤ raw (vp_qty p) ≤ i64_max →
  pos_qty (position (book e) (vp_instrument p)) = ZERO →
  order (book e) (adoption_order e (vp_instrument p)) = None →
  fill (book e) (adoption_fill e (vp_instrument p)) = None →
  adopt_position p e = (e', Ok tt) →
  (raw (pos_qty (position (book e') (vp_instrument p))) = raw (vp_qty p) ∧
   ∀ i', i' ≠ vp_instrument p → position (book e') i' = position (book e) i') ∨
  (facts (book e') = facts (book e) ∧ e_halted e' = true).
Proof.
  intros Hq Hz Ho Hf H. unfold adopt_position in H. cbv zeta in H. st_steps H. unfold id in H. st_steps H.
  match goal with E : str_prefix _ _ _ _ = _ |- _ => rename E into Hp end.
  unfold str_prefix in Hp. case_bool_in Hp; [|done]. injection Hp as <- <-.
  set (c := inline_or_default 36 _) in H. set (x := inline_or_default 40 _) in H.
  set (t := Z.lor _ _) in H. set (sd := if is_positive (vp_qty p) then Buy else Sell) in H.
  assert (c = adoption_order e (vp_instrument p)) as Ec by done.
  assert (x = adoption_fill e (vp_instrument p)) as Ex by done.
  destruct (Intent.market c (vp_instrument p) sd (abs (vp_qty p)) Entry t) as [i|] eqn:Ei.
  2: { apply halts in H as (Hh & _ & Hfa). by right. }
  assert (Intent.client_order_id i = c ∧ Intent.instrument i = vp_instrument p ∧ Intent.side i = sd)
    as (Hc & Hi & Hsd).
  { unfold Intent.market, Intent.new in Ei. repeat (case_bool_in Ei; [done|]). by injection Ei as <-. }
  clear Ei. cbv beta iota in H. st_steps H. left.
  rename Hs into H1, Hs0 into H2, Hs1 into H3, Hs2 into H4.
  apply write_intent_fresh in H1 as (_ & Ef1 & Ep1 & ts & Eo1); [|rewrite Hc, Ec; exact Ho].
  apply (write_event_moves _ _ (ReconcileStarted _) _ _ _ I) in H2
    as (_ & _ & o2 & n2 & ev2 & Ho2 & Ht2 & Eo2 & Ef2 & Ep2 & _).
  rewrite Hc in Eo1. rewrite Eo1 in Ho2. injection Ho2 as <-.
  pose proof (transition_identity _ _ _ Ht2) as (_ & Hi2 & Hs2 & _).
  apply fill_books in H3 as (_ & _ & _ & o3 & Ho3 & _ & Hp3 & Hothers).
  2: { eexists. unfold order. rewrite Eo2, lookup_insert_eq. split; [done|]. by eapply started_state. }
  2: { unfold fill in *. by rewrite Ef2, Ef1, Ex. }
  unfold order in Ho3. rewrite Eo2, lookup_insert_eq in Ho3. injection Ho3 as <-.
  cbn [core set_core] in Hp3, Hothers. rewrite Hi2, Hs2 in Hp3. rewrite Hi2 in Hothers.
  cbn [order_of_intent core created instrument side] in Hp3, Hothers. rewrite Hi, Hsd in Hp3. rewrite Hi in Hothers.
  apply (write_event_moves _ _ (ReconcileResolved _ _ _) _ _ _ I) in H4
    as (_ & _ & ? & ? & ? & _ & _ & _ & _ & Ep4 & _).
  apply decide_same in H as (_ & _ & Hfa & _). unfold facts in Hfa. injection Hfa as _ _ Ep5.
  apply opening_from_flat in Hp3.
  2: { unfold position in *. by rewrite Ep2, Ep1. }
  unfold position in *. split; [|intros i' Hi'; by rewrite Ep5, Ep4, Hothers, Ep2, Ep1]. rewrite Ep5, Ep4, Hp3.
  unfold sd, abs, is_positive. simpl. unfold i64_saturate. unfold_ranges.
  case_bool; z_reflect; simpl; lia.
Qed.

(** ** Asking again *)

(** The queue after the requests for [due] went out. *)
Definition in_flight_again (due : list ClientOrderId) (m : gmap ClientOrderId Pending) :
    gmap ClientOrderId Pending :=
  foldl (λ m c, match m !! c with
                | Some p => <[c := mkPending (retry_at p) (backoff p) true]> m
                | None => m
                end) m due.

Lemma retry_loop_run due : ∀ e,
  retry_loop due e =
    (set_reconciling (in_flight_again due (reconciling e))
       (set_uncommitted (uncommitted e ++ (VenueRequest.Lookup <$> due)) e), Ok tt).
Proof.
  induction due as [|c due IH]; intros e; cbn [retry_loop].
  - cbn. unfold mret, ST_ret. rewrite app_nil_r. by destruct e.
  - unfold request, st_modify, mbind, ST_bind. rewrite IH. cbn [in_flight_again foldl].
    destruct (reconciling e !! c); cbn; by rewrite <-app_assoc.
Qed.

Lemma in_flight_again_lookup due : ∀ m c,
  in_flight_again due m !! c =
    (if base.decide (c ∈ due) then (λ p, mkPending (retry_at p) (backoff p) true) <$> m !! c
     else m !! c).
Proof.
  induction due as [|d due IH]; intros m c; [done|].
  unfold in_flight_again in *. cbn [foldl]. rewrite IH. clear IH.
  destruct (base.decide (d = c)) as [->|Hne].
  - rewrite (decide_True (P := c ∈ c :: due)) by (by left).
    destruct (m !! c) as [p|] eqn:E; [|case_decide; by rewrite E].
    rewrite lookup_insert_eq. by case_decide.
  - assert (match m !! d with
            | Some p => <[d := mkPending (retry_at p) (backoff p) true]> m
            | None => m
            end !! c = m !! c) as ->.
    { destruct (m !! d); [by rewrite lookup_insert_ne|done]. }
    do 2 case_decide; set_solver.
Qed.

Lemma due_spec now e c :
  c ∈ due_reconciliations now e ↔
    ∃ p, reconciling e !! c = Some p ∧ in_flight p = false ∧ retry_at p ≤ now.
Proof.
  unfold due_reconciliations. rewrite elem_of_sort_ids, list_elem_of_fmap. split.
  - intros ([k p] & -> & [[? ?] Hin]%list_elem_of_filter). apply elem_of_map_to_list in Hin. eauto.
  - intros (p & Hp & ? & ?). exists (c, p). split; [done|].
    apply list_elem_of_filter. split; [done|]. by apply elem_of_map_to_list.
Qed.

Lemma due_NoDup now e : NoDup (due_reconciliations now e).
Proof.
  unfold due_reconciliations. rewrite sort_ids_Permutation.
  assert (∀ l : list (ClientOrderId * Pending), NoDup l.*1 →
    NoDup (filter (λ kp, in_flight kp.2 = false ∧ retry_at kp.2 ≤ now) l).*1) as H.
  { induction l as [|[k p] l IH]; [done|]. rewrite fmap_cons, NoDup_cons. intros [Hk Hl].
    rewrite filter_cons. case_decide; [|by apply IH]. rewrite fmap_cons, NoDup_cons.
    split; [|by apply IH]. intros Hin. apply Hk. apply list_elem_of_fmap in Hin as (y & -> & Hy).
    apply list_elem_of_filter in Hy as [_ Hy]. by apply list_elem_of_fmap_2. }
  apply H, NoDup_fst_map_to_list.
Qed.

(** ** Properties *)

(** C7: an answered lookup settles the order.  When the venue says what it
    holds and handling that succeeds, the order is in the state the venue
    reported and is not asked about again, and the executions booked for it sum
    to exactly the venue's figure.  There are two other endings: a halt, when the
    book has more than the venue does; and a correction that books nothing,
    because the id made up for it is that of an execution the book has, which is
    how two orders whose ids begin alike lose one of two equal corrections.  Of
    the book it asks that no execution is negative and that those of the order
    sum to a figure of 64 bits. *)
Theorem lookup_settles c s e e' :
  (∀ x f, b_fills (book e) !! x = Some f → 0 ≤ raw (f_qty f)) → booked (book e) c ≤ i64_max →
  e8_ok (sn_filled_qty s) →
  on_looked_up c (LookupOutcome.Found s) e = (e', Ok tt) →
  (∃ o, order (book e') c = Some o ∧ state (core o) = sn_state s) ∧
  reconciling e' !! c = None ∧
  (booked (book e') c = raw (sn_filled_qty s) ∨
   (raw (sn_filled_qty s) < booked (book e) c ∧ e_halted e' = true) ∨
   (booked (book e') c = booked (book e) c ∧ correction_taken e c (sn_filled_qty s))).
Proof.
  intros Hfills Hmax Hq H. unfold on_looked_up in H.
  apply st_bind_Ok in H as (e0 & t & H0 & H). apply st_get_Ok in H0 as [-> ->].
  apply st_bind_Ok in H as (e1 & [] & H1 & H).
  apply ensure_reconciling_ok in H1 as ((_ & Hr1 & Hh1 & _) & Hrec & Hf1 & _).
  apply st_bind_Ok in H as (e2 & [] & H2 & H).
  assert (booked (book e1) c = booked (book e) c) as Hb1 by (unfold booked; by rewrite Hf1).
  apply difference_booked in H2 as (Hr2 & Hrec2 & Hhalt & Hb);
    [|done|by rewrite Hf1|by rewrite Hb1|done].
  apply st_bind_Ok in H as (e3 & a & H3 & H).
  apply (write_event_moves c _ (ReconcileResolved _ _ _) _ _ _ I) in H3
    as ((_ & Hr3 & Hh3 & _) & _ & o & next & ev & Ho & Ht & Eo & Ef & _).
  unfold forget in H. apply st_modify_Ok in H as [-> _]. cbn [book reconciling set_reconciling].
  split_and!.
  - exists (set_core next ev o). unfold order. rewrite Eo, lookup_insert_eq. split; [done|].
    by eapply resolved_state.
  - apply lookup_delete_eq.
  - assert (booked (book e3) c = booked (book e2) c) as Hb3 by (unfold booked; by rewrite Ef).
    cbn [e_halted set_reconciling]. rewrite Hb3, Hh3, <-Hb1.
    destruct Hb as [Hb|[(Hlt & _ & Hh)|[Hb (x & Hx & Hf)]]]; [by left|by right; left|right; right].
    split; [done|]. exists x. unfold fill in *. rewrite <-Hf1. split; [|done]. rewrite <-Hx.
    unfold reconciliation_exec_id, mbind, ST_bind, str_prefix. cbv zeta. by case_bool.
Qed.

(** An answer to the lookup of the order of [Safety.ex_ran]: half of it traded. *)
Definition ex_answer : OrderSnapshot :=
  mkOrderSnapshot Canceled (Some (ex_text 32 "V-1")) (whole 2) (Some (whole 100)).

Lemma lookup_settles_witness :
  let e := ex_ran.2 in
  let e' := (on_looked_up ex_coid (LookupOutcome.Found ex_answer) e).1 in
  (∃ o, order (book e') ex_coid = Some o ∧ state (core o) = Canceled) ∧
  reconciling e' !! ex_coid = None ∧
  (booked (book e') ex_coid = 200000000 ∨
   (200000000 < booked (book e) ex_coid ∧ e_halted e' = true) ∨
   (booked (book e') ex_coid = booked (book e) ex_coid ∧ correction_taken e ex_coid (whole 2))).
Proof.
  intros e e'. apply (lookup_settles ex_coid ex_answer e e').
  - intros x f H. change ((∅ : gmap ExecId Fill) !! x = Some f) in H. by rewrite lookup_empty in H.
  - vm_compute. congruence.
  - vm_compute. split; congruence.
  - unfold e'. assert ((on_looked_up ex_coid (LookupOutcome.Found ex_answer) e).2 = Ok tt) as E
      by (vm_compute; reflexivity).
    rewrite <-E. by destruct (on_looked_up _ _ e).
Defined.

(** A lookup nobody answered is asked again, and only then.  A tick that
    moves the clock asks the venue, once each and in the order of the ids, about
    exactly the orders whose backoff has run out and that are not being asked
    about; those are marked as being asked, and no other entry changes. *)
Theorem tick_retries now e e' :
  Book.now (book e) < now → on_tick now e = (e', Ok tt) →
  let due := due_reconciliations now e in
  uncommitted e' = uncommitted e ++ (VenueRequest.Lookup <$> due) ∧
  NoDup due ∧ StronglySorted id_le due ∧
  (∀ c, c ∈ due ↔ ∃ p, reconciling e !! c = Some p ∧ in_flight p = false ∧ retry_at p ≤ now) ∧
  (∀ c, reconciling e' !! c =
     (if base.decide (c ∈ due) then (λ p, mkPending (retry_at p) (backoff p) true) <$> reconciling e !! c
      else reconciling e !! c)).
Proof.
  intros Hnow H. unfold on_tick in H. apply st_bind_Ok in H as (e0 & self & H0 & H).
  apply st_get_Ok in H0 as [-> ->]. unfold id in H. rewrite (proj2 (Z.leb_gt _ _)) in H by lia.
  apply st_bind_Ok in H as (e1 & [] & H1 & H).
  assert (reconciling e1 = reconciling e ∧ uncommitted e1 = uncommitted e) as [Hr Hu].
  { case_bool_in H1; [|by apply st_ret_Ok in H1 as [-> _]].
    apply st_bind_Ok in H1 as (e2 & a & H1 & H2). apply st_ret_Ok in H2 as [-> _].
    apply write_at_cases in H1 as [[_ [je ?]]|(j1 & seq & b1 & ares & _ & _ & -> & _)]; done. }
  unfold retry_due_reconciliations in H. apply st_bind_Ok in H as (e2 & due & H2 & H).
  apply st_get_Ok in H2 as [-> ->].
  assert (due_reconciliations now e1 = due_reconciliations now e) as Ed
    by (unfold due_reconciliations; by rewrite Hr).
  rewrite Ed, retry_loop_run, Hr, Hu in H. injection H as <-.
  split_and!.
  - done.
  - apply due_NoDup.
  - apply sort_ids_sorted.
  - apply due_spec.
  - apply in_flight_again_lookup.
Qed.

(** The same process with its lookup timed out: the backoff is running. *)
Definition ex_waiting : Engine :=
  (on_looked_up ex_coid LookupOutcome.TimedOut
     (set_reconciling {[ ex_coid := mkPending 0 1000000000 true ]} ex_ran.2)).1.

Lemma tick_retries_witness :
  let e' := (on_tick 5000000000000 ex_waiting).1 in
  uncommitted e' = uncommitted ex_waiting ++ [VenueRequest.Lookup ex_coid].
Proof.
  intros e'.
  destruct (tick_retries 5000000000000 ex_waiting e') as (Hu & _).
  - vm_compute. reflexivity.
  - unfold e'. assert ((on_tick 5000000000000 ex_waiting).2 = Ok tt) as E
      by (vm_compute; reflexivity).
    rewrite <-E. by destruct (on_tick _ ex_waiting).
  - rewrite Hu. f_equal.
Defined.

(** The condition of an adoption: the first report of the process, of an instrument
    with no position, no order and no execution in the book. *)
Definition inherits (first_report : bool) (e : Engine) (i : Instrument) : Prop :=
  first_report = true ∧ pos_qty (position (book e) i) = ZERO ∧
  (∀ o, o ∈ orders (book e) → instrument (core o) ≠ i) ∧
  (∀ x f, b_fills (book e) !! x = Some f → f_instrument f ≠ i).

Lemma never_traded_inherits e i : has_never_traded e i = true ↔ inherits true e i.
Proof.
  unfold has_never_traded, inherits. rewrite !andb_true_iff, !negb_true_iff, <-!not_true_iff_false, !existsb_exists.
  split.
  - intros [[Hz Ho] Hf]. split_and!; [done| | |].
    + unfold is_zero in Hz. z_reflect. destruct (pos_qty _). simpl in *. by subst.
    + intros o Hin E. apply Ho. exists o. split; [by apply list_elem_of_In|by apply bool_decide_eq_true].
    + intros x f Hx E. apply Hf. exists f. split; [|by apply bool_decide_eq_true].
      apply list_elem_of_In. rewrite all_fills_perm. apply list_elem_of_fmap. exists (x, f).
      split; [done|by apply elem_of_map_to_list].
  - intros (_ & Hz & Ho & Hf). split_and!.
    + unfold is_zero. by rewrite Hz.
    + intros (o & Hin%list_elem_of_In & E%bool_decide_eq_true). by apply (Ho o).
    + intros (f & Hin%list_elem_of_In & E%bool_decide_eq_true). rewrite all_fills_perm in Hin.
      apply list_elem_of_fmap in Hin as ([x f'] & -> & Hin%elem_of_map_to_list). by apply (Hf x f').
Qed.

(** C8: a position report is never shrugged off, and one it cannot explain never
    moves the book.  One line of a report, handled, has one of four endings.  The
    book holds the figure already, and nothing happens.  Or the line is adopted:
    then, and only then, does the book change in its orders, executions or
    positions, only of that instrument's position, and it then holds the venue's
    figure; this is the first report of the process and the book has no position,
    no order and no execution of the instrument.  Or an order on the instrument is
    in flight, and the book waits for the next report.  Or the engine has halted.
    The ids that an adoption makes up, of the instrument and the epoch, are taken
    to be new to the book. *)
Theorem report_reconciled first_report p e e' :
  let i := vp_instrument p in
  - i64_max ≤ raw (vp_qty p) ≤ i64_max →
  order (book e) (adoption_order e i) = None → fill (book e) (adoption_fill e i) = None →
  on_position first_report p e = (e', Ok tt) →
  (pos_qty (position (book e) i) = vp_qty p ∧ e' = e) ∨
  (pos_qty (position (book e) i) ≠ vp_qty p ∧
   ((inherits first_report e i ∧ raw (pos_qty (position (book e') i)) = raw (vp_qty p) ∧
     (∀ i', i' ≠ i → position (book e') i' = position (book e) i')) ∨
    (facts (book e') = facts (book e) ∧ ¬ inherits first_report e i ∧
     live_orders_on (book e) i ≠ [] ∧ e_halted e' = e_halted e) ∨
    (facts (book e') = facts (book e) ∧ e_halted e' = true))).
Proof.
  intros i Hq Ho Hf H. unfold on_position in H. st_steps H. unfold id in H. case_bool_in H.
  { st_steps H. z_reflect. by left. }
  z_reflect. right. split; [done|]. destruct (first_report && _) eqn:Hn.
  { apply andb_true_iff in Hn as [-> Hn]. apply never_traded_inherits in Hn.
    apply adopt_books in H as [[H H']|[H H']]; [by left|by right; right|done| |done..]. apply Hn. }
  destruct (Intent.is_some _) eqn:Hlive.
  - right. left. apply decide_same in H as ((_ & _ & Hh & _) & _ & Hfa & _).
    split_and!; [done| | |done].
    + intros Hi. pose proof Hi as [-> _]. apply never_traded_inherits in Hi. unfold i in Hi. by rewrite Hi in Hn.
    + intros E'. unfold i in E'. by rewrite E' in Hlive.
  - st_steps H. destruct a. apply decide_same in Hs as (_ & _ & Hfa & _). apply halts in H as (Hh & _ & Hf').
    right. right. split; [|done]. congruence.
Qed.

Definition ex_held : VenuePosition :=
  mkVenuePosition (ex_text 16 "ETHUSD") (whole (-3)) (Some (whole 50)).

Lemma report_reconciled_witness :
  let i := vp_instrument ex_held in
  let e' := (on_position true ex_held ex_engine).1 in
  (pos_qty (position (book ex_engine) i) = vp_qty ex_held ∧ e' = ex_engine) ∨
  (pos_qty (position (book ex_engine) i) ≠ vp_qty ex_held ∧
   ((inherits true ex_engine i ∧ raw (pos_qty (position (book e') i)) = raw (vp_qty ex_held) ∧
     (∀ i', i' ≠ i → position (book e') i' = position (book ex_engine) i')) ∨
    (facts (book e') = facts (book ex_engine) ∧ ¬ inherits true ex_engine i ∧
     live_orders_on (book ex_engine) i ≠ [] ∧ e_halted e' = e_halted ex_engine) ∨
    (facts (book e') = facts (book ex_engine) ∧ e_halted e' = true))).
Proof.
  intros i e'. apply (report_reconciled true ex_held ex_engine e').
  - vm_compute. split; congruence.
  - vm_compute. reflexivity.
  - vm_compute. reflexivity.
  - unfold e'. assert ((on_position true ex_held ex_engine).2 = Ok tt) as E
      by (vm_compute; reflexivity).
    rewrite <-E. by destruct (on_position _ _ ex_engine).
Defined.

(** In this run the short position of three is adopted. *)
Example ex_adopted :
  pos_qty (position (book (on_position true ex_held ex_engine).1) (vp_instrument ex_held)) =
    whole (-3).
Proof. vm_compute. reflexivity. Qed.
