(* ===== verification/Acceptance.v ===== *)
(** * The acceptance suite (sentinel-engine/src/tests.rs)

    The program's own end-to-end tests, translated with their harness and run on
    the model: the engine over a real journal, the simulated venue with scripted
    faults, and the loop between them.  Every test passes on the model as it
    does on the program, assertion by assertion, so a handler that was modelled
    wrongly would have to be wrong in a way none of them sees. *)

From S2P Require Import Prelude Fixed Types Domain Intent Position Format Codec Records Segment Journal Tailer Book Invariants Venue Sim Guards Engine Trace Safety Runtime WellFormed Answers Replay Open Typed.

(** ** The harness *)

(** [keep_dir] and the directory are the journal's: it is dropped with it. *)
Record Harness := mkHarness { h_engine : Engine; h_venue : SimVenue; h_clock : Z }.

(** What ends a test. *)
Inductive Panic :=
| EngineUnwrap (e : EngineError.t)
| OpenUnwrap (e : OpenFailure)
| IntentUnwrap (e : IntentError)
| VenuePanicked
| NeverSettled
| AssertionFailed.

Abbreviation HM := (ST Harness Panic).

Definition set_engine (e : Engine) (h : Harness) : Harness := mkHarness e (h_venue h) (h_clock h).
Definition set_sim (v : SimVenue) (h : Harness) : Harness := mkHarness (h_engine h) v (h_clock h).
Definition set_clock (t : Z) (h : Harness) : Harness := mkHarness (h_engine h) (h_venue h) t.

Definition on_engine {A} (m : EM A) : HM A := λ h,
  let '(e, r) := m (h_engine h) in (set_engine e h, map_err EngineUnwrap r).

(** A call of the venue: its answer, if the call could be made. *)
Definition on_venue {A} (m : SM A) : HM (option A) := λ h,
  match m (h_venue h) with
  | (v, Ok a) => (set_sim v h, Ok (Some a))
  | (v, Err (VenueErr _)) => (set_sim v h, Ok None)
  | (v, Err VenuePanic) => (set_sim v h, Err VenuePanicked)
  end.

Definition expect (p : Harness → bool) : HM unit :=
  ok ← st_get p;
  if ok : bool then mret tt else st_fail AssertionFailed.

Definition send (command : Command.t) : HM unit := on_engine (submit command).

(** [for x in l]. *)
Fixpoint each {A} (f : A → HM unit) (l : list A) : HM unit :=
  match l with
  | [] => mret tt
  | x :: l' => _ ← f x; each f l'
  end.

(** What is fed back of a call. *)
Definition answer {A} (call : SM A) (command : A → Command.t) : HM unit :=
  outcome ← on_venue call;
  match outcome with Some o => send (command o) | None => mret tt end.

Definition harness_perform (r : VenueRequest.t) : HM unit :=
  match r with
  | VenueRequest.Submit i => answer (sim_submit i) (Command.Submitted (Intent.client_order_id i))
  | VenueRequest.Cancel c venue_order_id => answer (sim_cancel c venue_order_id) (Command.Cancelled c)
  | VenueRequest.Lookup c => answer (sim_lookup c) (Command.LookedUp c)
  | VenueRequest.Positions => answer sim_positions positions_reported
  end.

Definition flush_pending : HM (list VenueRequest.t) := on_engine (engine_flush IoOk).

Definition drain_venue : HM (list VenueEvent.t) := λ h,
  let '(v, events) := sim_drain (h_venue h) in (set_sim v h, Ok events).

Definition streamed (event : VenueEvent.t) : HM unit := send (Command.Streamed event).

Definition pump_stream : HM unit :=
  events ← drain_venue;
  each streamed events.

Fixpoint settle_loop (rounds : nat) : HM unit :=
  match rounds with
  | O => st_fail NeverSettled
  | S rounds' =>
      requests ← flush_pending;
      events ← drain_venue;
      match requests, events with
      | [], [] => mret tt
      | _, _ => _ ← each harness_perform requests; _ ← each streamed events; settle_loop rounds'
      end
  end.
Definition settle : HM unit := settle_loop 64.

Definition run (command : Command.t) : HM unit := _ ← send command; settle.

Definition advance (by_nanos : Z) : HM unit := st_modify (λ h, set_clock (h_clock h + by_nanos) h).

Definition now_command (h : Harness) : Command.t := Command.Tick (h_clock h).

Definition tick (by_nanos : Z) : HM unit :=
  _ ← advance by_nanos;
  command ← st_get now_command;
  run command.

Definition place (intent : result IntentError Intent.t) : HM unit :=
  i ← st_lift (map_err IntentUnwrap intent);
  run (Command.Place i).

(** A placement that is only submitted. *)
Definition submit_place (intent : result IntentError Intent.t) : HM unit :=
  i ← st_lift (map_err IntentUnwrap intent);
  send (Command.Place i).

Definition confirm_positions (ps : list VenuePosition) : HM unit := run (positions_reported ps).

(** Fuel of a pass over the log: more than any of these logs is long. *)
Definition FUEL : nat := 400.

(** [Engine::open(...).unwrap()]. *)
Definition open_engine (dir : Dir) (now : Nanos) (cfg : Config) : result Panic Engine :=
  map_err OpenUnwrap (engine_open false IoOk FUEL FUEL dir now cfg).2.

Definition unconfirmed_with (cfg : Config) : result Panic Harness :=
  e ← open_engine [] 1000 cfg;
  Ok (mkHarness e sim_new 1000).
Definition unconfirmed : result Panic Harness := unconfirmed_with config_default.

Definition with_config (cfg : Config) : result Panic Harness :=
  h ← unconfirmed_with cfg;
  match confirm_positions [] h with
  | (h, Ok _) => Ok h
  | (_, Err e) => Err e
  end.
Definition new : result Panic Harness := with_config config_default.

(** Drop the harness and open another over its journal, with a venue and the
    first clock. *)
Definition reopen (now : Nanos) (keep_venue : bool) : HM unit := λ h,
  match open_engine (j_dir (journal (h_engine h))) now config_default with
  | Ok e => (mkHarness e (if keep_venue then h_venue h else sim_new) 1000, Ok tt)
  | Err p => (h, Err p)
  end.

(** A test: a harness and what is done with it. *)
Definition test (start : result Panic Harness) (body : HM unit) : result Panic unit :=
  h ← start;
  (body h).2.

(** ** What a test reads *)

Definition coid (s : string) : ClientOrderId := inline_or_default 36 (str s).
Definition btc : Instrument := inline_or_default 16 (str "BTCUSD").
Definition px (s : string) : Price := unwrap_or (parse (str s)) ZERO.
Definition money (s : string) : Money := unwrap_or (parse (str s)) ZERO.

Definition entry (id : string) (side : Side) (qty : Z) : result IntentError Intent.t :=
  Intent.market (coid id) btc side (whole qty) Entry 0x6440ba96.
Definition protective_exit (id : string) (side : Side) (qty : Z) : result IntentError Intent.t :=
  Intent.market (coid id) btc side (whole qty) ProtectiveExit 0x8f82b303.

Definition bk (h : Harness) : Book := book (h_engine h).
Definition order_at (id : string) (h : Harness) : option Order := order (bk h) (coid id).
Definition state_at (id : string) (h : Harness) : option OrderState := (λ o, state (core o)) <$> order_at id h.
Definition filled_at (id : string) (h : Harness) : option Qty := (λ o, filled_qty (core o)) <$> order_at id h.
Definition qty_at (id : string) (h : Harness) : option Qty := (λ o, qty (core o)) <$> order_at id h.
Definition position_of (h : Harness) : Qty := pos_qty (position (bk h) btc).
Definition submits_of (h : Harness) : Z := (call_counts (h_venue h)).1.1.
Definition lookups_of (h : Harness) : Z := (call_counts (h_venue h)).1.2.

(** The log of the directory, folded. *)
Definition rebuild_dir (dir : Dir) : option Book :=
  match tailer_open (λ _, dir) FUEL SEQ_ZERO with
  | (t, Ok _) => ok (rebuild_tail (λ _, dir) FUEL FUEL t book_new)
  | (_, Err _) => None
  end.
Definition rebuilt (h : Harness) : option Book := rebuild_dir (j_dir (journal (h_engine h))).

Definition same {A} `{EqDecision A} (a b : A) : bool := bool_decide (a = b).

Definition assert_sound : HM unit :=
  _ ← expect (λ h, holds (check (bk h)));
  expect (λ h, same (rebuilt h) (Some (bk h))).

Fixpoint count_ticked (dir : Dir) (calls : nat) (t : Tailer) : nat :=
  match calls with
  | O => O
  | S calls' =>
      match next_record (λ _, dir) FUEL t with
      | (t, Ok (Some f)) =>
          match decode (fh_kind f.1) f.2 with
          | Ok Rec.Ticked => S (count_ticked dir calls' t)
          | _ => count_ticked dir calls' t
          end
      | _ => O
      end
  end.
Definition records_of_kind_ticked (h : Harness) : nat :=
  let dir := j_dir (journal (h_engine h)) in
  count_ticked dir FUEL (tailer_open (λ _, dir) FUEL SEQ_ZERO).1.

(** What a test does at the venue. *)
Definition at_venue {A} (m : SM A) : HM unit := _ ← on_venue m; mret tt.
Definition filled_by (id : string) (qty : Z) (price : string) : HM unit :=
  at_venue (sim_fill (coid id) (whole qty) (px price)).
Definition scripted (id : string) (fault : Fault.t) : HM unit :=
  st_modify (λ h, set_sim (script (coid id) fault (h_venue h)) h).
Definition forced (ps : list VenuePosition) : HM unit :=
  st_modify (λ h, set_sim (force_positions ps (h_venue h)) h).

(** ** The tests *)

Definition r1_1_intent_is_durable_before_submission : result Panic unit := test new (
  _ ← submit_place (entry "UI-1" Buy 3);
  _ ← expect (λ h, submits_of h =? 0);
  requests ← flush_pending;
  _ ← expect (λ _, same (length requests) 1%nat);
  expect (λ h, same ((λ o, state (core o)) <$> (rebuilt h ≫= λ b, order b (coid "UI-1"))) (Some Submitting))).

Definition r1_1_a_crash_before_submission_is_recoverable : result Panic unit := test new (
  _ ← submit_place (entry "UI-1" Buy 3);
  _ ← flush_pending;
  _ ← reopen 50000 false;
  _ ← expect (λ h, same (state_at "UI-1" h) (Some Submitting));
  _ ← place (entry "UI-1" Buy 3);
  _ ← expect (λ h, submits_of h =? 0);
  _ ← expect (λ h, 0 <? lookups_of h);
  _ ← expect (λ h, same (state_at "UI-1" h) (Some Canceled));
  _ ← expect (λ h, same (position_of h) ZERO);
  assert_sound).

Definition r1_2_a_replayed_place_creates_no_duplicate : result Panic unit := test new (
  _ ← place (entry "UI-1" Buy 3);
  _ ← filled_by "UI-1" 3 "100";
  _ ← settle;
  _ ← expect (λ h, same (position_of h) (whole 3));
  _ ← place (entry "UI-1" Buy 3);
  _ ← expect (λ h, same (length (orders (bk h))) 1%nat);
  _ ← expect (λ h, same (position_of h) (whole 3));
  _ ← expect (λ h, submits_of h =? 1);
  assert_sound).

Definition r1_2_a_duplicate_execution_is_absorbed : result Panic unit := test new (
  _ ← place (entry "UI-1" Buy 3);
  _ ← at_venue (fill_twice (coid "UI-1") (whole 2) (px "100"));
  _ ← settle;
  _ ← expect (λ h, same (position_of h) (whole 2));
  _ ← expect (λ h, same (fill_count (bk h)) 1%nat);
  assert_sound).

Definition r1_3_a_timeout_is_reconciled_never_resubmitted : result Panic unit := test new (
  _ ← scripted "UI-1" Fault.TimeoutButAccepted;
  _ ← place (entry "UI-1" Buy 3);
  _ ← expect (λ h, submits_of h =? 1);
  _ ← expect (λ h, same (state_at "UI-1" h) (Some Working));
  _ ← expect (λ h, negb (was_acknowledged (h_venue h) (coid "UI-1")));
  _ ← assert_sound;
  _ ← filled_by "UI-1" 3 "100";
  _ ← settle;
  _ ← expect (λ h, same (position_of h) (whole 3));
  assert_sound).

Definition r1_3_a_timeout_that_was_absent_resolves_to_nothing : result Panic unit := test new (
  _ ← scripted "UI-1" Fault.TimeoutAndAbsent;
  _ ← place (entry "UI-1" Buy 3);
  _ ← expect (λ h, same (state_at "UI-1" h) (Some Canceled));
  _ ← expect (λ h, same (position_of h) ZERO);
  _ ← expect (λ h, submits_of h =? 1);
  assert_sound).

Definition r1_4_an_unknown_order_blocks_new_entries : result Panic unit := test new (
  _ ← scripted "UI-1" Fault.TimeoutButAccepted;
  _ ← submit_place (entry "UI-1" Buy 3);
  requests ← flush_pending;
  _ ← each harness_perform requests;
  _ ← expect (λ h, instrument_locked (bk h) btc);
  _ ← submit_place (entry "UI-2" Buy 5);
  _ ← flush_pending;
  _ ← expect (λ h, same (order_at "UI-2" h) None);
  expect (λ h, submits_of h =? 1)).

Definition r1_5_partial_fills_account_exactly : result Panic unit := test new (
  _ ← place (entry "UI-1" Buy 10);
  _ ← each (λ q, _ ← filled_by "UI-1" q "100"; settle) [3; 3; 1];
  _ ← expect (λ h, same (state_at "UI-1" h) (Some Partial));
  _ ← expect (λ h, same (filled_at "UI-1" h) (Some (whole 7)));
  _ ← expect (λ h, same (position_of h) (whole 7));
  _ ← filled_by "UI-1" 3 "102";
  _ ← settle;
  _ ← expect (λ h, same (state_at "UI-1" h) (Some Filled));
  _ ← expect (λ h, same (position_of h) (whole 10));
  assert_sound).

Definition r1_6_a_fill_during_cancel_pending_is_accounted : result Panic unit := test new (
  _ ← place (entry "UI-1" Buy 10);
  _ ← filled_by "UI-1" 4 "100";
  _ ← settle;
  _ ← send (Command.Cancel (coid "UI-1") 1);
  cancel ← flush_pending;
  _ ← expect (λ h, same (state_at "UI-1" h) (Some CancelPending));
  _ ← filled_by "UI-1" 3 "101";
  _ ← pump_stream;
  _ ← expect (λ h, same (filled_at "UI-1" h) (Some (whole 7)));
  _ ← expect (λ h, same (state_at "UI-1" h) (Some CancelPending));
  _ ← each harness_perform cancel;
  _ ← settle;
  _ ← expect (λ h, same (filled_at "UI-1" h) (Some (whole 7)));
  _ ← expect (λ h, same (state_at "UI-1" h) (Some Canceled));
  _ ← expect (λ h, same (position_of h) (whole 7));
  assert_sound).

Definition r1_7_a_late_fill_is_reconciled_not_dropped : result Panic unit := test new (
  _ ← place (entry "UI-1" Buy 2);
  _ ← filled_by "UI-1" 2 "100";
  _ ← settle;
  _ ← expect (λ h, same (state_at "UI-1" h) (Some Filled));
  _ ← filled_by "UI-1" 1 "101";
  _ ← settle;
  _ ← expect (λ h, same (position_of h) (whole 3));
  _ ← expect (λ h, same (filled_at "UI-1" h) (Some (whole 2)));
  assert_sound).

Definition r1_9_a_second_entry_on_a_live_one_is_refused : result Panic unit := test new (
  _ ← place (entry "UI-1" Buy 3);
  _ ← expect (λ h, same (state_at "UI-1" h) (Some Working));
  _ ← place (entry "UI-2" Buy 3);
  _ ← expect (λ h, same (order_at "UI-2" h) None);
  _ ← expect (λ h, submits_of h =? 1);
  assert_sound).

Definition r1_10_an_oversized_exit_is_clamped_not_refused : result Panic unit := test new (
  _ ← place (entry "UI-1" Buy 5);
  _ ← filled_by "UI-1" 5 "100";
  _ ← settle;
  _ ← place (protective_exit "SL-1" Sell 8);
  _ ← expect (λ h, same (qty_at "SL-1" h) (Some (whole 5)));
  _ ← filled_by "SL-1" 5 "110";
  _ ← settle;
  _ ← expect (λ h, same (position_of h) ZERO);
  _ ← expect (λ h, same (realized_total (bk h)) (money "50"));
  assert_sound).

Definition r1_10_a_second_exit_is_bounded_by_what_the_first_already_covers : result Panic unit := test new (
  _ ← place (entry "UI-1" Buy 6);
  _ ← filled_by "UI-1" 6 "100";
  _ ← settle;
  _ ← place (protective_exit "SL-1" Sell 4);
  _ ← expect (λ h, same (committed_to_exits (bk h) btc) (whole 4));
  _ ← place (protective_exit "TP-1" Sell 6);
  _ ← expect (λ h, same (qty_at "TP-1" h) (Some (whole 2)));
  _ ← expect (λ h, same (committed_to_exits (bk h) btc) (whole 6));
  assert_sound).

Definition r1_13_a_halt_does_not_disarm_the_stops : result Panic unit := test new (
  _ ← place (entry "UI-1" Buy 4);
  _ ← filled_by "UI-1" 4 "100";
  _ ← settle;
  _ ← run (Command.Halt (note_of (str "divergence")));
  _ ← expect (λ h, e_halted (h_engine h));
  _ ← place (entry "UI-2" Buy 4);
  _ ← expect (λ h, same (order_at "UI-2" h) None);
  _ ← place (protective_exit "SL-1" Sell 4);
  _ ← expect (λ h, same (state_at "SL-1" h) (Some Working));
  _ ← filled_by "SL-1" 4 "95";
  _ ← settle;
  _ ← expect (λ h, same (position_of h) ZERO);
  assert_sound).

Definition a_lost_fill_is_found_by_the_sweep_and_not_before : result Panic unit := test new (
  _ ← scripted "UI-1" Fault.AcceptButSilent;
  _ ← place (entry "UI-1" Buy 3);
  _ ← filled_by "UI-1" 3 "100";
  _ ← settle;
  _ ← expect (λ h, same (state_at "UI-1" h) (Some Working));
  _ ← expect (λ h, same (position_of h) ZERO);
  _ ← run Command.SweepStale;
  _ ← expect (λ h, same (state_at "UI-1" h) (Some Working));
  _ ← tick 200000000000;
  _ ← run Command.SweepStale;
  _ ← expect (λ h, same (state_at "UI-1" h) (Some Filled));
  _ ← expect (λ h, same (position_of h) (whole 3));
  assert_sound).

Definition the_sweep_does_not_storm_a_venue_that_is_not_answering : result Panic unit := test new (
  _ ← scripted "UI-1" Fault.AcceptButSilent;
  _ ← place (entry "UI-1" Buy 3);
  _ ← scripted "UI-1" Fault.TimeoutAndAbsent;
  _ ← tick 200000000000;
  _ ← run Command.SweepStale;
  after_first ← st_get lookups_of;
  _ ← each (λ _, run Command.SweepStale) (replicate 10 tt);
  _ ← expect (λ h, lookups_of h =? after_first);
  expect (λ h, same (size (reconciling (h_engine h))) 1%nat)).

(** A flush, and what comes out of it performed. *)
Definition perform_flushed : HM unit := requests ← flush_pending; each harness_perform requests.

Definition an_unanswered_reconciliation_backs_off_rather_than_hammering : result Panic unit :=
  test (with_config (mkConfig limits_default 120000000000 1000000000 5000000000 8000000000)) (
  _ ← scripted "UI-1" Fault.TimeoutButAccepted;
  _ ← submit_place (entry "UI-1" Buy 3);
  _ ← perform_flushed;
  _ ← scripted "UI-1" Fault.TimeoutAndAbsent;
  _ ← perform_flushed;
  after_first ← st_get lookups_of;
  _ ← advance 500000000;
  command ← st_get now_command;
  _ ← send command;
  _ ← perform_flushed;
  _ ← expect (λ h, lookups_of h =? after_first);
  _ ← advance 2000000000;
  command ← st_get now_command;
  _ ← send command;
  _ ← perform_flushed;
  expect (λ h, lookups_of h =? after_first + 1)).

(** Integrity stops. *)
Definition holding (qty : Z) : list VenuePosition := [mkVenuePosition btc (whole qty) (Some (px "100"))].

(** [venue.positions().unwrap()], reported. *)
Definition report_venue : HM unit :=
  positions ← on_venue sim_positions;
  match positions with
  | Some ps => run (positions_reported ps)
  | None => st_fail VenuePanicked
  end.

Definition is_adoption (o : Order) : bool :=
  same (take 6 (inline_as_str (client_order_id (core o)))) (str "ADOPT-").

Definition a_position_we_have_never_traded_is_adopted_at_its_entry_price : result Panic unit := test unconfirmed (
  _ ← forced (holding 7);
  _ ← report_venue;
  _ ← expect (λ h, negb (e_halted (h_engine h)));
  _ ← expect (λ h, same (position_of h) (whole 7));
  _ ← expect (λ h, same (avg_entry (position (bk h) btc)) (Some (px "100")));
  _ ← expect (λ h, match find is_adoption (orders (bk h)) with
                   | Some o => same (state (core o)) Filled && same (Domain.venue_order_id (core o)) None
                   | None => false
                   end);
  _ ← assert_sound;
  _ ← place (protective_exit "SL-1" Sell 99);
  expect (λ h, same (qty_at "SL-1" h) (Some (whole 7)))).

Definition a_position_is_adopted_once_and_then_reconciled_against : result Panic unit := test unconfirmed (
  _ ← forced (holding 7);
  _ ← report_venue;
  _ ← expect (λ h, same (position_of h) (whole 7));
  _ ← report_venue;
  _ ← expect (λ h, same (position_of h) (whole 7));
  _ ← expect (λ h, negb (e_halted (h_engine h)));
  expect (λ h, same (length (orders (bk h))) 1%nat)).

Definition an_unexplained_position_halts_rather_than_being_absorbed : result Panic unit := test new (
  _ ← place (entry "UI-1" Buy 2);
  _ ← filled_by "UI-1" 2 "100";
  _ ← settle;
  _ ← expect (λ h, same (position_of h) (whole 2));
  _ ← forced (holding (-5));
  _ ← report_venue;
  _ ← expect (λ h, e_halted (h_engine h));
  _ ← expect (λ h, same (halted <$> rebuilt h) (Some true));
  _ ← expect (λ h, same (position_of h) (whole 2));
  _ ← place (entry "UI-2" Buy 3);
  expect (λ h, same (order_at "UI-2" h) None)).

Definition an_adopted_position_rebuilds_from_the_log : result Panic unit := test unconfirmed (
  _ ← forced (holding 7);
  _ ← report_venue;
  before ← st_get rebuilt;
  _ ← reopen 900000 false;
  _ ← expect (λ h, same (position_of h) (whole 7));
  _ ← expect (λ h, same (Some (cost_basis (position (bk h) btc))) ((λ b, cost_basis (position b btc)) <$> before));
  expect (λ h, negb (e_halted (h_engine h)))).

Definition an_orphan_execution_is_disowned_and_triggers_a_position_check : result Panic unit := test new (
  _ ← run (Command.Streamed (VenueEvent.Fill (coid "SOMEONE-ELSE") (inline_or_default 40 (str "E-999")) (whole 1) (px "100")));
  _ ← expect (λ h, same (position_of h) ZERO);
  _ ← expect (λ h, negb (e_halted (h_engine h)));
  _ ← place (entry "UI-1" Buy 1);
  _ ← expect (λ h, same (state_at "UI-1" h) (Some Working));
  assert_sound).

Definition a_rejected_order_leaves_no_exposure : result Panic unit := test new (
  _ ← scripted "UI-1" (Fault.Reject (reject_reason_new (-2019) (str "insufficient margin")));
  _ ← place (entry "UI-1" Buy 3);
  _ ← expect (λ h, same (state_at "UI-1" h) (Some Rejected));
  _ ← expect (λ h, same (position_of h) ZERO);
  _ ← place (entry "UI-2" Buy 3);
  _ ← expect (λ h, same (state_at "UI-2" h) (Some Working));
  assert_sound).

Definition a_position_report_during_an_in_flight_order_does_not_halt : result Panic unit := test new (
  _ ← place (entry "UI-1" Buy 3);
  _ ← expect (λ h, same (state_at "UI-1" h) (Some Working));
  _ ← expect (λ h, same (position_of h) ZERO);
  _ ← confirm_positions (holding 3);
  _ ← expect (λ h, negb (halted (bk h)));
  _ ← filled_by "UI-1" 3 "100";
  _ ← settle;
  _ ← expect (λ h, same (position_of h) (whole 3));
  expect (λ h, negb (halted (bk h)))).

Definition a_position_report_with_nothing_in_flight_still_halts : result Panic unit := test new (
  _ ← place (entry "UI-1" Buy 3);
  _ ← filled_by "UI-1" 3 "100";
  _ ← settle;
  _ ← expect (λ h, same (position_of h) (whole 3));
  _ ← expect (λ h, same (live_orders_on (bk h) btc) []);
  _ ← confirm_positions (holding 9);
  expect (λ h, halted (bk h))).

Definition ticks_are_written_at_the_configured_resolution_not_every_tick : result Panic unit :=
  test (with_config (mkConfig limits_default 120000000000 1000000000 5000000000 60000000000)) (
  before ← st_get records_of_kind_ticked;
  _ ← each (λ _, tick 1000000000) (replicate 20 tt);
  _ ← expect (λ h, let written := (records_of_kind_ticked h - before)%nat in
                   (3 <=? written)%nat && (written <=? 5)%nat);
  expect (λ h, u64_saturate (h_clock h - Book.now (bk h)) <=? 5000000000)).

Definition silence_still_writes_a_tick_so_deadlines_keep_moving : result Panic unit := test new (
  before ← st_get records_of_kind_ticked;
  _ ← tick 30000000000;
  _ ← expect (λ h, (before <? records_of_kind_ticked h)%nat);
  expect (λ h, Book.now (bk h) =? h_clock h)).

Definition an_entry_is_refused_until_the_venue_confirms_the_position : result Panic unit := test unconfirmed (
  _ ← place (entry "UI-1" Buy 3);
  _ ← expect (λ h, same (order_at "UI-1" h) None);
  _ ← confirm_positions [];
  _ ← place (entry "UI-2" Buy 3);
  expect (λ h, negb (same (order_at "UI-2" h) None))).

Definition an_exit_is_allowed_before_the_venue_confirms_anything : result Panic unit := test unconfirmed (
  _ ← confirm_positions (holding 4);
  _ ← expect (λ h, same (position_of h) (whole 4));
  _ ← place (protective_exit "X-1" Sell 4);
  expect (λ h, negb (same (order_at "X-1" h) None))).

Definition the_sweep_asks_the_venue_what_the_account_holds : result Panic unit := test unconfirmed (
  _ ← send Command.SweepStale;
  requests ← flush_pending;
  expect (λ _, existsb (λ r, match r with VenueRequest.Positions => true | _ => false end) requests)).

Definition an_entry_past_the_position_cap_is_refused_not_resized : result Panic unit :=
  test (with_config (mkConfig (mkLimits (Some (whole 5)) false) 120000000000 1000000000 5000000000 60000000000)) (
  _ ← place (entry "UI-1" Buy 9);
  _ ← expect (λ h, same (order_at "UI-1" h) None);
  _ ← place (entry "UI-2" Buy 5);
  expect (λ h, same (state_at "UI-2" h) (Some Working))).

(** R1.14, end to end. *)
Definition r1_14_the_compound_failure_chain : result Panic unit := test new (
  _ ← scripted "UI-1" Fault.TimeoutButAccepted;
  _ ← place (entry "UI-1" Buy 10);
  _ ← expect (λ h, submits_of h =? 1);
  _ ← expect (λ h, same (state_at "UI-1" h) (Some Working));
  _ ← assert_sound;
  _ ← filled_by "UI-1" 3 "109432.5";
  _ ← settle;
  _ ← filled_by "UI-1" 2 "109440";
  _ ← settle;
  _ ← expect (λ h, same (filled_at "UI-1" h) (Some (whole 5)));
  _ ← expect (λ h, same (position_of h) (whole 5));
  _ ← send (Command.Cancel (coid "UI-1") 0x6440ba96);
  _ ← flush_pending;
  _ ← expect (λ h, same (state_at "UI-1" h) (Some CancelPending));
  _ ← filled_by "UI-1" 2 "109450";
  _ ← settle;
  _ ← expect (λ h, same (filled_at "UI-1" h) (Some (whole 7)));
  _ ← expect (λ h, same (position_of h) (whole 7));
  before ← st_get rebuilt;
  _ ← reopen 500000 true;
  _ ← expect (λ h, j_epoch (journal (h_engine h)) =? 2);
  _ ← expect (λ h, same (Some (position_of h)) ((λ b, pos_qty (position b btc)) <$> before));
  _ ← expect (λ h, same (Some (all_fills (bk h))) (all_fills <$> before));
  _ ← expect (λ h, same (core <$> order_at "UI-1" h) (core <$> (before ≫= λ b, order b (coid "UI-1"))));
  _ ← expect (λ h, same (position_of h) (whole 7));
  _ ← filled_by "UI-1" 1 "109460";
  _ ← settle;
  _ ← tick 200000000000;
  _ ← run Command.SweepStale;
  _ ← expect (λ h, same (position_of h) (whole 8));
  _ ← expect (λ h, same (qty_at "UI-1" h) (Some (whole 10)));
  _ ← expect (λ h, same (length (orders (bk h))) 1%nat);
  _ ← assert_sound;
  _ ← place (protective_exit "SL-1" Sell 99);
  expect (λ h, same (qty_at "SL-1" h) (Some (whole 8)))).

(** Group commit. *)
Definition ids : list string := ["UI-0"; "UI-1"; "UI-2"; "UI-3"; "UI-4"; "UI-5"; "UI-6"; "UI-7"]%string.

Definition a_batch_of_commands_shares_one_fsync : result Panic unit := test new (
  _ ← each (λ id, submit_place (entry id Buy 1)) ids;
  _ ← expect (λ h, 8 <=? j_buffered_records (journal (h_engine h)));
  flushes_before ← st_get (λ h, st_flushes (j_stats (journal (h_engine h))));
  _ ← flush_pending;
  expect (λ h, st_flushes (j_stats (journal (h_engine h))) =? flushes_before + 1)).

Definition requests_are_released_only_by_the_flush : result Panic unit := test new (
  _ ← submit_place (entry "UI-1" Buy 3);
  _ ← submit_place (entry "UI-2" Buy 3);
  _ ← expect (λ h, submits_of h =? 0);
  requests ← flush_pending;
  expect (λ _, match requests with [VenueRequest.Submit _] => true | _ => false end)).

(** The same script twice: the model's [run] is a function, so the second run is
    the first. *)
Definition scripted_book : option Book :=
  let body : HM (option Book) :=
    _ ← scripted "UI-1" Fault.TimeoutButAccepted;
    _ ← place (entry "UI-1" Buy 10);
    _ ← filled_by "UI-1" 4 "100";
    _ ← settle;
    _ ← tick 200000000000;
    _ ← run Command.SweepStale;
    st_get rebuilt in
  h ← ok new;
  b ← ok (body h).2;
  b.

(** ** The suite *)

Definition suite : list (result Panic unit) :=
  [r1_1_intent_is_durable_before_submission;
   r1_1_a_crash_before_submission_is_recoverable;
   r1_2_a_replayed_place_creates_no_duplicate;
   r1_2_a_duplicate_execution_is_absorbed;
   r1_3_a_timeout_is_reconciled_never_resubmitted;
   r1_3_a_timeout_that_was_absent_resolves_to_nothing;
   r1_4_an_unknown_order_blocks_new_entries;
   r1_5_partial_fills_account_exactly;
   r1_6_a_fill_during_cancel_pending_is_accounted;
   r1_7_a_late_fill_is_reconciled_not_dropped;
   r1_9_a_second_entry_on_a_live_one_is_refused;
   r1_10_an_oversized_exit_is_clamped_not_refused;
   r1_10_a_second_exit_is_bounded_by_what_the_first_already_covers;
   r1_13_a_halt_does_not_disarm_the_stops;
   a_lost_fill_is_found_by_the_sweep_and_not_before;
   the_sweep_does_not_storm_a_venue_that_is_not_answering;
   an_unanswered_reconciliation_backs_off_rather_than_hammering;
   a_position_we_have_never_traded_is_adopted_at_its_entry_price;
   a_position_is_adopted_once_and_then_reconciled_against;
   an_unexplained_position_halts_rather_than_being_absorbed;
   an_adopted_position_rebuilds_from_the_log;
   an_orphan_execution_is_disowned_and_triggers_a_position_check;
   a_rejected_order_leaves_no_exposure;
   a_position_report_during_an_in_flight_order_does_not_halt;
   a_position_report_with_nothing_in_flight_still_halts;
   ticks_are_written_at_the_configured_resolution_not_every_tick;
   silence_still_writes_a_tick_so_deadlines_keep_moving;
   an_entry_is_refused_until_the_venue_confirms_the_position;
   an_exit_is_allowed_before_the_venue_confirms_anything;
   the_sweep_asks_the_venue_what_the_account_holds;
   an_entry_past_the_position_cap_is_refused_not_resized;
   r1_14_the_compound_failure_chain;
   a_batch_of_commands_shares_one_fsync;
   requests_are_released_only_by_the_flush].

(** Every assertion of every test holds. *)
Example acceptance_suite_passes : suite = replicate 34 (Ok tt).
Proof. vm_compute. reflexivity. Qed.

Example scripted_book_rebuilds : (λ b, pos_qty (position b btc)) <$> scripted_book = Some (whole 4).
Proof. vm_compute. reflexivity. Qed.

(** ** Every script *)

(** What a test can do: a command, a flush, a request performed, the world run
    until it settles, the stream pumped, anything at all done at the venue, time. *)
Inductive Action :=
| Does (c : Command.t)
| Flushes
| Performs (r : VenueRequest.t)
| Settles
| Pumps
| AtVenue (f : SimVenue → SimVenue)
| Advances (by_nanos : Z).

Definition act (a : Action) : HM unit :=
  match a with
  | Does c => send c
  | Flushes => _ ← flush_pending; mret tt
  | Performs r => harness_perform r
  | Settles => settle
  | Pumps => pump_stream
  | AtVenue f => st_modify (λ h, set_sim (f (h_venue h)) h)
  | Advances n => advance n
  end.

(** Values are of their types, and no cancel is sent to an order that cannot
    take one. *)
Definition fair (a : Action) (h : Harness) : Prop :=
  match a with
  | Does c => wf_command c ∧ cancel_legal (h_engine h) c
  | Performs r => wf_request r
  | AtVenue f => ∀ v, sim_ok v → sim_ok (f v)
  | _ => True
  end.

Inductive scripted_run (h0 : Harness) : Harness → Prop :=
| script_start : scripted_run h0 h0
| script_act a h h' : scripted_run h0 h → fair a h → act a h = (h', Ok tt) → scripted_run h0 h'.

Definition held (h : Harness) : Prop := wf_engine (h_engine h) ∧ sim_ok (h_venue h).

(** A clean run of the engine, and the harness stays well typed. *)
Definition clean_step (h h' : Harness) : Prop := clean_run (h_engine h) (h_engine h') ∧ held h'.

Lemma clean_step_trans h1 h2 h3 : clean_step h1 h2 → clean_step h2 h3 → clean_step h1 h3.
Proof.
  intros [Ha _] [Hb H3]. split; [|done]. clear -Ha Hb.
  induction Ha; [done|eapply clean_submit; eauto|eapply clean_flush; eauto].
Qed.

(** Such is the action when it succeeds, and its result satisfies [Q]. *)
Definition cleanly_at {A} (h : Harness) (m : HM A) (Q : A → Prop) : Prop := ∀ h' a,
  m h = (h', Ok a) → clean_step h h' ∧ Q a.
Definition cleanly {A} (m : HM A) (Q : A → Prop) : Prop := ∀ h, held h → cleanly_at h m Q.

Lemma cleanly_bind {A B} (m : HM A) (f : A → HM B) (P : A → Prop) (Q : B → Prop) :
  cleanly m P → (∀ a, P a → cleanly (f a) Q) → cleanly (m ≫= f) Q.
Proof.
  intros Hm Hf h Hh h' b E. apply st_bind_Ok in E as (h1 & a & Ea & E).
  destruct (Hm h Hh h1 a Ea) as [H1 Ha]. destruct (Hf a Ha h1 (proj2 H1) h' b E) as [H2 Hb].
  split; [by eapply clean_step_trans|done].
Qed.
Lemma cleanly_ret {A} (a : A) (Q : A → Prop) : Q a → cleanly (mret a) Q.
Proof. intros Ha h Hh h' x [= <- <-]. split; [split; [constructor|done]|done]. Qed.
Lemma cleanly_fail {A} e (Q : A → Prop) : cleanly (st_fail e) Q.
Proof. by intros h Hh h' x. Qed.
Lemma cleanly_each {A} (f : A → HM unit) (P : A → Prop) l :
  (∀ x, P x → cleanly (f x) (λ _, True)) → Forall P l → cleanly (each f l) (λ _, True).
Proof.
  intros Hf. induction 1 as [|x l Hx _ IH]; cbn [each]; [by apply cleanly_ret|].
  eapply cleanly_bind; [by apply Hf|intros; exact IH].
Qed.

Lemma send_clean c h :
  held h → wf_command c → cancel_legal (h_engine h) c → cleanly_at h (send c) (λ _, True).
Proof.
  intros [He Hv] Hc Hl h' a E. split; [|done]. unfold send, on_engine in E.
  pose proof (submit_keeps_wf c _ Hc He) as He'.
  destruct (submit c (h_engine h)) as [e [[]|err]] eqn:Es; [|done]. injection E as <- _.
  split; [|by split]. eapply clean_submit; [done|done|exact Es|constructor].
Qed.

Lemma cleanly_send c : wf_command c → not_cancel c = true → cleanly (send c) (λ _, True).
Proof. intros Hc Hn h Hh. apply send_clean; [done|done|]. by destruct c. Qed.

Lemma cleanly_flush : cleanly flush_pending (Forall wf_request).
Proof.
  intros h [He Hv] h' out E. unfold flush_pending, on_engine in E.
  destruct (engine_flush IoOk (h_engine h)) as [e [o|err]] eqn:Ef; [|done]. injection E as <- <-.
  destruct (flush_releases _ _ _ _ He Ef) as [He' Ho]. split; [|done]. split; [|by split].
  eapply clean_flush; [exact Ef|constructor].
Qed.

Lemma cleanly_drain : cleanly drain_venue (Forall wf_venue_event).
Proof.
  intros h [He [H1 H2 H3 H4 H5]] h' l [= <- <-]. split; [|done]. split; [constructor|]. split; [done|by split].
Qed.

Lemma cleanly_on_venue {A} (m : SM A) (Q : A → Prop) :
  sim_gives m Q → cleanly (on_venue m) (λ o, ∀ a, o = Some a → Q a).
Proof.
  intros Hm h [He Hv] h' o E. destruct (Hm _ Hv) as [Hv' Ha]. unfold on_venue in E.
  destruct (m (h_venue h)) as [v [a|[e|]]]; [| |done]; injection E as <- <-;
    (split; [split; [constructor|by split]|]); [|done]. intros x [= <-]. by apply Ha.
Qed.

Lemma cleanly_answer {A} (m : SM A) command (Q : A → Prop) :
  sim_gives m Q → (∀ a, Q a → wf_command (command a)) → (∀ a, not_cancel (command a) = true) →
  cleanly (answer m command) (λ _, True).
Proof.
  intros Hm Hq Hn. eapply cleanly_bind; [by apply cleanly_on_venue|]. intros [a|] Ha; [|by apply cleanly_ret].
  by apply cleanly_send; [apply Hq, Ha|].
Qed.

Lemma cleanly_perform r : wf_request r → cleanly (harness_perform r) (λ _, True).
Proof.
  intros Hr. destruct r as [i|c k|c|]; cbn [harness_perform].
  - eapply cleanly_answer; [by apply sim_submit_ok; apply Hr|by intros|done].
  - eapply cleanly_answer; [by apply sim_cancel_ok|by intros|done].
  - eapply cleanly_answer; [by apply sim_lookup_ok|by intros|done].
  - eapply cleanly_answer; [apply sim_positions_ok|apply reported_ok|done].
Qed.

Lemma cleanly_streamed e : wf_venue_event e → cleanly (streamed e) (λ _, True).
Proof. intros He. by apply cleanly_send. Qed.

Lemma cleanly_settle n : cleanly (settle_loop n) (λ _, True).
Proof.
  induction n as [|n IH]; cbn [settle_loop]; [apply cleanly_fail|].
  eapply cleanly_bind; [apply cleanly_flush|]. intros requests Hr.
  eapply cleanly_bind; [apply cleanly_drain|]. intros events He.
  assert (cleanly (_ ← each harness_perform requests; _ ← each streamed events; settle_loop n) (λ _, True)) as Hm.
  { eapply cleanly_bind; [by eapply cleanly_each; [apply cleanly_perform|]|]. intros _ _.
    eapply cleanly_bind; [by eapply cleanly_each; [apply cleanly_streamed|]|]. intros _ _. exact IH. }
  destruct requests, events; [by apply cleanly_ret|exact Hm..].
Qed.

Lemma act_clean a h : held h → fair a h → cleanly_at h (act a) (λ _, True).
Proof.
  intros Hh Hf. destruct a as [c| |r| | |f|n]; cbn [act fair] in *.
  - destruct Hf. by apply send_clean.
  - revert h Hh Hf. intros h Hh _. revert h Hh.
    eapply cleanly_bind; [apply cleanly_flush|]. intros. by apply cleanly_ret.
  - by apply cleanly_perform.
  - by apply cleanly_settle.
  - revert Hh. clear Hf. revert h. eapply cleanly_bind; [apply cleanly_drain|]. intros l Hl.
    by eapply cleanly_each; [apply cleanly_streamed|].
  - intros h' u [= <- _]. destruct Hh as [He Hv]. split; [|done]. split; [constructor|]. split; [done|by apply Hf].
  - intros h' u [= <- _]. split; [split; [constructor|exact Hh]|done].
Qed.

Lemma scripted_clean h0 h : scripted_run h0 h → held h0 → clean_step h0 h.
Proof.
  intros Hs Hh0. induction Hs as [|a h h' _ IH Hf Ha]; [split; [constructor|done]|].
  eapply clean_step_trans; [exact IH|]. by eapply (act_clean a h (proj2 IH) Hf).
Qed.

(** The harness at its start. *)
Lemma open_engine_eq dir now cfg :
  open_engine dir now cfg = map_err OpenUnwrap (engine_open false IoOk FUEL FUEL dir now cfg).2.
Proof. reflexivity. Qed.

Lemma open_engine_mirror cfg e :
  open_engine [] 1000 cfg = Ok e → opt_ok (max_position (limits cfg)) → ∃ gs, mirror e gs [].
Proof.
  intros E Hcap.
  destruct (fresh_opens 1000 cfg FUEL) as (d & e' & gs & Ho & Hm); [split; [lia|done]|done|unfold FUEL; lia|].
  rewrite open_engine_eq, Ho in E. injection E as <-. by exists gs.
Qed.

Lemma confirm_clean : cleanly (confirm_positions []) (λ _, True).
Proof. eapply cleanly_bind; [apply cleanly_send; [by apply reported_ok|done]|intros; apply cleanly_settle]. Qed.

#[local] Opaque confirm_positions open_engine.

Lemma with_config_Ok cfg h0 :
  with_config cfg = Ok h0 →
  ∃ e u, open_engine [] 1000 cfg = Ok e ∧ confirm_positions [] (mkHarness e sim_new 1000) = (h0, Ok u).
Proof.
  unfold with_config, unconfirmed_with. destruct (open_engine [] 1000 cfg) as [e|] eqn:He; [|done].
  cbn [mbind result_bind]. destruct (confirm_positions [] _) as [h2 [u|p]] eqn:Hc; [|done].
  intros [= <-]. exists e, u. split; [reflexivity|exact Hc].
Qed.

(** C15: the log is the book in every script, not only in those of the suite. Whatever a test does
    with the harness, any commands, flushes, requests performed in any order,
    executions and faults at the venue, time, as long as nothing panics, its
    values are of their types and no order is asked to cancel that cannot: when
    nothing is pending, reading the directory from its first byte and folding it
    gives the book of the running engine, so the second half of [assert_sound]
    holds in any test whose log the harness's pass can hold. *)
Theorem every_script_rebuilds (cfg : Config) (h0 h : Harness) :
  with_config cfg = Ok h0 → opt_ok (max_position (limits cfg)) → scripted_run h0 h →
  j_buffered_records (journal (h_engine h)) = 0 → j_next_seq (journal (h_engine h)) < Z.of_nat FUEL →
  rebuilt h = Some (bk h).
Proof.
  intros (e & u & He & Hc)%with_config_Ok Hcap Hs Hbuf Hmax.
  destruct (open_engine_mirror cfg e He Hcap) as [gs Hm].
  assert (held (mkHarness e sim_new 1000)) as Hh by (split; [exact (mi_wf _ _ _ Hm)|apply sim_new_ok]).
  destruct (confirm_clean _ Hh _ _ Hc) as [H2 _].
  pose proof (scripted_clean _ _ Hs (proj2 H2)) as H3.
  destruct (clean_step_trans _ _ _ H2 H3) as [Hrun _]. cbn [h_engine] in Hrun.
  destruct (clean_run_mirror _ _ _ _ Hrun Hm) as (gs' & ps' & Hm' & _).
  { unfold FUEL in Hmax. unfold u64_max. lia. }
  pose proof Hm' as [Hw _ _ _ Hfold]. rewrite (wi_count _ _ _ Hw) in Hbuf.
  assert (ps' = []) as -> by by destruct ps'. rewrite app_nil_r in Hfold.
  pose proof (wi_next _ _ _ Hw) as Hn. rewrite app_nil_r in Hn.
  pose proof (groups_count gs' 1 (wi_groups _ _ _ Hw)) as Hg.
  destruct (rebuild_durable _ _ _ FUEL FUEL Hw Hfold) as (t & Ho & Hr); [lia..|unfold u64_max; unfold FUEL in *; lia|].
  unfold rebuilt, rebuild_dir.
  rewrite Ho.
  rewrite Hr.
  reflexivity.
Qed.

(** The lost fill of the suite, as a script. *)
Definition ex_script : list Action :=
  [AtVenue (script (coid "UI-1") Fault.AcceptButSilent);
   Does (Command.Place (unwrap_or (entry "UI-1" Buy 3) ex_intent)); Settles;
   AtVenue (λ v, (sim_fill (coid "UI-1") (whole 3) (px "100") v).1);
   Advances 200000000000; Does (Command.Tick 200000001000); Does Command.SweepStale; Settles].
Fixpoint run_script (l : list Action) (h : Harness) : option Harness :=
  match l with
  | [] => Some h
  | a :: l' => match act a h with (h', Ok _) => run_script l' h' | _ => None end
  end.

Lemma acted_run l h0 : ∀ h h',
  Forall (λ a, ∀ x, fair a x) l → scripted_run h0 h → run_script l h = Some h' → scripted_run h0 h'.
Proof.
  induction l as [|a l IH]; intros h h' Hl Hs E; cbn [run_script] in E; [by injection E as <-|].
  apply Forall_cons in Hl as [Ha Hl]. destruct (act a h) as [h1 [[]|p]] eqn:Ea; [|done].
  eapply IH; [done| |exact E]. eapply script_act; [exact Hs|apply Ha|exact Ea].
Qed.

Definition ex_harness : Harness := unwrap_or new (mkHarness ex_engine sim_new 0).
Definition ex_recovered : Harness := default ex_harness (run_script ex_script ex_harness).

Lemma ex_harness_new : new = Ok ex_harness.
Proof.
  assert (match new with Ok _ => true | Err _ => false end = true) as E by (vm_compute; reflexivity).
  unfold ex_harness. by destruct new.
Qed.

Lemma ex_script_runs : run_script ex_script ex_harness = Some ex_recovered.
Proof.
  assert (match run_script ex_script ex_harness with Some _ => true | None => false end = true) as E
    by (vm_compute; reflexivity).
  unfold ex_recovered. by destruct (run_script ex_script ex_harness).
Qed.

Lemma ex_script_intent_ok : intent_ok (unwrap_or (entry "UI-1" Buy 3) ex_intent).
Proof. split; try (vm_compute; first [done | split; congruence]); by apply text_ok_default. Qed.

Lemma ex_script_fair : Forall (λ a, ∀ x, fair a x) ex_script.
Proof.
  unfold ex_script. repeat apply Forall_cons_2; try apply Forall_nil_2; intros x; cbn [fair]; try done.
  - intros v. by apply sim_script_ok.
  - split; [apply ex_script_intent_ok|done].
  - intros v Hv. apply sim_fill_ok; [by apply text_ok_default|vm_compute; split; congruence..|exact Hv].
Qed.

Lemma every_script_rebuilds_witness :
  pos_qty (position (bk ex_recovered) btc) = whole 3 ∧ rebuilt ex_recovered = Some (bk ex_recovered).
Proof.
  split; [vm_compute; reflexivity|].
  apply (every_script_rebuilds config_default ex_harness ex_recovered).
  - exact ex_harness_new.
  - exact I.
  - apply (acted_run ex_script ex_harness ex_harness); [exact ex_script_fair|constructor|exact ex_script_runs].
  - vm_compute. reflexivity.
  - vm_compute. reflexivity.
Defined.
