(* ===== verification/LedgerSuite.v ===== *)
(** * The tests of the book (sentinel-ledger/src/tests.rs)

    The ledger's own tests, translated with their fixture and run on the model:
    every record goes through the journal to the book, and the log is folded
    again through the tailer. *)

From S2P Require Import Prelude Fixed Types Domain Intent Position Format Codec Records Segment Journal Tailer Book Invariants Open Acceptance.

(** ** The fixture *)

Record Fixture := mkFixture { fx_journal : Journal; fx_book : Book; fx_clock : Z }.

Inductive FixturePanic :=
| JournalUnwrap (e : JournalError.t)
| ApplyUnwrap (e : LedgerError.t)
| ApplyAccepted
| RebuildUnwrap
| Unexpected.

Abbreviation FM := (ST Fixture FixturePanic).

Definition set_fx_book (b : Book) (f : Fixture) : Fixture := mkFixture (fx_journal f) b (fx_clock f).
Definition set_fx_journal (j : Journal) (f : Fixture) : Fixture := mkFixture j (fx_book f) (fx_clock f).
Definition fx_rebuilt (f : Fixture) : option Book := rebuild_dir (j_dir (fx_journal f)).

Definition fixture_new : result FixturePanic Fixture :=
  journal ← map_err JournalUnwrap (claim false IoOk [] 1).2;
  book ← ok_or (rebuild_dir (j_dir journal)) RebuildUnwrap;
  Ok (mkFixture journal book 1000).

(** [stamp]: the states of a lifecycle record, from the book. *)
Definition fx_stamp (record : Rec.t) (f : Fixture) : Rec.t :=
  match record with
  | Rec.OrderEvent c trace_id _ _ _ event =>
      let existing := core <$> order (fx_book f) c in
      let from_state := match existing with Some o => state o | None => Created end in
      let next := existing ≫= λ o, ok (transition o event) in
      let to_state := match next with Some o => state o | None => from_state end in
      Rec.OrderEvent c trace_id from_state to_state
        (negb (Intent.is_some existing) || Intent.is_some next) event
  | _ => record
  end.

(** Append the record, make it durable, apply it: what [feed], [feed_err] and
    [tick] share. *)
Definition fx_write (by_nanos : Z) (record : Rec.t) : FM (result LedgerError.t Applied) := λ f,
  let now := fx_clock f + by_nanos in
  let payload := encode record in
  match append_and_flush IoOk (rec_kind record) now payload (fx_journal f) with
  | (j, Err e) => (mkFixture j (fx_book f) now, Err (JournalUnwrap e))
  | (j, Ok seq) =>
      let header := mkFrameHeader seq (j_epoch j) now (rec_kind record) (Z.of_nat (length payload)) in
      let '(b, applied) := apply header record (fx_book f) in
      (mkFixture j b now, Ok applied)
  end.

Definition feed (record : Rec.t) : FM Applied :=
  record ← st_get (fx_stamp record);
  applied ← fx_write 1000000 record;
  st_lift (map_err ApplyUnwrap applied).

Definition feed_err (record : Rec.t) : FM LedgerError.t :=
  record ← st_get (fx_stamp record);
  applied ← fx_write 1000000 record;
  match applied with Err e => mret e | Ok _ => st_fail ApplyAccepted end.

Definition fx_tick (by_nanos : Z) : FM unit :=
  applied ← fx_write by_nanos Rec.Ticked;
  _ ← st_lift (map_err ApplyUnwrap applied);
  mret tt.

Definition fx_expect (p : Fixture → bool) : FM unit :=
  ok ← st_get p;
  if ok : bool then mret tt else st_fail Unexpected.

Definition fx_test (body : FM unit) : result FixturePanic unit := f ← fixture_new; (body f).2.

(** ** Records *)

Definition intent_record (intent : result IntentError Intent.t) : Rec.t :=
  match intent with Ok i => Rec.IntentPersisted i | Err _ => Rec.Ticked end.
Definition fx_entry (id : string) (side : Side) (qty : Z) : Rec.t := intent_record (entry id side qty).
Definition fx_exit (id : string) (side : Side) (qty : Z) : Rec.t := intent_record (protective_exit id side qty).

(** The states are filled in by [feed]. *)
Definition fx_event (id : string) (event : OrderEvent) : Rec.t :=
  Rec.OrderEvent (coid id) 0x6440ba96 Created Created true event.
Definition fx_ack (id venue : string) : Rec.t := fx_event id (VenueAcked (inline_or_default 32 (str venue))).
Definition fx_fill (id exec : string) (qty : Z) (price : string) : Rec.t :=
  fx_event id (FillReceived (inline_or_default 40 (str exec)) (whole qty) (px price)).

Definition feeds (l : list Rec.t) : FM unit := 
  (fix go l := match l with [] => mret tt | r :: l' => _ ← feed r; go l' end) l.

Definition working (id : string) (side : Side) (qty : Z) : FM unit :=
  feeds [fx_entry id side qty; fx_event id SubmissionStarted; fx_ack id "V-1"].
Definition working_exit (id : string) (side : Side) (qty : Z) : FM unit :=
  feeds [fx_exit id side qty; fx_event id SubmissionStarted; fx_ack id "V-2"].

Definition fed (record : Rec.t) (applied : Applied) : FM unit :=
  a ← feed record;
  if same a applied then mret tt else st_fail Unexpected.

Definition sound (f : Fixture) : bool := holds (check (fx_book f)).
Definition fx_order (id : string) (f : Fixture) : option Order := order (fx_book f) (coid id).
Definition fx_state (id : string) (f : Fixture) : option OrderState := (λ o, state (core o)) <$> fx_order id f.
Definition fx_filled (id : string) (f : Fixture) : option Qty := (λ o, filled_qty (core o)) <$> fx_order id f.
Definition fx_position (f : Fixture) : Position := position (fx_book f) btc.
Definition rebuilt_qty (f : Fixture) : option Qty := (λ b, pos_qty (position b btc)) <$> fx_rebuilt f.

(** ** The tests *)

Definition an_intent_creates_an_order_in_created := fx_test (
  _ ← fed (fx_entry "UI-1" Buy 3) Changed;
  _ ← fx_expect (λ f, match fx_order "UI-1" f with
        | Some o => same (state (core o)) Created && same (qty (core o)) (whole 3) &&
                    same (o_authority o) Entry && same (o_kind o) Market
        | None => false
        end);
  fx_expect sound).

Definition fills_move_the_order_and_the_position_together := fx_test (
  _ ← working "UI-1" Buy 4;
  _ ← feeds [fx_fill "UI-1" "E-1" 1 "100"; fx_fill "UI-1" "E-2" 3 "104"];
  _ ← fx_expect (λ f, same (fx_state "UI-1" f) (Some Filled));
  _ ← fx_expect (λ f, same (fx_filled "UI-1" f) (Some (whole 4)));
  _ ← fx_expect (λ f, same (pos_qty (fx_position f)) (whole 4));
  _ ← fx_expect (λ f, same (cost_basis (fx_position f)) (money "412"));
  fx_expect sound).

Definition r1_2_a_duplicate_fill_moves_nothing := fx_test (
  _ ← working "UI-1" Buy 4;
  _ ← feeds [fx_fill "UI-1" "E-1" 2 "100"];
  before_order ← st_get (fx_order "UI-1");
  before_position ← st_get fx_position;
  _ ← fed (fx_fill "UI-1" "E-1" 2 "100") Duplicate;
  _ ← fx_expect (λ f, same (fx_order "UI-1" f) before_order);
  _ ← fx_expect (λ f, same (fx_position f) before_position);
  _ ← fx_expect (λ f, same (fill_count (fx_book f)) 1%nat);
  fx_expect sound).

Definition r1_2_a_replayed_intent_creates_no_second_order := fx_test (
  _ ← feeds [fx_entry "UI-1" Buy 3];
  _ ← fed (fx_entry "UI-1" Buy 3) Duplicate;
  fx_expect (λ f, same (length (orders (fx_book f))) 1%nat)).

Definition r1_2_idempotency_survives_a_restart := fx_test (
  _ ← working "UI-1" Buy 4;
  _ ← feeds [fx_fill "UI-1" "E-1" 2 "100"];
  _ ← fx_expect (λ f, same (fill_count <$> fx_rebuilt f) (Some 1%nat));
  _ ← fx_expect (λ f, same (rebuilt_qty f) (Some (whole 2)));
  _ ← fed (fx_fill "UI-1" "E-1" 2 "100") Duplicate;
  fx_expect (λ f, same (rebuilt_qty f) (Some (whole 2)))).

Definition r1_4_an_unprovable_submission_locks_the_instrument := fx_test (
  let locked f := instrument_locked (fx_book f) btc in
  _ ← feeds [fx_entry "UI-1" Buy 3; fx_event "UI-1" SubmissionStarted];
  _ ← fx_expect (λ f, negb (locked f));
  _ ← feeds [fx_event "UI-1" SubmissionTimedOut];
  _ ← fx_expect locked;
  _ ← fx_expect (λ f, same ((λ o, client_order_id (core o)) <$> locking_order (fx_book f) btc) (Some (coid "UI-1")));
  _ ← feeds [fx_event "UI-1" (ReconcileStarted SubmissionTimeout)];
  _ ← fx_expect locked;
  _ ← feeds [fx_event "UI-1" (ReconcileResolved Canceled None ZERO)];
  fx_expect (λ f, negb (locked f))).

Definition r1_7_a_late_fill_is_reported_rather_than_applied := fx_test (
  _ ← working "UI-1" Buy 2;
  _ ← feeds [fx_fill "UI-1" "E-1" 2 "100"];
  _ ← fx_expect (λ f, same (fx_state "UI-1" f) (Some Filled));
  _ ← fed (fx_fill "UI-1" "E-2" 1 "101") (NeedsReconciliation (coid "UI-1"));
  _ ← fx_expect (λ f, same (pos_qty (fx_position f)) (whole 2));
  _ ← fx_expect (λ f, same (rebuilt_qty f) (Some (whole 2)));
  fx_expect sound).

Definition r1_10_committed_exit_quantity_is_visible := fx_test (
  let committed f := committed_to_exits (fx_book f) btc in
  _ ← working "UI-1" Buy 10;
  _ ← feeds [fx_fill "UI-1" "E-1" 10 "100"];
  _ ← fx_expect (λ f, same (pos_qty (fx_position f)) (whole 10));
  _ ← fx_expect (λ f, same (committed f) ZERO);
  _ ← working_exit "SL-1" Sell 4;
  _ ← fx_expect (λ f, same (committed f) (whole 4));
  _ ← feeds [fx_fill "SL-1" "E-2" 1 "101"];
  _ ← fx_expect (λ f, same (committed f) (whole 3));
  _ ← fx_expect (λ f, same (pos_qty (fx_position f)) (whole 9));
  fx_expect sound).

Definition r1_10_exits_beyond_the_position_are_a_violation := fx_test (
  _ ← working "UI-1" Buy 2;
  _ ← feeds [fx_fill "UI-1" "E-1" 2 "100"; fx_exit "SL-1" Sell 2; fx_event "SL-1" SubmissionStarted;
             fx_ack "SL-1" "V-2"; fx_exit "SL-2" Sell 2; fx_event "SL-2" SubmissionStarted; fx_ack "SL-2" "V-3"];
  _ ← fx_expect (λ f, negb (sound f));
  fx_expect (λ f, existsb (λ v, match v with
    | ExitsExceedPosition _ exits p => same exits (whole 4) && same p (whole 2)
    | _ => false
    end) (violations (check (fx_book f))))).

Definition r1_11_a_rebuild_equals_the_live_book := fx_test (
  _ ← working "UI-1" Buy 10;
  _ ← feeds [fx_fill "UI-1" "E-1" 3 "100"; fx_fill "UI-1" "E-2" 2 "102"; fx_event "UI-1" CancelRequested;
             fx_fill "UI-1" "E-3" 2 "103"; fx_event "UI-1" CancelConfirmed];
  _ ← working_exit "SL-1" Sell 7;
  _ ← feeds [Rec.Mark btc (px "109432.5"); Rec.Balance (inline_or_default 8 (str "USD")) (money "5942.65")];
  _ ← fx_expect (λ f, same (fx_rebuilt f) (Some (fx_book f)));
  fx_expect (λ f, match fx_rebuilt f with Some b => holds (check b) | None => false end)).

(** [rebuilt] is a function of the directory: twice the same by construction. *)
Definition r1_11_rebuilding_is_deterministic := fx_test (
  _ ← working "UI-1" Buy 5;
  _ ← feeds [fx_fill "UI-1" "E-0" 1 "100"; fx_fill "UI-1" "E-1" 2 "100"; fx_fill "UI-1" "E-2" 2 "100"];
  fx_expect (λ f, same (fx_rebuilt f) (fx_rebuilt f) && Intent.is_some (fx_rebuilt f))).

Definition r1_11_a_restart_resumes_the_book_and_the_sequence := fx_test (
  _ ← working "UI-1" Buy 5;
  _ ← feeds [fx_fill "UI-1" "E-1" 2 "100"];
  fx_expect (λ f,
    match fx_rebuilt f, (claim false IoOk (j_dir (fx_journal f)) 9000) with
    | Some before, (dir, Ok journal) =>
        match rebuild_dir dir with
        | Some after =>
            (j_epoch journal =? 2) && same (pos_qty (position after btc)) (whole 2) &&
            same ((λ o, filled_qty (core o)) <$> order after (coid "UI-1")) (Some (whole 2)) &&
            (b_last_seq before <? b_last_seq after) && (Book.epoch after =? 2)
        | None => false
        end
    | _, _ => false
    end)).

Definition one_minute : Z := 60000000000.

Definition only_venue_evidence_counts_as_the_venue_having_spoken := fx_test (
  let stale f := stale_orders (fx_book f) (2 * one_minute) in
  _ ← working "UI-1" Buy 5;
  _ ← fx_tick (3 * one_minute);
  _ ← fx_expect (λ f, same (stale f) [coid "UI-1"]);
  _ ← feeds [fx_event "UI-1" CancelRequested];
  _ ← fx_expect (λ f, same (stale f) [coid "UI-1"]);
  _ ← feeds [fx_fill "UI-1" "E-1" 1 "100"];
  fx_expect (λ f, same (stale f) [])).

Definition an_order_already_reconciling_is_not_swept_again := fx_test (
  _ ← working "UI-1" Buy 5;
  _ ← feeds [fx_event "UI-1" (ReconcileStarted StaleSweep)];
  _ ← fx_tick 600000000000;
  fx_expect (λ f, same (stale_orders (fx_book f) one_minute) [])).

Definition a_terminal_order_is_never_swept := fx_test (
  _ ← working "UI-1" Buy 1;
  _ ← feeds [fx_fill "UI-1" "E-1" 1 "100"];
  _ ← fx_tick 600000000000;
  fx_expect (λ f, same (stale_orders (fx_book f) one_minute) [])).

Definition an_event_for_an_order_with_no_intent_is_refused := fx_test (
  err ← feed_err (fx_event "UI-ghost" SubmissionStarted);
  _ ← fx_expect (λ _, match err with LedgerError.UnknownOrder _ => true | _ => false end);
  fx_expect (λ _, LedgerError.is_integrity_violation err)).

Definition an_illegal_transition_is_refused_and_named := fx_test (
  _ ← feeds [fx_entry "UI-1" Buy 3];
  err ← feed_err (fx_ack "UI-1" "V-1");
  _ ← fx_expect (λ _, match err with LedgerError.Transition _ _ => true | _ => false end);
  fx_expect (λ _, negb (LedgerError.is_integrity_violation err))).

Definition a_rejection_is_terminal_and_moves_no_position := fx_test (
  _ ← feeds [fx_entry "UI-1" Buy 3; fx_event "UI-1" SubmissionStarted;
             fx_event "UI-1" (VenueRejected (reject_reason_new (-2019) (str "insufficient margin")))];
  _ ← fx_expect (λ f, same (fx_state "UI-1" f) (Some Rejected));
  _ ← fx_expect (λ f, is_flat (fx_position f));
  fx_expect sound).

Definition a_round_trip_books_realised_pnl_and_leaves_nothing_behind := fx_test (
  _ ← working "UI-1" Buy 3;
  _ ← feeds [fx_fill "UI-1" "E-1" 3 "100"];
  _ ← working_exit "SL-1" Sell 3;
  _ ← feeds [fx_fill "SL-1" "E-2" 3 "110"];
  _ ← fx_expect (λ f, is_flat (fx_position f));
  _ ← fx_expect (λ f, same (realized_total (fx_book f)) (money "30"));
  _ ← fx_expect (λ f, same (unrealized_total (fx_book f)) ZERO);
  fx_expect sound).

Definition unrealised_pnl_follows_the_last_mark := fx_test (
  _ ← working "UI-1" Buy 2;
  _ ← feeds [fx_fill "UI-1" "E-1" 2 "100"];
  _ ← fx_expect (λ f, same (unrealized_total (fx_book f)) ZERO);
  _ ← feeds [Rec.Mark btc (px "110")];
  _ ← fx_expect (λ f, same (unrealized_total (fx_book f)) (money "20"));
  _ ← feeds [Rec.Mark btc (px "95")];
  fx_expect (λ f, same (unrealized_total (fx_book f)) (money "-10"))).

Definition a_tolerated_over_match_lands_in_full_on_the_position := fx_test (
  _ ← working "UI-1" Buy 10;
  _ ← feeds [fx_fill "UI-1" "E-1" 11 "100"];
  _ ← fx_expect (λ f, same (fx_filled "UI-1" f) (Some (whole 10)));
  _ ← fx_expect (λ f, same (pos_qty (fx_position f)) (whole 11));
  fx_expect sound).

Definition a_halt_is_durable_and_survives_a_rebuild := fx_test (
  let decision kind note := Rec.Decision inline_empty Actor.Supervisor kind TRACE_NONE ZERO note in
  _ ← fx_expect (λ f, negb (halted (fx_book f)));
  _ ← feeds [decision DecisionKind.Halted (inline_or_default 96 (str "writer-lock lost"))];
  _ ← fx_expect (λ f, halted (fx_book f));
  _ ← fx_expect (λ f, same (halted <$> fx_rebuilt f) (Some true));
  _ ← feeds [decision DecisionKind.Resumed inline_empty];
  fx_expect (λ f, same (halted <$> fx_rebuilt f) (Some false))).

Definition journal_time_advances_with_the_log_and_never_backwards := fx_test (
  t0 ← st_get (λ f, Book.now (fx_book f));
  _ ← fx_tick 5000000000;
  _ ← fx_expect (λ f, t0 <? Book.now (fx_book f));
  before ← st_get (λ f, Book.now (fx_book f));
  _ ← st_modify (λ f,
        let header := mkFrameHeader (seq_next (b_last_seq (fx_book f))) (j_epoch (fx_journal f)) 1 RecordKind.Ticked 0 in
        set_fx_book (apply header Rec.Ticked (fx_book f)).1 f);
  fx_expect (λ f, Book.now (fx_book f) =? before)).

Definition listings_are_stable_across_reads := fx_test (
  let ids_of b := (λ o, client_order_id (core o)) <$> orders b in
  _ ← feeds ((λ id, fx_entry id Buy 1) <$> ids);
  _ ← fx_expect (λ f, same (ids_of (fx_book f)) (coid <$> ids));
  fx_expect (λ f, same (ids_of <$> fx_rebuilt f) (Some (ids_of (fx_book f))))).

(** ** The suite *)

Definition ledger_suite : list (result FixturePanic unit) :=
  [an_intent_creates_an_order_in_created; fills_move_the_order_and_the_position_together;
   r1_2_a_duplicate_fill_moves_nothing; r1_2_a_replayed_intent_creates_no_second_order;
   r1_2_idempotency_survives_a_restart; r1_4_an_unprovable_submission_locks_the_instrument;
   r1_7_a_late_fill_is_reported_rather_than_applied; r1_10_committed_exit_quantity_is_visible;
   r1_10_exits_beyond_the_position_are_a_violation; r1_11_a_rebuild_equals_the_live_book;
   r1_11_rebuilding_is_deterministic; r1_11_a_restart_resumes_the_book_and_the_sequence;
   only_venue_evidence_counts_as_the_venue_having_spoken; an_order_already_reconciling_is_not_swept_again;
   a_terminal_order_is_never_swept; an_event_for_an_order_with_no_intent_is_refused;
   an_illegal_transition_is_refused_and_named; a_rejection_is_terminal_and_moves_no_position;
   a_round_trip_books_realised_pnl_and_leaves_nothing_behind; unrealised_pnl_follows_the_last_mark;
   a_tolerated_over_match_lands_in_full_on_the_position; a_halt_is_durable_and_survives_a_rebuild;
   journal_time_advances_with_the_log_and_never_backwards; listings_are_stable_across_reads].

Example ledger_suite_passes : ledger_suite = replicate 24 (Ok tt).
Proof. vm_compute. reflexivity. Qed.
