(* ===== verification/DaemonSuite.v ===== *)
(** * The tests of the engine's guards and of the daemon

    The unit tests of guards.rs, runtime.rs, control.rs and config.rs, each with
    all its assertions. A line of the control socket is the value its JSON text
    denotes; the test of the threads is one schedule of the steps of Runtime.v;
    the test that reads the wall clock is left out. *)

From S2P Require Import Prelude Fixed Text Types Json Domain Intent Position Format Codec Records Segment Journal Tailer Book Venue Sim Guards Engine Runtime Control Config Open Acceptance Suite.

(** ** sentinel-engine/src/guards.rs *)

Module GuardTests.
Definition confirmed : Limits := mkLimits (max_position limits_default) true.
Definition coid (s : string) : option ClientOrderId := unwrap (inline_new 36 (str s)).

Definition intent (id : string) (s : Side) (n : Z) (a : Authority) : option Intent.t :=
  c ← coid id;
  i ← unwrap (inline_new 16 (str "BTCUSD"));
  unwrap (Intent.market c i s (whole n) a 1).

Definition exceeds (v : Verdict) : bool :=
  match v with Refuse (ExitExceedsPosition _ _) => true | _ => false end.

Definition an_empty_book_allows_an_entry : Test :=
  x ← intent "UI-1" Buy 3 Entry;
  assert_eq (evaluate book_new x confirmed false) Allow.

Definition a_halt_refuses_entries_and_not_exits : Test :=
  x ← intent "UI-1" Buy 3 Entry;
  _ ← assert_eq (evaluate book_new x confirmed true) (Refuse Halted);
  y ← intent "SL-1" Sell 3 ProtectiveExit;
  assert (exceeds (evaluate book_new y confirmed true)).

Definition an_exit_against_no_position_is_refused : Test :=
  y ← intent "SL-1" Sell 3 ProtectiveExit;
  assert (exceeds (evaluate book_new y confirmed false)).

(** [Display for Refusal] writes the note. *)
Definition a_refusal_explains_itself : Test :=
  c ← coid "UI-4bb5ba826e2e1";
  assert_eq (inline_as_str (refusal_note (InstrumentLocked c))) (str "instrument locked by UI-4bb5ba826e2e1").

Definition tests : list Test :=
  [an_empty_book_allows_an_entry; a_halt_refuses_entries_and_not_exits;
   an_exit_against_no_position_is_refused; a_refusal_explains_itself].
End GuardTests.

Example guard_tests_pass : suite GuardTests.tests = true.
Proof. vm_compute. reflexivity. Qed.

(** ** sentineld/src/control.rs *)

Module ControlTests.
#[local] Open Scope string_scope.
Definition s (text : string) : Tree := TStr (str text).
Definition obj (fields : list (string * Tree)) : Tree := TObj ((λ f, (str f.1, f.2)) <$> fields).

(** [parse] on a line whose text denotes [v], and on one that is not JSON. *)
Definition line : list byte := str "line".
Definition parse_line (v : Tree) : result (list byte) Command.t := @control_parse Tree (tree_json [(line, v)]) line.
Definition parse_text (text : string) : result (list byte) Command.t :=
  @control_parse Tree (tree_json []) (str text).

Definition place (fields : list (string * Tree)) : result (list byte) Intent.t :=
  command ← parse_line (obj (("op", s "place") :: fields));
  match command with Command.Place intent => Ok intent | _ => Err (str "expected a placement") end.

Definition order (id side qty : string) : list (string * Tree) :=
  [("client_order_id", s id); ("instrument", s "BTCUSD"); ("side", s side); ("qty", s qty)].

Definition a_market_entry_parses : Test :=
  x ← unwrap (place (order "UI-1" "buy" "0.003"));
  _ ← assert_eq (inline_as_str (Intent.client_order_id x)) (str "UI-1");
  _ ← assert_eq (Intent.side x) Buy;
  _ ← assert_is (Intent.qty x) (qty_of "0.003");
  _ ← assert_eq (Intent.kind x) Market;
  assert_eq (Intent.authority x) Entry.

Definition a_limit_order_takes_its_kind_from_the_price_it_carries : Test :=
  x ← unwrap (place (order "UI-1" "sell" "0.001" ++ [("limit_price", s "109432.5")]));
  _ ← assert_eq (Intent.kind x) Limit;
  assert_is (Intent.limit_price x) (Some <$> px "109432.5").

Definition a_stop_takes_precedence_and_is_a_stop_market : Test :=
  x ← unwrap (place (order "SL-1" "sell" "0.001" ++ [("stop_price", s "95000"); ("authority", s "exit")]));
  _ ← assert_eq (Intent.kind x) StopMarket;
  assert_eq (Intent.authority x) ProtectiveExit.

Definition an_exit_has_to_be_asked_for_by_name : Test :=
  x ← unwrap (place (order "UI-1" "sell" "0.001"));
  assert_eq (Intent.authority x) Entry.

Definition a_quantity_crosses_as_a_string_and_stays_exact : Test :=
  x ← unwrap (place (order "UI-1" "buy" "0.00000001"));
  _ ← assert_eq (Intent.qty x) (from_raw 1);
  assert (is_err (place [("client_order_id", s "UI-1"); ("instrument", s "BTCUSD"); ("side", s "buy");
                         ("qty", TNum (str "1e-8"))])).

Definition a_missing_field_is_refused_rather_than_defaulted : Test :=
  let id := ("client_order_id", s "UI-1") in
  let on := ("instrument", s "BTCUSD") in
  let side := ("side", s "buy") in
  for_each [[on; side; ("qty", s "1")]; [id; side; ("qty", s "1")]; [id; on; ("qty", s "1")];
            [id; on; side]; [id; on; side; ("qty", s "0")]] (λ fields,
    assert (is_err (parse_line (obj (("op", s "place") :: fields))))).

Definition cancel_halt_and_resume_parse : Test :=
  cancel ← unwrap (parse_line (obj [("op", s "cancel"); ("client_order_id", s "UI-1")]));
  _ ← match cancel with Command.Cancel _ _ => Some tt | _ => None end;
  halt ← unwrap (parse_line (obj [("op", s "halt"); ("note", s "divergence")]));
  _ ← match halt with Command.Halt _ => Some tt | _ => None end;
  resume ← unwrap (parse_line (obj [("op", s "resume")]));
  match resume with Command.Resume _ => Some tt | _ => None end.

Definition the_surface_is_exactly_four_operations : Test :=
  for_each ["tick"; "sweep"; "positions"; "read"; "flush"; ""] (λ op,
    assert (is_err (parse_line (obj [("op", s op)])))).

(** There is a fifth, which the test does not name. *)
Example a_fifth_operation :
  is_ok (parse_line (obj [("op", s "decide"); ("instrument", s "BTCUSD")])) = true.
Proof. vm_compute. reflexivity. Qed.

Definition a_line_that_is_not_json_is_refused_without_panicking : Test :=
  _ ← for_each [""; "not json"; "{"] (λ text, assert (is_err (parse_text text)));
  for_each [TArr []; TNull; TInt 42] (λ v, assert (is_err (parse_line v))).

Definition the_socket_sits_beside_the_journal : Test :=
  assert_eq (socket_path (str "/data/journal")) (str "/data/journal/control.sock").

Definition tests : list Test :=
  [a_market_entry_parses; a_limit_order_takes_its_kind_from_the_price_it_carries;
   a_stop_takes_precedence_and_is_a_stop_market; an_exit_has_to_be_asked_for_by_name;
   a_quantity_crosses_as_a_string_and_stays_exact;
   a_missing_field_is_refused_rather_than_defaulted; cancel_halt_and_resume_parse;
   the_surface_is_exactly_four_operations;
   a_line_that_is_not_json_is_refused_without_panicking; the_socket_sits_beside_the_journal].
End ControlTests.

Example control_tests_pass : suite ControlTests.tests = true.
Proof. vm_compute. reflexivity. Qed.

(** ** sentineld/src/config.rs *)

Module ConfigTests.
#[local] Open Scope string_scope.
Definition config (venue : VenueConfig) : option Settings :=
  i ← unwrap (inline_new 16 (str "BTCUSDT"));
  Some (mkSettings (str "/data/journal") [i] venue None (from_millis 250) (from_secs 30) (from_secs 120)
          (from_secs 5)).

Definition binance (demo : bool) : VenueConfig := Config.Binance (str "k") (str "s") demo None.

Definition described (venue : VenueConfig) : option (list byte) := c ← config venue; Some (describe c).
Definition live (venue : VenueConfig) : option bool := c ← config venue; Some (is_live_money c).

Definition only_production_is_live_money : Test :=
  for_each [(Simulator, false); (binance true, false); (binance false, true); (Simulator, false)]
    (λ '(venue, expected), assert_is expected (live venue)).

Definition every_venue_says_which_one_it_is_and_says_production_loudly : Test :=
  for_each [(binance true, "binance futures demo"); (binance false, "PRODUCTION"); (Simulator, "simulator")]
    (λ '(venue, word), d ← described venue; assert (contains (str word) d)).

Definition the_description_carries_no_secret : Test :=
  d ← described (Config.Binance (str "my-key") (str "my-secret") false (Some 25%Z));
  _ ← assert (negb (contains (str "my-secret") d));
  _ ← assert (negb (contains (str "my-key") d));
  assert (contains (str "PRODUCTION") d).

Definition the_simulator_needs_no_keys : Test :=
  d ← described Simulator; assert (negb (contains (str "delta") d)).

Definition a_configuration_error_says_which_variable : Test :=
  _ ← assert_eq (config_error_to_string (Missing "DELTA_API_KEY")) (str "DELTA_API_KEY is not set");
  assert_eq (config_error_to_string (Invalid "SENTINEL_MAX_POSITION" (str "malformed decimal")))
    (str "SENTINEL_MAX_POSITION: malformed decimal").

Definition tests : list Test :=
  [only_production_is_live_money; every_venue_says_which_one_it_is_and_says_production_loudly;
   the_description_carries_no_secret; the_simulator_needs_no_keys;
   a_configuration_error_says_which_variable].
End ConfigTests.

Example config_tests_pass : suite ConfigTests.tests = true.
Proof. vm_compute. reflexivity. Qed.

(** ** sentineld/src/runtime.rs *)

Module RuntimeTests.
Definition opened : option Engine := unwrap (engine_open false IoOk FUEL FUEL [] 1000 config_default).2.

(** The turns of the threads that carry an order out and its answer back: the
    writer on everything queued, and the worker on its next request. *)
Definition write_all (x : System SimVenue) : System SimVenue := writer_turn IoOk (sys_commands x) [] x.
Definition perform_next (x : System SimVenue) : option (System SimVenue) :=
  match sys_requests x with
  | [] => None
  | r :: rest =>
      match perform r (sys_venue x) with
      | (_, None) => None
      | (v, Some answers) =>
          Some (mkSystem (sys_engine x) v (sys_commands x ++ answers) rest (sys_running x)
                  (sys_writer x) (sys_performed x ++ [r]))
      end
  end.

Definition an_order_travels_from_a_command_to_the_venue_and_back : Test :=
  e ← opened;
  let x := send_commands [positions_reported []] (start e sim_new) in
  c ← unwrap (inline_new 36 (str "UI-1"));
  i ← unwrap (inline_new 16 (str "BTCUSD"));
  intent ← unwrap (Intent.market c i Buy (whole 3) Entry 1);
  let x := write_all (send_commands [Command.Place intent] x) in
  x ← perform_next x;
  let x := write_all x in
  b ← rebuild_dir (j_dir (journal (sys_engine x)));
  o ← order b c;
  assert_eq (state (core o)) Working.

Definition stopping_is_observable : Test :=
  e ← opened;
  let x := start e sim_new in
  _ ← assert (sys_running x);
  assert (negb (sys_running (stop x))).

Definition tests : list Test :=
  [an_order_travels_from_a_command_to_the_venue_and_back; stopping_is_observable].
End RuntimeTests.

Example runtime_tests_pass : suite RuntimeTests.tests = true.
Proof. vm_compute. reflexivity. Qed.
