(* ===== verification/Stall.v ===== *)
(** * A lookup that is never answered (sentineld/src/runtime.rs, sentinel-engine/src/engine.rs)

    The venue worker turns a failed call into no command at all, and says that
    the reconcile backoff asks again.  The backoff only runs once an answer came:
    until then the engine holds the lookup to be in flight.  So the engine waits
    for ever, and nothing else it is told makes it ask. *)

From S2P Require Import Prelude Fixed Types Domain Intent Position Records Segment Journal Book Venue Sim Guards Engine Trace Safety Runtime Reconcile.

Section waiting.
Context (c : ClientOrderId).

(** The engine believes it has asked about [c] and not been answered. *)
Definition waiting (e : Engine) : Prop :=
  ∃ p, reconciling e !! c = Some p ∧ in_flight p = true.

(** An action that leaves it so, and does not ask. *)
Definition idle_at {A} (m : EM A) (e : Engine) : Prop :=
  reconciling (m e).1 !! c = reconciling e !! c ∧
  ∃ rs, uncommitted (m e).1 = uncommitted e ++ rs ∧ VenueRequest.Lookup c ∉ rs.
Definition idle {A} (m : EM A) : Prop := ∀ e, waiting e → idle_at m e.

Lemma idle_waiting {A} (m : EM A) e : waiting e → idle_at m e → waiting (m e).1.
Proof. intros (p & Hp & Hf) [E _]. exists p. by rewrite E. Qed.

Lemma idle_bind {A B} (m : EM A) (f : A → EM B) :
  idle m → (∀ a, idle (f a)) → idle (m ≫= f).
Proof.
  intros Hm Hf e He. specialize (Hm e He). pose proof (idle_waiting m e He Hm) as He1.
  unfold idle_at, mbind, ST_bind in *. destruct (m e) as [e1 [a|]]; cbn [fst] in *; [|done].
  destruct Hm as [E (rs & U & N)], (Hf a e1 He1) as [E' (rs' & U' & N')]. split; [congruence|].
  exists (rs ++ rs'). split; [by rewrite U', U, app_assoc|]. rewrite elem_of_app. tauto.
Qed.

Lemma idle_silent {A} (m : EM A) :
  (∀ e, reconciling (m e).1 !! c = reconciling e !! c ∧ uncommitted (m e).1 = uncommitted e) →
  idle m.
Proof.
  intros H e _. destruct (H e) as [E U]. split; [done|]. exists []. rewrite app_nil_r.
  split; [done|apply not_elem_of_nil].
Qed.

Lemma idle_ret {A} (a : A) : idle (mret a).
Proof. by apply idle_silent. Qed.
Lemma idle_get {A} (f : Engine → A) : idle (st_get f).
Proof. by apply idle_silent. Qed.
Lemma idle_fail {A} err : idle (st_fail (A := A) err).
Proof. by apply idle_silent. Qed.

Lemma idle_request r : r ≠ VenueRequest.Lookup c → idle (request r).
Proof. intros Hr e _. split; [done|]. exists [r]. split; [done|]. set_solver. Qed.

Lemma idle_modify f :
  (∀ e, reconciling (f e) !! c = reconciling e !! c ∧ uncommitted (f e) = uncommitted e) →
  idle (st_modify f).
Proof. intros H. by apply idle_silent. Qed.

Lemma idle_write_at at_ r : idle (write_at at_ r).
Proof.
  apply idle_silent. intros e. destruct (write_at at_ r e) as [e' res] eqn:E.
  by apply write_at_cases in E as [[-> _]|(j1 & seq & b1 & ares & _ & _ & -> & _)].
Qed.

Lemma idle_write r : idle (write r).
Proof. apply idle_bind; [apply idle_get|]. intros. apply idle_write_at. Qed.

Lemma idle_write_event c' t ev : idle (write_event c' t ev).
Proof. apply idle_bind; [apply idle_get|]. intros. apply idle_write. Qed.

Create HintDb idle.
#[local] Hint Resolve idle_ret idle_get idle_fail idle_write_at idle_write idle_write_event : idle.

(** Follows the structure of a handler down to its primitives. *)
Ltac idle :=
  intros;
  repeat match goal with
    | |- idle _ => solve [eauto with idle]
    | |- idle (_ ≫= _) => apply idle_bind; [|intros ?; cbv beta]
    | |- idle (request _) => apply idle_request; done
    | |- idle (st_modify _) => apply idle_modify; intros; cbv zeta; repeat case_match; done
    | |- idle (if ?b then _ else _) => destruct b
    | |- idle (match ?x with _ => _ end) => destruct x
    | |- idle (let _ := _ in _) => cbv zeta
    end.

Lemma idle_decide i a k t v n : idle (decide i a k t v n).
Proof. unfold decide. idle. Qed.
#[local] Hint Resolve idle_decide : idle.
Lemma idle_on_halt n : idle (on_halt n).
Proof. unfold on_halt. idle. Qed.
Lemma idle_on_resume n : idle (on_resume n).
Proof. unfold on_resume. idle. Qed.
#[local] Hint Resolve idle_on_halt idle_on_resume : idle.
Lemma idle_ensure_reconciling c' t cause : idle (ensure_reconciling c' t cause).
Proof. unfold ensure_reconciling. idle. Qed.
#[local] Hint Resolve idle_ensure_reconciling : idle.

(** The queue is asked first: an order in it is not asked about again. *)
Lemma idle_begin_reconcile c' t cause : idle (begin_reconcile c' t cause).
Proof.
  destruct (base.decide (c' = c)) as [->|Hne].
  - intros e He. pose proof He as (p & Hp & _).
    assert (begin_reconcile c t cause e = (e, Ok tt)) as E.
    { unfold begin_reconcile, st_get, mbind, ST_bind. by rewrite bool_decide_eq_true_2 by (by rewrite Hp). }
    unfold idle_at. rewrite E. by apply (idle_ret tt e He).
  - unfold begin_reconcile. apply idle_bind; [apply idle_get|]. intros queued. case_bool; [idle|].
    apply idle_bind; [apply idle_ensure_reconciling|]. intros _. apply idle_bind; [|intros _].
    + apply idle_modify. intros e. cbn. by rewrite lookup_insert_ne.
    + apply idle_request. congruence.
Qed.
#[local] Hint Resolve idle_begin_reconcile : idle.

Lemma idle_defer_reconcile c' : c' ≠ c → idle (defer_reconcile c').
Proof.
  intros Hne. apply idle_modify. intros e. cbv zeta. destruct (reconciling e !! c') eqn:E; [|done].
  cbn. by rewrite lookup_insert_ne.
Qed.

Lemma idle_forget c' : c' ≠ c → idle (forget c').
Proof. intros Hne. apply idle_modify. intros e. cbn. by rewrite lookup_delete_ne. Qed.

(** What is in flight is not due. *)
Lemma idle_retry now : idle (retry_due_reconciliations now).
Proof.
  intros e (p & Hp & Hf). unfold idle_at, retry_due_reconciliations, st_get, mbind, ST_bind.
  assert (c ∉ due_reconciliations now e) as Hd.
  { intros (p' & Hp' & Hf' & _)%due_spec. rewrite Hp in Hp'. injection Hp' as <-. congruence. }
  rewrite retry_loop_run. cbn [fst reconciling uncommitted set_reconciling set_uncommitted].
  rewrite in_flight_again_lookup. rewrite decide_False by done. split; [done|].
  eexists. split; [done|]. intros (c' & E & Hin)%list_elem_of_fmap. by injection E as <-.
Qed.
#[local] Hint Resolve idle_retry idle_defer_reconcile idle_forget : idle.

Lemma idle_str_prefix l s n : idle (str_prefix l s n).
Proof. unfold str_prefix. idle. Qed.
#[local] Hint Resolve idle_str_prefix : idle.
Lemma idle_exec_id c' q : idle (reconciliation_exec_id c' q).
Proof. unfold reconciliation_exec_id. idle. Qed.
#[local] Hint Resolve idle_exec_id : idle.
Lemma idle_book_the_difference c' t q p : idle (book_the_difference c' t q p).
Proof. unfold book_the_difference. idle. Qed.
#[local] Hint Resolve idle_book_the_difference : idle.
Lemma idle_refuse i r : idle (refuse i r).
Proof. unfold refuse. idle. Qed.
Lemma idle_authorise i : idle (authorise i).
Proof. unfold authorise. idle. Qed.
#[local] Hint Resolve idle_refuse idle_authorise : idle.
Lemma idle_on_place i : idle (on_place i).
Proof. unfold on_place. idle. Qed.

Lemma idle_caught {A B} (m : EM A) (k : result EngineError.t A → EM B) :
  idle m → (∀ r, idle (k r)) → idle (caught m k).
Proof.
  intros Hm Hk e He. specialize (Hm e He). pose proof (idle_waiting m e He Hm) as He1.
  unfold idle_at, caught in *. destruct (m e) as [e1 r]; cbn [fst] in *.
  destruct Hm as [E (rs & U & N)], (Hk r e1 He1) as [E' (rs' & U' & N')]. split; [congruence|].
  exists (rs ++ rs'). split; [by rewrite U', U, app_assoc|]. rewrite elem_of_app. tauto.
Qed.

Lemma idle_on_cancel c' t : idle (on_cancel c' t).
Proof.
  unfold on_cancel. apply idle_bind; [apply idle_get|]. intros self. destruct (order _ _); [|idle].
  cbv zeta. apply idle_caught; [apply idle_write_event|]. intros [a|err]; idle.
Qed.
Lemma idle_on_submitted c' o : idle (on_submitted c' o).
Proof. unfold on_submitted. idle. Qed.
Lemma idle_on_cancelled c' o : idle (on_cancelled c' o).
Proof. unfold on_cancelled. idle. Qed.
Lemma idle_on_looked_up c' o : c' ≠ c → idle (on_looked_up c' o).
Proof. unfold on_looked_up. idle. Qed.
Lemma idle_on_streamed v : idle (on_streamed v).
Proof. unfold on_streamed, disown, reconcile_if_needed. idle. Qed.
Lemma idle_adopt_position p : idle (adopt_position p).
Proof. unfold adopt_position. idle. Qed.
#[local] Hint Resolve idle_adopt_position : idle.
Lemma idle_on_position first p : idle (on_position first p).
Proof. unfold on_position. idle. Qed.
#[local] Hint Resolve idle_on_position : idle.
Lemma idle_positions_loop first ps : idle (positions_loop first ps).
Proof. induction ps; simpl; idle. Qed.
#[local] Hint Resolve idle_positions_loop : idle.
Lemma idle_on_positions ps : idle (on_positions ps).
Proof. unfold on_positions. idle. Qed.
Lemma idle_sweep_loop cs : idle (sweep_loop cs).
Proof. induction cs; simpl; idle. Qed.
#[local] Hint Resolve idle_sweep_loop : idle.
Lemma idle_on_sweep : idle on_sweep.
Proof. unfold on_sweep. idle. Qed.
Lemma idle_on_tick now : idle (on_tick now).
Proof. unfold on_tick. idle. Qed.
#[local] Hint Resolve idle_on_place idle_on_cancel idle_on_submitted idle_on_cancelled
  idle_on_looked_up idle_on_streamed idle_on_positions idle_on_sweep idle_on_tick : idle.

(** Every command but an answer to that lookup. *)
Definition not_the_answer (command : Command.t) : Prop :=
  match command with Command.LookedUp c' _ => c' ≠ c | _ => True end.

Lemma idle_submit command : not_the_answer command → idle (submit command).
Proof. intros H. destruct command; cbn [submit not_the_answer] in *; auto with idle. Qed.

(** A run in which the answer does not come. *)
Inductive silent_run : Engine → list VenueRequest.t → Engine → Prop :=
| silent_nil e : silent_run e [] e
| silent_submit e command e' res out e'' :
    not_the_answer command → submit command e = (e', res) → silent_run e' out e'' →
    silent_run e out e''
| silent_flush e io e' out out' e'' :
    engine_flush io e = (e', Ok out) → silent_run e' out' e'' → silent_run e (out ++ out') e''.

Lemma silent_run_waits e out e' :
  silent_run e out e' → waiting e → VenueRequest.Lookup c ∉ uncommitted e →
  reconciling e' !! c = reconciling e !! c ∧ VenueRequest.Lookup c ∉ out ++ uncommitted e'.
Proof.
  induction 1 as [e|e command e1 res out e2 Hc Hs _ IH|e io e1 out out' e2 Hf _ IH]; intros Hw Hu.
  - done.
  - pose proof (idle_submit command Hc e Hw) as Hi. pose proof (idle_waiting _ _ Hw Hi) as Hw1.
    unfold idle_at in Hi. rewrite Hs in Hi, Hw1. cbn [fst] in *. destruct Hi as [E (rs & U & N)].
    destruct IH as [E2 N2]; [done|rewrite U, elem_of_app; tauto|]. split; [congruence|done].
  - apply engine_flush_Ok in Hf as (j & seq & _ & -> & ->). cbn [uncommitted set_uncommitted] in IH.
    destruct (IH Hw ltac:(apply not_elem_of_nil)) as [E N]. split; [exact E|].
    rewrite <-app_assoc, elem_of_app. tauto.
Qed.
End waiting.

(** ** Properties *)

(** C21: a lost lookup is never made again.  The worker answers a call that
    failed with nothing; and from then on, whatever else happens (ticks, sweeps,
    position reports, cancels, executions, placing the order again), as long as
    the answer does not come the engine never asks again: the order stays as it
    is, neither retried nor due. *)
Theorem lost_lookup_never_retried {V} `{Venue V} c (v v' : V) err e out e' :
  venue_lookup c v = (v', Err (VenueErr err)) →
  waiting c e → VenueRequest.Lookup c ∉ uncommitted e → silent_run c e out e' →
  perform (VenueRequest.Lookup c) v = (v', Some []) ∧
  VenueRequest.Lookup c ∉ out ++ uncommitted e' ∧
  waiting c e' ∧ ∀ now, c ∉ due_reconciliations now e'.
Proof.
  intros Hv Hw Hu Hr. destruct (silent_run_waits c e out e' Hr Hw Hu) as [E N].
  assert (waiting c e') as Hw' by (destruct Hw as (p & Hp & Hf); exists p; by rewrite E).
  split_and!; [|done|done|].
  - cbn [perform]. unfold answered. by rewrite Hv.
  - intros now (p & Hp & Hf & _)%due_spec. destruct Hw' as (p' & Hp' & Hf').
    rewrite Hp in Hp'. injection Hp' as <-. congruence.
Qed.

(** The order of [Safety.ex_script] timed out, its lookup was sent and lost;
    ticks a day apart, a sweep and a second placing do not bring it back. *)
Definition ex_lost : list VenueRequest.t * Engine :=
  Eval vm_compute in default ([], ex_engine) (run_script (take 8 ex_script) ex_engine).

Definition ex_later : list Command.t :=
  [Command.Tick 86400000000000; Command.Place ex_intent; Command.SweepStale].

Fixpoint play_on (cs : list Command.t) (e : Engine) : Engine :=
  match cs with [] => e | c :: cs' => play_on cs' (submit c e).1 end.

Lemma play_on_silent c cs e :
  Forall (not_the_answer c) cs → silent_run c e [] (play_on cs e).
Proof.
  intros H. revert e. induction H as [|x cs Hx _ IH]; intros e; cbn [play_on]; [constructor|].
  eapply silent_submit; [exact Hx|apply surjective_pairing|apply IH].
Qed.

Definition ex_stalled : Engine := Eval vm_compute in play_on ex_later ex_lost.2.

Lemma ex_stalled_run : silent_run ex_coid ex_lost.2 [] ex_stalled.
Proof.
  assert (play_on ex_later ex_lost.2 = ex_stalled) as <- by (vm_compute; reflexivity).
  apply play_on_silent. repeat constructor.
Qed.

Lemma lost_lookup_never_retried_witness :
  let v := script ex_coid Fault.Transport sim_new in
  perform (VenueRequest.Lookup ex_coid) v = ((sim_lookup ex_coid v).1, Some []) ∧
  VenueRequest.Lookup ex_coid ∉ uncommitted ex_stalled ∧
  waiting ex_coid ex_stalled ∧ ∀ now, ex_coid ∉ due_reconciliations now ex_stalled.
Proof.
  intros v.
  apply (lost_lookup_never_retried ex_coid v (sim_lookup ex_coid v).1 simulated ex_lost.2 []
           ex_stalled).
  - vm_compute. reflexivity.
  - eexists. split; vm_compute; reflexivity.
  - vm_compute. intros Hin. repeat (apply elem_of_cons in Hin as [Hin|Hin]; [discriminate|]).
    by apply elem_of_nil in Hin.
  - exact ex_stalled_run.
Defined.
