(* ===== verification/Agree.v ===== *)
(** * The book and the venue agree (sentinel-engine/src/engine.rs, sentinel-venue/src/sim.rs)

    The two sides of the system keep their positions apart: the book as the sum
    of the executions it was told of, the venue as the sum of those it made.
    When every order is booked with what the venue filled, the two sums are the
    same, and a position report finds nothing to say. *)

From S2P Require Import Prelude Fixed Types Domain Intent Position Records Segment Journal Book Invariants Venue Sim Guards Engine Trace Safety Reconcile.

(** The book knows of each order what the venue does. *)
Record agrees (b : Book) (v : SimVenue) : Prop := {
  ag_booked c o : b_orders b !! c = Some o →
    match sv_orders v !! c with
    | Some so => so_instrument so = instrument (core o) ∧ so_side so = side (core o) ∧
        booked b c = raw (so_filled so)
    | None => booked b c = 0
    end;
  ag_known c so : sv_orders v !! c = Some so → b_orders b !! c = None → raw (so_filled so) = 0;
}.

(** Every id either side knows. *)
Definition all_ids (b : Book) (v : SimVenue) : list ClientOrderId :=
  remove_dups ((map_to_list (b_orders b)).*1 ++ (map_to_list (sv_orders v)).*1).

Lemma all_ids_book b v c : is_Some (b_orders b !! c) → c ∈ all_ids b v.
Proof.
  intros [o Ho]. apply elem_of_remove_dups, elem_of_app. left.
  apply list_elem_of_fmap. exists (c, o). split; [done|]. by apply elem_of_map_to_list.
Qed.

Lemma all_ids_venue b v c : is_Some (sv_orders v !! c) → c ∈ all_ids b v.
Proof.
  intros [o Ho]. apply elem_of_remove_dups, elem_of_app. right.
  apply list_elem_of_fmap. exists (c, o). split; [done|]. by apply elem_of_map_to_list.
Qed.

(** What the executions of one order add to the position of [i]. *)
Lemma order_share b i c :
  book_ok b →
  map_zsum (λ f, if base.decide (c = f_client_order_id f) then fill_on i f else 0) (b_fills b) =
    match b_orders b !! c with
    | Some o => if bool_decide (instrument (core o) = i) then sign (side (core o)) * booked b c else 0
    | None => 0
    end.
Proof.
  intros Hb. destruct (b_orders b !! c) as [o|] eqn:Ho.
  - transitivity (map_zsum (λ f, (if bool_decide (instrument (core o) = i)
      then sign (side (core o)) else 0) * fill_of c f) (b_fills b)).
    + apply map_zsum_ext. intros x f Hf. destruct (bo_fills b Hb x f Hf) as (o' & Ho' & Hi & Hs & _).
      unfold fill_on, fill_of. case_decide as Ec; [|rewrite (bool_decide_eq_false_2 (f_client_order_id f = c)) by congruence; by rewrite Z.mul_0_r].
      rewrite (bool_decide_eq_true_2 (f_client_order_id f = c)) by done.
      rewrite <-Ec, Ho in Ho'. injection Ho' as <-. rewrite Hi, Hs. case_bool_decide; lia.
    + unfold booked, map_zsum.
      rewrite <-(zsum_scale _ (fill_of c ∘ snd)). case_bool_decide; [done|].
      rewrite (zsum_ext _ (λ _, 0)); [by rewrite zsum_zero|]. intros [] _. simpl. lia.
  - transitivity (map_zsum (λ _ : Fill, 0) (b_fills b)).
    + apply map_zsum_ext. intros x f Hf. destruct (bo_fills b Hb x f Hf) as (o' & Ho' & _).
      case_decide as Ec; [|done]. rewrite <-Ec in Ho'. congruence.
    + unfold map_zsum. apply zsum_zero.
Qed.

(** The book's position, order by order. *)
Lemma position_by_order b v i :
  book_ok b →
  raw (pos_qty (position b i)) =
    zsum ((λ c, match b_orders b !! c with
                | Some o => if bool_decide (instrument (core o) = i)
                            then sign (side (core o)) * booked b c else 0
                | None => 0
                end) <$> all_ids b v).
Proof.
  intros Hb. rewrite (bo_sum b Hb). unfold filled_on.
  rewrite (zsum_ext _ (λ c, map_zsum (λ f, if base.decide (c = f_client_order_id f)
    then fill_on i f else 0) (b_fills b))) by (intros c _; by rewrite order_share).
  unfold map_zsum at 2. rewrite <-zsum_swap. unfold map_zsum. apply zsum_ext.
  intros [x f] Hin. apply elem_of_map_to_list in Hin. simpl.
  destruct (bo_fills b Hb x f Hin) as (o & Ho & _).
  symmetry. apply (zsum_only (all_ids b v) (f_client_order_id f)).
  - apply NoDup_remove_dups.
  - apply all_ids_book. by exists o.
Qed.

Lemma positions_agree b v i :
  book_ok b → sim_books v → agrees b v →
  raw (pos_qty (position b i)) = raw (default ZERO (sv_positions v !! i)).
Proof.
  intros Hb Hv [Ha Hk]. rewrite Hv, (position_by_order b v) by done.
  rewrite (map_zsum_over _ _ (all_ids b v)); [|apply NoDup_remove_dups|apply all_ids_venue].
  apply zsum_ext. intros c _. unfold traded_on.
  destruct (b_orders b !! c) as [o|] eqn:Ho.
  - specialize (Ha c o Ho). destruct (sv_orders v !! c) as [so|].
    + destruct Ha as (-> & -> & ->). done.
    + rewrite Ha. case_bool_decide; lia.
  - destruct (sv_orders v !! c) as [so|] eqn:Hs; [|done]. rewrite (Hk c so Hs Ho).
    case_bool_decide; lia.
Qed.

Lemma reported_positions v p :
  p ∈ reported v → default ZERO (sv_positions v !! vp_instrument p) = vp_qty p.
Proof.
  unfold reported. intros ([i q] & -> & Hin)%list_elem_of_fmap. simpl.
  rewrite sort_by_id_Permutation in Hin. apply list_elem_of_filter in Hin as [_ Hin].
  apply elem_of_map_to_list in Hin. by rewrite Hin.
Qed.

Lemma positions_loop_silent first ps e :
  Forall (λ p, pos_qty (position (book e) (vp_instrument p)) = vp_qty p) ps →
  positions_loop first ps e = (e, Ok tt).
Proof.
  induction 1 as [|p ps Hp _ IH]; [done|]. cbn [positions_loop].
  unfold mbind, ST_bind. unfold on_position at 1. unfold mbind at 1, ST_bind at 1, st_get, id.
  rewrite bool_decide_eq_true_2 by done. exact IH.
Qed.

Lemma flatten_padded {A} (ps : list A) n : flatten ((Some <$> ps) ++ replicate n None) = ps.
Proof.
  unfold flatten. induction ps as [|p ps IH]; simpl; [by induction n|]. by f_equal.
Qed.

(** ** Properties *)

(** C22: when the book and the venue agree order by order, they agree on every
    position, and the report of the venue is silent: handling it confirms the
    account and changes nothing else, so no order is adopted and nothing halts.
    The venue is the simulated one after any calls, executions and faults; what
    it is asked to submit it is asked once. *)
Theorem settled_report_is_silent e v :
  book_ok (book e) → sim_reach v → sv_forced v = None → agrees (book e) v →
  ∃ ps, venue_positions v = (v, Ok ps) ∧
    (∀ i, pos_qty (position (book e) i) = default ZERO (sv_positions v !! i)) ∧
    submit (positions_reported ps) e = (set_confirmed true e, Ok tt).
Proof.
  intros Hb Hv Hn Ha. exists (reported v).
  assert (∀ i, pos_qty (position (book e) i) = default ZERO (sv_positions v !! i)) as Hp.
  { intros i. apply raw_inj, positions_agree; [done|by apply sim_reach_books|done]. }
  split_and!; [|done|].
  - cbn. unfold sim_positions, st_get. by rewrite Hn.
  - unfold positions_reported. cbn [submit]. unfold on_positions. cbv zeta.
    unfold mbind, ST_bind, st_get, st_modify.
    rewrite flatten_padded. apply positions_loop_silent. cbn [book set_confirmed].
    apply Forall_take, Forall_forall. intros p Hin. rewrite Hp. by apply reported_positions.
Qed.

(** The order of [Book.ex_log], bought in two executions, at both ends. *)
Definition ex_venue0 : SimVenue := Eval vm_compute in (sim_submit ex_intent sim_new).1.
Definition ex_venue1 : SimVenue :=
  Eval vm_compute in (sim_fill ex_coid (whole 2) (whole 100) ex_venue0).1.
Definition ex_venue : SimVenue :=
  Eval vm_compute in (sim_fill ex_coid (whole 3) (whole 100) ex_venue1).1.

(** [fill_fits], computed. *)
Definition fits_here (v : SimVenue) (c : ClientOrderId) (q : Qty) : bool :=
  match sv_orders v !! c with
  | None => true
  | Some o =>
      fits_i64 (raw (so_filled o) + raw q) && fits_i64 (raw q * sign (so_side o)) &&
      fits_i64 (raw (default ZERO (sv_positions v !! so_instrument o)) + raw q * sign (so_side o))
  end.

Lemma fits_here_spec v c q : fits_here v c q = true → fill_fits v c q.
Proof.
  unfold fits_here, fill_fits. intros H o Ho. rewrite Ho in H. z_reflect.
  split_and!; by apply fits_i64_spec.
Qed.

Lemma ex_venue_reach : sim_reach ex_venue.
Proof.
  assert (ex_venue0 = (sim_submit ex_intent sim_new).1) as E0 by (vm_compute; reflexivity).
  assert (ex_venue1 = (sim_fill ex_coid (whole 2) (whole 100) ex_venue0).1) as E1
    by (vm_compute; reflexivity).
  assert (ex_venue = (sim_fill ex_coid (whole 3) (whole 100) ex_venue1).1) as E2
    by (vm_compute; reflexivity).
  rewrite E2. eapply reach_step; [|apply step_fill, fits_here_spec; vm_compute; reflexivity].
  rewrite E1. eapply reach_step; [|apply step_fill, fits_here_spec; vm_compute; reflexivity].
  rewrite E0. eapply reach_step; [constructor|]. apply step_submit. vm_compute. reflexivity.
Qed.

Lemma only_key {A} (m : gmap ClientOrderId A) k c x :
  (map_to_list m).*1 = [k] → m !! c = Some x → c = k.
Proof.
  intros E H. apply elem_of_map_to_list in H. apply (list_elem_of_fmap_2 fst) in H.
  rewrite E in H. by apply list_elem_of_singleton in H.
Qed.

Lemma agrees_one b v k x :
  (map_to_list (b_orders b)).*1 = [k] → (map_to_list (sv_orders v)).*1 = [k] →
  (λ o, (instrument (core o), side (core o), booked b k)) <$> b_orders b !! k = Some x →
  (λ o, (so_instrument o, so_side o, raw (so_filled o))) <$> sv_orders v !! k = Some x →
  agrees b v.
Proof.
  intros Kb Kv Fb Fv. split.
  - intros c o Ho. pose proof (only_key _ _ _ _ Kb Ho) as ->. rewrite Ho in Fb.
    destruct (sv_orders v !! k) as [so|]; [|done].
    cbn [fmap option_fmap option_map] in Fb, Fv. rewrite <-Fb in Fv. by injection Fv as -> -> ->.
  - intros c so Hso. pose proof (only_key _ _ _ _ Kv Hso) as ->. intros Hn. by rewrite Hn in Fb.
Qed.

Lemma ex_agrees : agrees ex_book ex_venue.
Proof. apply (agrees_one _ _ ex_coid (ex_btc, Buy, 500000000)); vm_compute; reflexivity. Qed.

Lemma settled_report_is_silent_witness :
  let e := set_book ex_book ex_engine in
  ∃ ps, venue_positions ex_venue = (ex_venue, Ok ps) ∧
    (∀ i, pos_qty (position (book e) i) = default ZERO (sv_positions ex_venue !! i)) ∧
    submit (positions_reported ps) e = (set_confirmed true e, Ok tt).
Proof.
  intros e. apply (settled_report_is_silent e ex_venue).
  - assert (rebuild_loop (ex_frames ex_log) book_new = (ex_book, Ok tt)) as E
      by (vm_compute; reflexivity).
    exact (rebuild_loop_ok _ _ _ book_new_ok (log_priced_applicable _ ex_log_priced) E).
  - exact ex_venue_reach.
  - reflexivity.
  - exact ex_agrees.
Defined.
